(** * scoutfs btree (src/btree.c): a shallow embedding and its properties

    The btree stores items with fixed size keys and variable length values in
    fixed size blocks.  A block holds a dense array of item offsets, sorted by
    key, that grows from the block header towards the back, and the items
    themselves, allocated from the back of the block towards the front.

    The first part of the file translates btree.c function by function; the
    second part states and proves properties of the translation. *)

From stdpp Require Import gmap list sorting.
From Stdlib Require Import ZArith Lia.

Local Open Scope Z_scope.

(** ** Machine integers

    The C code computes with [unsigned int], [int] and little-endian 16 and
    64 bit fields.  Values are integers of [Z]; the wrap-around of each type
    is written out where the code stores or returns a value of that type. *)

Definition u16 (x : Z) : Z := x mod 2 ^ 16.
Definition u32 (x : Z) : Z := x mod 2 ^ 32.
Definition u64 (x : Z) : Z := x mod 2 ^ 64.

(** conversion of a 32 bit pattern to [int] *)
Definition s32 (x : Z) : Z :=
  let y := u32 x in if y <? 2 ^ 31 then y else y - 2 ^ 32.

(** little-endian byte strings, least significant byte first *)
Fixpoint le_encode (n : nat) (x : Z) : list Z :=
  match n with
  | O => []
  | S n' => (x mod 256) :: le_encode n' (x / 256)
  end.

Fixpoint le_decode (bs : list Z) : Z :=
  match bs with
  | [] => 0
  | b :: bs' => b + 256 * le_decode bs'
  end.

(** ** format.h and key.h

    Neither header is part of the sources at hand.  What btree.c takes from
    them is collected in a class: the sizes of the structures, the block size,
    the merge threshold and two of the three key operations.  A key is the
    integer its bytes denote. *)

Class Format := {
  (** SCOUTFS_BLOCK_SIZE *)
  SCOUTFS_BLOCK_SIZE : Z;
  (** sizeof(struct scoutfs_btree_block), the offset of item_offs[0] *)
  BTREE_BLOCK_BYTES : Z;
  (** sizeof(struct scoutfs_btree_item), the offset of val[0] *)
  BTREE_ITEM_BYTES : Z;
  (** SCOUTFS_BTREE_FREE_LIMIT *)
  SCOUTFS_BTREE_FREE_LIMIT : Z;
  (** the key that scoutfs_set_max_key() stores *)
  SCOUTFS_MAX_KEY : Z;
  (** the key that scoutfs_inc_key() leaves in place of its argument *)
  scoutfs_inc_key : Z → Z
}.

(** Modelled from the spec: scoutfs_key_cmp() of key.h, the total order of
    the keys as a negative, zero or positive [int]. *)
Definition scoutfs_key_cmp (a b : Z) : Z :=
  match a ?= b with
  | Lt => -1
  | Eq => 0
  | Gt => 1
  end.

(** sizeof(bt->item_offs[0]): the offsets are __le16 *)
Definition OFF_BYTES : Z := 2.

(** Modelled from the spec: struct scoutfs_block_ref is { blkno:u64, seq:u64 } *)
Definition BLOCK_REF_BYTES : Z := 16.

Record scoutfs_block_ref := {
  ref_blkno : Z;
  ref_seq : Z
}.

(** the bytes of a block reference as memcpy() stores them in a value *)
Definition ref_bytes (r : scoutfs_block_ref) : list Z :=
  le_encode 8 (ref_blkno r) ++ le_encode 8 (ref_seq r).

(** the cast [(struct scoutfs_block_ref * ) item->val] *)
Definition val_ref (v : list Z) : scoutfs_block_ref :=
  {| ref_blkno := le_decode (take 8 v);
     ref_seq := le_decode (take 8 (drop 8 v)) |}.

(** ** Items and blocks *)

(** struct scoutfs_btree_item: the header and the value bytes behind it *)
Record scoutfs_btree_item := {
  item_key : Z;
  item_seq : Z;
  item_val_len : Z;
  item_val : list Z
}.

(** what a zero filled stretch of a block reads as *)
Definition zero_item : scoutfs_btree_item :=
  {| item_key := 0; item_seq := 0; item_val_len := 0; item_val := [] |}.

(** struct scoutfs_btree_block.  [item_offs] is the array of the first
    [nr_items] offsets, so the count is the length of the list.  [item_mem]
    is the space behind the array: it maps an offset to what the bytes from
    there on hold, read as an item.  It keeps what an item left behind that
    moved away; an offset that it does not map reads as zero bytes. *)
Record scoutfs_btree_block := {
  hdr_blkno : Z;
  hdr_seq : Z;
  free_end : Z;
  free_reclaim : Z;
  item_offs : list Z;
  item_mem : gmap Z scoutfs_btree_item
}.

Definition nr_items (bt : scoutfs_btree_block) : Z :=
  Z.of_nat (length (item_offs bt)).

Definition set_free_end (v : Z) (bt : scoutfs_btree_block) :=
  {| hdr_blkno := hdr_blkno bt; hdr_seq := hdr_seq bt; free_end := v;
     free_reclaim := free_reclaim bt; item_offs := item_offs bt;
     item_mem := item_mem bt |}.

Definition set_free_reclaim (v : Z) (bt : scoutfs_btree_block) :=
  {| hdr_blkno := hdr_blkno bt; hdr_seq := hdr_seq bt; free_end := free_end bt;
     free_reclaim := v; item_offs := item_offs bt; item_mem := item_mem bt |}.

Definition set_item_offs (v : list Z) (bt : scoutfs_btree_block) :=
  {| hdr_blkno := hdr_blkno bt; hdr_seq := hdr_seq bt; free_end := free_end bt;
     free_reclaim := free_reclaim bt; item_offs := v; item_mem := item_mem bt |}.

Definition set_item_mem (v : gmap Z scoutfs_btree_item)
    (bt : scoutfs_btree_block) :=
  {| hdr_blkno := hdr_blkno bt; hdr_seq := hdr_seq bt; free_end := free_end bt;
     free_reclaim := free_reclaim bt; item_offs := item_offs bt;
     item_mem := v |}.

(** [*item = v] for the item that starts at [off] *)
Definition store_item (off : Z) (v : scoutfs_btree_item)
    (bt : scoutfs_btree_block) :=
  set_item_mem (<[off := v]> (item_mem bt)) bt.

Definition set_item_key (k : Z) (it : scoutfs_btree_item) :=
  {| item_key := k; item_seq := item_seq it; item_val_len := item_val_len it;
     item_val := item_val it |}.

Definition set_item_seq (s : Z) (it : scoutfs_btree_item) :=
  {| item_key := item_key it; item_seq := s; item_val_len := item_val_len it;
     item_val := item_val it |}.

Definition set_item_val (v : list Z) (it : scoutfs_btree_item) :=
  {| item_key := item_key it; item_seq := item_seq it;
     item_val_len := item_val_len it; item_val := v |}.

Section Model.
Context `{Format}.

(** *** Space accounting *)

(** number of contiguous bytes used by the item header and val of given len *)
Definition val_bytes (val_len : Z) : Z := u32 (BTREE_ITEM_BYTES + val_len).

(** number of contiguous bytes used by the item header its current value *)
Definition item_bytes (item : scoutfs_btree_item) : Z :=
  val_bytes (item_val_len item).

(** total bytes consumed by an item with given val len: offset, header, value *)
Definition all_val_bytes (val_len : Z) : Z :=
  u32 (OFF_BYTES + val_bytes val_len).

(** total bytes consumed by an item with its current value *)
Definition all_item_bytes (item : scoutfs_btree_item) : Z :=
  all_val_bytes (item_val_len item).

(** offsetof(struct scoutfs_btree_block, item_offs[n]) *)
Definition item_offs_end (n : Z) : Z := BTREE_BLOCK_BYTES + OFF_BYTES * n.

(** number of contig free bytes between item offset and first item *)
Definition contig_free (bt : scoutfs_btree_block) : Z :=
  u32 (free_end bt - item_offs_end (nr_items bt)).

(** number of contig bytes free after reclaiming free amongst items *)
Definition reclaimable_free (bt : scoutfs_btree_block) : Z :=
  u32 (contig_free bt + free_reclaim bt).

(** all bytes used by item offsets, headers, and values *)
Definition used_total (bt : scoutfs_btree_block) : Z :=
  u32 (SCOUTFS_BLOCK_SIZE - BTREE_BLOCK_BYTES - reclaimable_free bt).

(** *** Reaching items *)

Definition off_item (bt : scoutfs_btree_block) (off : Z)
    : scoutfs_btree_item :=
  default zero_item (item_mem bt !! off).

(** [bt->item_offs[pos]]; the model reads 0 past the end of the array *)
Definition pos_off (bt : scoutfs_btree_block) (pos : Z) : Z :=
  if pos <? 0 then 0 else default 0 (item_offs bt !! Z.to_nat pos).

Definition pos_item (bt : scoutfs_btree_block) (pos : Z)
    : scoutfs_btree_item :=
  off_item bt (pos_off bt pos).

Definition greatest_key (bt : scoutfs_btree_block) : Z :=
  item_key (pos_item bt (u32 (nr_items bt - 1))).

(** *** find_pos

    Returns the sorted item position that an item with the given key should
    occupy, and the final comparison of the given key and the position's item
    key.  The loop is the [while (start < end)] of the source; it gives [None]
    when [fuel] iterations did not finish it. *)
Fixpoint find_pos_loop (fuel : nat) (bt : scoutfs_btree_block) (key : Z)
    (start end_ pos cmp : Z) : option (Z * Z) :=
  if start <? end_ then
    match fuel with
    | O => None
    | S fuel' =>
        let pos := start + (end_ - start) / 2 in
        let cmp := scoutfs_key_cmp key (item_key (pos_item bt pos)) in
        if cmp <? 0 then find_pos_loop fuel' bt key start pos pos cmp
        else if 0 <? cmp then
          find_pos_loop fuel' bt key (pos + 1) end_ (pos + 1) (-1)
        else Some (pos, cmp)
    end
  else Some (pos, cmp).

Definition find_pos (bt : scoutfs_btree_block) (key : Z) : option (Z * Z) :=
  find_pos_loop (length (item_offs bt)) bt key 0 (nr_items bt) 0 (-1).


(** *** Items come and go *)

(** Allocate and insert a new item into the block.  The caller has made
    sure that there's room for everything ([pos] is at most [nr_items]).
    The key, the seq and the value length are stored at the new offset; the
    value bytes behind them are not written and stay as the block has them
    there, for the caller to set.  Gives the block and the offset of the
    new item. *)
Definition create_item (bt : scoutfs_btree_block) (pos key val_len : Z)
    : scoutfs_btree_block * Z :=
  let free_end' := u16 (free_end bt - val_bytes val_len) in
  let offs := take (Z.to_nat pos) (item_offs bt) ++
              free_end' :: drop (Z.to_nat pos) (item_offs bt) in
  let item := {| item_key := key; item_seq := hdr_seq bt;
                 item_val_len := u16 val_len;
                 item_val := item_val (off_item bt free_end') |} in
  (store_item free_end' item (set_item_offs offs (set_free_end free_end' bt)),
   free_end').

(** Delete an item from a btree block: the tail of the array moves down when
    [pos] is not its last index, the count drops by one, the item's bytes
    are added to [free_reclaim] and wiped. *)
Definition delete_item (bt : scoutfs_btree_block) (pos : Z)
    : scoutfs_btree_block :=
  let off := pos_off bt pos in
  let item := off_item bt off in
  let moved :=
    if pos <? u32 (nr_items bt - 1)
    then take (Z.to_nat pos) (item_offs bt) ++
         drop (S (Z.to_nat pos)) (item_offs bt)
    else item_offs bt in
  let offs := take (Z.to_nat (nr_items bt - 1)) moved in
  set_item_mem (delete off (item_mem bt))
    (set_item_offs offs
       (set_free_reclaim (u16 (free_reclaim bt + item_bytes item)) bt)).

(** The loop of move_items(): [f] and [t] are the source and destination
    positions, [to_move] the bytes still to move.  Every round takes an item
    out of [src], so [fuel] counts them. *)
Fixpoint move_items_loop (fuel : nat) (dst src : scoutfs_btree_block)
    (move_right : bool) (to_move f t : Z)
    : option (scoutfs_btree_block * scoutfs_btree_block) :=
  if (f <? nr_items src) && (0 <? to_move) then
    match fuel with
    | O => None
    | S fuel' =>
        let from := pos_item src f in
        let '(dst, to) := create_item dst t (item_key from)
                            (item_val_len from) in
        let dst := store_item to from dst in
        let to_move := s32 (to_move - all_item_bytes from) in
        let src := delete_item src f in
        if move_right
        then move_items_loop fuel' dst src move_right to_move (u32 (f - 1)) t
        else move_items_loop fuel' dst src move_right to_move f (u32 (t + 1))
    end
  else Some (dst, src).

(** Move items from a source block to a destination block, from the tail of
    the source to the head of the destination when [move_right], or from the
    head of the source to the tail of the destination. *)
Definition move_items (dst src : scoutfs_btree_block) (move_right : bool)
    (to_move : Z) : option (scoutfs_btree_block * scoutfs_btree_block) :=
  let '(f, t) := if move_right then (u32 (nr_items src - 1), 0)
                 else (0, nr_items dst) in
  move_items_loop (length (item_offs src)) dst src move_right to_move f t.

(** *** Compaction *)

Definition sort_key_cmp (bt : scoutfs_btree_block) (a b : Z) : Z :=
  scoutfs_key_cmp (item_key (off_item bt a)) (item_key (off_item bt b)).

Definition sort_off_cmp (a b : Z) : Z := a - b.

(** sort() of the kernel library orders an array by a comparison function.
    It is a heap sort there and an insertion sort here; the two agree on
    arrays without equal elements. *)
Fixpoint sort_insert {A} (cmp : A → A → Z) (x : A) (l : list A) : list A :=
  match l with
  | [] => [x]
  | y :: l' => if cmp x y <=? 0 then x :: l else y :: sort_insert cmp x l'
  end.

Fixpoint sort {A} (cmp : A → A → Z) (l : list A) : list A :=
  match l with
  | [] => []
  | x :: l' => sort_insert cmp x (sort cmp l')
  end.

(** The loop of compact_items(): [for (i = nr_items - 1; i >= 0; i--)] with
    [n = i + 1] items left to move. *)
Fixpoint compact_loop (n : nat) (bt : scoutfs_btree_block) (end_ : Z)
    : scoutfs_btree_block * Z :=
  match n with
  | O => (bt, end_)
  | S i =>
      let from_off := pos_off bt (Z.of_nat i) in
      let from := off_item bt from_off in
      let bytes := item_bytes from in
      let end_ := u16 (end_ - bytes) in
      let bt := set_item_offs (<[i := end_]> (item_offs bt)) bt in
      let bt := if from_off =? end_ then bt else store_item end_ from bt in
      compact_loop i bt end_
  end.

(** Pack the items towards the back of the block: sort the offset array by
    offset, move the items from the last to the first, sort the array by key
    again. *)
Definition compact_items (bt : scoutfs_btree_block) : scoutfs_btree_block :=
  let bt := set_item_offs (sort sort_off_cmp (item_offs bt)) bt in
  let '(bt, end_) :=
    compact_loop (length (item_offs bt)) bt (u16 SCOUTFS_BLOCK_SIZE) in
  let bt := set_free_reclaim 0 (set_free_end end_ bt) in
  set_item_offs (sort (sort_key_cmp bt) (item_offs bt)) bt.

(** *** Positions and sequence numbers *)

Definition WALK_INSERT : Z := 1.
Definition WALK_DELETE : Z := 2.
Definition WALK_NEXT : Z := 3.
Definition WALK_NEXT_SEQ : Z := 4.
Definition WALK_DIRTY : Z := 5.

Definition item_block_ref_seq (item : scoutfs_btree_item) : Z :=
  ref_seq (val_ref (item_val item)).

(** Return true if we should skip this item while iterating by sequence
    number.  If it's a parent then we test the block ref's seq, if it's a
    leaf item then we check the item's seq. *)
Definition skip_pos_seq (bt : scoutfs_btree_block) (pos level seq op : Z)
    : bool :=
  if negb (op =? WALK_NEXT_SEQ) || (nr_items bt <=? pos) then false
  else
    let item := pos_item bt pos in
    ((0 <? level) && (item_block_ref_seq item <? seq)) ||
    ((level =? 0) && (item_seq item <? seq)).

(** The [do { pos++; } while (skip_pos_seq(...))] of next_pos_seq(), [None]
    when [fuel] rounds did not finish it. *)
Fixpoint next_pos_seq_loop (fuel : nat) (bt : scoutfs_btree_block)
    (pos level seq op : Z) : option Z :=
  match fuel with
  | O => None
  | S fuel' =>
      let pos := u32 (pos + 1) in
      if skip_pos_seq bt pos level seq op
      then next_pos_seq_loop fuel' bt pos level seq op
      else Some pos
  end.

(** Return the next sorted item position, possibly skipping those with
    sequence numbers less than the desired sequence number. *)
Definition next_pos_seq (bt : scoutfs_btree_block) (pos level seq op : Z)
    : option Z :=
  next_pos_seq_loop (S (length (item_offs bt))) bt pos level seq op.

(** Return the first item after the given key, possibly skipping those
    with sequence numbers less than the desired sequence number. *)
Definition find_pos_after_seq (bt : scoutfs_btree_block)
    (key level seq op : Z) : option Z :=
  match find_pos bt key with
  | None => None
  | Some (pos, _) =>
      if skip_pos_seq bt pos level seq op
      then next_pos_seq bt pos level seq op
      else Some pos
  end.

End Model.

(** ** Well-formed blocks *)

Section Invariants.
Context `{Format}.

(** the keys of a block in the order of its offset array *)
Definition block_keys (bt : scoutfs_btree_block) : list Z :=
  (λ off, item_key (off_item bt off)) <$> item_offs bt.

(** the items of a block in the order of its offset array *)
Definition block_items (bt : scoutfs_btree_block) : list scoutfs_btree_item :=
  off_item bt <$> item_offs bt.

(** the offset array is strictly ordered by key: key[i] < key[j] for i < j *)
Definition key_sorted (bt : scoutfs_btree_block) : Prop :=
  ∀ i j, 0 ≤ i → i < j → j < nr_items bt →
    item_key (pos_item bt i) < item_key (pos_item bt j).

Fixpoint sum_list_Z (l : list Z) : Z :=
  match l with
  | [] => 0
  | x :: l' => x + sum_list_Z l'
  end.

(** What the code relies on in format.h: the structures are not empty and a
    block is small enough for its 16 bit offsets. *)
Class FormatOK : Prop := {
  item_bytes_pos : 0 < BTREE_ITEM_BYTES;
  block_bytes_pos : 0 < BTREE_BLOCK_BYTES;
  block_bytes_le :
    BTREE_BLOCK_BYTES + OFF_BYTES + BTREE_ITEM_BYTES ≤ SCOUTFS_BLOCK_SIZE;
  block_size_u16 : SCOUTFS_BLOCK_SIZE < 2 ^ 16;
  parent_items_fit :
    BTREE_BLOCK_BYTES +
    2 * (OFF_BYTES + BTREE_ITEM_BYTES + BLOCK_REF_BYTES) ≤
      SCOUTFS_BLOCK_SIZE;
  free_limit_nonneg : 0 ≤ SCOUTFS_BTREE_FREE_LIMIT
}.

(** The layout of a block that every operation expects and keeps: no offset
    is listed twice; the offset array ends before [free_end]; every item lies
    between [free_end] and the end of the block; items do not overlap; and
    [free_reclaim] is the space between [free_end] and the end of the block
    that no item occupies. *)
Record wf_block (bt : scoutfs_btree_block) : Prop := {
  wf_nodup : NoDup (item_offs bt);
  wf_free_end :
    item_offs_end (nr_items bt) ≤ free_end bt ∧
    free_end bt ≤ SCOUTFS_BLOCK_SIZE;
  wf_val_len :
    ∀ off, off ∈ item_offs bt → 0 ≤ item_val_len (off_item bt off) < 2 ^ 16;
  wf_range :
    ∀ off, off ∈ item_offs bt →
      free_end bt ≤ off ∧
      off + item_bytes (off_item bt off) ≤ SCOUTFS_BLOCK_SIZE;
  wf_disjoint :
    ∀ a b, a ∈ item_offs bt → b ∈ item_offs bt → a < b →
      a + item_bytes (off_item bt a) ≤ b;
  wf_reclaim :
    0 ≤ free_reclaim bt ∧
    free_reclaim bt + sum_list_Z (item_bytes <$> block_items bt) =
      SCOUTFS_BLOCK_SIZE - free_end bt
}.

(** the items tile the block from [a] up to [b] in the order of [offs] *)
Fixpoint tiles (bt : scoutfs_btree_block) (offs : list Z) (a b : Z) : Prop :=
  match offs with
  | [] => a = b
  | off :: offs' =>
      off = a ∧ tiles bt offs' (a + item_bytes (off_item bt off)) b
  end.

(** where the items of the given sizes end up when they are packed against
    [e], in the order of the list *)
Fixpoint packed_offs (sizes : list Z) (e : Z) : list Z :=
  match sizes with
  | [] => []
  | s :: sizes' => (e - sum_list_Z (s :: sizes')) :: packed_offs sizes' e
  end.

(** every item lies against the next one, the last against the end of the
    block, the first at [free_end] *)
Definition packed (bt : scoutfs_btree_block) : Prop :=
  ∃ offs, offs ≡ₚ item_offs bt ∧
    tiles bt offs (free_end bt) SCOUTFS_BLOCK_SIZE.

(** [wf_block] as a test that a block can be run through *)
Definition wf_blockb (bt : scoutfs_btree_block) : bool :=
  let offs := item_offs bt in
  bool_decide (NoDup offs) &&
  (item_offs_end (nr_items bt) <=? free_end bt) &&
  (free_end bt <=? SCOUTFS_BLOCK_SIZE) &&
  forallb (λ off, (0 <=? item_val_len (off_item bt off)) &&
                  (item_val_len (off_item bt off) <? 2 ^ 16)) offs &&
  forallb (λ off, (free_end bt <=? off) &&
                  (off + item_bytes (off_item bt off) <=? SCOUTFS_BLOCK_SIZE))
    offs &&
  forallb (λ a, forallb (λ b, implb (a <? b)
                                (a + item_bytes (off_item bt a) <=? b)) offs)
    offs &&
  (0 <=? free_reclaim bt) &&
  (free_reclaim bt + sum_list_Z (item_bytes <$> block_items bt) =?
     SCOUTFS_BLOCK_SIZE - free_end bt).

(** every element is below all that follow it *)
Fixpoint increasing (l : list Z) : bool :=
  match l with
  | [] => true
  | x :: l' => forallb (λ y, x <? y) l' && increasing l'
  end.

(** [key_sorted] as a test *)
Definition key_sortedb (bt : scoutfs_btree_block) : bool :=
  increasing (block_keys bt).

End Invariants.

(** ** A format to compute with

    4096 byte blocks; a 16 byte block header and the three 16 bit fields in
    front of the offset array; items with an 8 byte key, a 64 bit seq and a
    16 bit val_len; 64 bit keys whose increment wraps around. *)
Definition example_format : Format := {|
  SCOUTFS_BLOCK_SIZE := 4096;
  BTREE_BLOCK_BYTES := 22;
  BTREE_ITEM_BYTES := 18;
  SCOUTFS_BTREE_FREE_LIMIT := 512;
  SCOUTFS_MAX_KEY := 2 ^ 64 - 1;
  scoutfs_inc_key := λ k, u64 (k + 1)
|}.

(** the block that alloc_tree_block() leaves behind, as block 7 at seq 1 *)
Definition example_empty_block : scoutfs_btree_block := {|
  hdr_blkno := 7; hdr_seq := 1; free_end := 4096; free_reclaim := 0;
  item_offs := []; item_mem := ∅
|}.

(** ** What move_items() moves

    [sizes] are the total bytes of the items in the order in which the loop
    takes them.  The loop takes items for as long as bytes remain to move, so
    the last item it takes may exceed what is left of [to_move]. *)
Fixpoint move_count (sizes : list Z) (to_move : Z) : nat :=
  match sizes with
  | [] => O
  | s :: sizes' =>
      if 0 <? to_move then S (move_count sizes' (to_move - s)) else O
  end.

Definition moved_bytes (sizes : list Z) (to_move : Z) : Z :=
  sum_list_Z (take (move_count sizes to_move) sizes).

(** ** The super block, the block layer and the locks

    btree.c reaches its blocks through block.h and frees them through the
    buddy allocator; neither file is part of the sources at hand. *)

Record scoutfs_btree_root := {
  root_height : Z;
  root_ref : scoutfs_block_ref
}.

(** struct rw_semaphore, as far as one caller can tell: how often it is
    held for reading and whether it is held for writing *)
Record rw_semaphore := {
  rw_readers : Z;
  rw_writer : bool
}.

(** What btree.c sees of struct scoutfs_sb_info and of the block layer
    behind it: the root of the btree in the super block, the tree's
    semaphore, the blocks by block number, the buffers that are locked, the
    block numbers the allocator can still hand out, the block numbers that
    were freed, and the sequence number of the running transaction. *)
Record scoutfs_sb_info := {
  btree_root : scoutfs_btree_root;
  btree_rwsem : rw_semaphore;
  blocks : gmap Z scoutfs_btree_block;
  locked : gset Z;
  alloc_avail : list Z;
  freed : list Z;
  dirty_seq : Z
}.

Definition set_btree_root (v : scoutfs_btree_root) (sbi : scoutfs_sb_info) :=
  {| btree_root := v; btree_rwsem := btree_rwsem sbi; blocks := blocks sbi;
     locked := locked sbi; alloc_avail := alloc_avail sbi;
     freed := freed sbi; dirty_seq := dirty_seq sbi |}.

Definition set_btree_rwsem (v : rw_semaphore) (sbi : scoutfs_sb_info) :=
  {| btree_root := btree_root sbi; btree_rwsem := v; blocks := blocks sbi;
     locked := locked sbi; alloc_avail := alloc_avail sbi;
     freed := freed sbi; dirty_seq := dirty_seq sbi |}.

Definition set_blocks (v : gmap Z scoutfs_btree_block)
    (sbi : scoutfs_sb_info) :=
  {| btree_root := btree_root sbi; btree_rwsem := btree_rwsem sbi;
     blocks := v; locked := locked sbi; alloc_avail := alloc_avail sbi;
     freed := freed sbi; dirty_seq := dirty_seq sbi |}.

Definition set_locked (v : gset Z) (sbi : scoutfs_sb_info) :=
  {| btree_root := btree_root sbi; btree_rwsem := btree_rwsem sbi;
     blocks := blocks sbi; locked := v; alloc_avail := alloc_avail sbi;
     freed := freed sbi; dirty_seq := dirty_seq sbi |}.

Definition set_alloc_avail (v : list Z) (sbi : scoutfs_sb_info) :=
  {| btree_root := btree_root sbi; btree_rwsem := btree_rwsem sbi;
     blocks := blocks sbi; locked := locked sbi; alloc_avail := v;
     freed := freed sbi; dirty_seq := dirty_seq sbi |}.

Definition set_freed (v : list Z) (sbi : scoutfs_sb_info) :=
  {| btree_root := btree_root sbi; btree_rwsem := btree_rwsem sbi;
     blocks := blocks sbi; locked := locked sbi;
     alloc_avail := alloc_avail sbi; freed := v; dirty_seq := dirty_seq sbi |}.

(** *** Code that changes the super block info

    A computation takes the state and gives a result and the new state, or
    nothing when a loop in it did not come to its end. *)
Definition M (A : Type) : Type :=
  scoutfs_sb_info → option (A * scoutfs_sb_info).

Definition ret {A} (a : A) : M A := λ sbi, Some (a, sbi).

Definition bind {A B} (m : M A) (k : A → M B) : M B :=
  λ sbi, match m sbi with
         | None => None
         | Some (a, sbi') => k a sbi'
         end.

Definition gets {A} (f : scoutfs_sb_info → A) : M A := λ sbi, Some (f sbi, sbi).

Definition modify (f : scoutfs_sb_info → scoutfs_sb_info) : M unit :=
  λ sbi, Some (tt, f sbi).

(** a loop inside [o] has to have come to its end *)
Definition lift {A} (o : option A) : M A :=
  λ sbi, match o with
         | None => None
         | Some a => Some (a, sbi)
         end.

(** BUG_ON(): the kernel stops here *)
Definition BUG {A} : M A := λ _, None.

Notation "'do' x <- m ; k" := (bind m (λ x, k))
  (at level 10, x name, m at level 100, k at level 200,
   format "'[v' 'do'  x  <-  m ; '/' k ']'").
Notation "'do' ' p <- m ; k" := (bind m (λ x, match x with p => k end))
  (at level 10, p pattern, m at level 100, k at level 200,
   format "'[v' 'do'  ' p  <-  m ; '/' k ']'").
Notation "m ;; k" := (bind m (λ _, k))
  (at level 100, k at level 200, right associativity).

(** A block pointer or ERR_PTR(errno): [struct buffer_head *] as the
    functions of btree.c return it.  A buffer is named by its block number. *)
Inductive bh_result :=
  | BH (blkno : Z)
  | ERR_PTR (errno : Z).

Definition ENOENT : Z := 2.
Definition EIO : Z := 5.
Definition EEXIST : Z := 17.
Definition ENOSPC : Z := 28.

(** what an untouched part of the device reads as *)
Definition zero_block : scoutfs_btree_block :=
  {| hdr_blkno := 0; hdr_seq := 0; free_end := 0; free_reclaim := 0;
     item_offs := []; item_mem := ∅ |}.

(** bh_data(): the block behind a buffer *)
Definition bh_data (sbi : scoutfs_sb_info) (bh : Z) : scoutfs_btree_block :=
  default zero_block (blocks sbi !! bh).

(** a store through a pointer into the block behind a buffer *)
Definition update_block (bh : Z)
    (f : scoutfs_btree_block → scoutfs_btree_block) : M unit :=
  modify (λ sbi, set_blocks (<[bh := f (bh_data sbi bh)]> (blocks sbi)) sbi).

Definition write_block (bh : Z) (bt : scoutfs_btree_block) : M unit :=
  modify (λ sbi, set_blocks (<[bh := bt]> (blocks sbi)) sbi).

(** Modelled from the spec: scoutfs_block_dirty_alloc() of the block layer,
    which hands out a block with a block number of its own, stamped with the
    sequence number of the transaction, or fails.  The allocator runs out when
    [alloc_avail] is empty. *)
Definition scoutfs_block_dirty_alloc : M bh_result :=
  do sbi <- gets id;
  match alloc_avail sbi with
  | [] => ret (ERR_PTR (- ENOSPC))
  | blkno :: avail =>
      modify (set_alloc_avail avail) ;;
      write_block blkno
        {| hdr_blkno := blkno; hdr_seq := dirty_seq sbi; free_end := 0;
           free_reclaim := 0; item_offs := []; item_mem := ∅ |} ;;
      ret (BH blkno)
  end.

(** A pointer to a block reference as the walk passes it to the block
    layer: [&root->ref], or [(void * )item->val] for the item at an offset
    of the block behind a buffer. *)
Inductive ref_ptr :=
  | ROOT_REF
  | ITEM_REF (bh off : Z).

(** [*ref] *)
Definition load_ref (sbi : scoutfs_sb_info) (ref : ref_ptr)
    : scoutfs_block_ref :=
  match ref with
  | ROOT_REF => root_ref (btree_root sbi)
  | ITEM_REF bh off => val_ref (item_val (off_item (bh_data sbi bh) off))
  end.

(** [ref->blkno = ...; ref->seq = ...]: in an item the reference is the
    first 16 bytes of the value *)
Definition store_ref (ref : ref_ptr) (r : scoutfs_block_ref) : M unit :=
  match ref with
  | ROOT_REF =>
      modify (λ sbi,
        set_btree_root {| root_height := root_height (btree_root sbi);
                          root_ref := r |} sbi)
  | ITEM_REF bh off =>
      update_block bh (λ bt,
        let item := off_item bt off in
        store_item off
          (set_item_val
             (ref_bytes r ++ drop (Z.to_nat BLOCK_REF_BYTES) (item_val item))
             item) bt)
  end.

(** Modelled from the spec: scoutfs_block_read_ref() of the block layer,
    which reads the block that a reference names. *)
Definition scoutfs_block_read_ref (ref : ref_ptr) : M bh_result :=
  do sbi <- gets id;
  let blkno := ref_blkno (load_ref sbi ref) in
  match blocks sbi !! blkno with
  | Some _ => ret (BH blkno)
  | None => ret (ERR_PTR (- EIO))
  end.

(** Modelled from the spec: scoutfs_block_dirty_ref() of the block layer,
    which gives the block that a reference names in writable form.  A block
    whose header carries the sequence number of the running transaction has
    been written by it and is returned as it is.  Any other block is clean
    and is copied: the copy gets a block number of its own and the sequence
    number of the transaction, and the reference is updated in place to the
    number and the seq of the copy.  The clean block stays as it is. *)
Definition scoutfs_block_dirty_ref (ref : ref_ptr) : M bh_result :=
  do bh <- scoutfs_block_read_ref ref;
  match bh with
  | ERR_PTR _ => ret bh
  | BH b =>
      do sbi <- gets id;
      let bt := bh_data sbi b in
      if hdr_seq bt =? dirty_seq sbi then ret bh
      else
        do copy <- scoutfs_block_dirty_alloc;
        match copy with
        | ERR_PTR _ => ret copy
        | BH c =>
            update_block c (λ hdr,
              {| hdr_blkno := hdr_blkno hdr; hdr_seq := hdr_seq hdr;
                 free_end := free_end bt; free_reclaim := free_reclaim bt;
                 item_offs := item_offs bt; item_mem := item_mem bt |}) ;;
            do hdr <- gets (λ sbi, bh_data sbi c);
            store_ref ref {| ref_blkno := hdr_blkno hdr;
                             ref_seq := hdr_seq hdr |} ;;
            ret copy
        end
  end.

(** Modelled from the spec: scoutfs_buddy_free() of the allocator, which
    takes a block number back. *)
Definition scoutfs_buddy_free (blkno : Z) : M Z :=
  modify (λ sbi, set_freed (blkno :: freed sbi) sbi) ;; ret 0.

Definition lock_root (dirty : bool) : M unit :=
  modify (λ sbi,
    let sem := btree_rwsem sbi in
    set_btree_rwsem
      (if dirty
       then {| rw_readers := rw_readers sem; rw_writer := true |}
       else {| rw_readers := rw_readers sem + 1;
               rw_writer := rw_writer sem |}) sbi).

Definition unlock_root (dirty : bool) : M unit :=
  modify (λ sbi,
    let sem := btree_rwsem sbi in
    set_btree_rwsem
      (if dirty
       then {| rw_readers := rw_readers sem; rw_writer := false |}
       else {| rw_readers := rw_readers sem - 1;
               rw_writer := rw_writer sem |}) sbi).

(** As we descend we lock parent blocks (or the root), then lock the child,
    then unlock the parent.  [None] is the NULL buffer that stands for the
    root. *)
Definition lock_block (bh : option Z) (dirty : bool) : M unit :=
  match bh with
  | None => lock_root dirty
  | Some b => modify (λ sbi, set_locked ({[b]} ∪ locked sbi) sbi)
  end.

Definition unlock_block (bh : option Z) (dirty : bool) : M unit :=
  match bh with
  | None => unlock_root dirty
  | Some b => modify (λ sbi, set_locked (locked sbi ∖ {[b]}) sbi)
  end.

Section Tree.
Context `{Format}.

(** Allocate and initialize a new tree block. The caller adds references
    to it. *)
Definition alloc_tree_block : M bh_result :=
  do bh <- scoutfs_block_dirty_alloc;
  match bh with
  | BH b =>
      update_block b (λ bt,
        set_item_offs []
          (set_free_reclaim 0 (set_free_end (u16 SCOUTFS_BLOCK_SIZE) bt))) ;;
      ret bh
  | ERR_PTR _ => ret bh
  end.

(** the caller has ensured that the free must succeed *)
Definition free_tree_block (blkno : Z) : M unit :=
  do _ <- scoutfs_buddy_free blkno; ret tt.

(** Allocate a new tree block and point the root at it.  The caller
    is responsible for the items in the new root block. *)
Definition grow_tree : M bh_result :=
  do bh <- alloc_tree_block;
  match bh with
  | BH b =>
      modify (λ sbi,
        let hdr := bh_data sbi b in
        let root := btree_root sbi in
        set_btree_root
          {| root_height := (root_height root + 1) mod 2 ^ 8;
             root_ref := {| ref_blkno := hdr_blkno hdr;
                            ref_seq := hdr_seq hdr |} |} sbi) ;;
      ret bh
  | ERR_PTR _ => ret bh
  end.

Definition get_block_ref (ref : ref_ptr) (dirty : bool)
    : M bh_result :=
  if dirty then scoutfs_block_dirty_ref ref else scoutfs_block_read_ref ref.

(** Create a new item in the parent which references the child.  The caller
    specifies the key in the item that describes the items in the child. *)
Definition create_parent_item (parent : scoutfs_btree_block) (pos : Z)
    (child : scoutfs_btree_block) (key : Z) : scoutfs_btree_block :=
  let ref := {| ref_blkno := hdr_blkno child; ref_seq := hdr_seq child |} in
  let '(parent, item) := create_item parent pos key BLOCK_REF_BYTES in
  store_item item (set_item_val (ref_bytes ref) (off_item parent item)) parent.

(** *** Splitting and merging on the way down *)

(** See if we need to split this block while descending for insertion so
    that we have enough space to insert.  We split to the left so that the
    greatest key in the existing block doesn't change.  [parent] is [None]
    when the block is the root. *)
Definition try_split (level key val_len : Z) (parent : option Z)
    (parent_pos right_bh : Z) : M bh_result :=
  let val_len := if level =? 0 then val_len else BLOCK_REF_BYTES in
  let all_bytes := all_val_bytes val_len in
  do right_bt <- gets (λ sbi, bh_data sbi right_bh);
  if all_bytes <=? contig_free right_bt then ret (BH right_bh)
  else if all_bytes <=? reclaimable_free right_bt then
    update_block right_bh compact_items ;; ret (BH right_bh)
  else
    (* alloc split neighbour first to avoid unwinding tree growth *)
    do left_bh <- alloc_tree_block;
    match left_bh with
    | ERR_PTR _ => ret left_bh
    | BH left_b =>
        do grown <-
          match parent with
          | Some p => ret (inr (p, parent_pos))
          | None =>
              do par_bh <- grow_tree;
              match par_bh with
              | ERR_PTR _ =>
                  do l <- gets (λ sbi, bh_data sbi left_b);
                  free_tree_block (hdr_blkno l) ;; ret (inl par_bh)
              | BH p =>
                  do right_bt <- gets (λ sbi, bh_data sbi right_bh);
                  update_block p (λ parent,
                    create_parent_item parent 0 right_bt SCOUTFS_MAX_KEY) ;;
                  ret (inr (p, 0))
              end
          end;
        match grown with
        | inl err => ret err
        | inr (p, parent_pos) =>
            do sbi <- gets id;
            do '(l, r) <-
              lift (move_items (bh_data sbi left_b) (bh_data sbi right_bh) false
                      (s32 (used_total (bh_data sbi right_bh) / 2)));
            write_block left_b l ;;
            write_block right_bh r ;;
            update_block p (λ parent,
              create_parent_item parent parent_pos l (greatest_key l)) ;;
            if scoutfs_key_cmp key (greatest_key l) <=? 0 then
              (* insertion will go to the new left block *)
              ret (BH left_b)
            else
              (* insertion will still go through us, might need to compact *)
              (if contig_free r <? all_bytes
               then update_block right_bh compact_items
               else ret tt) ;;
              ret (BH right_bh)
        end
    end.

(** This is called during descent for deletion when we have a parent and
    might need to merge items from a sibling block if this block has too
    much free space. *)
Definition try_merge (parent pos bh : Z) : M bh_result :=
  do bt <- gets (λ sbi, bh_data sbi bh);
  if reclaimable_free bt <=? SCOUTFS_BTREE_FREE_LIMIT then ret (BH bh)
  else
    (* move items right into our block if we have a left sibling *)
    let '(sib_pos, move_right) :=
      if pos =? 0 then (u32 (pos + 1), false) else (u32 (pos - 1), true) in
    do par <- gets (λ sbi, bh_data sbi parent);
    let sib_item := pos_off par sib_pos in
    do sib_bh <- get_block_ref (ITEM_REF parent sib_item) true;
    match sib_bh with
    | ERR_PTR _ => ret sib_bh
    | BH sib =>
        do sbi <- gets id;
        let bt := bh_data sbi bh in
        let sib_bt := bh_data sbi sib in
        let to_move :=
          if used_total sib_bt <=? reclaimable_free bt
          then s32 (used_total sib_bt)
          else s32 (reclaimable_free bt - SCOUTFS_BTREE_FREE_LIMIT) in
        (if contig_free bt <? u32 to_move
         then update_block bh compact_items
         else ret tt) ;;
        do sbi <- gets id;
        do '(bt, sib_bt) <-
          lift (move_items (bh_data sbi bh) (bh_data sbi sib) move_right
                  to_move);
        write_block bh bt ;;
        write_block sib sib_bt ;;
        (* update our parent's ref if we changed our greatest key *)
        (if move_right then ret tt
         else update_block parent (λ par,
                store_item (pos_off par pos)
                  (set_item_key (greatest_key bt) (pos_item par pos)) par)) ;;
        (* delete an empty sib or update if we changed its greatest key *)
        (if nr_items sib_bt =? 0 then
           update_block parent (λ par, delete_item par sib_pos) ;;
           free_tree_block (hdr_blkno sib_bt)
         else if move_right then
           update_block parent (λ par,
             store_item sib_item
               (set_item_key (greatest_key sib_bt) (off_item par sib_item))
               par)
         else ret tt) ;;
        (* and finally shrink the tree if our parent is the root with 1 *)
        do par <- gets (λ sbi, bh_data sbi parent);
        (if nr_items par =? 1 then
           modify (λ sbi,
             set_btree_root
               {| root_height :=
                    (root_height (btree_root sbi) - 1) mod 2 ^ 8;
                  root_ref := {| ref_blkno := hdr_blkno bt;
                                 ref_seq := hdr_seq bt |} |} sbi) ;;
           free_tree_block (hdr_blkno par)
         else ret tt) ;;
        ret (BH bh)
    end.

(** *** The walk *)

(** The body of [while (level--)] in btree_walk(), entered with [level]
    already decremented.  It gives the buffer or error that the walk
    returns, the parent that is still locked, and the next key. *)
Fixpoint walk_loop (level : nat) (key val_len seq op : Z) (dirty : bool)
    (par_bh : option Z) (pos : Z) (ref : ref_ptr)
    (next_key : option Z) : M (bh_result * option Z * option Z) :=
  do bh <- get_block_ref ref dirty;
  match bh with
  | ERR_PTR _ => ret (bh, par_bh, next_key)
  | BH b =>
      do bh <-
        (if op =? WALK_INSERT
         then try_split (Z.of_nat level) key val_len par_bh pos b
         else match par_bh with
              | Some parent =>
                  if op =? WALK_DELETE then try_merge parent pos b
                  else ret bh
              | None => ret bh
              end);
      match bh with
      | ERR_PTR _ => ret (bh, par_bh, next_key)
      | BH b =>
          lock_block (Some b) dirty ;;
          match level with
          | O => ret (bh, par_bh, next_key)
          | S level' =>
              (* unlock parent before searching so others can use it *)
              unlock_block par_bh dirty ;;
              do parent <- gets (λ sbi, bh_data sbi b);
              do pos <-
                lift (find_pos_after_seq parent key (Z.of_nat level) seq op);
              if nr_items parent <=? pos then
                (* current block dropped as parent below *)
                ret (ERR_PTR (if op =? WALK_NEXT_SEQ then - ENOENT
                              else - EIO), Some b, next_key)
              else
                let item := pos_item parent pos in
                walk_loop level' key val_len seq op dirty (Some b) pos
                  (ITEM_REF b (pos_off parent pos))
                  (match next_key with
                   | Some _ => Some (scoutfs_inc_key (item_key item))
                   | None => None
                   end)
          end
      end
  end.

(** Return the leaf block that should contain the given key, locked.
    [next_key] is [None] for a NULL pointer; otherwise the walk stores the
    key behind the parent item it last went through. *)
Definition btree_walk (key : Z) (next_key : option Z) (val_len seq op : Z)
    : M (bh_result * option Z) :=
  let dirty := (op =? WALK_INSERT) || (op =? WALK_DELETE) ||
               (op =? WALK_DIRTY) in
  (* no sibling blocks if we don't have parent blocks *)
  let next_key := match next_key with
                  | Some _ => Some SCOUTFS_MAX_KEY
                  | None => None
                  end in
  lock_block None dirty ;;
  do root <- gets btree_root;
  if root_height root =? 0 then
    do bh <-
      (if op =? WALK_INSERT then ret (ERR_PTR (- ENOENT))
       else
         do bh <- grow_tree;
         match bh with
         | BH b => lock_block (Some b) dirty ;; ret bh
         | ERR_PTR _ => ret bh
         end);
    unlock_block None dirty ;;
    ret (bh, next_key)
  else if (op =? WALK_NEXT_SEQ) && (ref_seq (root_ref root) <? seq) then
    (* skip the whole tree if the root ref's seq is old *)
    unlock_block None dirty ;;
    ret (ERR_PTR (- ENOENT), next_key)
  else
    do '(bh, par_bh, next_key) <-
      walk_loop (Z.to_nat (root_height root - 1)) key val_len seq op dirty
        None 0 ROOT_REF next_key;
    unlock_block par_bh dirty ;;
    ret (bh, next_key).

(** *** Cursors and the operations on the tree *)

(** struct scoutfs_btree_cursor.  [curs_item] is the offset of the item
    that the [key] and [val] pointers of the cursor point into. *)
Record scoutfs_btree_cursor := {
  curs_bh : option Z;
  curs_pos : Z;
  curs_write : bool;
  curs_item : Z;
  curs_seq : Z;
  curs_val_len : Z
}.

(** DECLARE_SCOUTFS_BTREE_CURSOR() *)
Definition empty_cursor : scoutfs_btree_cursor :=
  {| curs_bh := None; curs_pos := 0; curs_write := false; curs_item := 0;
     curs_seq := 0; curs_val_len := 0 |}.

Definition set_curs_pos (v : Z) (curs : scoutfs_btree_cursor) :=
  {| curs_bh := curs_bh curs; curs_pos := v; curs_write := curs_write curs;
     curs_item := curs_item curs; curs_seq := curs_seq curs;
     curs_val_len := curs_val_len curs |}.

Definition set_curs_bh (v : option Z) (curs : scoutfs_btree_cursor) :=
  {| curs_bh := v; curs_pos := curs_pos curs; curs_write := curs_write curs;
     curs_item := curs_item curs; curs_seq := curs_seq curs;
     curs_val_len := curs_val_len curs |}.

Definition set_cursor (bh pos : Z) (write : bool)
    : M scoutfs_btree_cursor :=
  do bt <- gets (λ sbi, bh_data sbi bh);
  let item := pos_item bt pos in
  ret {| curs_bh := Some bh; curs_pos := pos; curs_write := write;
         curs_item := pos_off bt pos; curs_seq := item_seq item;
         curs_val_len := item_val_len item |}.

(** [*curs->key] *)
Definition cursor_key (sbi : scoutfs_sb_info) (curs : scoutfs_btree_cursor)
    : Z :=
  match curs_bh curs with
  | Some bh => item_key (off_item (bh_data sbi bh) (curs_item curs))
  | None => 0
  end.

Definition scoutfs_btree_release (curs : scoutfs_btree_cursor)
    : M scoutfs_btree_cursor :=
  match curs_bh curs with
  | Some bh => unlock_block (Some bh) (curs_write curs)
  | None => ret tt
  end ;;
  ret (set_curs_bh None curs).

(** Point the caller's cursor at the item if it's found.  It can't be
    modified.  -ENOENT is returned if the key isn't found in the tree. *)
Definition scoutfs_btree_lookup (key : Z) (curs : scoutfs_btree_cursor)
    : M (Z * scoutfs_btree_cursor) :=
  match curs_bh curs with
  | Some _ => BUG
  | None =>
      do '(bh, _) <- btree_walk key None 0 0 0;
      match bh with
      | ERR_PTR err => ret (err, curs)
      | BH b =>
          do bt <- gets (λ sbi, bh_data sbi b);
          do '(pos, cmp) <- lift (find_pos bt key);
          if cmp =? 0 then
            do curs <- set_cursor b pos false;
            ret (0, curs)
          else
            unlock_block (Some b) false ;;
            ret (- ENOENT, curs)
      end
  end.

(** Insert a new item in the tree and point the caller's cursor at it.
    The caller is responsible for setting the value.  -EEXIST is returned
    if the key is already present in the tree. *)
Definition scoutfs_btree_insert (key val_len : Z)
    (curs : scoutfs_btree_cursor) : M (Z * scoutfs_btree_cursor) :=
  match curs_bh curs with
  | Some _ => BUG
  | None =>
      do '(bh, _) <- btree_walk key None val_len 0 WALK_INSERT;
      match bh with
      | ERR_PTR err => ret (err, curs)
      | BH b =>
          do bt <- gets (λ sbi, bh_data sbi b);
          do '(pos, cmp) <- lift (find_pos bt key);
          if cmp =? 0 then
            unlock_block (Some b) true ;;
            ret (- EEXIST, curs)
          else
            update_block b (λ bt, (create_item bt pos key val_len).1) ;;
            do curs <- set_cursor b pos true;
            ret (0, curs)
      end
  end.

(** Delete an item from the tree.  -ENOENT is returned if the key isn't
    found. *)
Definition scoutfs_btree_delete (key : Z) : M Z :=
  do '(bh, _) <- btree_walk key None 0 0 WALK_DELETE;
  match bh with
  | ERR_PTR err => ret err
  | BH b =>
      do bt <- gets (λ sbi, bh_data sbi b);
      do '(pos, cmp) <- lift (find_pos bt key);
      do r <-
        (if cmp =? 0 then
           update_block b (λ bt, delete_item bt pos) ;;
           do bt <- gets (λ sbi, bh_data sbi b);
           (* delete the final block in the tree *)
           (if nr_items bt =? 0 then
              modify (set_btree_root
                {| root_height := 0;
                   root_ref := {| ref_blkno := 0; ref_seq := 0 |} |}) ;;
              free_tree_block (hdr_blkno bt)
            else ret tt) ;;
           ret 0
         else ret (- ENOENT));
      unlock_block (Some b) true ;;
      ret r
  end.

(** The [while (!curs->bh && scoutfs_key_cmp(&key, last) <= 0)] of
    btree_next().  It gives the error that the function returns from inside
    the loop, if any, and the cursor. *)
Fixpoint btree_next_loop (fuel : nat) (last seq op key : Z)
    (curs : scoutfs_btree_cursor) : M (option Z * scoutfs_btree_cursor) :=
  match curs_bh curs with
  | Some _ => ret (None, curs)
  | None =>
      if 0 <? scoutfs_key_cmp key last then ret (None, curs)
      else
        match fuel with
        | O => λ _, None
        | S fuel' =>
            do '(bh, next_key) <- btree_walk key (Some 0) 0 seq op;
            let next_key := default 0 next_key in
            match bh with
            | ERR_PTR err =>
                (* next seq walks can terminate in parents with old seqs *)
                if (op =? WALK_NEXT_SEQ) && (err =? - ENOENT) then
                  btree_next_loop fuel' last seq op next_key curs
                else if err =? - ENOENT then ret (None, curs)
                else ret (Some err, curs)
            | BH b =>
                do bt <- gets (λ sbi, bh_data sbi b);
                (* keep trying leaves until next_key passes last *)
                do pos <- lift (find_pos_after_seq bt key 0 seq op);
                let curs := set_curs_pos pos curs in
                if nr_items bt <=? pos then
                  unlock_block (Some b) false ;;
                  btree_next_loop fuel' last seq op next_key curs
                else
                  do curs <- set_cursor b pos false;
                  ret (None, curs)
            end
        end
  end.

(** Iterate over items in the tree starting with first and ending with
    last.  Returns > 0 when the cursor has an item, 0 when done, and -errno
    on error. *)
Definition btree_next (fuel : nat) (first last seq op : Z)
    (curs : scoutfs_btree_cursor) : M (Z * scoutfs_btree_cursor) :=
  if 0 <? scoutfs_key_cmp first last then ret (0, curs)
  else
    (* find the next item after the cursor, releasing if we're done *)
    do '(key, curs) <-
      match curs_bh curs with
      | Some bh =>
          do sbi <- gets id;
          let bt := bh_data sbi bh in
          let key := scoutfs_inc_key (cursor_key sbi curs) in
          do pos <- lift (next_pos_seq bt (curs_pos curs) 0 seq op);
          let curs := set_curs_pos pos curs in
          do curs <-
            (if pos <? nr_items bt then set_cursor bh pos (curs_write curs)
             else scoutfs_btree_release curs);
          ret (key, curs)
      | None => ret (first, curs)
      end;
    (* find the leaf that contains the next item after the key *)
    do '(err, curs) <- btree_next_loop fuel last seq op key curs;
    match err with
    | Some err => ret (err, curs)
    | None =>
        do sbi <- gets id;
        (* only return the next item if it's within last *)
        if match curs_bh curs with
           | Some _ => scoutfs_key_cmp (cursor_key sbi curs) last <=? 0
           | None => false
           end
        then ret (1, curs)
        else
          do curs <- scoutfs_btree_release curs;
          ret (0, curs)
    end.

Definition scoutfs_btree_next (fuel : nat) (first last : Z)
    (curs : scoutfs_btree_cursor) : M (Z * scoutfs_btree_cursor) :=
  btree_next fuel first last 0 WALK_NEXT curs.

Definition scoutfs_btree_since (fuel : nat) (first last seq : Z)
    (curs : scoutfs_btree_cursor) : M (Z * scoutfs_btree_cursor) :=
  btree_next fuel first last seq WALK_NEXT_SEQ curs.

(** Ensure that the blocks that lead to the item with the given key are
    dirty.  <0 is returned on error, including -ENOENT if the key isn't
    present. *)
Definition scoutfs_btree_dirty (key : Z) : M Z :=
  do '(bh, _) <- btree_walk key None 0 0 WALK_DIRTY;
  match bh with
  | ERR_PTR err => ret err
  | BH b =>
      do bt <- gets (λ sbi, bh_data sbi b);
      do '(_, cmp) <- lift (find_pos bt key);
      unlock_block (Some b) true ;;
      ret (if cmp =? 0 then 0 else - ENOENT)
  end.

(** This is guaranteed not to fail if the caller has already dirtied the
    block that contains the item in the current transaction. *)
Definition scoutfs_btree_update (key : Z) (curs : scoutfs_btree_cursor)
    : M (Z * scoutfs_btree_cursor) :=
  match curs_bh curs with
  | Some _ => BUG
  | None =>
      do '(bh, _) <- btree_walk key None 0 0 WALK_DIRTY;
      match bh with
      | ERR_PTR err => ret (err, curs)
      | BH b =>
          do bt <- gets (λ sbi, bh_data sbi b);
          do '(pos, cmp) <- lift (find_pos bt key);
          if cmp =? 0 then
            update_block b (λ bt,
              store_item (pos_off bt pos)
                (set_item_seq (hdr_seq bt) (pos_item bt pos)) bt) ;;
            do curs <- set_cursor b pos true;
            ret (0, curs)
          else
            unlock_block (Some b) true ;;
            ret (- ENOENT, curs)
      end
  end.

(** The [while ((ret = scoutfs_btree_next(...)) > 0)] of
    scoutfs_btree_hole(): gives the last [ret], the hole and the cursor. *)
Fixpoint hole_loop (fuel : nat) (first last hole : Z)
    (curs : scoutfs_btree_cursor) : M (Z * Z * scoutfs_btree_cursor) :=
  match fuel with
  | O => λ _, None
  | S fuel' =>
      do '(r, curs) <- scoutfs_btree_next fuel' first last curs;
      if 0 <? r then
        do sbi <- gets id;
        (* return our expected hole if we skipped it *)
        if scoutfs_key_cmp hole (cursor_key sbi curs) <? 0
        then ret (r, hole, curs)
        else hole_loop fuel' first last
               (scoutfs_inc_key (cursor_key sbi curs)) curs
      else ret (r, hole, curs)
  end.

(** Find the first missing key between the caller's keys, inclusive.  Gives
    0 and the hole if we find a missing key, -ENOSPC if all the keys in the
    range were present or -errno on errors. *)
Definition scoutfs_btree_hole (fuel : nat) (first last : Z) : M (Z * Z) :=
  do '(r, hole, curs) <- hole_loop fuel first last first empty_cursor;
  do _ <- scoutfs_btree_release curs;
  ret (if 0 <=? r
       then (if scoutfs_key_cmp hole last <=? 0 then 0 else - ENOSPC)
       else r,
       hole).

End Tree.

(** ** Trees to compute with *)

(** an empty tree: nothing is locked, the allocator has blocks 10, 11 and 12
    to hand out, the transaction runs at seq 1 *)
Definition example_sbi_empty : scoutfs_sb_info := {|
  btree_root := {| root_height := 0;
                   root_ref := {| ref_blkno := 0; ref_seq := 0 |} |};
  btree_rwsem := {| rw_readers := 0; rw_writer := false |};
  blocks := ∅;
  locked := ∅;
  alloc_avail := [10; 11; 12];
  freed := [];
  dirty_seq := 1
|}.

(** block 10 with one item: the given key and a value of one byte *)
Definition example_leaf (key : Z) : scoutfs_btree_block :=
  (@create_item example_format
     {| hdr_blkno := 10; hdr_seq := 1; free_end := 4096; free_reclaim := 0;
        item_offs := []; item_mem := ∅ |} 0 key 1).1.

(** a tree of height 1 whose root is [example_leaf key] *)
Definition example_sbi_leaf (key : Z) : scoutfs_sb_info := {|
  btree_root := {| root_height := 1;
                   root_ref := {| ref_blkno := 10; ref_seq := 1 |} |};
  btree_rwsem := {| rw_readers := 0; rw_writer := false |};
  blocks := {[ 10 := example_leaf key ]};
  locked := ∅;
  alloc_avail := [11; 12];
  freed := [];
  dirty_seq := 1
|}.

(** the cursor that scoutfs_btree_next() leaves on the only item of
    [example_sbi_leaf key], and the state it leaves: block 10 is locked *)
Definition example_cursor : scoutfs_btree_cursor :=
  {| curs_bh := Some 10; curs_pos := 0; curs_write := false;
     curs_item := 4077; curs_seq := 1; curs_val_len := 1 |}.

Definition example_sbi_leaf_locked (key : Z) : scoutfs_sb_info :=
  set_locked {[10]} (example_sbi_leaf key).

(** the cursor after its release at the end of the leaf *)
Definition example_cursor_released : scoutfs_btree_cursor :=
  {| curs_bh := None; curs_pos := 1; curs_write := false;
     curs_item := 4077; curs_seq := 1; curs_val_len := 1 |}.

(** block [blkno] at seq 1 with an item of [val_len] value bytes for each of
    the keys, created in the order of the list at the end of the block *)
Definition example_block (blkno : Z) (keys : list Z) (val_len : Z)
    : scoutfs_btree_block :=
  fold_left
    (λ bt key,
       (@create_item example_format bt (nr_items bt) key val_len).1)
    keys
    {| hdr_blkno := blkno; hdr_seq := 1; free_end := 4096; free_reclaim := 0;
       item_offs := []; item_mem := ∅ |}.

(** a leaf that lost the middle one of three items *)
Definition example_holed : scoutfs_btree_block :=
  @delete_item example_format (example_block 10 [1; 2; 3] 1) 1.

(** a tree of height 1 whose root is the leaf [bt], stored as block 10 *)
Definition example_sbi_root (bt : scoutfs_btree_block) : scoutfs_sb_info := {|
  btree_root := {| root_height := 1;
                   root_ref := {| ref_blkno := 10; ref_seq := 1 |} |};
  btree_rwsem := {| rw_readers := 0; rw_writer := false |};
  blocks := {[ 10 := bt ]};
  locked := ∅;
  alloc_avail := [11; 12];
  freed := [];
  dirty_seq := 1
|}.

(** the same tree in the next transaction, which has seq 2: the leaf [bt],
    stored with seq 1, is not yet written by it *)
Definition example_sbi_clean (bt : scoutfs_btree_block) : scoutfs_sb_info := {|
  btree_root := {| root_height := 1;
                   root_ref := {| ref_blkno := 10; ref_seq := 1 |} |};
  btree_rwsem := {| rw_readers := 0; rw_writer := false |};
  blocks := {[ 10 := bt ]};
  locked := ∅;
  alloc_avail := [11; 12];
  freed := [];
  dirty_seq := 2
|}.



(** the root of a tree of height 2 over the leaves 10 and 11 *)
Definition example_parent : scoutfs_btree_block :=
  @create_parent_item example_format
    (@create_parent_item example_format
       {| hdr_blkno := 20; hdr_seq := 1; free_end := 4096; free_reclaim := 0;
          item_offs := []; item_mem := ∅ |}
       0 (example_block 11 [5] 1) (2 ^ 64 - 1))
    0 (example_block 10 [1] 1) 1.

(** a tree of height 2: the leaf 10 holds the key 1, the leaf 11 the key 5 *)
Definition example_sbi_two : scoutfs_sb_info := {|
  btree_root := {| root_height := 2;
                   root_ref := {| ref_blkno := 20; ref_seq := 1 |} |};
  btree_rwsem := {| rw_readers := 0; rw_writer := false |};
  blocks := {[ 20 := example_parent; 10 := example_block 10 [1] 1;
               11 := example_block 11 [5] 1 ]};
  locked := ∅;
  alloc_avail := [12; 13];
  freed := [];
  dirty_seq := 1
|}.


(** a tree of height 2: the leaf 10 holds nine items with 400 value bytes
    under the keys 1 to 9, the leaf 11 one such item under the key 20 *)
Definition example_sbi_nine : scoutfs_sb_info := {|
  btree_root := {| root_height := 2;
                   root_ref := {| ref_blkno := 20; ref_seq := 1 |} |};
  btree_rwsem := {| rw_readers := 0; rw_writer := false |};
  blocks :=
    {[ 20 :=
         @create_parent_item example_format
           (@create_parent_item example_format
              {| hdr_blkno := 20; hdr_seq := 1; free_end := 4096;
                 free_reclaim := 0; item_offs := []; item_mem := ∅ |}
              0 (example_block 11 [20] 400) (2 ^ 64 - 1))
           0 (example_block 10 [1; 2; 3; 4; 5; 6; 7; 8; 9] 400) 9;
       10 := example_block 10 [1; 2; 3; 4; 5; 6; 7; 8; 9] 400;
       11 := example_block 11 [20] 400 ]};
  locked := ∅;
  alloc_avail := [12; 13];
  freed := [];
  dirty_seq := 1
|}.

(** a tree of height 2 over two leaves, stored as the blocks 10 and 11 under
    the parent 20: the parent's key of the left leaf is its greatest key,
    that of the right leaf the greatest key of all *)
Definition example_tree (left right : scoutfs_btree_block)
    : scoutfs_sb_info := {|
  btree_root := {| root_height := 2;
                   root_ref := {| ref_blkno := 20; ref_seq := 1 |} |};
  btree_rwsem := {| rw_readers := 0; rw_writer := false |};
  blocks :=
    {[ 20 :=
         @create_parent_item example_format
           (@create_parent_item example_format
              {| hdr_blkno := 20; hdr_seq := 1; free_end := 4096;
                 free_reclaim := 0; item_offs := []; item_mem := ∅ |}
              0 right (2 ^ 64 - 1))
           0 left (greatest_key left);
       10 := left; 11 := right ]};
  locked := ∅;
  alloc_avail := [12; 13];
  freed := [];
  dirty_seq := 1
|}.

(** the left leaf holds the key 1 with 3600 value bytes, which leaves it
    less free space than the merge threshold; the right leaf holds the
    key 5 *)
Definition example_sbi_lone : scoutfs_sb_info :=
  example_tree (example_block 10 [1] 3600) (example_block 11 [5] 1).

(** the left leaf holds the key 1 with 3000 value bytes and has 1054 bytes
    free; the right leaf holds the keys 5 and 6 with 1040 value bytes
    each *)
Definition example_sbi_tight : scoutfs_sb_info :=
  example_tree (example_block 10 [1] 3000) (example_block 11 [5; 6] 1040).

(** insertions through scoutfs_btree_insert(), each of a key with the
    length of its value, the cursor released after each one; the first
    insertion that fails ends the run with its error *)
Fixpoint example_inserts (items : list (Z * Z)) : M Z :=
  match items with
  | [] => ret 0
  | (key, val_len) :: items' =>
      do '(r, curs) <-
        @scoutfs_btree_insert example_format key val_len empty_cursor;
      scoutfs_btree_release curs ;;
      if r =? 0 then example_inserts items' else ret r
  end.

(** a tree built through the interface within one transaction: a lookup,
    whose walk leaves a root leaf behind when the tree is empty, and then
    the insertions *)
Definition example_build (items : list (Z * Z)) : M Z :=
  do '(_, curs) <- @scoutfs_btree_lookup example_format 0 empty_cursor;
  scoutfs_btree_release curs ;;
  example_inserts items.

(** ** Words of the specification used in the statements *)

Section SpecWords.
Context `{Format}.

(** the bytes that try_split() makes room for at a level: a new item with a
    value of [val_len] bytes in a leaf, a new item with a block reference
    above the leaves *)
Definition split_need (level val_len : Z) : Z :=
  all_val_bytes (if level =? 0 then val_len else BLOCK_REF_BYTES).

(** the item that create_parent_item() stores *)
Definition parent_item (key seq : Z) (child : scoutfs_btree_block)
    : scoutfs_btree_item :=
  {| item_key := key; item_seq := seq; item_val_len := BLOCK_REF_BYTES;
     item_val := ref_bytes {| ref_blkno := hdr_blkno child;
                              ref_seq := hdr_seq child |} |}.

(** the block that alloc_tree_block() hands out *)
Definition fresh_block (blkno seq : Z) : scoutfs_btree_block :=
  {| hdr_blkno := blkno; hdr_seq := seq; free_end := SCOUTFS_BLOCK_SIZE;
     free_reclaim := 0; item_offs := []; item_mem := ∅ |}.

(** the root of an empty tree *)
Definition empty_root : scoutfs_btree_root :=
  {| root_height := 0; root_ref := {| ref_blkno := 0; ref_seq := 0 |} |}.


(** what try_merge() moves from the sibling: all of it if it fits *)
Definition merge_to_move (bt sib : scoutfs_btree_block) : Z :=
  if used_total sib <=? reclaimable_free bt then used_total sib
  else reclaimable_free bt - SCOUTFS_BTREE_FREE_LIMIT.

(** the parent's items after the merge: the key of the block's item follows
    items taken from the right sibling, the item of a drained sibling goes,
    and the key of a left sibling's item follows the items it gave *)
Definition merge_parent (par : scoutfs_btree_block) (pos sib_pos : Z)
    (move_right : bool) (bt' sib' : scoutfs_btree_block)
    : scoutfs_btree_block :=
  let par1 :=
    if move_right then par
    else store_item (pos_off par pos)
           (set_item_key (greatest_key bt') (pos_item par pos)) par in
  if nr_items sib' =? 0 then delete_item par1 sib_pos
  else if move_right then
    store_item (pos_off par sib_pos)
      (set_item_key (greatest_key sib') (off_item par1 (pos_off par sib_pos)))
      par1
  else par1.

Definition merge_parent_items (items : list scoutfs_btree_item)
    (pos sib_pos : Z) (move_right : bool) (bt' sib' : scoutfs_btree_block)
    : list scoutfs_btree_item :=
  let items1 :=
    if move_right then items
    else alter (set_item_key (greatest_key bt')) (Z.to_nat pos) items in
  if nr_items sib' =? 0 then delete (Z.to_nat sib_pos) items1
  else if move_right then
    alter (set_item_key (greatest_key sib')) (Z.to_nat sib_pos) items1
  else items1.

(** the keys that a caller sees who calls scoutfs_btree_next() until it
    returns no item, at most [n] times, each call with [fuel] rounds *)
Fixpoint next_keys (n fuel : nat) (first last : Z)
    (curs : scoutfs_btree_cursor) : M (list Z) :=
  match n with
  | O => λ _, None
  | S n' =>
      do '(r, curs) <- scoutfs_btree_next fuel first last curs;
      if 0 <? r then
        do sbi <- gets id;
        do keys <- next_keys n' fuel first last curs;
        ret (cursor_key sbi curs :: keys)
      else ret []
  end.

(** the same for btree_next() with any operation: the keys that the calls
    leave the cursor on until one returns no item *)
Fixpoint btree_next_keys (n fuel : nat) (first last seq op : Z)
    (curs : scoutfs_btree_cursor) : M (list Z) :=
  match n with
  | O => λ _, None
  | S n' =>
      do '(r, curs) <- btree_next fuel first last seq op curs;
      if 0 <? r then
        do sbi <- gets id;
        do keys <- btree_next_keys n' fuel first last seq op curs;
        ret (cursor_key sbi curs :: keys)
      else ret []
  end.

(** the keys that a caller sees who calls scoutfs_btree_since() until it
    returns no item *)
Definition since_keys (n fuel : nat) (first last seq : Z)
    (curs : scoutfs_btree_cursor) : M (list Z) :=
  btree_next_keys n fuel first last seq WALK_NEXT_SEQ curs.

(** the items that an iteration with the operation [op] stops at: those
    within [last] that skip_pos_seq() does not skip in a leaf *)
Definition next_item (last seq op : Z) (item : scoutfs_btree_item) : bool :=
  (item_key item <=? last) &&
  negb ((op =? WALK_NEXT_SEQ) && (item_seq item <? seq)).

(** the item that create_item() leaves: the key, the seq of the block and
    the value length as stored, and the value bytes [val] that were there *)
Definition new_item (key seq val_len : Z) (val : list Z)
    : scoutfs_btree_item :=
  {| item_key := key; item_seq := seq; item_val_len := val_len;
     item_val := val |}.

(** the value bytes that the block holds where create_item() puts an item
    with [val_len] value bytes *)
Definition found_val (bt : scoutfs_btree_block) (val_len : Z) : list Z :=
  item_val (off_item bt (u16 (free_end bt - val_bytes val_len))).

(** the block number that the root refers to *)
Definition root_blkno (sbi : scoutfs_sb_info) : Z :=
  ref_blkno (root_ref (btree_root sbi)).

(** a tree of height 1: the root refers to the leaf [bt], and nobody holds
    the lock of the leaf or the write lock of the tree *)
Definition root_leaf (sbi : scoutfs_sb_info) (bt : scoutfs_btree_block)
    : Prop :=
  root_height (btree_root sbi) = 1 ∧
  blocks sbi !! root_blkno sbi = Some bt ∧
  (root_blkno sbi ∉ locked sbi) ∧
  rw_writer (btree_rwsem sbi) = false.

(** the state with [bt] as the block that the root refers to *)
Definition with_block (bt : scoutfs_btree_block) (sbi : scoutfs_sb_info)
    : scoutfs_sb_info :=
  set_blocks (<[root_blkno sbi := bt]> (blocks sbi)) sbi.

(** the same with the lock of that block held *)
Definition with_leaf (bt : scoutfs_btree_block) (sbi : scoutfs_sb_info)
    : scoutfs_sb_info :=
  set_locked ({[root_blkno sbi]} ∪ locked sbi) (with_block bt sbi).

(** the cursor that set_cursor() leaves on the item at [pos] of the block
    [bt] behind the buffer [bh] *)
Definition cursor_at (bh : Z) (bt : scoutfs_btree_block) (pos : Z)
    (write : bool) : scoutfs_btree_cursor :=
  {| curs_bh := Some bh; curs_pos := pos; curs_write := write;
     curs_item := pos_off bt pos; curs_seq := item_seq (pos_item bt pos);
     curs_val_len := item_val_len (pos_item bt pos) |}.

(** the copy that scoutfs_block_dirty_ref() makes of a clean block: what
    [bt] holds, under the block number [blkno] and the seq [seq] *)
Definition block_copy (blkno seq : Z) (bt : scoutfs_btree_block)
    : scoutfs_btree_block :=
  {| hdr_blkno := blkno; hdr_seq := seq; free_end := free_end bt;
     free_reclaim := free_reclaim bt; item_offs := item_offs bt;
     item_mem := item_mem bt |}.

(** the root block [bt] in the form in which the running transaction can
    write it: [bt] itself when its header has the seq of the transaction,
    and else its copy under the first block number of the allocator *)
Definition dirtied_block (sbi : scoutfs_sb_info) (bt : scoutfs_btree_block)
    : scoutfs_btree_block :=
  if hdr_seq bt =? dirty_seq sbi then bt
  else match alloc_avail sbi with
       | [] => bt
       | c :: _ => block_copy c (dirty_seq sbi) bt
       end.

(** the state in which the tree has that block as its root: the state
    itself in the first case, and else the state with the copy stored, its
    block number taken from the allocator, and the root reference set to
    the number and the seq of the copy *)
Definition dirtied_root (sbi : scoutfs_sb_info) (bt : scoutfs_btree_block)
    : scoutfs_sb_info :=
  if hdr_seq bt =? dirty_seq sbi then sbi
  else match alloc_avail sbi with
       | [] => sbi
       | c :: avail =>
           set_btree_root
             {| root_height := root_height (btree_root sbi);
                root_ref := {| ref_blkno := c; ref_seq := dirty_seq sbi |} |}
             (set_blocks
                (<[c := block_copy c (dirty_seq sbi) bt]> (blocks sbi))
                (set_alloc_avail avail sbi))
       end.

(** the root block [bt] can be had in that form: it has the seq of the
    transaction, or the allocator has a block number, whose buffer nobody
    holds locked *)
Definition can_dirty (sbi : scoutfs_sb_info) (bt : scoutfs_btree_block)
    : Prop :=
  hdr_seq bt = dirty_seq sbi ∨
  ∃ c avail, alloc_avail sbi = c :: avail ∧ (c ∉ locked sbi).

(** a tree of height 2: the root refers to the parent block [par], and
    nobody holds the lock of that block or the write lock of the tree *)
Definition two_levels (sbi : scoutfs_sb_info) (par : scoutfs_btree_block)
    : Prop :=
  root_height (btree_root sbi) = 2 ∧
  blocks sbi !! root_blkno sbi = Some par ∧
  (root_blkno sbi ∉ locked sbi) ∧
  rw_writer (btree_rwsem sbi) = false.

(** the block number in the reference that the parent item at [pos] holds *)
Definition child_blkno (par : scoutfs_btree_block) (pos : Z) : Z :=
  ref_blkno (val_ref (item_val (pos_item par pos))).

End SpecWords.

(** * Properties of the translation *)

(** ** Keys of a block *)

Section BlockFacts.
Context `{Format}.

Lemma key_cmp_lt a b : scoutfs_key_cmp a b < 0 ↔ a < b.
Proof.
  unfold scoutfs_key_cmp. destruct (Z.compare_spec a b); lia.
Qed.

Lemma key_cmp_gt a b : 0 < scoutfs_key_cmp a b ↔ b < a.
Proof.
  unfold scoutfs_key_cmp. destruct (Z.compare_spec a b); lia.
Qed.

Lemma key_cmp_eq a b : scoutfs_key_cmp a b = 0 ↔ a = b.
Proof.
  unfold scoutfs_key_cmp. destruct (Z.compare_spec a b); lia.
Qed.

(** the invariant of the binary search *)
Lemma find_pos_loop_spec (bt : scoutfs_btree_block) (key : Z) :
  key_sorted bt →
  ∀ (fuel : nat) (start end_ pos cmp : Z),
    0 ≤ start ≤ end_ → end_ ≤ nr_items bt →
    end_ - start ≤ Z.of_nat fuel →
    (start = end_ → pos = start) → cmp < 0 →
    (∀ i, 0 ≤ i < start → item_key (pos_item bt i) < key) →
    (∀ i, end_ ≤ i < nr_items bt → key < item_key (pos_item bt i)) →
    ∃ pos' cmp',
      find_pos_loop fuel bt key start end_ pos cmp = Some (pos', cmp') ∧
      0 ≤ pos' ≤ nr_items bt ∧
      (∀ i, 0 ≤ i < pos' → item_key (pos_item bt i) < key) ∧
      (cmp' = 0 ∧ pos' < nr_items bt ∧ item_key (pos_item bt pos') = key ∨
       cmp' < 0 ∧
       ∀ i, pos' ≤ i < nr_items bt → key < item_key (pos_item bt i)).
Proof.
  intros Hs fuel.
  induction fuel as [|fuel IH]; intros start end_ pos cmp Hse Hen Hfuel Hpos
    Hcmp Hlo Hhi; simpl.
  - assert (start = end_) as -> by lia.
    rewrite Z.ltb_irrefl. exists pos, cmp.
    rewrite (Hpos eq_refl). repeat split; try lia; auto.
  - destruct (Z.ltb_spec start end_) as [Hlt|Hge].
    + set (mid := start + (end_ - start) / 2).
      assert (start ≤ mid < end_) as Hmid.
      { unfold mid. assert (0 ≤ (end_ - start) / 2 < end_ - start); [|lia].
        split; [apply Z.div_pos; lia | apply Z.div_lt_upper_bound; lia]. }
      set (c := scoutfs_key_cmp key (item_key (pos_item bt mid))).
      destruct (Z.ltb_spec c 0) as [Hc|Hc].
      * assert (key < item_key (pos_item bt mid)) as Hk
          by (apply key_cmp_lt; exact Hc).
        apply IH; try lia; [done|].
        intros i Hi. destruct (decide (i = mid)) as [->|Hne]; [done|].
        destruct (decide (i < end_)).
        -- etrans; [exact Hk|]. apply Hs; lia.
        -- apply Hhi. lia.
      * destruct (Z.ltb_spec 0 c) as [Hc'|Hc'].
        -- assert (item_key (pos_item bt mid) < key) as Hk
             by (apply key_cmp_gt; exact Hc').
           apply IH; try lia; [|done].
           intros i Hi. destruct (decide (i = mid)) as [->|Hne]; [done|].
           destruct (decide (start ≤ i)).
           ++ etrans; [|exact Hk]. apply Hs; lia.
           ++ apply Hlo. lia.
        -- assert (c = 0) as Hc0 by lia.
           assert (key = item_key (pos_item bt mid)) as Hk
             by (apply key_cmp_eq; exact Hc0).
           exists mid, c. split; [done|]. split; [lia|]. split.
           ++ intros i Hi. rewrite Hk. apply Hs; lia.
           ++ left. repeat split; [done|lia|done].
    + assert (start = end_) as -> by lia.
      exists pos, cmp. rewrite (Hpos eq_refl).
      repeat split; try lia; auto.
Qed.


Lemma find_pos_sorted (bt : scoutfs_btree_block) (key : Z) :
  key_sorted bt →
  ∃ pos cmp,
    find_pos bt key = Some (pos, cmp) ∧
    0 ≤ pos ≤ nr_items bt ∧
    (∀ i, 0 ≤ i < pos → item_key (pos_item bt i) < key) ∧
    (cmp = 0 ∧ pos < nr_items bt ∧ item_key (pos_item bt pos) = key ∨
     cmp < 0 ∧ ∀ i, pos ≤ i < nr_items bt → key < item_key (pos_item bt i)).
Proof.
  intros Hs. unfold find_pos.
  apply find_pos_loop_spec; auto; unfold nr_items; lia.
Qed.

(** *** Skipping by sequence number *)

Lemma skip_pos_seq_end (bt : scoutfs_btree_block) (pos level seq op : Z) :
  nr_items bt ≤ pos → skip_pos_seq bt pos level seq op = false.
Proof.
  intros Hp. unfold skip_pos_seq.
  destruct (Z.leb_spec (nr_items bt) pos); [|lia].
  by rewrite orb_true_r.
Qed.

Lemma skip_pos_seq_true (bt : scoutfs_btree_block) (pos level seq op : Z) :
  skip_pos_seq bt pos level seq op = true →
  op = WALK_NEXT_SEQ ∧ pos < nr_items bt.
Proof.
  unfold skip_pos_seq.
  destruct (Z.eqb_spec op WALK_NEXT_SEQ); simpl; [|done].
  destruct (Z.leb_spec (nr_items bt) pos); simpl; [done|]. auto.
Qed.

Lemma next_pos_seq_loop_spec (bt : scoutfs_btree_block) (level seq op : Z) :
  nr_items bt < 2 ^ 32 →
  ∀ (fuel : nat) (pos : Z),
    1 + Z.max 0 (nr_items bt - u32 (pos + 1)) ≤ Z.of_nat fuel →
    ∃ p,
      next_pos_seq_loop fuel bt pos level seq op = Some p ∧
      u32 (pos + 1) ≤ p ∧
      (p ≤ nr_items bt ∨ p = u32 (pos + 1)) ∧
      (op ≠ WALK_NEXT_SEQ → p = u32 (pos + 1)) ∧
      skip_pos_seq bt p level seq op = false.
Proof.
  intros Hnr fuel.
  induction fuel as [|fuel IH]; intros pos Hfuel; [lia|]. simpl.
  destruct (skip_pos_seq bt (u32 (pos + 1)) level seq op) eqn:Hskip.
  - apply skip_pos_seq_true in Hskip as [Hop Hlt].
    assert (0 ≤ u32 (pos + 1)) by (unfold u32; apply Z.mod_pos_bound; lia).
    assert (u32 (u32 (pos + 1) + 1) = u32 (pos + 1) + 1) as Hnext.
    { unfold u32 at 1. apply Z.mod_small. lia. }
    destruct (IH (u32 (pos + 1))) as (p & Hp & Hle & Hbound & _ & Hs).
    { rewrite Hnext. lia. }
    exists p. rewrite Hnext in Hle, Hbound.
    repeat split; [done|lia|lia|done|done].
  - exists (u32 (pos + 1)). repeat split; [lia|by right|done].
Qed.

End BlockFacts.

(** ** Lists: sums, sorting, strict order by position *)

Section ListFacts.

Lemma sum_list_Z_app (l1 l2 : list Z) :
  sum_list_Z (l1 ++ l2) = sum_list_Z l1 + sum_list_Z l2.
Proof. induction l1 as [|x l1 IH]; simpl; [done|]. rewrite IH. lia. Qed.

Lemma sum_list_Z_perm (l1 l2 : list Z) :
  l1 ≡ₚ l2 → sum_list_Z l1 = sum_list_Z l2.
Proof. induction 1; simpl; lia. Qed.

Lemma sum_list_Z_nonneg (l : list Z) :
  Forall (λ x, 0 ≤ x) l → 0 ≤ sum_list_Z l.
Proof. induction 1; simpl; lia. Qed.

Lemma sum_list_Z_take_drop (n : nat) (l : list Z) :
  sum_list_Z (take n l) + sum_list_Z (drop n l) = sum_list_Z l.
Proof. by rewrite <-sum_list_Z_app, take_drop. Qed.

Context {A : Type}.
Implicit Types (cmp : A → A → Z) (l : list A).

Lemma sort_insert_perm cmp x l : sort_insert cmp x l ≡ₚ x :: l.
Proof.
  induction l as [|y l IH]; simpl; [done|].
  destruct (cmp x y <=? 0); [done|]. rewrite IH. apply Permutation_swap.
Qed.

Lemma sort_perm cmp l : sort cmp l ≡ₚ l.
Proof.
  induction l as [|x l IH]; simpl; [done|].
  by rewrite sort_insert_perm, IH.
Qed.

Lemma sort_length cmp l : length (sort cmp l) = length l.
Proof. by rewrite (sort_perm cmp l). Qed.

Lemma sort_insert_sorted cmp x l :
  (∀ a b, cmp a b ≤ 0 ∨ cmp b a ≤ 0) →
  Sorted (λ a b, cmp a b ≤ 0) l →
  Sorted (λ a b, cmp a b ≤ 0) (sort_insert cmp x l).
Proof.
  intros Htot. induction 1 as [|y l Hl IH Hhd]; simpl.
  - repeat constructor.
  - destruct (Z.leb_spec (cmp x y) 0) as [Hle|Hgt].
    + repeat constructor; done.
    + constructor; [done|].
      destruct l as [|z l]; simpl in *.
      * constructor. destruct (Htot x y); lia.
      * destruct (Z.leb_spec (cmp x z) 0).
        -- constructor. destruct (Htot x y); lia.
        -- constructor. by inv Hhd.
Qed.

Lemma sort_sorted cmp l :
  (∀ a b, cmp a b ≤ 0 ∨ cmp b a ≤ 0) →
  Sorted (λ a b, cmp a b ≤ 0) (sort cmp l).
Proof.
  intros Htot. induction l as [|x l IH]; simpl; [constructor|].
  by apply sort_insert_sorted.
Qed.

Lemma sort_insert_fmap {B} (f : B → A) cmp (x : B) (l : list B) :
  f <$> sort_insert (λ a b, cmp (f a) (f b)) x l =
  sort_insert cmp (f x) (f <$> l).
Proof.
  induction l as [|y l IH]; [done|].
  rewrite fmap_cons. cbn [sort_insert].
  destruct (cmp (f x) (f y) <=? 0); [done|].
  by rewrite fmap_cons, IH.
Qed.

Lemma sort_fmap {B} (f : B → A) cmp (l : list B) :
  f <$> sort (λ a b, cmp (f a) (f b)) l = sort cmp (f <$> l).
Proof.
  induction l as [|x l IH]; [done|].
  rewrite fmap_cons. cbn [sort]. rewrite <-IH. apply sort_insert_fmap.
Qed.

(** a comparison that agrees with another one on the elements of the list *)
Lemma sort_insert_ext cmp cmp' x l :
  (∀ y, y ∈ l → cmp x y = cmp' x y) →
  sort_insert cmp x l = sort_insert cmp' x l.
Proof.
  induction l as [|y l IH]; intros Heq; simpl; [done|].
  rewrite Heq by left. destruct (cmp' x y <=? 0); [done|].
  f_equal. apply IH. intros z Hz. apply Heq. by right.
Qed.

Lemma sort_ext cmp cmp' l :
  (∀ x y, x ∈ l → y ∈ l → cmp x y = cmp' x y) →
  sort cmp l = sort cmp' l.
Proof.
  induction l as [|x l IH]; intros Heq; simpl; [done|].
  rewrite IH by (intros; apply Heq; by right).
  apply sort_insert_ext. intros y Hy. apply Heq; [left|].
  right. by rewrite <-(sort_perm cmp' l).
Qed.

Lemma StronglySorted_lookup (R : relation A) l :
  StronglySorted R l ↔
  ∀ (i j : nat) x y, l !! i = Some x → l !! j = Some y → (i < j)%nat → R x y.
Proof.
  split.
  - induction 1 as [|x l Hl IH Hx]; intros i j a b Hi Hj Hij.
    + by rewrite lookup_nil in Hi.
    + destruct j as [|j]; [lia|]. destruct i as [|i]; simpl in *.
      * injection Hi as <-. rewrite Forall_forall in Hx.
        apply Hx. by eapply list_elem_of_lookup_2.
      * eapply IH; eauto. lia.
  - induction l as [|x l IH]; intros Hl; constructor.
    + apply IH. intros i j a b Hi Hj Hij. apply (Hl (S i) (S j)); auto. lia.
    + apply Forall_forall. intros y Hy.
      apply list_elem_of_lookup in Hy as [j Hj].
      apply (Hl 0%nat (S j)); auto. lia.
Qed.


End ListFacts.

Section SortFacts.
Context {A : Type}.
Implicit Types (l : list A).

Lemma Sorted_weaken (R R' : relation A) l :
  (∀ a b, R a b → R' a b) → Sorted R l → Sorted R' l.
Proof.
  intros HR. induction 1 as [|x l Hl IH Hhd]; constructor; [done|].
  destruct Hhd; constructor; auto.
Qed.

Lemma StronglySorted_weaken (R R' : relation A) l :
  (∀ a b, R a b → R' a b) → StronglySorted R l → StronglySorted R' l.
Proof.
  intros HR. induction 1 as [|x l Hl IH Hx]; constructor; [done|].
  eapply Forall_impl; eauto.
Qed.

(** the elements of a list that is strictly ordered by [f] differ in [f] *)
Lemma strictly_sorted_inj (f : A → Z) l x y :
  StronglySorted Z.lt (f <$> l) → x ∈ l → y ∈ l → f x = f y → x = y.
Proof.
  rewrite StronglySorted_lookup.
  intros Hs [i Hi]%list_elem_of_lookup [j Hj]%list_elem_of_lookup Heq.
  assert (f <$> l !! i = Some (f x)) as Hi' by (by rewrite Hi).
  assert (f <$> l !! j = Some (f y)) as Hj' by (by rewrite Hj).
  rewrite <-!list_lookup_fmap in Hi', Hj'.
  destruct (lt_eq_lt_dec i j) as [[Hlt|Heq']|Hgt].
  - pose proof (Hs i j _ _ Hi' Hj' Hlt). lia.
  - subst. congruence.
  - pose proof (Hs j i _ _ Hj' Hi' Hgt). lia.
Qed.

(** sorting a rearrangement of a strictly ordered list gives that list *)
Lemma sort_strictly_sorted (f : A → Z) (cmp : A → A → Z) l l0 :
  (∀ a b, cmp a b ≤ 0 ↔ f a ≤ f b) →
  l ≡ₚ l0 → StronglySorted Z.lt (f <$> l0) → sort cmp l = l0.
Proof.
  intros Hcmp Hperm Hs.
  apply (StronglySorted_unique_strong (λ a b, f a ≤ f b)).
  - intros x1 x2 Hx1 Hx2 H12 H21.
    apply (strictly_sorted_inj f l0); [done| |done|lia].
    by rewrite <-Hperm, <-(sort_perm cmp l).
  - apply Sorted_StronglySorted.
    + intros a b c. lia.
    + apply (Sorted_weaken (λ a b, cmp a b ≤ 0)); [intros; by apply Hcmp|].
      apply sort_sorted. intros a b. rewrite !Hcmp. lia.
  - apply StronglySorted_lookup. intros i j x y Hi Hj Hij.
    rewrite StronglySorted_lookup in Hs.
    assert (f x < f y); [|lia].
    apply (Hs i j); [by rewrite list_lookup_fmap, Hi
                    |by rewrite list_lookup_fmap, Hj|done].
  - by rewrite sort_perm.
Qed.

End SortFacts.

(** ** Arithmetic of well-formed blocks *)

Ltac zpow :=
  change (2 ^ 16) with 65536 in *;
  change (2 ^ 31) with 2147483648 in *;
  change (2 ^ 32) with 4294967296 in *;
  change (2 ^ 64) with 18446744073709551616 in *.

Lemma u16_small (x : Z) : 0 ≤ x < 2 ^ 16 → u16 x = x.
Proof. apply Z.mod_small. Qed.

Lemma u32_small (x : Z) : 0 ≤ x < 2 ^ 32 → u32 x = x.
Proof. apply Z.mod_small. Qed.

Lemma s32_small (x : Z) : - 2 ^ 31 ≤ x < 2 ^ 31 → s32 x = x.
Proof.
  intros Hx. unfold s32, u32. zpow.
  pose proof (Z.mod_pos_bound x 4294967296).
  pose proof (Z.div_mod x 4294967296).
  destruct (Z.ltb_spec (x mod 4294967296) 2147483648); lia.
Qed.

Section WfFacts.
Context `{Format} `{!FormatOK}.

Lemma format_bounds :
  0 < BTREE_ITEM_BYTES ∧ 0 < BTREE_BLOCK_BYTES ∧
  BTREE_BLOCK_BYTES + 2 + BTREE_ITEM_BYTES ≤ SCOUTFS_BLOCK_SIZE ∧
  SCOUTFS_BLOCK_SIZE < 65536.
Proof.
  pose proof item_bytes_pos. pose proof block_bytes_pos.
  pose proof block_bytes_le. pose proof block_size_u16.
  unfold OFF_BYTES in *. zpow. lia.
Qed.

Lemma val_bytes_small (val_len : Z) :
  0 ≤ val_len < 2 ^ 16 → val_bytes val_len = BTREE_ITEM_BYTES + val_len.
Proof.
  intros Hv. pose proof format_bounds. unfold val_bytes.
  apply u32_small. zpow. lia.
Qed.

Lemma all_val_bytes_small (val_len : Z) :
  0 ≤ val_len < 2 ^ 16 →
  all_val_bytes val_len = 2 + BTREE_ITEM_BYTES + val_len.
Proof.
  intros Hv. pose proof format_bounds. unfold all_val_bytes, OFF_BYTES.
  rewrite val_bytes_small by done. rewrite u32_small; zpow; lia.
Qed.

Lemma nr_items_nonneg (bt : scoutfs_btree_block) : 0 ≤ nr_items bt.
Proof. unfold nr_items. lia. Qed.

Lemma wf_item_bytes (bt : scoutfs_btree_block) (off : Z) :
  wf_block bt → off ∈ item_offs bt →
  item_bytes (off_item bt off) =
    BTREE_ITEM_BYTES + item_val_len (off_item bt off) ∧
  0 < item_bytes (off_item bt off).
Proof.
  intros Hwf Hin. pose proof format_bounds.
  pose proof (wf_val_len _ Hwf off Hin).
  unfold item_bytes. rewrite val_bytes_small by done. lia.
Qed.

Lemma wf_all_item_bytes (bt : scoutfs_btree_block) (off : Z) :
  wf_block bt → off ∈ item_offs bt →
  all_item_bytes (off_item bt off) = 2 + item_bytes (off_item bt off).
Proof.
  intros Hwf Hin. pose proof (wf_val_len _ Hwf off Hin).
  unfold all_item_bytes, item_bytes.
  rewrite all_val_bytes_small, val_bytes_small by done. lia.
Qed.

Lemma wf_items_nonneg (bt : scoutfs_btree_block) :
  wf_block bt → Forall (λ x, 0 ≤ x) (item_bytes <$> block_items bt).
Proof.
  intros Hwf. unfold block_items. rewrite <-list_fmap_compose.
  apply Forall_fmap, Forall_forall. intros off Hin. simpl.
  pose proof (wf_item_bytes bt off Hwf Hin). lia.
Qed.

Lemma wf_contig_free (bt : scoutfs_btree_block) :
  wf_block bt →
  contig_free bt = free_end bt - BTREE_BLOCK_BYTES - 2 * nr_items bt.
Proof.
  intros Hwf. pose proof format_bounds. pose proof (wf_free_end _ Hwf).
  pose proof (nr_items_nonneg bt).
  unfold contig_free, item_offs_end, OFF_BYTES in *.
  rewrite u32_small; zpow; lia.
Qed.

Lemma wf_reclaimable_free (bt : scoutfs_btree_block) :
  wf_block bt →
  reclaimable_free bt =
    free_end bt - BTREE_BLOCK_BYTES - 2 * nr_items bt + free_reclaim bt.
Proof.
  intros Hwf. pose proof format_bounds. pose proof (wf_free_end _ Hwf).
  pose proof (wf_reclaim _ Hwf) as [? Hsum].
  pose proof (sum_list_Z_nonneg _ (wf_items_nonneg _ Hwf)).
  unfold reclaimable_free. rewrite wf_contig_free by done.
  pose proof (nr_items_nonneg bt).
  unfold item_offs_end, OFF_BYTES in *. rewrite u32_small; zpow; lia.
Qed.

Lemma wf_used_total (bt : scoutfs_btree_block) :
  wf_block bt →
  used_total bt =
    2 * nr_items bt + sum_list_Z (item_bytes <$> block_items bt).
Proof.
  intros Hwf. pose proof format_bounds. pose proof (wf_free_end _ Hwf).
  pose proof (wf_reclaim _ Hwf) as [? Hsum].
  pose proof (sum_list_Z_nonneg _ (wf_items_nonneg _ Hwf)).
  pose proof (nr_items_nonneg bt).
  unfold used_total. rewrite wf_reclaimable_free by done.
  pose proof (nr_items_nonneg bt).
  unfold item_offs_end, OFF_BYTES in *. rewrite u32_small; zpow; lia.
Qed.

(** the three add up to the space behind the block header *)
Lemma wf_space (bt : scoutfs_btree_block) :
  wf_block bt →
  contig_free bt + free_reclaim bt + used_total bt + BTREE_BLOCK_BYTES =
    SCOUTFS_BLOCK_SIZE.
Proof.
  intros Hwf. pose proof (wf_reclaim _ Hwf) as [? Hsum].
  rewrite wf_contig_free, wf_used_total by done. lia.
Qed.

(** *** Positions *)

Lemma pos_off_lookup (bt : scoutfs_btree_block) (pos : Z) :
  0 ≤ pos < nr_items bt →
  item_offs bt !! Z.to_nat pos = Some (pos_off bt pos).
Proof.
  intros Hp. unfold pos_off, nr_items in *.
  destruct (Z.ltb_spec pos 0); [lia|].
  destruct (item_offs bt !! Z.to_nat pos) eqn:Hl; [done|].
  apply lookup_ge_None in Hl. lia.
Qed.

Lemma pos_off_elem (bt : scoutfs_btree_block) (pos : Z) :
  0 ≤ pos < nr_items bt → pos_off bt pos ∈ item_offs bt.
Proof.
  intros Hp. eapply list_elem_of_lookup_2. by apply pos_off_lookup.
Qed.

Lemma pos_item_lookup (bt : scoutfs_btree_block) (pos : Z) :
  0 ≤ pos < nr_items bt →
  block_items bt !! Z.to_nat pos = Some (pos_item bt pos).
Proof.
  intros Hp. unfold block_items, pos_item.
  by rewrite list_lookup_fmap, pos_off_lookup.
Qed.

Lemma lookup_pos_off (bt : scoutfs_btree_block) (i : nat) (off : Z) :
  item_offs bt !! i = Some off → pos_off bt (Z.of_nat i) = off.
Proof.
  intros Hl. unfold pos_off.
  destruct (Z.ltb_spec (Z.of_nat i) 0); [lia|].
  by rewrite Nat2Z.id, Hl.
Qed.

Lemma block_items_length (bt : scoutfs_btree_block) :
  Z.of_nat (length (block_items bt)) = nr_items bt.
Proof. unfold block_items, nr_items. by rewrite length_fmap. Qed.

Lemma key_sorted_items (bt : scoutfs_btree_block) :
  key_sorted bt ↔ StronglySorted Z.lt (item_key <$> block_items bt).
Proof.
  rewrite StronglySorted_lookup. split.
  - intros Hs i j x y Hi Hj Hij.
    rewrite list_lookup_fmap in Hi, Hj.
    destruct (block_items bt !! i) as [a|] eqn:Ha; [|done].
    destruct (block_items bt !! j) as [b|] eqn:Hb; [|done].
    injection Hi as <-. injection Hj as <-.
    pose proof (lookup_lt_Some _ _ _ Hb) as Hlen.
    pose proof (block_items_length bt).
    assert (0 ≤ Z.of_nat i < nr_items bt) as Hi' by lia.
    assert (0 ≤ Z.of_nat j < nr_items bt) as Hj' by lia.
    apply pos_item_lookup in Hi', Hj'. rewrite Nat2Z.id in Hi', Hj'.
    assert (a = pos_item bt (Z.of_nat i)) as -> by congruence.
    assert (b = pos_item bt (Z.of_nat j)) as -> by congruence.
    apply Hs; lia.
  - intros Hs i j Hi Hij Hj.
    apply (Hs (Z.to_nat i) (Z.to_nat j)); [| |lia].
    + by rewrite list_lookup_fmap, pos_item_lookup by lia.
    + by rewrite list_lookup_fmap, pos_item_lookup by lia.
Qed.

End WfFacts.

(** ** Items come and go: what the block operations do to a well-formed block *)

Section ItemOps.
Context `{Format} `{!FormatOK}.

Lemma off_item_store_eq (bt : scoutfs_btree_block) off v :
  off_item (store_item off v bt) off = v.
Proof. unfold off_item, store_item. simpl. by rewrite lookup_insert_eq. Qed.

Lemma off_item_store_ne (bt : scoutfs_btree_block) off off' v :
  off ≠ off' → off_item (store_item off v bt) off' = off_item bt off'.
Proof.
  intros Hne. unfold off_item, store_item. simpl.
  by rewrite lookup_insert_ne.
Qed.

Lemma block_items_ext (bt bt' : scoutfs_btree_block) (l : list Z) :
  (∀ off, off ∈ l → off_item bt' off = off_item bt off) →
  off_item bt' <$> l = off_item bt <$> l.
Proof.
  intros Heq. apply list_fmap_ext. intros i off Hl.
  apply Heq. by eapply list_elem_of_lookup_2.
Qed.

Lemma items_bytes_sum_perm (bt : scoutfs_btree_block) (l1 l2 : list Z) :
  l1 ≡ₚ l2 →
  sum_list_Z (item_bytes <$> (off_item bt <$> l1)) =
  sum_list_Z (item_bytes <$> (off_item bt <$> l2)).
Proof. intros Hp. apply sum_list_Z_perm. by rewrite Hp. Qed.

(** a block that gained one item at the new [free_end] *)
Lemma wf_block_add (bt bt' : scoutfs_btree_block) (to : Z) :
  wf_block bt →
  item_offs bt' ≡ₚ to :: item_offs bt →
  (∀ off, off ∈ item_offs bt → off_item bt' off = off_item bt off) →
  0 ≤ item_val_len (off_item bt' to) < 2 ^ 16 →
  to = free_end bt - (BTREE_ITEM_BYTES + item_val_len (off_item bt' to)) →
  item_offs_end (nr_items bt + 1) ≤ to →
  free_end bt' = to →
  free_reclaim bt' = free_reclaim bt →
  wf_block bt'.
Proof.
  intros Hwf Hperm Hext Hlen Hto Hroom Hfe Hfr.
  pose proof format_bounds as Hfmt.
  pose proof (wf_free_end _ Hwf) as [Hfe1 Hfe2].
  assert (nr_items bt' = nr_items bt + 1) as Hnr.
  { unfold nr_items. rewrite Hperm. simpl. lia. }
  assert (item_bytes (off_item bt' to) =
          BTREE_ITEM_BYTES + item_val_len (off_item bt' to)) as Hbytes.
  { unfold item_bytes. by rewrite val_bytes_small. }
  assert (to ∉ item_offs bt) as Hnotin.
  { intros Hin. apply (wf_range _ Hwf) in Hin. lia. }
  assert (∀ off, off ∈ item_offs bt' ↔ off = to ∨ off ∈ item_offs bt)
    as Hmem.
  { intros off. rewrite Hperm. apply elem_of_cons. }
  split.
  - rewrite Hperm. apply NoDup_cons. split; [done|]. apply Hwf.
  - rewrite Hnr, Hfe. lia.
  - intros off [->|Hin]%Hmem; [done|].
    rewrite Hext by done. by apply (wf_val_len _ Hwf).
  - intros off [->|Hin]%Hmem.
    + rewrite Hbytes. lia.
    + rewrite Hext by done. pose proof (wf_range _ Hwf off Hin). lia.
  - intros a b [->|Ha]%Hmem [->|Hb]%Hmem Hab.
    + lia.
    + rewrite Hbytes. pose proof (wf_range _ Hwf b Hb). lia.
    + pose proof (wf_range _ Hwf a Ha). lia.
    + rewrite Hext by done. by apply (wf_disjoint _ Hwf).
  - pose proof (wf_reclaim _ Hwf) as [Hr1 Hr2].
    rewrite Hfr, Hfe. split; [done|].
    unfold block_items in *.
    rewrite (sum_list_Z_perm _ (item_bytes <$> (off_item bt' <$>
               to :: item_offs bt))) by (by rewrite Hperm).
    rewrite fmap_cons, fmap_cons. cbn [sum_list_Z].
    rewrite (block_items_ext bt bt') by done.
    rewrite Hbytes. lia.
Qed.

(** a block that lost the item at [off] *)
Lemma wf_block_remove (bt bt' : scoutfs_btree_block) (off : Z) :
  wf_block bt →
  item_offs bt ≡ₚ off :: item_offs bt' →
  (∀ o, o ∈ item_offs bt' → off_item bt' o = off_item bt o) →
  free_end bt' = free_end bt →
  free_reclaim bt' = free_reclaim bt + item_bytes (off_item bt off) →
  wf_block bt'.
Proof.
  intros Hwf Hperm Hext Hfe Hfr.
  pose proof format_bounds as Hfmt.
  pose proof (wf_free_end _ Hwf) as [Hfe1 Hfe2].
  assert (nr_items bt = nr_items bt' + 1) as Hnr.
  { unfold nr_items. rewrite Hperm. simpl. lia. }
  assert (∀ o, o ∈ item_offs bt' → o ∈ item_offs bt) as Hmem.
  { intros o Ho. rewrite Hperm. by right. }
  assert (off ∈ item_offs bt) as Hoff by (rewrite Hperm; left).
  pose proof (wf_item_bytes bt off Hwf Hoff) as [_ Hpos].
  split.
  - pose proof (wf_nodup _ Hwf) as Hnd. rewrite Hperm in Hnd.
    by apply NoDup_cons in Hnd as [_ ?].
  - rewrite Hfe. unfold item_offs_end, OFF_BYTES in *. lia.
  - intros o Ho. rewrite Hext by done. apply (wf_val_len _ Hwf); auto.
  - intros o Ho. rewrite Hext, Hfe by done. apply (wf_range _ Hwf); auto.
  - intros a b Ha Hb Hab. rewrite Hext by done.
    apply (wf_disjoint _ Hwf); auto.
  - pose proof (wf_reclaim _ Hwf) as [Hr1 Hr2].
    rewrite Hfr, Hfe. split; [lia|].
    unfold block_items in *.
    rewrite (block_items_ext bt bt') by done.
    rewrite (items_bytes_sum_perm bt _ _ Hperm) in Hr2.
    rewrite !fmap_cons in Hr2. cbn [sum_list_Z] in Hr2.
    lia.
Qed.

(** a block whose array was reordered and whose listed items are the same *)
Lemma wf_block_perm (bt bt' : scoutfs_btree_block) :
  wf_block bt →
  item_offs bt' ≡ₚ item_offs bt →
  (∀ o, o ∈ item_offs bt → off_item bt' o = off_item bt o) →
  free_end bt' = free_end bt →
  free_reclaim bt' = free_reclaim bt →
  wf_block bt'.
Proof.
  intros Hwf Hperm Hext Hfe Hfr.
  assert (nr_items bt' = nr_items bt) as Hnr.
  { unfold nr_items. by rewrite Hperm. }
  assert (∀ o, o ∈ item_offs bt' → o ∈ item_offs bt) as Hmem.
  { intros o Ho. by rewrite <-Hperm. }
  split.
  - rewrite Hperm. apply Hwf.
  - rewrite Hnr, Hfe. apply Hwf.
  - intros o Ho. rewrite Hext by auto. apply (wf_val_len _ Hwf); auto.
  - intros o Ho. rewrite Hext, Hfe by auto. apply (wf_range _ Hwf); auto.
  - intros a b Ha Hb Hab. rewrite Hext by auto.
    apply (wf_disjoint _ Hwf); auto.
  - pose proof (wf_reclaim _ Hwf) as [Hr1 Hr2].
    rewrite Hfr, Hfe. split; [done|]. rewrite <-Hr2. f_equal.
    unfold block_items. rewrite (block_items_ext bt bt') by auto.
    by apply items_bytes_sum_perm.
Qed.


Lemma insert_at_perm {A} (n : nat) (x : A) (l : list A) :
  take n l ++ x :: drop n l ≡ₚ x :: l.
Proof. by rewrite <-Permutation_middle, take_drop. Qed.

(** create_item() followed by a store of [v] to the new item; create_item()
    alone is the case where [v] is the item it has just written *)
Lemma create_item_store (bt : scoutfs_btree_block) (pos key val_len : Z)
    (v : scoutfs_btree_item) :
  wf_block bt →
  0 ≤ pos ≤ nr_items bt →
  0 ≤ val_len < 2 ^ 16 →
  all_val_bytes val_len ≤ contig_free bt →
  item_val_len v = val_len →
  let bt' := store_item (create_item bt pos key val_len).2 v
               (create_item bt pos key val_len).1 in
  wf_block bt' ∧
  block_items bt' =
    take (Z.to_nat pos) (block_items bt) ++ v ::
    drop (Z.to_nat pos) (block_items bt) ∧
  nr_items bt' = nr_items bt + 1 ∧
  free_end bt' = free_end bt - (BTREE_ITEM_BYTES + val_len) ∧
  free_reclaim bt' = free_reclaim bt ∧
  hdr_blkno bt' = hdr_blkno bt ∧ hdr_seq bt' = hdr_seq bt.
Proof.
  intros Hwf Hpos Hlen Hroom Hv.
  pose proof format_bounds as Hfmt.
  pose proof (wf_free_end _ Hwf) as [Hfe1 Hfe2].
  pose proof (nr_items_nonneg bt) as Hnr0.
  rewrite all_val_bytes_small, wf_contig_free in Hroom by done.
  unfold item_offs_end, OFF_BYTES in Hfe1.
  set (to := free_end bt - (BTREE_ITEM_BYTES + val_len)).
  assert (u16 (free_end bt - val_bytes val_len) = to) as Hto.
  { rewrite val_bytes_small by done. apply u16_small.
    unfold to. zpow. lia. }
  unfold create_item. rewrite Hto. cbn [fst snd].
  match goal with
  | |- context [store_item to v ?b] => set (bt' := store_item to v b)
  end.
  assert (to ∉ item_offs bt) as Hnotin.
  { intros Hin. apply (wf_range _ Hwf) in Hin. unfold to in Hin. lia. }
  assert (∀ off, off ∈ item_offs bt → off_item bt' off = off_item bt off)
    as Hext.
  { intros off Hin. unfold bt'. rewrite off_item_store_ne.
    - unfold off_item, store_item. simpl. rewrite lookup_insert_ne; [done|].
      intros ->. done.
    - intros ->. done. }
  assert (off_item bt' to = v) as Hnew
    by (unfold bt'; apply off_item_store_eq).
  assert (item_offs bt' = take (Z.to_nat pos) (item_offs bt) ++
            to :: drop (Z.to_nat pos) (item_offs bt)) as Hoffs by done.
  split; [|split; [|split]].
  - apply (wf_block_add bt bt' to); try done.
    + rewrite Hoffs. apply insert_at_perm.
    + rewrite Hnew, Hv. done.
    + rewrite Hnew, Hv. done.
    + unfold item_offs_end, OFF_BYTES, to. lia.
  - unfold block_items. rewrite Hoffs, fmap_app, fmap_cons, Hnew.
    rewrite <-fmap_take, <-fmap_drop.
    f_equal; [|f_equal]; apply block_items_ext; intros off Hin;
      apply Hext.
    + by eapply subseteq_take.
    + by eapply subseteq_drop.
  - unfold nr_items. rewrite Hoffs, length_app. simpl.
    rewrite length_take, length_drop. unfold nr_items in Hpos. lia.
  - done.
Qed.

Lemma create_item_new (bt : scoutfs_btree_block) (pos key val_len : Z) :
  let r := create_item bt pos key val_len in
  store_item r.2 (off_item r.1 r.2) r.1 = r.1.
Proof.
  unfold create_item, store_item, off_item, set_item_mem. simpl.
  rewrite lookup_insert_eq. simpl. by rewrite insert_insert_eq.
Qed.

Lemma create_item_off_item (bt : scoutfs_btree_block) (pos key val_len : Z) :
  let r := create_item bt pos key val_len in
  off_item r.1 r.2 =
    {| item_key := key; item_seq := hdr_seq bt;
       item_val_len := u16 val_len;
       item_val := item_val (off_item bt r.2) |}.
Proof.
  unfold create_item, store_item, off_item, set_item_mem. simpl.
  by rewrite lookup_insert_eq.
Qed.

Lemma delete_item_wf (bt : scoutfs_btree_block) (pos : Z) :
  wf_block bt →
  0 ≤ pos < nr_items bt →
  let bt' := delete_item bt pos in
  wf_block bt' ∧
  block_items bt' =
    take (Z.to_nat pos) (block_items bt) ++
    drop (S (Z.to_nat pos)) (block_items bt) ∧
  nr_items bt' = nr_items bt - 1 ∧
  free_end bt' = free_end bt ∧
  free_reclaim bt' = free_reclaim bt + item_bytes (pos_item bt pos) ∧
  hdr_blkno bt' = hdr_blkno bt ∧ hdr_seq bt' = hdr_seq bt.
Proof.
  intros Hwf Hpos.
  pose proof format_bounds as Hfmt.
  pose proof (wf_free_end _ Hwf) as [Hfe1 Hfe2].
  pose proof (wf_reclaim _ Hwf) as [Hr1 Hr2].
  pose proof (sum_list_Z_nonneg _ (wf_items_nonneg _ Hwf)) as Hsum.
  pose proof (pos_off_lookup bt pos Hpos) as Hl.
  pose proof (pos_off_elem bt pos Hpos) as Hin.
  pose proof (wf_item_bytes bt _ Hwf Hin) as [_ Hb].
  pose proof (wf_range _ Hwf _ Hin) as [Hrg1 Hrg2].
  unfold item_offs_end, OFF_BYTES in Hfe1.
  set (off := pos_off bt pos) in *.
  set (n := Z.to_nat pos).
  assert (u32 (nr_items bt - 1) = nr_items bt - 1) as Hu
    by (apply u32_small; zpow; lia).
  assert (length (item_offs bt) = Z.to_nat (nr_items bt)) as Hlen
    by (unfold nr_items; lia).
  assert (item_offs (delete_item bt pos) =
          take n (item_offs bt) ++ drop (S n) (item_offs bt)) as Hoffs.
  { unfold delete_item. cbn [item_offs set_item_mem set_item_offs].
    rewrite Hu. destruct (Z.ltb_spec pos (nr_items bt - 1)).
    - apply take_ge. rewrite length_app, length_take, length_drop. lia.
    - assert (pos = nr_items bt - 1) as Hp by lia.
      rewrite <-Hp. fold n. rewrite (drop_ge _ (S n)) by lia.
      by rewrite app_nil_r. }
  assert (item_offs bt ≡ₚ off :: item_offs (delete_item bt pos)) as Hperm.
  { rewrite Hoffs, Permutation_middle. by rewrite take_drop_middle. }
  assert (off ∉ item_offs (delete_item bt pos)) as Hnotin.
  { pose proof (wf_nodup _ Hwf) as Hnd. rewrite Hperm in Hnd.
    by apply NoDup_cons in Hnd as [? _]. }
  assert (∀ o, o ∈ item_offs (delete_item bt pos) →
               off_item (delete_item bt pos) o = off_item bt o) as Hext.
  { intros o Ho. unfold delete_item, off_item. simpl.
    fold off. rewrite lookup_delete_ne; [done|]. intros ->. done. }
  assert (free_reclaim (delete_item bt pos) =
          free_reclaim bt + item_bytes (off_item bt off)) as Hfr.
  { unfold delete_item. simpl. fold off. apply u16_small.
    unfold block_items in Hr2.
    rewrite (items_bytes_sum_perm bt _ _ Hperm) in Hr2.
    rewrite !fmap_cons in Hr2. cbn [sum_list_Z] in Hr2.
    assert (0 ≤ sum_list_Z (item_bytes <$>
              (off_item bt <$> item_offs (delete_item bt pos)))).
    { apply sum_list_Z_nonneg. rewrite <-list_fmap_compose.
      apply Forall_fmap, Forall_forall. intros o Ho. simpl.
      assert (o ∈ item_offs bt) as Ho' by (rewrite Hperm; by right).
      pose proof (wf_item_bytes bt o Hwf Ho'). lia. }
    zpow. lia. }
  intros bt'. split; [|split; [|split; [|split; [|split]]]].
  - by apply (wf_block_remove bt bt' off).
  - unfold block_items. fold bt' in Hoffs, Hext.
    rewrite (block_items_ext bt bt') by done.
    rewrite Hoffs, fmap_app, fmap_take, fmap_drop. done.
  - unfold nr_items. rewrite Hperm. simpl. lia.
  - done.
  - done.
  - done.
Qed.

Lemma delete_item_offs (bt : scoutfs_btree_block) (pos : Z) :
  wf_block bt →
  0 ≤ pos < nr_items bt →
  item_offs (delete_item bt pos) =
    take (Z.to_nat pos) (item_offs bt) ++
    drop (S (Z.to_nat pos)) (item_offs bt).
Proof.
  intros Hwf Hpos.
  pose proof format_bounds as Hfmt.
  pose proof (wf_free_end _ Hwf) as [Hfe1 Hfe2].
  unfold item_offs_end, OFF_BYTES in Hfe1.
  assert (u32 (nr_items bt - 1) = nr_items bt - 1) as Hu
    by (apply u32_small; zpow; lia).
  assert (length (item_offs bt) = Z.to_nat (nr_items bt)) as Hlen
    by (unfold nr_items; lia).
  unfold delete_item. cbn [item_offs set_item_mem set_item_offs].
  rewrite Hu. destruct (Z.ltb_spec pos (nr_items bt - 1)).
  - apply take_ge. rewrite length_app, length_take, length_drop. lia.
  - assert (pos = nr_items bt - 1) as Hp by lia.
    rewrite <-Hp. rewrite (drop_ge _ (S (Z.to_nat pos))) by lia.
    by rewrite app_nil_r.
Qed.

End ItemOps.

(** ** Compaction *)

Section Compaction.
Context `{Format} `{!FormatOK}.

Lemma packed_offs_length sizes e :
  length (packed_offs sizes e) = length sizes.
Proof. induction sizes; simpl; auto. Qed.

Lemma packed_offs_bounds sizes e :
  Forall (λ s, 0 < s) sizes →
  ∀ o, o ∈ packed_offs sizes e → e - sum_list_Z sizes ≤ o < e.
Proof.
  induction 1 as [|s sizes Hs Hall IH]; intros o Ho; simpl in *.
  - by apply elem_of_nil in Ho.
  - assert (0 ≤ sum_list_Z sizes).
    { apply sum_list_Z_nonneg. eapply Forall_impl; [done|]. simpl. lia. }
    apply elem_of_cons in Ho as [->|Ho]; [lia|].
    apply IH in Ho. lia.
Qed.

Lemma tiles_packed_offs (bt : scoutfs_btree_block) sizes e :
  (item_bytes ∘ off_item bt) <$> packed_offs sizes e = sizes →
  tiles bt (packed_offs sizes e) (e - sum_list_Z sizes) e.
Proof.
  induction sizes as [|s sizes IH]; simpl; intros Heq; [lia|].
  injection Heq as Hs Hrest. split; [done|].
  rewrite Hs. replace (e - (s + sum_list_Z sizes) + s)
    with (e - sum_list_Z sizes) by lia.
  by apply IH.
Qed.

Lemma tiles_set_item_offs (bt : scoutfs_btree_block) l offs a b :
  tiles bt offs a b → tiles (set_item_offs l bt) offs a b.
Proof.
  revert a. induction offs as [|o offs IH]; intros a; simpl; [done|].
  intros [-> Ht]. split; [done|]. by apply IH.
Qed.

Lemma tiles_facts (bt : scoutfs_btree_block) offs a b :
  tiles bt offs a b →
  (∀ off, off ∈ offs → 0 < item_bytes (off_item bt off)) →
  (∀ off, off ∈ offs → a ≤ off ∧ off + item_bytes (off_item bt off) ≤ b) ∧
  NoDup offs ∧
  (∀ x y, x ∈ offs → y ∈ offs → x < y →
     x + item_bytes (off_item bt x) ≤ y) ∧
  sum_list_Z (item_bytes <$> (off_item bt <$> offs)) = b - a.
Proof.
  revert a. induction offs as [|o offs IH]; intros a Ht Hpos; cbn [tiles] in Ht.
  - split; [|split; [|split]].
    + intros ? []%elem_of_nil.
    + constructor.
    + intros ? ? []%elem_of_nil.
    + simpl. lia.
  - destruct Ht as [-> Ht].
    assert (0 < item_bytes (off_item bt a)) as Ha by (apply Hpos; left).
    destruct (IH _ Ht) as (Hrange & Hnd & Hdisj & Hsum).
    { intros off Hin. apply Hpos. by right. }
    assert (a + item_bytes (off_item bt a) ≤ b) as Hab.
    { assert (0 ≤ sum_list_Z (item_bytes <$> (off_item bt <$> offs))).
      { apply sum_list_Z_nonneg. rewrite <-list_fmap_compose.
        apply Forall_fmap, Forall_forall. intros x Hx. simpl.
        assert (0 < item_bytes (off_item bt x)) by (apply Hpos; by right).
        lia. }
      lia. }
    split; [|split; [|split]].
    + intros off [->|Hin]%elem_of_cons; [lia|].
      apply Hrange in Hin. lia.
    + apply NoDup_cons. split; [|done].
      intros Hin. apply Hrange in Hin. lia.
    + intros x y [->|Hx]%elem_of_cons [->|Hy]%elem_of_cons Hxy.
      * lia.
      * apply Hrange in Hy. lia.
      * apply Hrange in Hx. lia.
      * by apply Hdisj.
    + rewrite !fmap_cons. cbn [sum_list_Z]. lia.
Qed.

(** *** The loop

    [os] are the offsets in ascending order and [its] the items found there
    when compaction starts. *)
Section Loop.
Variables (os : list Z) (its : list scoutfs_btree_item).
Hypothesis Hlen : length its = length os.
Hypothesis Hsizes : Forall (λ it, 0 < item_bytes it) its.
Hypothesis Hnonneg : Forall (λ o, 0 ≤ o) os.
Hypothesis Hasc :
  ∀ (i j : nat) oi oj it,
    os !! i = Some oi → os !! j = Some oj → its !! i = Some it →
    (i < j)%nat → oi + item_bytes it ≤ oj.
Let sizes := item_bytes <$> its.

Lemma sizes_pos : Forall (λ s, 0 < s) sizes.
Proof. unfold sizes. by apply Forall_fmap. Qed.

Lemma drop_sizes_pos k : Forall (λ s, 0 < s) (drop k sizes).
Proof. apply Forall_drop, sizes_pos. Qed.

Lemma drop_sizes_sum_nonneg k : 0 ≤ sum_list_Z (drop k sizes).
Proof.
  apply sum_list_Z_nonneg. eapply Forall_impl; [apply drop_sizes_pos|].
  simpl. lia.
Qed.

Lemma compact_loop_spec (k : nat) :
  ∀ (bt : scoutfs_btree_block) (e : Z),
    (k ≤ length os)%nat →
    item_offs bt = take k os ++ packed_offs (drop k sizes) SCOUTFS_BLOCK_SIZE →
    e = SCOUTFS_BLOCK_SIZE - sum_list_Z (drop k sizes) →
    (∀ (i : nat) oi, (i < k)%nat → os !! i = Some oi →
       its !! i = Some (off_item bt oi)) →
    off_item bt <$> packed_offs (drop k sizes) SCOUTFS_BLOCK_SIZE =
      drop k its →
    (∀ (i : nat) oi it, (i < k)%nat → os !! i = Some oi →
       its !! i = Some it → oi + item_bytes it ≤ e) →
    let r := compact_loop k bt e in
    item_offs r.1 = packed_offs sizes SCOUTFS_BLOCK_SIZE ∧
    off_item r.1 <$> item_offs r.1 = its ∧
    r.2 = SCOUTFS_BLOCK_SIZE - sum_list_Z sizes ∧
    hdr_blkno r.1 = hdr_blkno bt ∧ hdr_seq r.1 = hdr_seq bt ∧
    free_end r.1 = free_end bt ∧ free_reclaim r.1 = free_reclaim bt.
Proof.
  pose proof format_bounds as Hfmt.
  induction k as [|k IH]; intros bt e Hk Hoffs He Hlow Hhigh Hroom.
  - simpl. rewrite drop_0 in *. simpl in Hoffs. by rewrite Hoffs.
  - cbn [compact_loop].
    assert (is_Some (os !! k)) as [ok Hok] by (apply lookup_lt_is_Some; lia).
    assert (is_Some (its !! k)) as [itk Hitk]
      by (apply lookup_lt_is_Some; lia).
    assert (pos_off bt (Z.of_nat k) = ok) as Hfrom.
    { apply lookup_pos_off. rewrite Hoffs, lookup_app_l.
      - by rewrite lookup_take_lt by lia.
      - rewrite length_take. lia. }
    rewrite Hfrom.
    assert (off_item bt ok = itk) as Hitem.
    { pose proof (Hlow k ok (Nat.lt_succ_diag_r k) Hok). congruence. }
    rewrite Hitem.
    assert (0 < item_bytes itk) as Hbk.
    { rewrite Forall_forall in Hsizes. apply Hsizes.
      by eapply list_elem_of_lookup_2. }
    assert (0 ≤ ok) as Hok0.
    { rewrite Forall_forall in Hnonneg. apply Hnonneg.
      by eapply list_elem_of_lookup_2. }
    pose proof (Hroom k ok itk (Nat.lt_succ_diag_r k) Hok Hitk) as Hfit.
    pose proof (drop_sizes_sum_nonneg (S k)) as Hsum.
    assert (drop k sizes = item_bytes itk :: drop (S k) sizes) as Hdrop.
    { apply drop_S. unfold sizes. by rewrite list_lookup_fmap, Hitk. }
    assert (u16 (e - item_bytes itk) = e - item_bytes itk) as Hu.
    { apply u16_small. zpow. lia. }
    rewrite Hu. set (e' := e - item_bytes itk).
    match goal with
    | |- context [compact_loop k ?b e'] => set (bt' := b)
    end.
    assert (item_offs bt' = take k os ++
              packed_offs (drop k sizes) SCOUTFS_BLOCK_SIZE) as Hoffs'.
    { assert (item_offs bt' = <[k := e']> (item_offs bt)) as ->.
      { unfold bt'. destruct (ok =? e'); done. }
      rewrite Hoffs, Hdrop. cbn [packed_offs].
      rewrite (take_S_r _ _ ok) by done. rewrite <-app_assoc. simpl.
      replace k with (length (take k os) + 0)%nat at 1
        by (rewrite length_take; lia).
      rewrite insert_app_r. simpl. do 2 f_equal.
      unfold e'. rewrite He. simpl. lia. }
    assert (off_item bt' e' = itk) as Hnew.
    { unfold bt'. destruct (Z.eqb_spec ok e') as [Heq|Hne].
      - unfold off_item. simpl. rewrite <-Heq. apply Hitem.
      - apply off_item_store_eq. }
    assert (∀ o, o ≠ e' → off_item bt' o = off_item bt o) as Hother.
    { intros o Hne. unfold bt'. destruct (Z.eqb_spec ok e'); [done|].
      by rewrite off_item_store_ne. }
    destruct (IH bt' e') as (H1 & H2 & H3 & H4 & H5 & H6 & H7).
    + lia.
    + done.
    + unfold e'. rewrite He, Hdrop. simpl. lia.
    + intros i oi Hi Hoi. rewrite Hother.
      * apply Hlow; [lia|done].
      * assert (is_Some (its !! i)) as [iti Hiti]
          by (apply lookup_lt_is_Some; apply lookup_lt_Some in Hoi; lia).
        pose proof (Hasc i k oi ok iti Hoi Hok Hiti Hi).
        assert (0 < item_bytes iti).
        { rewrite Forall_forall in Hsizes. apply Hsizes.
          by eapply list_elem_of_lookup_2. }
        unfold e'. lia.
    + rewrite Hdrop. cbn [packed_offs]. rewrite fmap_cons.
      rewrite (drop_S _ itk) by done. f_equal.
      * transitivity (off_item bt' e'); [|exact Hnew].
        f_equal. unfold e'. rewrite He. cbn [sum_list_Z]. lia.
      * rewrite <-Hhigh. apply block_items_ext. intros o Ho.
        apply Hother.
        apply packed_offs_bounds in Ho; [|apply drop_sizes_pos].
        unfold e'. lia.
    + intros i oi it Hi Hoi Hit.
      pose proof (Hasc i k oi ok it Hoi Hok Hit Hi). unfold e'. lia.
    + repeat split; try done.
      * rewrite H4. unfold bt'. destruct (ok =? e'); done.
      * rewrite H5. unfold bt'. destruct (ok =? e'); done.
      * rewrite H6. unfold bt'. destruct (ok =? e'); done.
      * rewrite H7. unfold bt'. destruct (ok =? e'); done.
Qed.

End Loop.

Lemma sort_off_sorted (l : list Z) :
  NoDup l →
  ∀ (i j : nat) oi oj,
    sort sort_off_cmp l !! i = Some oi →
    sort sort_off_cmp l !! j = Some oj → (i < j)%nat → oi < oj.
Proof.
  intros Hnd i j oi oj Hi Hj Hij.
  assert (StronglySorted Z.le (sort sort_off_cmp l)) as Hs.
  { apply Sorted_StronglySorted; [intros a b c; lia|].
    apply (Sorted_weaken (λ a b, sort_off_cmp a b ≤ 0)).
    - unfold sort_off_cmp. intros. lia.
    - apply sort_sorted. unfold sort_off_cmp. intros. lia. }
  rewrite StronglySorted_lookup in Hs.
  pose proof (Hs i j oi oj Hi Hj Hij).
  assert (oi ≠ oj); [|lia].
  intros ->. rewrite <-(sort_perm sort_off_cmp l) in Hnd.
  pose proof (NoDup_lookup _ _ _ _ Hnd Hi Hj). lia.
Qed.

Lemma compact_items_spec (bt : scoutfs_btree_block) :
  wf_block bt → key_sorted bt →
  let bt' := compact_items bt in
  block_items bt' = block_items bt ∧
  free_reclaim bt' = 0 ∧
  free_end bt' = free_end bt + free_reclaim bt ∧
  packed bt' ∧
  wf_block bt' ∧
  nr_items bt' = nr_items bt ∧
  hdr_blkno bt' = hdr_blkno bt ∧ hdr_seq bt' = hdr_seq bt.
Proof.
  intros Hwf Hks.
  pose proof format_bounds as Hfmt.
  pose proof (wf_free_end _ Hwf) as [Hfe1 Hfe2].
  pose proof (wf_reclaim _ Hwf) as [Hr1 Hr2].
  unfold compact_items.
  set (os := sort sort_off_cmp (item_offs bt)).
  set (its := off_item bt <$> os).
  assert (os ≡ₚ item_offs bt) as Hperm by apply sort_perm.
  assert (∀ o, o ∈ os → o ∈ item_offs bt) as Hmem
    by (intros o; by rewrite Hperm).
  assert (its ≡ₚ block_items bt) as Hperm_its.
  { unfold its, block_items. by rewrite Hperm. }
  assert (sum_list_Z (item_bytes <$> its) =
          SCOUTFS_BLOCK_SIZE - free_end bt - free_reclaim bt) as Hsum.
  { rewrite (sum_list_Z_perm _ (item_bytes <$> block_items bt)); [lia|].
    by rewrite Hperm_its. }
  cbn [item_offs set_item_offs].
  rewrite (u16_small SCOUTFS_BLOCK_SIZE) by (zpow; lia).
  destruct (compact_loop_spec os its) with (k := length os)
    (bt := set_item_offs os bt) (e := SCOUTFS_BLOCK_SIZE)
    as (H1 & H2 & H3 & H4 & H5 & H6 & H7).
  - unfold its. by rewrite length_fmap.
  - unfold its. apply Forall_fmap, Forall_forall. intros o Ho. simpl.
    apply (wf_item_bytes bt o Hwf). auto.
  - apply Forall_forall. intros o Ho.
    pose proof (wf_range _ Hwf o (Hmem o Ho)).
    unfold item_offs_end, OFF_BYTES in Hfe1.
    pose proof (nr_items_nonneg bt). lia.
  - intros i j oi oj it Hi Hj Hit Hij.
    unfold its in Hit. rewrite list_lookup_fmap, Hi in Hit.
    injection Hit as <-.
    apply (wf_disjoint _ Hwf).
    + apply Hmem. by eapply list_elem_of_lookup_2.
    + apply Hmem. by eapply list_elem_of_lookup_2.
    + eapply (sort_off_sorted (item_offs bt)); eauto. apply Hwf.
  - done.
  - cbn [item_offs set_item_offs].
    rewrite take_ge, drop_ge by (rewrite ?length_fmap; unfold its;
      rewrite ?length_fmap; lia).
    simpl. by rewrite app_nil_r.
  - rewrite drop_ge by (unfold its; rewrite !length_fmap; lia).
    simpl. lia.
  - intros i oi _ Hi. unfold its. rewrite list_lookup_fmap, Hi. done.
  - rewrite !drop_ge by (unfold its; rewrite ?length_fmap; lia). done.
  - intros i oi it _ Hi Hit.
    unfold its in Hit. rewrite list_lookup_fmap, Hi in Hit.
    injection Hit as <-.
    apply (wf_range _ Hwf). apply Hmem. by eapply list_elem_of_lookup_2.
  - destruct (compact_loop (length os) (set_item_offs os bt)
                SCOUTFS_BLOCK_SIZE) as [bt2 e] eqn:Hloop.
    cbn [fst snd] in *. cbn [item_offs set_free_end set_free_reclaim].
    set (bt3 := set_free_reclaim 0 (set_free_end e bt2)).
    set (po := packed_offs (item_bytes <$> its) SCOUTFS_BLOCK_SIZE) in *.
    assert (off_item bt3 <$> po = its) as Hits by (rewrite <-H1; exact H2).
    assert (sort (sort_key_cmp bt3) (item_offs bt2) ≡ₚ po) as Hperm_po
      by (rewrite H1; apply sort_perm).
    assert (StronglySorted Z.lt (item_key <$> block_items bt)) as Hss
      by (by apply key_sorted_items).
    assert (off_item bt3 <$> sort (sort_key_cmp bt3) (item_offs bt2) =
            block_items bt) as Hitems.
    { rewrite H1.
      rewrite (sort_fmap (off_item bt3)
                 (λ a b, scoutfs_key_cmp (item_key a) (item_key b))).
      rewrite Hits.
      apply (sort_strictly_sorted item_key); [|done|done].
      intros a b. unfold scoutfs_key_cmp.
      destruct (Z.compare_spec (item_key a) (item_key b)); lia. }
    assert (tiles bt3 po e SCOUTFS_BLOCK_SIZE) as Htiles.
    { rewrite H3. apply tiles_packed_offs.
      rewrite list_fmap_compose. fold po. by rewrite Hits. }
    assert (∀ o, o ∈ po → ∃ o', o' ∈ item_offs bt ∧
                                off_item bt3 o = off_item bt o') as Hsrc.
    { intros o Ho.
      assert (off_item bt3 o ∈ its) as Hin
        by (rewrite <-Hits; by apply list_elem_of_fmap_2).
      unfold its in Hin. apply list_elem_of_fmap in Hin as (o' & Heq & Ho').
      exists o'. auto. }
    destruct (tiles_facts bt3 po e SCOUTFS_BLOCK_SIZE Htiles)
      as (Hrange & Hnd & Hdisj & Hsum').
    { intros o Ho. destruct (Hsrc o Ho) as (o' & Ho' & ->).
      by apply (wf_item_bytes bt o' Hwf). }
    assert (e = free_end bt + free_reclaim bt) as He by lia.
    assert (length (item_offs bt2) = length (item_offs bt)) as Hlen.
    { rewrite H1. unfold po. rewrite packed_offs_length, length_fmap.
      unfold its. rewrite length_fmap. by rewrite Hperm. }
    split; [exact Hitems|]. split; [done|]. split; [exact He|].
    split; [|split; [|split; [|split]]].
    + exists po. split; [done|]. by apply tiles_set_item_offs.
    + split; cbn [item_offs set_item_offs free_end free_reclaim
                  set_free_end set_free_reclaim].
      * by rewrite Hperm_po.
      * unfold nr_items. cbn [item_offs set_item_offs].
        rewrite sort_length, Hlen. fold (nr_items bt).
        change (free_end bt3) with e.
        pose proof (sum_list_Z_nonneg _ (wf_items_nonneg _ Hwf)). lia.
      * intros o Ho. rewrite Hperm_po in Ho.
        destruct (Hsrc o Ho) as (o' & Ho' & Heq).
        change (off_item (set_item_offs _ bt3) o) with (off_item bt3 o).
        rewrite Heq. by apply (wf_val_len _ Hwf).
      * intros o Ho. rewrite Hperm_po in Ho.
        change (off_item (set_item_offs _ bt3) o) with (off_item bt3 o).
        by apply Hrange.
      * intros a b Ha Hb Hab. rewrite Hperm_po in Ha, Hb.
        change (off_item (set_item_offs _ bt3) a) with (off_item bt3 a).
        by apply Hdisj.
      * split; [done|].
        change (block_items (set_item_offs ?l bt3))
          with (off_item bt3 <$> l).
        rewrite Hitems.
        change (free_reclaim bt3) with 0. change (free_end bt3) with e.
        lia.
    + unfold nr_items. cbn [item_offs set_item_offs].
      by rewrite sort_length, Hlen.
    + exact H4.
    + exact H5.
Qed.

Lemma compact_items_contig_free (bt : scoutfs_btree_block) :
  wf_block bt → key_sorted bt →
  contig_free (compact_items bt) = reclaimable_free bt.
Proof.
  intros Hwf Hks.
  destruct (compact_items_spec bt Hwf Hks)
    as (_ & _ & Hfe & _ & Hwf' & Hnr & _).
  rewrite (wf_contig_free _ Hwf'), (wf_reclaimable_free _ Hwf), Hfe, Hnr.
  lia.
Qed.

Lemma compact_items_key_sorted (bt : scoutfs_btree_block) :
  wf_block bt → key_sorted bt → key_sorted (compact_items bt).
Proof.
  intros Hwf Hks.
  destruct (compact_items_spec bt Hwf Hks) as (Hitems & _).
  apply key_sorted_items. rewrite Hitems. by apply key_sorted_items.
Qed.

End Compaction.

(** ** Moving items between two blocks *)

Section MoveItems.
Context `{Format} `{!FormatOK}.

Lemma wf_pos_item (bt : scoutfs_btree_block) (pos : Z) :
  wf_block bt → 0 ≤ pos < nr_items bt →
  0 ≤ item_val_len (pos_item bt pos) < 2 ^ 16 ∧
  all_item_bytes (pos_item bt pos) =
    2 + BTREE_ITEM_BYTES + item_val_len (pos_item bt pos) ∧
  item_bytes (pos_item bt pos) =
    BTREE_ITEM_BYTES + item_val_len (pos_item bt pos) ∧
  all_item_bytes (pos_item bt pos) ≤ 2 + SCOUTFS_BLOCK_SIZE.
Proof.
  intros Hwf Hpos. pose proof format_bounds.
  pose proof (pos_off_elem bt pos Hpos) as Hin.
  pose proof (wf_val_len _ Hwf _ Hin) as Hlen.
  pose proof (wf_range _ Hwf _ Hin) as [? Hrange].
  pose proof (wf_free_end _ Hwf) as [Hfe _].
  pose proof (nr_items_nonneg bt).
  unfold item_offs_end, OFF_BYTES in Hfe.
  pose proof (wf_item_bytes bt _ Hwf Hin) as [Hb _].
  pose proof (wf_all_item_bytes bt _ Hwf Hin) as Hab.
  unfold pos_item. rewrite Hab, Hb. rewrite Hb in Hrange.
  repeat split; lia.
Qed.

(** one round of the loop: the item at [f] of [src] goes to [t] of [dst] *)
Lemma move_one (dst src : scoutfs_btree_block) (f t : Z) :
  wf_block dst → wf_block src →
  0 ≤ f < nr_items src → 0 ≤ t ≤ nr_items dst →
  all_item_bytes (pos_item src f) ≤ contig_free dst →
  let from := pos_item src f in
  let r := create_item dst t (item_key from) (item_val_len from) in
  let dst' := store_item r.2 from r.1 in
  let src' := delete_item src f in
  wf_block dst' ∧ wf_block src' ∧
  block_items dst' =
    take (Z.to_nat t) (block_items dst) ++ from ::
    drop (Z.to_nat t) (block_items dst) ∧
  block_items src' =
    take (Z.to_nat f) (block_items src) ++
    drop (S (Z.to_nat f)) (block_items src) ∧
  nr_items dst' = nr_items dst + 1 ∧
  nr_items src' = nr_items src - 1 ∧
  contig_free dst' = contig_free dst - all_item_bytes from ∧
  hdr_blkno dst' = hdr_blkno dst ∧ hdr_seq dst' = hdr_seq dst ∧
  hdr_blkno src' = hdr_blkno src ∧ hdr_seq src' = hdr_seq src.
Proof.
  intros Hwd Hws Hf Ht Hroom from r dst' src'.
  destruct (wf_pos_item src f Hws Hf) as (Hlen & Hab & Hb & _).
  fold from in Hlen, Hab, Hb.
  destruct (create_item_store dst t (item_key from) (item_val_len from) from)
    as (Hwd' & Hitems & Hnr & Hfe & Hfr & Hh1 & Hh2); try done.
  destruct (delete_item_wf src f Hws Hf)
    as (Hws' & Hitems' & Hnr' & Hfe' & Hfr' & Hh1' & Hh2').
  fold r dst' in Hwd', Hitems, Hnr, Hfe, Hfr, Hh1, Hh2.
  fold src' in Hws', Hitems', Hnr', Hfe', Hfr', Hh1', Hh2'.
  do 6 (split; [done|]). split; [|done].
  rewrite (wf_contig_free _ Hwd'), (wf_contig_free _ Hwd), Hfe, Hnr. lia.
Qed.

Lemma move_count_le sizes to_move :
  (move_count sizes to_move ≤ length sizes)%nat.
Proof.
  revert to_move. induction sizes as [|s sizes IH]; intros to_move; simpl.
  - lia.
  - destruct (0 <? to_move); [|lia]. specialize (IH (to_move - s)). lia.
Qed.

(** from the head of [src] to the tail of [dst] *)
Lemma move_items_loop_left (fuel : nat) :
  ∀ (dst src : scoutfs_btree_block) (to_move : Z),
    wf_block dst → wf_block src →
    (length (item_offs src) ≤ fuel)%nat →
    - 2 ^ 31 ≤ to_move < 2 ^ 31 →
    moved_bytes (all_item_bytes <$> block_items src) to_move ≤
      contig_free dst →
    ∃ dst' src',
      move_items_loop fuel dst src false to_move 0 (nr_items dst) =
        Some (dst', src') ∧
      wf_block dst' ∧ wf_block src' ∧
      block_items dst' =
        block_items dst ++
        take (move_count (all_item_bytes <$> block_items src) to_move)
          (block_items src) ∧
      block_items src' =
        drop (move_count (all_item_bytes <$> block_items src) to_move)
          (block_items src) ∧
      hdr_blkno dst' = hdr_blkno dst ∧ hdr_seq dst' = hdr_seq dst ∧
      hdr_blkno src' = hdr_blkno src ∧ hdr_seq src' = hdr_seq src.
Proof.
  pose proof format_bounds as Hfmt.
  induction fuel as [|fuel IH]; intros dst src to_move Hwd Hws Hfuel Hto Hroom.
  - assert (item_offs src = []) as Hnil by (apply nil_length_inv; lia).
    assert (block_items src = []) as Hitems
      by (unfold block_items; by rewrite Hnil).
    rewrite Hitems. simpl. unfold nr_items at 1. rewrite Hnil. simpl.
    exists dst, src. rewrite app_nil_r, Hitems. done.
  - cbn [move_items_loop].
    set (n := move_count (all_item_bytes <$> block_items src) to_move).
    destruct (Z.ltb_spec 0 (nr_items src)) as [Hnr|Hnr];
      [destruct (Z.ltb_spec 0 to_move) as [Hmv|Hmv]|]; cbn [andb].
    + (* one more item to move *)
      assert (0 ≤ 0 < nr_items src) as Hf by lia.
      pose proof (pos_item_lookup src 0 Hf) as Hfirst. simpl in Hfirst.
      destruct (block_items src) as [|it items] eqn:Hitems; [done|].
      injection Hfirst as Hit.
      destruct (wf_pos_item src 0 Hws Hf) as (Hlen & Hab & Hb & Hmax).
      rewrite <-Hit in Hlen, Hab, Hb, Hmax.
      assert (n = S (move_count (all_item_bytes <$> items)
                       (to_move - all_item_bytes it))) as Hn.
      { unfold n. rewrite fmap_cons. cbn [move_count].
        destruct (Z.ltb_spec 0 to_move); [done|lia]. }
      assert (all_item_bytes it +
              moved_bytes (all_item_bytes <$> items)
                (to_move - all_item_bytes it) ≤ contig_free dst) as Hroom'.
      { unfold moved_bytes in *. rewrite fmap_cons in Hroom.
        cbn [move_count] in Hroom.
        destruct (Z.ltb_spec 0 to_move); [|lia]. exact Hroom. }
      assert (0 ≤ moved_bytes (all_item_bytes <$> items)
                (to_move - all_item_bytes it)) as Hmoved.
      { unfold moved_bytes. apply sum_list_Z_nonneg, Forall_take.
        apply Forall_fmap, Forall_forall. intros x Hx. simpl.
        assert (x ∈ block_items src) as Hx' by (rewrite Hitems; by right).
        unfold block_items in Hx'.
        apply list_elem_of_fmap in Hx' as (o & -> & Ho).
        rewrite (wf_all_item_bytes src o Hws Ho).
        pose proof (wf_item_bytes src o Hws Ho). lia. }
      destruct (move_one dst src 0 (nr_items dst) Hwd Hws Hf)
        as (Hwd' & Hws' & Hd & Hs & Hnd & Hns & Hcf & Hh1 & Hh2 & Hh3 & Hh4).
      { pose proof (nr_items_nonneg dst). lia. }
      { rewrite <-Hit. lia. }
      rewrite <-Hit in *.
      destruct (create_item dst (nr_items dst) (item_key it) (item_val_len it))
        as [dst1 to] eqn:Hcreate.
      cbn [fst snd] in *.
      set (dst' := store_item to it dst1) in *.
      set (src' := delete_item src 0) in *.
      assert (s32 (to_move - all_item_bytes it) =
              to_move - all_item_bytes it) as Hs32.
      { apply s32_small. zpow. lia. }
      rewrite Hs32.
      assert (u32 (nr_items dst + 1) = nr_items dst') as Ht.
      { rewrite Hnd. apply u32_small.
        pose proof (wf_free_end _ Hwd') as [Hfe Hfe2].
        unfold item_offs_end, OFF_BYTES in Hfe. rewrite Hnd in Hfe.
        pose proof (nr_items_nonneg dst). zpow. lia. }
      rewrite Ht.
      assert (block_items src' = items) as Hs'.
      { rewrite Hs, Hitems. done. }
      destruct (IH dst' src' (to_move - all_item_bytes it))
        as (dst2 & src2 & Hloop & Hwd2 & Hws2 & Hd2 & Hs2 & Hh);
        try done.
      * assert (nr_items src' = nr_items src - 1) by done.
        unfold nr_items in *. lia.
      * zpow. lia.
      * rewrite Hs', Hcf. lia.
      * exists dst2, src2. rewrite Hloop. split; [done|].
        split; [done|]. split; [done|].
        rewrite Hs' in Hd2, Hs2. rewrite Hd2, Hs2, Hd, Hn.
        assert (Z.to_nat (nr_items dst) = length (block_items dst)) as ->.
        { rewrite <-block_items_length. lia. }
        rewrite take_ge, drop_ge by lia. simpl.
        rewrite <-app_assoc. simpl.
        destruct Hh as (? & ? & ? & ?).
        split; [done|]. split; [done|]. repeat split; congruence.
    + (* nothing left to move *)
      exists dst, src. split; [done|].
      assert (n = 0%nat) as ->.
      { unfold n. destruct (all_item_bytes <$> block_items src); [done|].
        simpl. destruct (Z.ltb_spec 0 to_move); [lia|done]. }
      rewrite app_nil_r, drop_0. done.
    + (* the source is empty *)
      assert (nr_items src = 0) as Hz
        by (pose proof (nr_items_nonneg src); lia).
      assert (block_items src = []) as Hitems.
      { apply nil_length_inv. pose proof (block_items_length src). lia. }
      exists dst, src. split; [done|].
      rewrite Hitems, take_nil, drop_nil, app_nil_r. done.
Qed.


(** from the tail of [src] to the head of [dst] *)
Lemma move_items_loop_right (fuel : nat) :
  ∀ (dst src : scoutfs_btree_block) (to_move : Z),
    wf_block dst → wf_block src →
    (length (item_offs src) ≤ fuel)%nat →
    - 2 ^ 31 ≤ to_move < 2 ^ 31 →
    moved_bytes (reverse (all_item_bytes <$> block_items src)) to_move ≤
      contig_free dst →
    ∃ dst' src',
      move_items_loop fuel dst src true to_move
        (u32 (nr_items src - 1)) 0 = Some (dst', src') ∧
      wf_block dst' ∧ wf_block src' ∧
      block_items dst' =
        drop (length (block_items src) -
              move_count (reverse (all_item_bytes <$> block_items src))
                to_move)
          (block_items src) ++ block_items dst ∧
      block_items src' =
        take (length (block_items src) -
              move_count (reverse (all_item_bytes <$> block_items src))
                to_move)
          (block_items src) ∧
      hdr_blkno dst' = hdr_blkno dst ∧ hdr_seq dst' = hdr_seq dst ∧
      hdr_blkno src' = hdr_blkno src ∧ hdr_seq src' = hdr_seq src.
Proof.
  pose proof format_bounds as Hfmt.
  induction fuel as [|fuel IH]; intros dst src to_move Hwd Hws Hfuel Hto Hroom.
  - assert (item_offs src = []) as Hnil by (apply nil_length_inv; lia).
    assert (block_items src = []) as Hitems
      by (unfold block_items; by rewrite Hnil).
    rewrite Hitems. simpl. unfold nr_items. rewrite Hnil. simpl.
    exists dst, src. done.
  - cbn [move_items_loop].
    set (n := move_count (reverse (all_item_bytes <$> block_items src))
                to_move).
    pose proof (nr_items_nonneg src) as Hnr0.
    pose proof (wf_free_end _ Hws) as [Hfe1 Hfe2].
    unfold item_offs_end, OFF_BYTES in Hfe1.
    destruct (decide (nr_items src = 0)) as [Hz|Hnz].
    { (* the source is empty *)
      assert (block_items src = []) as Hitems.
      { apply nil_length_inv. pose proof (block_items_length src). lia. }
      rewrite Hz. change (u32 (0 - 1) <? 0) with false. cbn [andb].
      exists dst, src. split; [done|].
      rewrite Hitems, take_nil, drop_nil. done. }
    assert (u32 (nr_items src - 1) = nr_items src - 1) as Hf
      by (apply u32_small; zpow; lia).
    rewrite Hf.
    destruct (Z.ltb_spec (nr_items src - 1) (nr_items src)); [|lia].
    destruct (Z.ltb_spec 0 to_move) as [Hmv|Hmv]; cbn [andb].
    + (* one more item to move *)
      set (f := nr_items src - 1) in *.
      assert (0 ≤ f < nr_items src) as Hfr by (unfold f; lia).
      pose proof (pos_item_lookup src f Hfr) as Hlast.
      set (it := pos_item src f) in *.
      set (init := take (Z.to_nat f) (block_items src)).
      assert (length (block_items src) = S (Z.to_nat f)) as Hlen.
      { pose proof (block_items_length src). unfold f in *. lia. }
      assert (block_items src = init ++ [it]) as Hitems.
      { rewrite <-(take_drop_middle _ _ _ Hlast). fold init.
        by rewrite drop_ge by lia. }
      assert (length init = Z.to_nat f) as Hlen_init.
      { unfold init. rewrite length_take. lia. }
      destruct (wf_pos_item src f Hws Hfr) as (Hvl & Hab & Hb & Hmax).
      fold it in Hvl, Hab, Hb, Hmax.
      set (n' := move_count (reverse (all_item_bytes <$> init))
                   (to_move - all_item_bytes it)).
      assert (n = S n') as Hn.
      { unfold n, n'. rewrite Hitems, fmap_app, reverse_app. simpl.
        destruct (Z.ltb_spec 0 to_move); [done|lia]. }
      assert (n' ≤ length init)%nat as Hn'.
      { unfold n'. etrans; [apply move_count_le|].
        by rewrite length_reverse, length_fmap. }
      assert (all_item_bytes it +
              moved_bytes (reverse (all_item_bytes <$> init))
                (to_move - all_item_bytes it) ≤ contig_free dst) as Hroom'.
      { unfold moved_bytes in *.
        rewrite Hitems, fmap_app, reverse_app in Hroom. simpl in Hroom.
        destruct (Z.ltb_spec 0 to_move); [|lia]. exact Hroom. }
      assert (0 ≤ moved_bytes (reverse (all_item_bytes <$> init))
                (to_move - all_item_bytes it)) as Hmoved.
      { unfold moved_bytes. apply sum_list_Z_nonneg, Forall_take.
        apply Forall_reverse, Forall_fmap, Forall_forall. intros x Hx. simpl.
        assert (x ∈ block_items src) as Hx'
          by (rewrite Hitems; apply elem_of_app; by left).
        unfold block_items in Hx'.
        apply list_elem_of_fmap in Hx' as (o & -> & Ho).
        rewrite (wf_all_item_bytes src o Hws Ho).
        pose proof (wf_item_bytes src o Hws Ho). lia. }
      destruct (move_one dst src f 0 Hwd Hws Hfr)
        as (Hwd' & Hws' & Hd & Hs & Hnd & Hns & Hcf & Hh1 & Hh2 & Hh3 & Hh4).
      { pose proof (nr_items_nonneg dst). lia. }
      { fold it. lia. }
      fold it in Hwd', Hd, Hcf, Hnd, Hh1, Hh2.
      destruct (create_item dst 0 (item_key it) (item_val_len it))
        as [dst1 to] eqn:Hcreate.
      cbn [fst snd] in *.
      set (dst' := store_item to it dst1) in *.
      set (src' := delete_item src f) in *.
      assert (s32 (to_move - all_item_bytes it) =
              to_move - all_item_bytes it) as Hs32.
      { apply s32_small. zpow. lia. }
      rewrite Hs32.
      assert (block_items src' = init) as Hs'.
      { rewrite Hs. fold init. rewrite drop_ge by lia. apply app_nil_r. }
      assert (f - 1 = nr_items src' - 1) as -> by (rewrite Hns; done).
      destruct (IH dst' src' (to_move - all_item_bytes it))
        as (dst2 & src2 & Hloop & Hwd2 & Hws2 & Hd2 & Hs2 & Hh);
        try done.
      * unfold nr_items in Hns. lia.
      * zpow. lia.
      * rewrite Hs', Hcf. lia.
      * exists dst2, src2. rewrite Hloop. split; [done|].
        split; [done|]. split; [done|].
        rewrite Hs' in Hd2, Hs2. fold n' in Hd2, Hs2.
        rewrite Hd2, Hs2, Hd, Hn, Hitems. simpl.
        rewrite length_app. simpl.
        replace (length init + 1 - S n')%nat with (length init - n')%nat
          by lia.
        rewrite drop_app_le, take_app_le by lia.
        rewrite <-app_assoc. simpl.
        destruct Hh as (? & ? & ? & ?).
        split; [done|]. split; [done|]. repeat split; congruence.
    + (* nothing left to move *)
      exists dst, src. split; [done|].
      assert (n = 0%nat) as ->.
      { unfold n. destruct (reverse _); [done|].
        simpl. destruct (Z.ltb_spec 0 to_move); [lia|done]. }
      rewrite Nat.sub_0_r, take_ge, drop_ge by lia. done.
Qed.

(** move_items() on well-formed blocks with room for what it moves *)
Lemma move_items_spec (dst src : scoutfs_btree_block) (move_right : bool)
    (to_move : Z) :
  wf_block dst → wf_block src →
  - 2 ^ 31 ≤ to_move < 2 ^ 31 →
  let sizes := all_item_bytes <$> block_items src in
  let taken := if move_right then reverse sizes else sizes in
  let n := move_count taken to_move in
  let keep := (length (block_items src) - n)%nat in
  moved_bytes taken to_move ≤ contig_free dst →
  ∃ dst' src',
    move_items dst src move_right to_move = Some (dst', src') ∧
    wf_block dst' ∧ wf_block src' ∧
    block_items dst' =
      (if move_right
       then drop keep (block_items src) ++ block_items dst
       else block_items dst ++ take n (block_items src)) ∧
    block_items src' =
      (if move_right
       then take keep (block_items src)
       else drop n (block_items src)) ∧
    hdr_blkno dst' = hdr_blkno dst ∧ hdr_seq dst' = hdr_seq dst ∧
    hdr_blkno src' = hdr_blkno src ∧ hdr_seq src' = hdr_seq src.
Proof.
  intros Hwd Hws Hto sizes taken n keep Hroom.
  unfold move_items. destruct move_right.
  - by apply move_items_loop_right.
  - by apply move_items_loop_left.
Qed.

(** move_items() returns for any two blocks: every round of its loop takes
    an item out of the source *)
Lemma move_items_loop_total (fuel : nat) (dst src : scoutfs_btree_block)
    (move_right : bool) (to_move f t : Z) :
  (length (item_offs src) ≤ fuel)%nat → 0 ≤ f →
  is_Some (move_items_loop fuel dst src move_right to_move f t).
Proof.
  revert dst src to_move f t.
  induction fuel as [|fuel IH]; intros dst src to_move f t Hlen Hf;
    cbn [move_items_loop].
  - destruct (Z.ltb_spec f (nr_items src)) as [Hlt|]; [|by eexists].
    unfold nr_items in Hlt. lia.
  - destruct (Z.ltb_spec f (nr_items src)) as [Hlt|]; [|by eexists].
    destruct (0 <? to_move); [|by eexists]. cbn [andb].
    destruct (create_item dst t _ _) as [dst' to].
    assert (length (item_offs (delete_item src f)) ≤ fuel)%nat as Hlen'.
    { unfold delete_item. cbn [item_offs set_item_mem set_item_offs].
      rewrite length_take. unfold nr_items in *. lia. }
    destruct move_right; apply IH; try done.
    unfold u32. apply Z.mod_pos_bound. by zpow.
Qed.

Lemma move_items_total (dst src : scoutfs_btree_block) (move_right : bool)
    (to_move : Z) :
  is_Some (move_items dst src move_right to_move).
Proof.
  unfold move_items. destruct move_right.
  - apply move_items_loop_total; [done|].
    unfold u32. apply Z.mod_pos_bound. by zpow.
  - by apply move_items_loop_total.
Qed.

End MoveItems.

(** ** The key order of the offset array is kept *)

Section SortedLists.
Context {A : Type} (R : relation A).

Lemma StronglySorted_take (n : nat) (l : list A) :
  StronglySorted R l → StronglySorted R (take n l).
Proof.
  intros Hs. rewrite <-(take_drop n l) in Hs.
  by apply StronglySorted_app_1_l in Hs.
Qed.

Lemma StronglySorted_drop (n : nat) (l : list A) :
  StronglySorted R l → StronglySorted R (drop n l).
Proof.
  intros Hs. rewrite <-(take_drop n l) in Hs.
  by apply StronglySorted_app_1_r in Hs.
Qed.

Lemma StronglySorted_take_drop (n m : nat) (l : list A) :
  (n ≤ m)%nat → StronglySorted R l →
  StronglySorted R (take n l ++ drop m l).
Proof.
  intros Hnm Hs. apply StronglySorted_app_2;
    [|by apply StronglySorted_take|by apply StronglySorted_drop].
  intros x y [i [Hi Hin]]%elem_of_take [j Hj]%list_elem_of_lookup.
  rewrite lookup_drop in Hj.
  rewrite StronglySorted_lookup in Hs. apply (Hs i (m + j)%nat); auto. lia.
Qed.

Lemma StronglySorted_insert_at (n : nat) (x : A) (l : list A) :
  StronglySorted R l →
  (∀ y, y ∈ take n l → R y x) → (∀ y, y ∈ drop n l → R x y) →
  StronglySorted R (take n l ++ x :: drop n l).
Proof.
  intros Hs Hlo Hhi. apply StronglySorted_app_2.
  - intros y z Hy [->|Hz]%elem_of_cons; [by apply Hlo|].
    pose proof (StronglySorted_take_drop n n l (le_n n) Hs) as Hs'.
    by apply (StronglySorted_app_1_elem_of _ _ _ _ _ Hs').
  - by apply StronglySorted_take.
  - constructor; [by apply StronglySorted_drop|]. by apply Forall_forall.
Qed.

End SortedLists.

Section KeyOrder.
Context `{Format} `{!FormatOK}.

Lemma pos_item_key_lookup (bt : scoutfs_btree_block) (i : nat) x :
  block_items bt !! i = Some x → pos_item bt (Z.of_nat i) = x.
Proof.
  intros Hi. pose proof (lookup_lt_Some _ _ _ Hi) as Hlt.
  pose proof (block_items_length bt).
  assert (0 ≤ Z.of_nat i < nr_items bt) as Hr by lia.
  pose proof (pos_item_lookup bt _ Hr) as Hp. rewrite Nat2Z.id in Hp.
  congruence.
Qed.

Lemma create_item_key_sorted (bt : scoutfs_btree_block)
    (key val_len pos cmp : Z) :
  wf_block bt → key_sorted bt →
  find_pos bt key = Some (pos, cmp) → cmp ≠ 0 →
  0 ≤ val_len < 2 ^ 16 →
  all_val_bytes val_len ≤ contig_free bt →
  key_sorted (create_item bt pos key val_len).1.
Proof.
  intros Hwf Hks Hfind Hcmp Hlen Hroom.
  destruct (find_pos_sorted bt key Hks)
    as (pos' & cmp' & Hfind' & Hpos & Hlo & Hcase).
  rewrite Hfind in Hfind'. injection Hfind' as <- <-.
  destruct Hcase as [[? _]|[_ Hhi]]; [done|].
  pose proof (create_item_new bt pos key val_len) as Hnew.
  pose proof (create_item_off_item bt pos key val_len) as Hitem.
  cbn zeta in Hnew, Hitem.
  destruct (create_item_store bt pos key val_len
              (off_item (create_item bt pos key val_len).1
                 (create_item bt pos key val_len).2))
    as (_ & Hitems & _); try done.
  { rewrite Hitem. simpl. by apply u16_small. }
  rewrite Hnew in Hitems.
  apply key_sorted_items. rewrite Hitems, Hitem.
  rewrite fmap_app, fmap_cons, fmap_take, fmap_drop. cbn [item_key].
  apply StronglySorted_insert_at.
  - by apply key_sorted_items.
  - intros y [i [Hi Hin]]%elem_of_take.
    rewrite list_lookup_fmap in Hi.
    destruct (block_items bt !! i) as [x|] eqn:Hx; [|done].
    injection Hi as <-. rewrite <-(pos_item_key_lookup bt i x Hx).
    apply Hlo. lia.
  - intros y [j Hj]%list_elem_of_lookup.
    rewrite lookup_drop, list_lookup_fmap in Hj.
    destruct (block_items bt !! (Z.to_nat pos + j)%nat) as [x|] eqn:Hx;
      [|done].
    injection Hj as <-. rewrite <-(pos_item_key_lookup bt _ x Hx).
    apply Hhi. pose proof (lookup_lt_Some _ _ _ Hx).
    pose proof (block_items_length bt). lia.
Qed.

Lemma delete_item_key_sorted (bt : scoutfs_btree_block) (pos : Z) :
  wf_block bt → key_sorted bt → 0 ≤ pos < nr_items bt →
  key_sorted (delete_item bt pos).
Proof.
  intros Hwf Hks Hpos.
  destruct (delete_item_wf bt pos Hwf Hpos) as (_ & Hitems & _).
  apply key_sorted_items. rewrite Hitems.
  rewrite fmap_app, fmap_take, fmap_drop.
  apply StronglySorted_take_drop; [lia|]. by apply key_sorted_items.
Qed.



End KeyOrder.

(** ** Blocks in the super block info *)

Lemma bh_data_insert_eq (sbi : scoutfs_sb_info) (b : Z)
    (bt : scoutfs_btree_block) :
  bh_data (set_blocks (<[b := bt]> (blocks sbi)) sbi) b = bt.
Proof. unfold bh_data. simpl. by rewrite lookup_insert_eq. Qed.

Lemma bh_data_insert_ne (sbi : scoutfs_sb_info) (b b' : Z)
    (bt : scoutfs_btree_block) :
  b ≠ b' → bh_data (set_blocks (<[b := bt]> (blocks sbi)) sbi) b' =
           bh_data sbi b'.
Proof. intros Hne. unfold bh_data. simpl. by rewrite lookup_insert_ne. Qed.

Lemma bh_data_lookup (sbi : scoutfs_sb_info) (b : Z)
    (bt : scoutfs_btree_block) :
  blocks sbi !! b = Some bt → bh_data sbi b = bt.
Proof. intros Hl. unfold bh_data. by rewrite Hl. Qed.

(** ** Stepping through a computation *)

Lemma bind_ret {A B} (a : A) (k : A → M B) sbi :
  bind (ret a) k sbi = k a sbi.
Proof. done. Qed.

Lemma bind_gets {A B} (f : scoutfs_sb_info → A) (k : A → M B) sbi :
  bind (gets f) k sbi = k (f sbi) sbi.
Proof. done. Qed.

Lemma bind_modify {B} (f : scoutfs_sb_info → scoutfs_sb_info)
    (k : unit → M B) sbi :
  bind (modify f) k sbi = k tt (f sbi).
Proof. done. Qed.

Lemma bind_lift {A B} (a : A) (k : A → M B) sbi :
  bind (lift (Some a)) k sbi = k a sbi.
Proof. done. Qed.

Lemma bind_assoc {A B C} (m : M A) (k1 : A → M B) (k2 : B → M C) sbi :
  bind (bind m k1) k2 sbi = bind m (λ a, bind (k1 a) k2) sbi.
Proof. unfold bind. destruct (m sbi) as [[a sbi']|]; done. Qed.

Lemma bind_eq {A B} (m : M A) (k : A → M B) sbi a sbi' :
  m sbi = Some (a, sbi') → bind m k sbi = k a sbi'.
Proof. intros Hm. unfold bind. by rewrite Hm. Qed.

Lemma bind_none {A B} (m : M A) (k : A → M B) sbi :
  m sbi = None → bind m k sbi = None.
Proof. intros Hm. unfold bind. by rewrite Hm. Qed.

Lemma bind_update_block {B} (b : Z)
    (f : scoutfs_btree_block → scoutfs_btree_block) (k : unit → M B) sbi :
  bind (update_block b f) k sbi =
  k tt (set_blocks (<[b := f (bh_data sbi b)]> (blocks sbi)) sbi).
Proof. done. Qed.

Lemma bind_write_block {B} (b : Z) (bt : scoutfs_btree_block)
    (k : unit → M B) sbi :
  bind (write_block b bt) k sbi =
  k tt (set_blocks (<[b := bt]> (blocks sbi)) sbi).
Proof. done. Qed.

Lemma bind_free_tree_block `{Format} {B} (blkno : Z) (k : unit → M B) sbi :
  bind (free_tree_block blkno) k sbi =
  k tt (set_freed (blkno :: freed sbi) sbi).
Proof. done. Qed.

Lemma bind_unlock_buffer {B} (b : Z) (dirty : bool) (k : unit → M B) sbi :
  bind (unlock_block (Some b) dirty) k sbi =
  k tt (set_locked (locked sbi ∖ {[b]}) sbi).
Proof. done. Qed.

Lemma bind_lock_buffer {B} (b : Z) (dirty : bool) (k : unit → M B) sbi :
  bind (lock_block (Some b) dirty) k sbi =
  k tt (set_locked ({[b]} ∪ locked sbi) sbi).
Proof. done. Qed.

Ltac mstep :=
  first
    [ rewrite bind_assoc
    | rewrite bind_ret
    | rewrite bind_gets
    | rewrite bind_modify
    | rewrite bind_lift
    | rewrite bind_update_block
    | rewrite bind_write_block
    | rewrite bind_free_tree_block
    | rewrite bind_unlock_buffer
    | rewrite bind_lock_buffer ];
  cbv beta iota delta [id].

Ltac msteps := repeat mstep.

Section Delete.
Context `{Format} `{!FormatOK}.

Lemma block_keys_items (bt : scoutfs_btree_block) :
  block_keys bt = item_key <$> block_items bt.
Proof. unfold block_keys, block_items. by rewrite <-list_fmap_compose. Qed.

Lemma elem_of_block_keys (bt : scoutfs_btree_block) (key : Z) :
  key ∈ block_keys bt ↔
  ∃ pos, 0 ≤ pos < nr_items bt ∧ item_key (pos_item bt pos) = key.
Proof.
  rewrite block_keys_items. split.
  - intros [i Hi]%list_elem_of_lookup. rewrite list_lookup_fmap in Hi.
    destruct (block_items bt !! i) as [x|] eqn:Hx; [|done].
    injection Hi as <-. exists (Z.of_nat i).
    pose proof (lookup_lt_Some _ _ _ Hx). pose proof (block_items_length bt).
    split; [lia|]. by rewrite (pos_item_key_lookup bt i x Hx).
  - intros (pos & Hpos & <-). apply list_elem_of_fmap_2.
    eapply list_elem_of_lookup_2. by apply pos_item_lookup.
Qed.

(** what find_pos() tells about the presence of a key *)
Lemma find_pos_present (bt : scoutfs_btree_block) (key : Z) :
  key_sorted bt →
  ∃ pos cmp,
    find_pos bt key = Some (pos, cmp) ∧ 0 ≤ pos ≤ nr_items bt ∧
    (cmp = 0 ∧ pos < nr_items bt ∧ item_key (pos_item bt pos) = key ∧
       (key ∈ block_keys bt) ∨
     cmp < 0 ∧ (key ∉ block_keys bt)).
Proof.
  intros Hks.
  destruct (find_pos_sorted bt key Hks)
    as (pos & cmp & Hfind & Hpos & Hlo & Hcase).
  exists pos, cmp. split; [done|]. split; [done|].
  destruct Hcase as [(-> & Hlt & Hkey)|[Hcmp Hhi]].
  - left. repeat split; try done. apply elem_of_block_keys.
    exists pos. split; [lia|done].
  - right. split; [done|]. intros (i & Hi & Hkey)%elem_of_block_keys.
    destruct (decide (i < pos)).
    + specialize (Hlo i). lia.
    + specialize (Hhi i). lia.
Qed.

(** scoutfs_btree_delete() from the leaf that the walk has arrived at *)
Lemma scoutfs_btree_delete_leaf (sbi sbi1 : scoutfs_sb_info) (key b : Z)
    (nk : option Z) :
  btree_walk key None 0 0 WALK_DELETE sbi = Some ((BH b, nk), sbi1) →
  wf_block (bh_data sbi1 b) → key_sorted (bh_data sbi1 b) →
  ∃ r sbi',
    scoutfs_btree_delete key sbi = Some (r, sbi') ∧
    locked sbi' = locked sbi1 ∖ {[b]} ∧
    (∀ b', b' ≠ b → blocks sbi' !! b' = blocks sbi1 !! b') ∧
    alloc_avail sbi' = alloc_avail sbi1 ∧
    (r = 0 ∧
     (∃ pos, 0 ≤ pos < nr_items (bh_data sbi1 b) ∧
        item_key (pos_item (bh_data sbi1 b) pos) = key ∧
        block_items (bh_data sbi' b) =
          take (Z.to_nat pos) (block_items (bh_data sbi1 b)) ++
          drop (S (Z.to_nat pos)) (block_items (bh_data sbi1 b))) ∧
     (key ∉ block_keys (bh_data sbi' b)) ∧
     (if nr_items (bh_data sbi1 b) =? 1
      then btree_root sbi' = empty_root ∧
           freed sbi' = hdr_blkno (bh_data sbi1 b) :: freed sbi1
      else btree_root sbi' = btree_root sbi1 ∧ freed sbi' = freed sbi1)
     ∨
     r = - ENOENT ∧ (key ∉ block_keys (bh_data sbi1 b)) ∧
     blocks sbi' = blocks sbi1 ∧
     btree_root sbi' = btree_root sbi1 ∧ freed sbi' = freed sbi1).
Proof.
  intros Hwalk Hwf Hks.
  set (bt := bh_data sbi1 b) in *.
  destruct (find_pos_present bt key Hks)
    as (pos & cmp & Hfind & Hpos & Hcase).
  unfold scoutfs_btree_delete. rewrite (bind_eq _ _ _ _ _ Hwalk).
  cbv beta iota. mstep. fold bt. rewrite Hfind. mstep.
  destruct Hcase as [(-> & Hlt & Hkey & Hin)|[Hcmp Hnotin]].
  - (* the key is in the leaf *)
    destruct (delete_item_wf bt pos Hwf)
      as (Hwf' & Hitems & Hnr & Hfe & Hfr & Hb1 & Hb2); [lia|].
    assert (key_sorted (delete_item bt pos)) as Hks'
      by (apply delete_item_key_sorted; [done|done|lia]).
    assert (key ∉ block_keys (delete_item bt pos)) as Hgone.
    { rewrite block_keys_items, Hitems.
      intros Hin'. apply key_sorted_items in Hks.
      rewrite fmap_app, fmap_take, fmap_drop in Hin'.
      pose proof (pos_item_lookup bt pos (conj (proj1 Hpos) Hlt)) as Hl.
      assert ((item_key <$> block_items bt) !! Z.to_nat pos = Some key)
        as Hl' by (by rewrite list_lookup_fmap, Hl, <-Hkey).
      rewrite StronglySorted_lookup in Hks.
      apply elem_of_app in Hin' as [Hin'|Hin'].
      - apply elem_of_take in Hin' as (i & Hi & Hilt).
        pose proof (Hks i (Z.to_nat pos) key key Hi Hl' Hilt). lia.
      - apply list_elem_of_lookup in Hin' as [j Hj].
        rewrite lookup_drop in Hj.
        assert (Z.to_nat pos < S (Z.to_nat pos) + j)%nat as Hlt' by lia.
        pose proof (Hks _ _ key key Hl' Hj Hlt'). lia. }
    change (0 =? 0) with true. cbv iota.
    msteps. fold bt. rewrite bh_data_insert_eq, Hnr.
    destruct (Z.eqb_spec (nr_items bt) 1) as [Hone|Hmore].
    + rewrite Hone. change (1 - 1 =? 0) with true. cbv iota.
      msteps. rewrite Hb1.
      eexists _, _. split; [reflexivity|]. cbn [locked blocks alloc_avail
        btree_root freed set_locked set_freed set_btree_root set_blocks].
      split; [done|]. split; [intros b' Hne; by rewrite lookup_insert_ne|].
      split; [done|]. left. split; [done|].
      match goal with
      | |- context [bh_data ?s b] =>
          assert (bh_data s b = delete_item bt pos) as ->
            by (unfold bh_data; cbn [blocks set_locked set_freed
                  set_btree_root set_blocks]; by rewrite lookup_insert_eq)
      end.
      split; [|split; [done|done]].
      exists pos. split; [lia|]. split; [done|done].
    + destruct (Z.eqb_spec (nr_items bt - 1) 0); [lia|].
      msteps.
      eexists _, _. split; [reflexivity|]. cbn [locked blocks alloc_avail
        btree_root freed set_locked set_freed set_btree_root set_blocks].
      split; [done|]. split; [intros b' Hne; by rewrite lookup_insert_ne|].
      split; [done|]. left. split; [done|].
      match goal with
      | |- context [bh_data ?s b] =>
          assert (bh_data s b = delete_item bt pos) as ->
            by (unfold bh_data; cbn [blocks set_locked set_freed
                  set_btree_root set_blocks]; by rewrite lookup_insert_eq)
      end.
      split; [|split; [done|done]].
      exists pos. split; [lia|]. split; [done|done].
  - (* the key is not in the leaf *)
    destruct (Z.eqb_spec cmp 0); [lia|].
    msteps.
    eexists _, _. split; [reflexivity|]. simpl.
    split; [done|]. split; [done|]. split; [done|]. right. done.
Qed.


End Delete.

(** ** Iteration up to the greatest key

    A tree of one leaf that holds the key 0, iterated from 0 to the maximal
    key: the walk sets the next key to the maximal key, which is not past
    [last], so the loop of btree_next() searches the same leaf again. *)

Section NextStuck.
#[local] Existing Instance example_format.

Local Abbreviation MAX := (2 ^ 64 - 1).

Lemma next_first_item (fuel : nat) :
  scoutfs_btree_next (S fuel) 0 MAX empty_cursor (example_sbi_leaf 0) =
    Some ((1, example_cursor), example_sbi_leaf_locked 0).
Proof. vm_compute. reflexivity. Qed.

Lemma walk_again (key op : Z) :
  key = 1 ∨ key = MAX → op = WALK_NEXT ∨ op = WALK_NEXT_SEQ →
  btree_walk key (Some 0) 0 0 op (example_sbi_leaf 0) =
    Some ((BH 10, Some MAX), example_sbi_leaf_locked 0).
Proof. intros [-> | ->] [-> | ->]; vm_compute; reflexivity. Qed.

Lemma leaf_exhausted (key op : Z) :
  key = 1 ∨ key = MAX → op = WALK_NEXT ∨ op = WALK_NEXT_SEQ →
  find_pos_after_seq (bh_data (example_sbi_leaf_locked 0) 10) key 0 0 op =
    Some 1.
Proof. intros [-> | ->] [-> | ->]; vm_compute; reflexivity. Qed.

Lemma next_loop_stuck (op : Z) (fuel : nat) :
  op = WALK_NEXT ∨ op = WALK_NEXT_SEQ →
  ∀ key, (key = 1 ∨ key = MAX) →
    btree_next_loop fuel MAX 0 op key example_cursor_released
      (example_sbi_leaf 0) = None.
Proof.
  intros Hop.
  induction fuel as [|fuel IH]; intros key Hkey.
  - destruct Hkey as [-> | ->]; vm_compute; reflexivity.
  - cbn [btree_next_loop example_cursor_released curs_bh].
    assert ((0 <? scoutfs_key_cmp key MAX) = false) as ->
      by (destruct Hkey as [-> | ->]; vm_compute; reflexivity).
    rewrite (bind_eq _ _ _ _ _ (walk_again key op Hkey Hop)).
    cbv beta iota.
    mstep. rewrite (leaf_exhausted key op Hkey Hop). mstep.
    change (nr_items (bh_data (example_sbi_leaf_locked 0) 10) <=? 1)
      with true. cbv iota.
    mstep.
    change (set_locked (locked (example_sbi_leaf_locked 0) ∖ {[10]})
              (example_sbi_leaf_locked 0)) with (example_sbi_leaf 0).
    apply IH. by right.
Qed.

Lemma btree_next_after_last_item (op : Z) (fuel : nat) :
  op = WALK_NEXT ∨ op = WALK_NEXT_SEQ →
  btree_next fuel 0 MAX 0 op example_cursor (example_sbi_leaf_locked 0) =
    None.
Proof.
  intros Hop. unfold btree_next.
  change (0 <? scoutfs_key_cmp 0 MAX) with false. cbv iota.
  cbn [example_cursor curs_bh]. msteps.
  assert (next_pos_seq (bh_data (example_sbi_leaf_locked 0) 10)
            (curs_pos example_cursor) 0 0 op = Some 1) as ->
    by (destruct Hop as [-> | ->]; vm_compute; reflexivity).
  msteps.
  change (1 <? nr_items (bh_data (example_sbi_leaf_locked 0) 10))
    with false. cbv iota.
  unfold scoutfs_btree_release. cbn [set_curs_pos curs_bh curs_write
    example_cursor curs_pos curs_item curs_seq curs_val_len]. msteps.
  change (set_locked (locked (example_sbi_leaf_locked 0) ∖ {[10]})
            (example_sbi_leaf_locked 0)) with (example_sbi_leaf 0).
  change (scoutfs_inc_key (cursor_key (example_sbi_leaf_locked 0)
            example_cursor)) with 1.
  apply bind_none, next_loop_stuck; [done|by left].
Qed.

Lemma next_after_last_item (fuel : nat) :
  scoutfs_btree_next fuel 0 MAX example_cursor (example_sbi_leaf_locked 0) =
    None.
Proof. apply btree_next_after_last_item. by left. Qed.

Lemma since_after_last_item (fuel : nat) :
  scoutfs_btree_since fuel 0 MAX 0 example_cursor
    (example_sbi_leaf_locked 0) = None.
Proof. apply btree_next_after_last_item. by right. Qed.


Lemma hole_loop_stuck (fuel : nat) :
  hole_loop fuel 0 MAX 0 empty_cursor (example_sbi_leaf 0) = None.
Proof.
  destruct fuel as [|[|fuel]]; [done|done|].
  cbn [hole_loop].
  rewrite (bind_eq _ _ _ _ _ (next_first_item fuel)). cbv beta iota.
  change (0 <? 1) with true. cbv iota. mstep.
  change (scoutfs_key_cmp 0
            (cursor_key (example_sbi_leaf_locked 0) example_cursor) <? 0)
    with false. cbv iota.
  cbn [hole_loop]. apply bind_none, next_after_last_item.
Qed.

End NextStuck.

(** ** Fresh blocks, parent items and what a move can take *)

Section TreeFacts.
Context `{Format} `{!FormatOK}.



Lemma alloc_tree_block_ok (sbi : scoutfs_sb_info) (blkno : Z)
    (avail : list Z) :
  alloc_avail sbi = blkno :: avail →
  alloc_tree_block sbi =
    Some (BH blkno,
          set_blocks (<[blkno := fresh_block blkno (dirty_seq sbi)]>
                        (blocks sbi))
            (set_alloc_avail avail sbi)).
Proof.
  intros Havail. pose proof format_bounds.
  unfold alloc_tree_block, scoutfs_block_dirty_alloc.
  msteps. rewrite Havail. msteps.
  rewrite bh_data_insert_eq. cbn [blocks set_blocks].
  rewrite insert_insert_eq. unfold fresh_block.
  rewrite (u16_small SCOUTFS_BLOCK_SIZE) by (zpow; lia). done.
Qed.

Lemma alloc_tree_block_fail (sbi : scoutfs_sb_info) :
  alloc_avail sbi = [] →
  alloc_tree_block sbi = Some (ERR_PTR (- ENOSPC), sbi).
Proof.
  intros Havail. unfold alloc_tree_block, scoutfs_block_dirty_alloc.
  msteps. rewrite Havail. msteps. done.
Qed.

Lemma create_parent_item_spec (parent child : scoutfs_btree_block)
    (pos key : Z) :
  wf_block parent → 0 ≤ pos ≤ nr_items parent →
  all_val_bytes BLOCK_REF_BYTES ≤ contig_free parent →
  let parent' := create_parent_item parent pos child key in
  wf_block parent' ∧
  block_items parent' =
    take (Z.to_nat pos) (block_items parent) ++
    parent_item key (hdr_seq parent) child ::
    drop (Z.to_nat pos) (block_items parent) ∧
  nr_items parent' = nr_items parent + 1 ∧
  contig_free parent' =
    contig_free parent - all_val_bytes BLOCK_REF_BYTES ∧
  hdr_blkno parent' = hdr_blkno parent ∧ hdr_seq parent' = hdr_seq parent.
Proof.
  intros Hwf Hpos Hroom.
  unfold create_parent_item.
  pose proof (create_item_off_item parent pos key BLOCK_REF_BYTES) as Hitem.
  cbn zeta in Hitem.
  assert (0 ≤ BLOCK_REF_BYTES < 2 ^ 16) as Hlen
    by (unfold BLOCK_REF_BYTES; zpow; lia).
  destruct (create_item_store parent pos key BLOCK_REF_BYTES
              (parent_item key (hdr_seq parent) child))
    as (Hwf' & Hitems & Hnr & Hfe & Hfr & Hb1 & Hb2); try done.
  destruct (create_item parent pos key BLOCK_REF_BYTES) as [p1 to] eqn:Hc.
  cbn [fst snd] in *. rewrite Hitem.
  rewrite (u16_small BLOCK_REF_BYTES) by done.
  change (set_item_val _ _) with (parent_item key (hdr_seq parent) child).
  cbv zeta. split; [done|]. split; [done|]. split; [done|].
  split; [|done].
  rewrite (wf_contig_free _ Hwf'), (wf_contig_free _ Hwf), Hfe, Hnr.
  rewrite all_val_bytes_small by done. lia.
Qed.

(** *** How much a move takes *)

Lemma move_count_bound (sizes : list Z) (to_move : Z) :
  (move_count sizes to_move ≤ length sizes)%nat.
Proof. apply move_count_le. Qed.


(** the loop stops as soon as the bytes taken reach [to_move], and only
    then or at the end of the list *)
Lemma move_count_spec (sizes : list Z) (to_move : Z) :
  Forall (λ s, 0 < s) sizes →
  let n := move_count sizes to_move in
  ((n < length sizes)%nat → to_move ≤ sum_list_Z (take n sizes)) ∧
  ((0 < n)%nat → sum_list_Z (take (n - 1) sizes) < to_move) ∧
  (0 < to_move → sizes ≠ [] → (0 < n)%nat).
Proof.
  intros Hs. revert to_move.
  induction Hs as [|s sizes Hpos Hs IH]; intros to_move; simpl.
  - repeat split; try lia. done.
  - destruct (Z.ltb_spec 0 to_move) as [Hlt|Hge]; simpl.
    + destruct (IH (to_move - s)) as (IH1 & IH2 & IH3).
      repeat split.
      * intros Hn. specialize (IH1 ltac:(lia)). lia.
      * intros _. rewrite Nat.sub_0_r.
        destruct (move_count sizes (to_move - s)) as [|n] eqn:Hn;
          simpl; [lia|].
        specialize (IH2 ltac:(lia)). simpl in IH2.
        rewrite Nat.sub_0_r in IH2. lia.
      * lia.
    + repeat split; try lia.
Qed.

Lemma all_item_bytes_sum (bt : scoutfs_btree_block) :
  wf_block bt →
  sum_list_Z (all_item_bytes <$> block_items bt) = used_total bt.
Proof.
  intros Hwf. rewrite wf_used_total by done.
  unfold nr_items, block_items.
  assert (∀ l, (∀ o, o ∈ l → o ∈ item_offs bt) →
            sum_list_Z (all_item_bytes <$> (off_item bt <$> l)) =
            2 * Z.of_nat (length l) +
            sum_list_Z (item_bytes <$> (off_item bt <$> l))) as Hgen.
  { induction l as [|o l IH]; intros Hin; [done|].
    rewrite !fmap_cons. cbn [sum_list_Z length].
    rewrite IH by (intros; apply Hin; by right).
    rewrite (wf_all_item_bytes bt o Hwf) by (apply Hin; left). lia. }
  by apply Hgen.
Qed.

Lemma all_item_bytes_pos (bt : scoutfs_btree_block) :
  wf_block bt → Forall (λ s, 0 < s) (all_item_bytes <$> block_items bt).
Proof.
  intros Hwf. unfold block_items. rewrite <-list_fmap_compose.
  apply Forall_fmap, Forall_forall. intros o Ho. simpl.
  rewrite (wf_all_item_bytes bt o Hwf Ho).
  pose proof (wf_item_bytes bt o Hwf Ho). lia.
Qed.

Lemma used_total_bounds (bt : scoutfs_btree_block) :
  wf_block bt →
  0 ≤ used_total bt ≤ SCOUTFS_BLOCK_SIZE - BTREE_BLOCK_BYTES.
Proof.
  intros Hwf. pose proof (wf_space bt Hwf).
  pose proof (wf_reclaim _ Hwf) as [? _].
  pose proof (wf_free_end _ Hwf) as [? ?].
  rewrite wf_contig_free in * by done.
  pose proof (wf_used_total bt Hwf).
  pose proof (sum_list_Z_nonneg _ (wf_items_nonneg _ Hwf)).
  pose proof (nr_items_nonneg bt).
  unfold item_offs_end, OFF_BYTES in *. lia.
Qed.

End TreeFacts.

(** ** try_split *)

Section TrySplit.
Context `{Format} `{!FormatOK}.

Lemma bh_data_set_alloc_avail (sbi : scoutfs_sb_info) (v : list Z) (b : Z) :
  bh_data (set_alloc_avail v sbi) b = bh_data sbi b.
Proof. done. Qed.

Lemma greatest_key_last (bt : scoutfs_btree_block) (x : scoutfs_btree_item) :
  wf_block bt → last (block_items bt) = Some x →
  greatest_key bt = item_key x.
Proof.
  intros Hwf Hlast. pose proof format_bounds.
  pose proof (wf_free_end _ Hwf) as [Hfe1 Hfe2].
  unfold item_offs_end, OFF_BYTES in Hfe1.
  pose proof (block_items_length bt) as Hlen.
  rewrite last_lookup in Hlast.
  pose proof (lookup_lt_Some _ _ _ Hlast) as Hlt.
  unfold greatest_key.
  rewrite u32_small by (zpow; lia).
  assert (0 ≤ nr_items bt - 1 < nr_items bt) as Hpos by lia.
  pose proof (pos_item_lookup bt _ Hpos) as Hl.
  replace (Z.to_nat (nr_items bt - 1)) with (pred (length (block_items bt)))
    in Hl by lia.
  congruence.
Qed.

(** the block has room: nothing happens *)
Lemma try_split_fits (sbi : scoutfs_sb_info) (level key val_len : Z)
    (parent : option Z) (parent_pos right_bh : Z) :
  split_need level val_len ≤ contig_free (bh_data sbi right_bh) →
  try_split level key val_len parent parent_pos right_bh sbi =
    Some (BH right_bh, sbi).
Proof.
  intros Hfit. unfold try_split. mstep. fold (split_need level val_len).
  destruct (Z.leb_spec (split_need level val_len)
              (contig_free (bh_data sbi right_bh))); [done|lia].
Qed.

(** the block has room once it is compacted: it is compacted, nothing else
    happens *)
Lemma try_split_compacts (sbi : scoutfs_sb_info) (level key val_len : Z)
    (parent : option Z) (parent_pos right_bh : Z) :
  contig_free (bh_data sbi right_bh) < split_need level val_len →
  split_need level val_len ≤ reclaimable_free (bh_data sbi right_bh) →
  try_split level key val_len parent parent_pos right_bh sbi =
    Some (BH right_bh,
          set_blocks (<[right_bh := compact_items (bh_data sbi right_bh)]>
                        (blocks sbi)) sbi).
Proof.
  intros Hcontig Hfit. unfold try_split. mstep.
  fold (split_need level val_len).
  destruct (Z.leb_spec (split_need level val_len)
              (contig_free (bh_data sbi right_bh))); [lia|].
  destruct (Z.leb_spec (split_need level val_len)
              (reclaimable_free (bh_data sbi right_bh))); [|lia].
  msteps. done.
Qed.



Ltac blocks_lookup :=
  unfold bh_data;
  cbn [blocks set_blocks set_alloc_avail set_freed set_btree_root
       set_locked set_btree_rwsem];
  repeat first [rewrite lookup_insert_eq | rewrite lookup_insert_ne by done];
  try done.



Lemma grow_tree_ok (sbi : scoutfs_sb_info) (blkno : Z) (avail : list Z) :
  alloc_avail sbi = blkno :: avail →
  grow_tree sbi =
    Some (BH blkno,
          set_btree_root
            {| root_height := (root_height (btree_root sbi) + 1) mod 2 ^ 8;
               root_ref := {| ref_blkno := blkno;
                              ref_seq := dirty_seq sbi |} |}
            (set_blocks (<[blkno := fresh_block blkno (dirty_seq sbi)]>
                           (blocks sbi))
               (set_alloc_avail avail sbi))).
Proof.
  intros Havail. unfold grow_tree.
  rewrite (bind_eq _ _ _ _ _ (alloc_tree_block_ok sbi blkno avail Havail)).
  cbv beta iota. msteps.
  match goal with
  | |- context [bh_data ?s blkno] =>
      assert (bh_data s blkno = fresh_block blkno (dirty_seq sbi)) as ->
        by (unfold bh_data; cbn [blocks set_blocks]; 
            by rewrite lookup_insert_eq)
  end.
  done.
Qed.


End TrySplit.

(** ** try_merge *)

Ltac blocks_lookup :=
  unfold bh_data;
  cbn [blocks set_blocks set_alloc_avail set_freed set_btree_root
       set_locked set_btree_rwsem];
  repeat first [rewrite lookup_insert_eq | rewrite lookup_insert_ne by done];
  try done.

Ltac bh_rw x :=
  match goal with
  | |- context [bh_data ?s x] =>
      let Hx := fresh in
      eassert (bh_data s x = _) as Hx
        by (unfold bh_data;
            cbn [blocks set_blocks set_alloc_avail set_freed set_btree_root
                 set_locked set_btree_rwsem];
            repeat first [rewrite lookup_insert_eq
                         | rewrite lookup_insert_ne by done
                         | match goal with
                           | Hl : blocks _ !! x = Some _ |- _ => rewrite Hl
                           end];
            cbn [default from_option id]; reflexivity);
      rewrite !Hx; clear Hx
  end.

Section TryMerge.
Context `{Format} `{!FormatOK}.

(** a block in which listed items were overwritten by items of their size *)
Lemma wf_block_same_sizes (bt bt' : scoutfs_btree_block) :
  wf_block bt →
  item_offs bt' = item_offs bt →
  (∀ o, o ∈ item_offs bt →
     item_val_len (off_item bt' o) = item_val_len (off_item bt o)) →
  free_end bt' = free_end bt →
  free_reclaim bt' = free_reclaim bt →
  wf_block bt'.
Proof.
  intros Hwf Hoffs Hlen Hfe Hfr.
  assert (∀ o, o ∈ item_offs bt →
            item_bytes (off_item bt' o) = item_bytes (off_item bt o)) as Hb.
  { intros o Ho. unfold item_bytes. by rewrite Hlen. }
  split.
  - rewrite Hoffs. apply Hwf.
  - unfold nr_items. rewrite Hoffs, Hfe. apply Hwf.
  - intros o Ho. rewrite Hoffs in Ho. rewrite Hlen by done.
    by apply (wf_val_len _ Hwf).
  - intros o Ho. rewrite Hoffs in Ho. rewrite Hb, Hfe by done.
    by apply (wf_range _ Hwf).
  - intros a b Ha Hb'. rewrite Hoffs in Ha, Hb'. rewrite Hb by done.
    by apply (wf_disjoint _ Hwf).
  - pose proof (wf_reclaim _ Hwf) as [Hr1 Hr2].
    rewrite Hfr, Hfe. split; [done|]. rewrite <-Hr2. f_equal. f_equal.
    unfold block_items. rewrite Hoffs, <-!list_fmap_compose.
    apply list_fmap_ext. intros i o Hi. simpl. apply Hb.
    by eapply list_elem_of_lookup_2.
Qed.

(** [pos_item(bt, pos)->key = key] *)
Lemma store_item_key_spec (bt : scoutfs_btree_block) (pos key : Z) :
  wf_block bt → 0 ≤ pos < nr_items bt →
  let bt' := store_item (pos_off bt pos)
               (set_item_key key (pos_item bt pos)) bt in
  wf_block bt' ∧
  block_items bt' =
    alter (set_item_key key) (Z.to_nat pos) (block_items bt) ∧
  item_offs bt' = item_offs bt ∧
  nr_items bt' = nr_items bt ∧
  hdr_blkno bt' = hdr_blkno bt ∧ hdr_seq bt' = hdr_seq bt.
Proof.
  intros Hwf Hpos bt'.
  pose proof (pos_off_lookup bt pos Hpos) as Hl.
  set (off := pos_off bt pos) in *.
  assert (off_item bt' off = set_item_key key (pos_item bt pos)) as Hnew
    by apply off_item_store_eq.
  assert (∀ o, o ≠ off → off_item bt' o = off_item bt o) as Hother.
  { intros o Hne. unfold bt'. by rewrite off_item_store_ne. }
  split; [|split; [|done]].
  - apply (wf_block_same_sizes bt); try done.
    intros o Ho. destruct (decide (o = off)) as [->|Hne].
    + rewrite Hnew. done.
    + by rewrite Hother.
  - unfold block_items. change (item_offs bt') with (item_offs bt).
    apply list_eq. intros i.
    rewrite list_lookup_fmap.
    destruct (decide (i = Z.to_nat pos)) as [->|Hne].
    + rewrite list_lookup_alter_eq, list_lookup_fmap, Hl. simpl.
      by rewrite Hnew.
    + rewrite list_lookup_alter_ne, list_lookup_fmap by done.
      destruct (item_offs bt !! i) as [o|] eqn:Ho; [|done]. simpl.
      rewrite Hother; [done|]. intros ->.
      pose proof (NoDup_lookup _ _ _ _ (wf_nodup _ Hwf) Ho Hl). done.
Qed.

Lemma merge_to_move_bounds (bt sib : scoutfs_btree_block) :
  wf_block bt → wf_block sib →
  SCOUTFS_BTREE_FREE_LIMIT < reclaimable_free bt →
  0 ≤ merge_to_move bt sib < 2 ^ 16.
Proof.
  intros Hwb Hws Hlim. pose proof format_bounds.
  pose proof (used_total_bounds sib Hws).
  pose proof (used_total_bounds bt Hwb).
  pose proof (wf_space bt Hwb).
  pose proof (wf_contig_free bt Hwb).
  pose proof (wf_reclaimable_free bt Hwb).
  pose proof (wf_free_end _ Hwb) as [? ?].
  pose proof (wf_reclaim _ Hwb) as [? _].
  pose proof free_limit_nonneg.
  unfold merge_to_move. destruct (Z.leb_spec (used_total sib)
    (reclaimable_free bt)); zpow; lia.
Qed.

(** the items move between the block and its sibling *)
Lemma merge_move (bt sib : scoutfs_btree_block) (move_right : bool) :
  wf_block bt → key_sorted bt → wf_block sib →
  SCOUTFS_BTREE_FREE_LIMIT < reclaimable_free bt →
  let to_move := merge_to_move bt sib in
  let sizes := all_item_bytes <$> block_items sib in
  let taken := if move_right then reverse sizes else sizes in
  let n := move_count taken to_move in
  let keep := (length (block_items sib) - n)%nat in
  moved_bytes taken to_move ≤
    (if contig_free bt <? to_move then reclaimable_free bt
     else contig_free bt) →
  ∃ bt' sib',
    move_items
      (if contig_free bt <? u32 (s32 to_move) then compact_items bt else bt)
      sib move_right (s32 to_move) = Some (bt', sib') ∧
    wf_block bt' ∧ wf_block sib' ∧
    block_items bt' =
      (if move_right
       then drop keep (block_items sib) ++ block_items bt
       else block_items bt ++ take n (block_items sib)) ∧
    block_items sib' =
      (if move_right
       then take keep (block_items sib)
       else drop n (block_items sib)) ∧
    hdr_blkno bt' = hdr_blkno bt ∧ hdr_seq bt' = hdr_seq bt ∧
    hdr_blkno sib' = hdr_blkno sib ∧ hdr_seq sib' = hdr_seq sib.
Proof.
  intros Hwb Hkb Hws Hlim to_move sizes taken n keep Hroom.
  pose proof (merge_to_move_bounds bt sib Hwb Hws Hlim) as Hto.
  fold to_move in Hto.
  assert (s32 to_move = to_move) as -> by (apply s32_small; zpow; lia).
  assert (u32 to_move = to_move) as -> by (apply u32_small; zpow; lia).
  destruct (compact_items_spec bt Hwb Hkb)
    as (Hci & _ & _ & _ & Hwc & _ & Hcb & Hcs).
  pose proof (compact_items_contig_free bt Hwb Hkb) as Hcf.
  set (bt_c := if contig_free bt <? to_move then compact_items bt else bt).
  assert (wf_block bt_c) as Hwc' by (unfold bt_c; by case_match).
  assert (block_items bt_c = block_items bt) as Hic
    by (unfold bt_c; by case_match).
  assert (hdr_blkno bt_c = hdr_blkno bt ∧ hdr_seq bt_c = hdr_seq bt)
    as [Hh1 Hh2] by (unfold bt_c; by case_match).
  assert (moved_bytes taken to_move ≤ contig_free bt_c) as Hroom'.
  { unfold bt_c. destruct (contig_free bt <? to_move); [by rewrite Hcf|done]. }
  destruct (move_items_spec bt_c sib move_right to_move Hwc' Hws
              ltac:(zpow; lia) Hroom')
    as (bt' & sib' & Hmv & Hw1 & Hw2 & Hi1 & Hi2 & Hb1 & Hb2 & Hb3 & Hb4).
  exists bt', sib'. rewrite Hic in Hi1. rewrite Hh1 in Hb1.
  rewrite Hh2 in Hb2. done.
Qed.

Lemma merge_parent_spec (par : scoutfs_btree_block) (pos sib_pos : Z)
    (move_right : bool) (bt' sib' : scoutfs_btree_block) :
  wf_block par → 0 ≤ pos < nr_items par → 0 ≤ sib_pos < nr_items par →
  let par' := merge_parent par pos sib_pos move_right bt' sib' in
  wf_block par' ∧
  block_items par' =
    merge_parent_items (block_items par) pos sib_pos move_right bt' sib' ∧
  hdr_blkno par' = hdr_blkno par ∧ hdr_seq par' = hdr_seq par.
Proof.
  intros Hwp Hpos Hsib. unfold merge_parent, merge_parent_items.
  destruct (store_item_key_spec par pos (greatest_key bt') Hwp Hpos)
    as (Hw1 & Hi1 & Ho1 & Hn1 & Hb1 & Hs1).
  set (par1 := if move_right then par else store_item _ _ par).
  set (items1 := if move_right then block_items par else alter _ _ _).
  assert (wf_block par1 ∧ block_items par1 = items1 ∧
          item_offs par1 = item_offs par ∧ nr_items par1 = nr_items par ∧
          hdr_blkno par1 = hdr_blkno par ∧ hdr_seq par1 = hdr_seq par)
    as (Hw & Hi & Ho & Hn & Hb & Hs)
    by (unfold par1, items1; by destruct move_right).
  cbv zeta. destruct (nr_items sib' =? 0).
  - destruct (delete_item_wf par1 sib_pos Hw ltac:(lia))
      as (Hw2 & Hi2 & _ & _ & _ & Hb2 & Hs2).
    split; [done|]. rewrite Hi2, Hi, delete_take_drop.
    split; [done|]. split; congruence.
  - destruct move_right; [|done].
    assert (pos_off par sib_pos = pos_off par1 sib_pos) as Hoff
      by (unfold pos_off; by rewrite Ho).
    rewrite Hoff. fold (pos_item par1 sib_pos).
    destruct (store_item_key_spec par1 sib_pos (greatest_key sib') Hw
                ltac:(lia)) as (Hw2 & Hi2 & _ & _ & Hb2 & Hs2).
    split; [done|]. rewrite Hi2, Hi. split; [done|]. split; congruence.
Qed.

(** a block with room up to the limit is left alone *)
Lemma try_merge_keeps (sbi : scoutfs_sb_info) (p pos b : Z) :
  reclaimable_free (bh_data sbi b) ≤ SCOUTFS_BTREE_FREE_LIMIT →
  try_merge p pos b sbi = Some (BH b, sbi).
Proof.
  intros Hlim. unfold try_merge. mstep.
  destruct (Z.leb_spec (reclaimable_free (bh_data sbi b))
              SCOUTFS_BTREE_FREE_LIMIT); [|lia].
  done.
Qed.

(** a sibling that cannot be read ends the merge with the error *)
Lemma try_merge_no_sibling (sbi : scoutfs_sb_info) (p pos b : Z) :
  SCOUTFS_BTREE_FREE_LIMIT < reclaimable_free (bh_data sbi b) →
  let sib_pos := if pos =? 0 then u32 (pos + 1) else u32 (pos - 1) in
  blocks sbi !!
    ref_blkno (val_ref (item_val (pos_item (bh_data sbi p) sib_pos))) = None →
  try_merge p pos b sbi = Some (ERR_PTR (- EIO), sbi).
Proof.
  intros Hlim sib_pos Hsib. unfold try_merge. mstep.
  destruct (Z.leb_spec (reclaimable_free (bh_data sbi b))
              SCOUTFS_BTREE_FREE_LIMIT); [lia|].
  unfold sib_pos in Hsib. unfold pos_item in Hsib.
  destruct (pos =? 0); mstep;
    unfold get_block_ref, scoutfs_block_dirty_ref, scoutfs_block_read_ref;
    msteps; cbn [load_ref]; rewrite Hsib; by msteps.
Qed.

(** the run of a merge, given what move_items() does *)
Lemma try_merge_run (sbi : scoutfs_sb_info) (p pos b s sib_pos : Z)
    (move_right : bool) (par bt sib bt' sib' : scoutfs_btree_block) :
  blocks sbi !! p = Some par → blocks sbi !! b = Some bt →
  blocks sbi !! s = Some sib →
  p ≠ b → p ≠ s → b ≠ s →
  (if pos =? 0 then (u32 (pos + 1), false) else (u32 (pos - 1), true)) =
    (sib_pos, move_right) →
  ref_blkno (val_ref (item_val (pos_item par sib_pos))) = s →
  hdr_seq sib = dirty_seq sbi →
  SCOUTFS_BTREE_FREE_LIMIT < reclaimable_free bt →
  move_items
    (if contig_free bt <? u32 (s32 (merge_to_move bt sib))
     then compact_items bt else bt)
    sib move_right (s32 (merge_to_move bt sib)) = Some (bt', sib') →
  ∃ sbi',
    try_merge p pos b sbi = Some (BH b, sbi') ∧
    bh_data sbi' b = bt' ∧ bh_data sbi' s = sib' ∧
    bh_data sbi' p = merge_parent par pos sib_pos move_right bt' sib' ∧
    freed sbi' =
      (if nr_items (merge_parent par pos sib_pos move_right bt' sib') =? 1
       then [hdr_blkno (merge_parent par pos sib_pos move_right bt' sib')]
       else []) ++
      (if nr_items sib' =? 0 then [hdr_blkno sib'] else []) ++ freed sbi ∧
    btree_root sbi' =
      (if nr_items (merge_parent par pos sib_pos move_right bt' sib') =? 1
       then {| root_height := (root_height (btree_root sbi) - 1) mod 2 ^ 8;
               root_ref := {| ref_blkno := hdr_blkno bt';
                              ref_seq := hdr_seq bt' |} |}
       else btree_root sbi) ∧
    (∀ x, x ≠ b → x ≠ s → x ≠ p → blocks sbi' !! x = blocks sbi !! x) ∧
    alloc_avail sbi' = alloc_avail sbi ∧ locked sbi' = locked sbi.
Proof.
  intros Hp Hb Hs Hpb Hps Hbs Hsel Href Hdirty Hlim Hmv.
  unfold try_merge. mstep. rewrite (bh_data_lookup _ _ _ Hb).
  destruct (Z.leb_spec (reclaimable_free bt) SCOUTFS_BTREE_FREE_LIMIT);
    [lia|].
  rewrite Hsel. cbv beta iota. mstep. rewrite (bh_data_lookup _ _ _ Hp).
  unfold get_block_ref, scoutfs_block_dirty_ref, scoutfs_block_read_ref.
  msteps. cbn [load_ref]. rewrite (bh_data_lookup _ _ _ Hp).
  fold (pos_item par sib_pos). rewrite Href, Hs. msteps.
  rewrite (bh_data_lookup _ _ _ Hs), Hdirty, Z.eqb_refl. msteps.
  rewrite !(bh_data_lookup _ _ _ Hb), !(bh_data_lookup _ _ _ Hs).
  replace (if used_total sib <=? reclaimable_free bt
           then s32 (used_total sib)
           else s32 (reclaimable_free bt - SCOUTFS_BTREE_FREE_LIMIT))
    with (s32 (merge_to_move bt sib))
    by (unfold merge_to_move;
        by destruct (used_total sib <=? reclaimable_free bt)).
  revert Hmv.
  destruct (contig_free bt <? u32 (s32 (merge_to_move bt sib))); intros Hmv.
  all: msteps.
  all: bh_rw b; bh_rw s; rewrite Hmv; msteps.
  all: unfold merge_parent; destruct move_right; msteps.
  all: try bh_rw p.
  all: destruct (nr_items sib' =? 0); msteps; repeat bh_rw p.
  all: match goal with
       | |- context [nr_items ?P =? 1] => destruct (nr_items P =? 1)
       end; msteps.
  all: eexists; split; [reflexivity|].
  all: split; [blocks_lookup|].
  all: split; [blocks_lookup|].
  all: split; [blocks_lookup|].
  all: split; [done|].
  all: split; [done|].
  all: split; [intros x ? ? ?; blocks_lookup|].
  all: done.
Qed.

Lemma try_merge_merges (sbi : scoutfs_sb_info) (p pos b s : Z)
    (par bt sib : scoutfs_btree_block) :
  blocks sbi !! p = Some par → blocks sbi !! b = Some bt →
  blocks sbi !! s = Some sib →
  wf_block par → wf_block bt → key_sorted bt → wf_block sib →
  p ≠ b → p ≠ s → b ≠ s →
  0 ≤ pos < nr_items par → 1 < nr_items par →
  let move_right := negb (pos =? 0) in
  let sib_pos := if move_right then pos - 1 else pos + 1 in
  ref_blkno (val_ref (item_val (pos_item par sib_pos))) = s →
  hdr_seq sib = dirty_seq sbi →
  SCOUTFS_BTREE_FREE_LIMIT < reclaimable_free bt →
  let to_move := merge_to_move bt sib in
  let sizes := all_item_bytes <$> block_items sib in
  let taken := if move_right then reverse sizes else sizes in
  let n := move_count taken to_move in
  let keep := (length (block_items sib) - n)%nat in
  moved_bytes taken to_move ≤
    (if contig_free bt <? to_move then reclaimable_free bt
     else contig_free bt) →
  ∃ sbi' bt' sib' par',
    try_merge p pos b sbi = Some (BH b, sbi') ∧
    (* the block gains items of the sibling *)
    bh_data sbi' b = bt' ∧ wf_block bt' ∧
    block_items bt' =
      (if move_right
       then drop keep (block_items sib) ++ block_items bt
       else block_items bt ++ take n (block_items sib)) ∧
    hdr_blkno bt' = hdr_blkno bt ∧ hdr_seq bt' = hdr_seq bt ∧
    (* the sibling keeps the others *)
    bh_data sbi' s = sib' ∧ wf_block sib' ∧
    block_items sib' =
      (if move_right
       then take keep (block_items sib)
       else drop n (block_items sib)) ∧
    (* the parent's items follow *)
    bh_data sbi' p = par' ∧ wf_block par' ∧
    block_items par' =
      merge_parent_items (block_items par) pos sib_pos move_right bt' sib' ∧
    (* a drained sibling and a parent with one item left are freed, and
       the root then refers to the block *)
    freed sbi' =
      (if nr_items par' =? 1 then [hdr_blkno par] else []) ++
      (if nr_items sib' =? 0 then [hdr_blkno sib] else []) ++ freed sbi ∧
    btree_root sbi' =
      (if nr_items par' =? 1
       then {| root_height := (root_height (btree_root sbi) - 1) mod 2 ^ 8;
               root_ref := {| ref_blkno := hdr_blkno bt;
                              ref_seq := hdr_seq bt |} |}
       else btree_root sbi) ∧
    (* nothing else changes *)
    (∀ x, x ≠ b → x ≠ s → x ≠ p → blocks sbi' !! x = blocks sbi !! x) ∧
    alloc_avail sbi' = alloc_avail sbi ∧ locked sbi' = locked sbi.
Proof.
  intros Hp Hb Hs Hwp Hwb Hkb Hws Hpb Hps Hbs Hpos Hnr move_right sib_pos
    Href Hdirty Hlim to_move sizes taken n keep Hroom.
  destruct (merge_move bt sib move_right Hwb Hkb Hws Hlim Hroom)
    as (bt' & sib' & Hmv & Hwb' & Hws' & Hib & His & Hh1 & Hh2 & Hh3 & Hh4).
  assert (0 ≤ sib_pos < nr_items par) as Hsp.
  { unfold sib_pos, move_right. destruct (Z.eqb_spec pos 0); simpl; lia. }
  destruct (merge_parent_spec par pos sib_pos move_right bt' sib' Hwp Hpos
              Hsp) as (Hwp' & Hip & Hph1 & Hph2).
  assert ((if pos =? 0 then (u32 (pos + 1), false)
           else (u32 (pos - 1), true)) = (sib_pos, move_right)) as Hsel.
  { pose proof (wf_free_end _ Hwp) as [? ?]. pose proof format_bounds.
    unfold item_offs_end, OFF_BYTES in *. unfold sib_pos, move_right.
    destruct (Z.eqb_spec pos 0); simpl; f_equal; apply u32_small;
      zpow; lia. }
  destruct (try_merge_run sbi p pos b s sib_pos move_right par bt sib bt'
              sib' Hp Hb Hs Hpb Hps Hbs Hsel Href Hdirty Hlim Hmv)
    as (sbi' & Hrun & Hb' & Hs' & Hp' & Hfreed & Hroot & Hother & Hav &
        Hlock).
  exists sbi', bt', sib', (merge_parent par pos sib_pos move_right bt' sib').
  rewrite Hph1, Hh3 in Hfreed. rewrite Hh1, Hh2 in Hroot.
  do 12 (split; [done|]). done.
Qed.

End TryMerge.

(** ** Running the tests of the invariants *)

Section Tests.
Context `{Format}.

Lemma wf_blockb_sound (bt : scoutfs_btree_block) :
  wf_blockb bt = true → wf_block bt.
Proof.
  unfold wf_blockb. intros Hb.
  repeat (apply andb_prop in Hb as [Hb ?]).
  repeat match goal with
         | Hf : forallb _ _ = true |- _ => rewrite forallb_forall in Hf
         end.
  split.
  - by apply bool_decide_eq_true in Hb.
  - lia.
  - intros off Hoff.
    match goal with
    | Hf : ∀ x, In x _ → (0 <=? _) && _ = true |- _ =>
        specialize (Hf off (proj1 (list_elem_of_In _ _) Hoff));
        apply andb_prop in Hf as [? ?]
    end. lia.
  - intros off Hoff.
    match goal with
    | Hf : ∀ x, In x _ → (free_end bt <=? _) && _ = true |- _ =>
        specialize (Hf off (proj1 (list_elem_of_In _ _) Hoff));
        apply andb_prop in Hf as [? ?]
    end. lia.
  - intros a b Ha Hb' Hlt.
    match goal with
    | Hf : ∀ x, In x _ → forallb _ _ = true |- _ =>
        specialize (Hf a (proj1 (list_elem_of_In _ _) Ha));
        rewrite forallb_forall in Hf;
        specialize (Hf b (proj1 (list_elem_of_In _ _) Hb'))
    end.
    destruct (Z.ltb_spec a b); [|lia]. simpl in *. lia.
  - lia.
Qed.

Lemma increasing_sound (l : list Z) :
  increasing l = true → StronglySorted Z.lt l.
Proof.
  induction l as [|x l IH]; intros Hl; [constructor|].
  cbn [increasing] in Hl. apply andb_prop in Hl as [Hx Hl].
  constructor; [by apply IH|].
  rewrite forallb_forall in Hx. apply Forall_forall. intros y Hy.
  specialize (Hx y (proj1 (list_elem_of_In _ _) Hy)). lia.
Qed.

Lemma key_sortedb_sound (bt : scoutfs_btree_block) :
  key_sortedb bt = true → key_sorted bt.
Proof.
  intros Hb. apply key_sorted_items. rewrite <-block_keys_items.
  by apply increasing_sound.
Qed.

End Tests.

Lemma example_format_ok : @FormatOK example_format.
Proof. split; vm_compute; congruence. Qed.

(** ** The walk on an empty tree *)

Section EmptyTree.
Context `{Format} `{!FormatOK}.

(** with no root block WALK_INSERT gives -ENOENT and changes neither the
    blocks, the root nor the allocator *)
Lemma btree_walk_empty_insert (sbi : scoutfs_sb_info) (key val_len seq : Z)
    (next_key : option Z) :
  root_height (btree_root sbi) = 0 →
  ∃ nk sbi',
    btree_walk key next_key val_len seq WALK_INSERT sbi =
      Some ((ERR_PTR (- ENOENT), nk), sbi') ∧
    blocks sbi' = blocks sbi ∧ btree_root sbi' = btree_root sbi ∧
    alloc_avail sbi' = alloc_avail sbi ∧ locked sbi' = locked sbi.
Proof.
  intros Hh. unfold btree_walk.
  cbn [orb Z.eqb WALK_INSERT Pos.eqb].
  unfold lock_block at 1, lock_root. msteps.
  cbn [btree_root set_btree_rwsem]. rewrite Hh.
  change (0 =? 0) with true. cbv iota. msteps.
  unfold unlock_block, unlock_root. msteps.
  eexists _, _. split; [reflexivity|]. done.
Qed.

(** with no root block every other operation allocates a root leaf *)
Lemma btree_walk_empty_grows (sbi : scoutfs_sb_info) (key val_len seq op : Z)
    (next_key : option Z) (blkno : Z) (avail : list Z) :
  root_height (btree_root sbi) = 0 → op ≠ WALK_INSERT →
  alloc_avail sbi = blkno :: avail →
  ∃ nk sbi',
    btree_walk key next_key val_len seq op sbi = Some ((BH blkno, nk), sbi') ∧
    blocks sbi' = <[blkno := fresh_block blkno (dirty_seq sbi)]> (blocks sbi) ∧
    btree_root sbi' =
      {| root_height := 1;
         root_ref := {| ref_blkno := blkno; ref_seq := dirty_seq sbi |} |} ∧
    alloc_avail sbi' = avail ∧ locked sbi' = {[blkno]} ∪ locked sbi.
Proof.
  intros Hh Hop Havail. unfold btree_walk.
  destruct (Z.eqb_spec op WALK_INSERT) as [|_]; [done|].
  cbn [orb].
  unfold lock_block at 1, lock_root. msteps.
  cbn [btree_root set_btree_rwsem]. rewrite Hh.
  change (0 =? 0) with true. cbv iota. msteps.
  erewrite (bind_eq _ _ _ _ _ (grow_tree_ok _ blkno avail _)).
  cbv beta iota. msteps. unfold unlock_block, unlock_root. msteps.
  eexists _, _. split; [reflexivity|].
  cbn [blocks btree_root alloc_avail locked set_blocks set_btree_root
       set_alloc_avail set_locked set_btree_rwsem dirty_seq].
  rewrite Hh. done.
  Unshelve. all: done.
Qed.

End EmptyTree.

Section EmptyTreeExample.
#[local] Existing Instance example_format.

(** C1: on an empty tree (root height 0) the walk does the opposite of the
    claim.  WALK_INSERT returns -ENOENT and leaves the tree empty, so that
    scoutfs_btree_insert() fails with -ENOENT; a lookup (op 0), WALK_DELETE,
    WALK_NEXT, WALK_NEXT_SEQ and WALK_DIRTY each take block 10 from the
    allocator, make it the root leaf (height 1) and return it locked. *)
Theorem btree_walk_empty_tree :
  btree_walk 1 None 1 0 WALK_INSERT example_sbi_empty =
    Some ((ERR_PTR (- ENOENT), None), example_sbi_empty) ∧
  scoutfs_btree_insert 1 1 empty_cursor example_sbi_empty =
    Some ((- ENOENT, empty_cursor), example_sbi_empty) ∧
  Forall
    (λ op, ∃ sbi',
       btree_walk 1 None 0 0 op example_sbi_empty =
         Some ((BH 10, None), sbi') ∧
       btree_root sbi' =
         {| root_height := 1;
            root_ref := {| ref_blkno := 10; ref_seq := 1 |} |} ∧
       blocks sbi' = {[ 10 := fresh_block 10 1 ]} ∧
       alloc_avail sbi' = [11; 12] ∧
       locked sbi' = {[ 10 ]})
    [0; WALK_DELETE; WALK_NEXT; WALK_NEXT_SEQ; WALK_DIRTY].
Proof.
  split; [by vm_compute|]. split; [by vm_compute|].
  repeat apply Forall_cons_2; [..|apply Forall_nil_2].
  all: eexists; split; [vm_compute; reflexivity|]; by vm_compute.
Qed.

End EmptyTreeExample.

(** ** Iterating up to the greatest key *)

Section LastIsMax.
#[local] Existing Instance example_format.

Local Abbreviation MAX := (2 ^ 64 - 1).

(** C2: iterating the tree that holds the key 0 alone from 0 to the greatest
    key.  The first call of scoutfs_btree_next() gives the item; the second
    call never returns: whatever the number of rounds granted to its loop,
    the loop has not ended.  The same holds for scoutfs_btree_since().  With
    a last key below the greatest key the second call returns 0. *)
Theorem btree_next_last_max_never_returns :
  (∀ fuel,
     scoutfs_btree_next (S fuel) 0 MAX empty_cursor (example_sbi_leaf 0) =
       Some ((1, example_cursor), example_sbi_leaf_locked 0)) ∧
  cursor_key (example_sbi_leaf_locked 0) example_cursor = 0 ∧
  (∀ fuel,
     scoutfs_btree_next fuel 0 MAX example_cursor
       (example_sbi_leaf_locked 0) = None) ∧
  (∀ fuel,
     scoutfs_btree_since fuel 0 MAX 0 example_cursor
       (example_sbi_leaf_locked 0) = None) ∧
  scoutfs_btree_next 2 0 (MAX - 1) example_cursor
    (example_sbi_leaf_locked 0) =
    Some ((0, example_cursor_released), example_sbi_leaf 0).
Proof.
  split; [apply next_first_item|]. split; [by vm_compute|].
  split; [apply next_after_last_item|].
  split; [apply since_after_last_item|]. by vm_compute.
Qed.

(** below the greatest key the iteration ends: the keys that the caller sees
    in a leaf with the keys 1, 2 and 3, and inside a leaf of the tree of
    height 2 *)
Lemma next_keys_below_max :
  (∃ sbi',
     next_keys 10 5 0 100 empty_cursor
       (example_sbi_root (example_block 10 [1; 2; 3] 1)) =
       Some ([1; 2; 3], sbi')) ∧
  (∃ sbi',
     next_keys 10 5 2 2 empty_cursor
       (example_sbi_root (example_block 10 [1; 2; 3] 1)) =
       Some ([2], sbi')) ∧
  (∃ sbi',
     next_keys 10 5 3 8 empty_cursor example_sbi_nine =
       Some ([3; 4; 5; 6; 7; 8], sbi')).
Proof. split; [|split]; eexists; vm_compute; reflexivity. Qed.

(** C5: the hole of the tree that holds the key 0 alone, searched from 0 to
    the greatest key, is 1; scoutfs_btree_hole() never returns it, whatever
    the number of rounds granted to its loops.  With a last key below the
    greatest key it returns 0 and the hole 1. *)
Theorem scoutfs_btree_hole_last_max_never_returns :
  (∀ fuel, scoutfs_btree_hole fuel 0 MAX (example_sbi_leaf 0) = None) ∧
  ∃ sbi',
    scoutfs_btree_hole 3 0 (MAX - 1) (example_sbi_leaf 0) =
      Some ((0, 1), sbi').
Proof.
  split.
  - intros fuel. unfold scoutfs_btree_hole.
    apply bind_none, hole_loop_stuck.
  - eexists. vm_compute. reflexivity.
Qed.

End LastIsMax.

(** ** The search in a block *)

(** C6: in a block whose offset array is strictly ordered by key find_pos()
    returns a position [pos] between 0 and [nr_items] and a comparison [cmp]:
    every item before [pos] has a smaller key; [cmp] is 0 exactly when [pos]
    is the position of an item with the key; otherwise [cmp] is negative and
    every item from [pos] on has a greater key, so that [pos] is where the
    key would be inserted; and [pos] is [nr_items] exactly when the key is
    greater than every key of the block. *)
Theorem find_pos_correct (bt : scoutfs_btree_block) (key : Z) :
  key_sorted bt →
  ∃ pos cmp,
    find_pos bt key = Some (pos, cmp) ∧
    0 ≤ pos ≤ nr_items bt ∧
    (∀ i, 0 ≤ i < pos → item_key (pos_item bt i) < key) ∧
    (cmp = 0 ↔ pos < nr_items bt ∧ item_key (pos_item bt pos) = key) ∧
    (cmp ≠ 0 →
     cmp < 0 ∧ ∀ i, pos ≤ i < nr_items bt → key < item_key (pos_item bt i)) ∧
    (pos < nr_items bt → key < item_key (pos_item bt pos) → cmp < 0) ∧
    (pos = nr_items bt ↔
     ∀ i, 0 ≤ i < nr_items bt → item_key (pos_item bt i) < key).
Proof.
  intros Hks.
  destruct (find_pos_sorted bt key Hks)
    as (pos & cmp & Hfind & Hpos & Hlo & Hcase).
  exists pos, cmp. split; [done|]. split; [done|]. split; [done|].
  split; [|split; [|split]].
  - split.
    + intros ->. destruct Hcase as [(_ & ? & ?)|[? _]]; [done|lia].
    + intros [Hlt Hkey]. destruct Hcase as [(? & _)|[_ Hhi]]; [done|].
      specialize (Hhi pos ltac:(lia)). lia.
  - intros Hne. destruct Hcase as [(? & _)|?]; done.
  - intros Hlt Hkey. destruct Hcase as [(_ & _ & ?)|[? _]]; [lia|done].
  - split.
    + intros Heq i Hi. apply Hlo. lia.
    + intros Hall. destruct (decide (pos = nr_items bt)) as [|Hne]; [done|].
      specialize (Hall pos ltac:(lia)).
      destruct Hcase as [(_ & _ & ?)|[_ Hhi]]; [lia|].
      specialize (Hhi pos ltac:(lia)). lia.
Qed.

(** the search for 2 in the leaf with the keys 1, 2 and 3 *)
Lemma find_pos_correct_witness :
  ∃ pos cmp,
    find_pos (example_block 10 [1; 2; 3] 1) 2 = Some (pos, cmp) ∧
    0 ≤ pos ≤ nr_items (example_block 10 [1; 2; 3] 1) ∧
    (cmp = 0 ↔
     pos < nr_items (example_block 10 [1; 2; 3] 1) ∧
     item_key (pos_item (example_block 10 [1; 2; 3] 1) pos) = 2).
Proof.
  destruct (find_pos_correct (example_block 10 [1; 2; 3] 1) 2)
    as (pos & cmp & Hfind & Hpos & _ & Hcmp & _).
  - apply key_sortedb_sound. vm_compute. reflexivity.
  - exists pos, cmp. split; [exact Hfind|]. split; [exact Hpos|exact Hcmp].
Defined.

(** ** Stepping to the next position *)

(** C10: next_pos_seq() from a position of the block, a position below
    [nr_items] or the unsigned -1 in front of the first position,
    terminates and returns a position of at most [nr_items].
    skip_pos_seq() is false at every position from [nr_items] on, so the
    loop reads no item past the end of the offset array.  For an operation
    other than WALK_NEXT_SEQ the result is the immediate successor, as an
    unsigned int. *)
Theorem next_pos_seq_bounded (bt : scoutfs_btree_block)
    (pos level seq op : Z) :
  nr_items bt < 2 ^ 32 →
  0 ≤ pos < nr_items bt ∨ pos = 2 ^ 32 - 1 →
  ∃ p,
    next_pos_seq bt pos level seq op = Some p ∧
    0 ≤ p ≤ nr_items bt ∧
    (∀ q, nr_items bt ≤ q → skip_pos_seq bt q level seq op = false) ∧
    (op ≠ WALK_NEXT_SEQ → p = u32 (pos + 1)).
Proof.
  intros Hnr Hpos.
  assert (0 ≤ u32 (pos + 1) ≤ nr_items bt) as Hu.
  { destruct Hpos as [Hpos| ->].
    - rewrite u32_small by (zpow; lia). lia.
    - replace (2 ^ 32 - 1 + 1) with (2 ^ 32) by lia.
      unfold u32. rewrite Z.mod_same by (zpow; lia).
      pose proof (nr_items_nonneg bt). lia. }
  destruct (next_pos_seq_loop_spec bt level seq op Hnr
              (S (length (item_offs bt))) pos)
    as (p & Hp & Hle & Hbound & Hop & Hskip).
  { unfold nr_items. lia. }
  exists p. split; [done|]. split; [lia|]. split; [|done].
  intros q Hq. by apply skip_pos_seq_end.
Qed.

(** from the first item of the leaf with the keys 1, 2 and 3, skipping items
    with a seq below 2: none of the items is that new *)
Lemma next_pos_seq_bounded_witness :
  ∃ p,
    next_pos_seq (example_block 10 [1; 2; 3] 1) 0 0 2 WALK_NEXT_SEQ =
      Some p ∧
    0 ≤ p ≤ nr_items (example_block 10 [1; 2; 3] 1).
Proof.
  destruct (next_pos_seq_bounded (example_block 10 [1; 2; 3] 1) 0 0 2
              WALK_NEXT_SEQ)
    as (p & Hp & Hle & _).
  - vm_compute. reflexivity.
  - left. split; [vm_compute; congruence | vm_compute; reflexivity].
  - exists p. split; [exact Hp|exact Hle].
Defined.

(** ** Compaction *)

(** C8: compact_items() on a well formed block whose offset array is
    ordered by key keeps the items, key, seq and value, in their order;
    afterwards [free_reclaim] is 0, the contiguous free space is what was
    reclaimable before, and the items lie against each other from the new
    [free_end] to the end of the block. *)
Theorem compact_items_correct `{Format} `{!FormatOK}
    (bt : scoutfs_btree_block) :
  wf_block bt → key_sorted bt →
  block_items (compact_items bt) = block_items bt ∧
  key_sorted (compact_items bt) ∧
  free_reclaim (compact_items bt) = 0 ∧
  contig_free (compact_items bt) = reclaimable_free bt ∧
  free_end (compact_items bt) = free_end bt + free_reclaim bt ∧
  packed (compact_items bt) ∧
  wf_block (compact_items bt) ∧
  nr_items (compact_items bt) = nr_items bt ∧
  hdr_blkno (compact_items bt) = hdr_blkno bt ∧
  hdr_seq (compact_items bt) = hdr_seq bt.
Proof.
  intros Hwf Hks.
  destruct (compact_items_spec bt Hwf Hks)
    as (Hitems & Hfr & Hfe & Hpacked & Hwf' & Hnr & Hb & Hs).
  split; [done|]. split; [by apply compact_items_key_sorted|].
  split; [done|]. split; [by apply compact_items_contig_free|].
  done.
Qed.

(** the leaf that lost the middle one of three items *)
Lemma compact_items_correct_witness :
  block_items (@compact_items example_format example_holed) =
    @block_items example_holed ∧
  free_reclaim (@compact_items example_format example_holed) = 0 ∧
  @contig_free example_format (@compact_items example_format example_holed) =
    @reclaimable_free example_format example_holed.
Proof.
  destruct (@compact_items_correct example_format example_format_ok
              example_holed)
    as (Hitems & _ & Hfr & Hcf & _).
  - apply wf_blockb_sound. vm_compute. reflexivity.
  - apply key_sortedb_sound. vm_compute. reflexivity.
  - split; [exact Hitems|]. split; [exact Hfr|exact Hcf].
Defined.

(** ** The order of the keys in a block *)



(** ** Deleting an item *)

(** C7: scoutfs_btree_delete() resets the root whenever the leaf it deleted
    from has no item left; it does not test that the leaf is the only block
    of the tree.  In the tree of two leaves in which the leaf 10 holds the
    key 1 alone, with a value that leaves the leaf less free space than the
    merge threshold, and the leaf 11 holds the key 5: the key 5 is found
    before; deleting the key 1 returns 0, resets the root to height 0 and
    frees the block 10 only, while the parent 20 and the leaf 11 still hold
    their items; and the key 5 is not found any more. *)
Theorem scoutfs_btree_delete_drops_tree :
  (∃ c s,
     @scoutfs_btree_lookup example_format 5 empty_cursor example_sbi_lone =
       Some ((0, c), s)) ∧
  ∃ sbi',
    @scoutfs_btree_delete example_format 1 example_sbi_lone =
      Some (0, sbi') ∧
    btree_root sbi' = empty_root ∧ freed sbi' = [10] ∧
    block_keys (bh_data sbi' 11) = [5] ∧
    block_keys (bh_data sbi' 20) = [1; 2 ^ 64 - 1] ∧
    ∃ c s,
      @scoutfs_btree_lookup example_format 5 empty_cursor sbi' =
        Some ((- ENOENT, c), s).
Proof.
  split.
  - eexists _, _. vm_compute. reflexivity.
  - eexists. split; [vm_compute; reflexivity|].
    split; [vm_compute; reflexivity|]. split; [vm_compute; reflexivity|].
    split; [vm_compute; reflexivity|]. split; [vm_compute; reflexivity|].
    eexists _, _. vm_compute. reflexivity.
Qed.

(** Such a tree arises through the interface.  From the empty tree, in one
    transaction: a lookup, the insertion of the key 1 with 3600 value bytes
    and the insertion of the key 5 with 1000 value bytes, which splits the
    root leaf.  The tree has the height 2, the leaf 11 holds the key 1, the
    leaf 10 the key 5, and the three blocks are well formed.  Deleting the
    key 1 returns 0, resets the root and frees the block 11 only; the leaf
    10 still holds the key 5. *)
Lemma scoutfs_btree_delete_drops_built_tree :
  ∃ sbi,
    example_build [(1, 3600); (5, 1000)] example_sbi_empty = Some (0, sbi) ∧
    btree_root sbi =
      {| root_height := 2;
         root_ref := {| ref_blkno := 12; ref_seq := 1 |} |} ∧
    block_keys (bh_data sbi 11) = [1] ∧ block_keys (bh_data sbi 10) = [5] ∧
    block_keys (bh_data sbi 12) = [1; 2 ^ 64 - 1] ∧
    @wf_blockb example_format (bh_data sbi 10) = true ∧
    @wf_blockb example_format (bh_data sbi 11) = true ∧
    @wf_blockb example_format (bh_data sbi 12) = true ∧
    (∃ c s,
       @scoutfs_btree_lookup example_format 5 empty_cursor sbi =
         Some ((0, c), s)) ∧
    ∃ sbi',
      @scoutfs_btree_delete example_format 1 sbi = Some (0, sbi') ∧
      btree_root sbi' = empty_root ∧ freed sbi' = [11] ∧
      block_keys (bh_data sbi' 10) = [5].
Proof.
  eexists. split; [vm_compute; reflexivity|].
  do 7 (split; [vm_compute; reflexivity|]).
  split; [eexists _, _; vm_compute; reflexivity|].
  eexists. split; [vm_compute; reflexivity|].
  split; [vm_compute; reflexivity|]. split; vm_compute; reflexivity.
Qed.

(** On the empty tree the walk for the delete grows a root leaf before the
    key is looked for: the delete of a key returns -ENOENT and leaves a
    tree of height 1 whose root is the empty block 10, taken from the
    allocator; when the allocator has no block the delete returns the
    error of the allocation. *)
Lemma scoutfs_btree_delete_empty_tree :
  (∃ sbi',
     @scoutfs_btree_delete example_format 1 example_sbi_empty =
       Some (- ENOENT, sbi') ∧
     btree_root sbi' =
       {| root_height := 1;
          root_ref := {| ref_blkno := 10; ref_seq := 1 |} |} ∧
     block_keys (bh_data sbi' 10) = [] ∧ alloc_avail sbi' = [11; 12]) ∧
  ∃ err,
    scoutfs_block_dirty_alloc (set_alloc_avail [] example_sbi_empty) =
      Some (ERR_PTR err, set_alloc_avail [] example_sbi_empty) ∧
    @scoutfs_btree_delete example_format 1
      (set_alloc_avail [] example_sbi_empty) =
      Some (err, set_alloc_avail [] example_sbi_empty).
Proof.
  split.
  - eexists. split; [vm_compute; reflexivity|]. by vm_compute.
  - eexists. split; vm_compute; reflexivity.
Qed.

(** Deleting through a parent, run on the trees of height 2.  The key 1 of
    the leaves 10 and 11: the walk merges the leaf 11 into the leaf 10,
    which becomes the root, and the key goes.  The key 20 of the tree with
    nine items in the leaf 10: the leaf 11 takes eight of them and loses the
    key.  A key that the tree does not hold gives -ENOENT. *)
Lemma scoutfs_btree_delete_two_levels :
  (∃ sbi',
     @scoutfs_btree_delete example_format 1 example_sbi_two =
       Some (0, sbi') ∧
     btree_root sbi' =
       {| root_height := 1;
          root_ref := {| ref_blkno := 10; ref_seq := 1 |} |} ∧
     block_keys (bh_data sbi' 10) = [5] ∧ freed sbi' = [20; 11]) ∧
  (∃ sbi',
     @scoutfs_btree_delete example_format 20 example_sbi_nine =
       Some (0, sbi') ∧
     btree_root sbi' = btree_root example_sbi_nine ∧
     block_keys (bh_data sbi' 10) = [1] ∧
     block_keys (bh_data sbi' 11) = [2; 3; 4; 5; 6; 7; 8; 9] ∧
     block_keys (bh_data sbi' 20) = [1; 2 ^ 64 - 1] ∧ freed sbi' = []) ∧
  (∃ sbi',
     @scoutfs_btree_delete example_format 0 example_sbi_nine =
       Some (- ENOENT, sbi') ∧
     block_keys (bh_data sbi' 10) = [1; 2; 3; 4; 5; 6; 7; 8; 9]).
Proof.
  split; [|split]; eexists; (split; [vm_compute; reflexivity|]);
    by vm_compute.
Qed.

(** ** Splitting on the way down *)



(** ** Merging on the way down *)

(** C4: try_merge() moves items of the sibling without a test that they
    fit.  It works out [to_move] from the free space of the block, but the
    loop of move_items() takes whole items for as long as [to_move] is
    positive.  In the tree of two leaves in which the leaf 10 holds one item
    and has 1054 reclaimable bytes, and the leaf 11 holds the keys 5 and 6
    in items of 1060 bytes each: the three blocks are well formed and
    ordered by key, the leaf 10 is above the merge threshold, the sibling
    does not fit as a whole, and the 542 bytes to move fit.  try_merge()
    moves the item of the key 5, for which create_item() has no room: the
    item is put at the offset 20, over the header of the block and its
    offset array, and the block is not well formed any more. *)
Theorem try_merge_overflows_block :
  @wf_blockb example_format (bh_data example_sbi_tight 10) = true ∧
  @wf_blockb example_format (bh_data example_sbi_tight 11) = true ∧
  @wf_blockb example_format (bh_data example_sbi_tight 20) = true ∧
  key_sortedb (bh_data example_sbi_tight 10) = true ∧
  key_sortedb (bh_data example_sbi_tight 11) = true ∧
  key_sortedb (bh_data example_sbi_tight 20) = true ∧
  @reclaimable_free example_format (bh_data example_sbi_tight 10) = 1054 ∧
  @used_total example_format (bh_data example_sbi_tight 11) = 2120 ∧
  @merge_to_move example_format (bh_data example_sbi_tight 10)
    (bh_data example_sbi_tight 11) = 542 ∧
  ∃ sbi',
    @try_merge example_format 20 0 10 example_sbi_tight =
      Some (BH 10, sbi') ∧
    block_keys (bh_data sbi' 10) = [1; 5] ∧
    block_keys (bh_data sbi' 11) = [6] ∧
    item_offs (bh_data sbi' 10) = [1078; 20] ∧
    free_end (bh_data sbi' 10) = 20 ∧
    @item_offs_end example_format (nr_items (bh_data sbi' 10)) = 26 ∧
    @wf_blockb example_format (bh_data sbi' 10) = false.
Proof.
  do 9 (split; [vm_compute; reflexivity|]).
  eexists. split; [vm_compute; reflexivity|].
  do 5 (split; [vm_compute; reflexivity|]). vm_compute. reflexivity.
Qed.

(** Such a tree arises through the interface.  From the empty tree, in one
    transaction: a lookup and the insertions of the key 1 with 3000 value
    bytes and of the keys 5 and 6 with 1040 value bytes each, the first of
    which splits the root leaf.  The leaf 11 holds the key 1, the leaf 10
    the keys 5 and 6, and the three blocks are well formed.  Deleting the
    key 1 returns 0: on its way try_merge() moves the item of the key 5
    into the leaf 11, to the offset 20, and the leaf is not well formed any
    more. *)
Lemma scoutfs_btree_delete_overflows_built_tree :
  ∃ sbi,
    example_build [(1, 3000); (5, 1040); (6, 1040)] example_sbi_empty =
      Some (0, sbi) ∧
    block_keys (bh_data sbi 11) = [1] ∧
    block_keys (bh_data sbi 10) = [5; 6] ∧
    block_keys (bh_data sbi 12) = [1; 2 ^ 64 - 1] ∧
    @wf_blockb example_format (bh_data sbi 10) = true ∧
    @wf_blockb example_format (bh_data sbi 11) = true ∧
    @wf_blockb example_format (bh_data sbi 12) = true ∧
    ∃ sbi',
      @scoutfs_btree_delete example_format 1 sbi = Some (0, sbi') ∧
      block_keys (bh_data sbi' 11) = [5] ∧
      item_offs (bh_data sbi' 11) = [20] ∧
      @wf_blockb example_format (bh_data sbi' 11) = false.
Proof.
  eexists. split; [vm_compute; reflexivity|].
  do 6 (split; [vm_compute; reflexivity|]).
  eexists. split; [vm_compute; reflexivity|].
  split; [vm_compute; reflexivity|]. split; vm_compute; reflexivity.
Qed.

(** the same on the way of scoutfs_btree_delete() to the key 1: the call
    returns 0 and leaves the leaf 10 with the item of the key 5 over its
    header *)
Lemma scoutfs_btree_delete_overflows_block :
  ∃ sbi',
    @scoutfs_btree_delete example_format 1 example_sbi_tight =
      Some (0, sbi') ∧
    block_keys (bh_data sbi' 10) = [5] ∧
    item_offs (bh_data sbi' 10) = [20] ∧
    @wf_blockb example_format (bh_data sbi' 10) = false.
Proof.
  eexists. split; [vm_compute; reflexivity|].
  split; [vm_compute; reflexivity|]. split; vm_compute; reflexivity.
Qed.

(** ** Items of a block: what create_item() and delete_item() account for *)

Section ItemAccounting.
Context `{Format} `{!FormatOK}.

(** the item that create_item() leaves at the new offset *)
Lemma create_item_spec (bt : scoutfs_btree_block) (pos key val_len : Z) :
  wf_block bt → 0 ≤ pos ≤ nr_items bt →
  0 ≤ val_len < 2 ^ 16 → all_val_bytes val_len ≤ contig_free bt →
  let bt' := (create_item bt pos key val_len).1 in
  wf_block bt' ∧
  block_items bt' =
    take (Z.to_nat pos) (block_items bt) ++
    new_item key (hdr_seq bt) val_len (found_val bt val_len) ::
    drop (Z.to_nat pos) (block_items bt) ∧
  nr_items bt' = nr_items bt + 1 ∧
  free_end bt' = free_end bt - (BTREE_ITEM_BYTES + val_len) ∧
  free_reclaim bt' = free_reclaim bt ∧
  hdr_blkno bt' = hdr_blkno bt ∧ hdr_seq bt' = hdr_seq bt.
Proof.
  intros Hwf Hpos Hlen Hroom.
  pose proof (create_item_new bt pos key val_len) as Hnew.
  pose proof (create_item_off_item bt pos key val_len) as Hitem.
  cbn zeta in Hnew, Hitem. rewrite (u16_small val_len) in Hitem by done.
  destruct (create_item_store bt pos key val_len
              (off_item (create_item bt pos key val_len).1
                 (create_item bt pos key val_len).2))
    as (Hw & Hitems & Hrest); try done.
  { by rewrite Hitem. }
  rewrite Hnew in Hw, Hitems, Hrest. rewrite Hitem in Hitems. done.
Qed.

Lemma create_item_offset (bt : scoutfs_btree_block) (pos key val_len : Z) :
  0 ≤ pos ≤ nr_items bt →
  (create_item bt pos key val_len).2 =
    pos_off (create_item bt pos key val_len).1 pos.
Proof.
  intros Hpos. unfold create_item, pos_off. cbn [fst snd item_offs store_item
    set_item_mem set_item_offs set_free_end].
  destruct (Z.ltb_spec pos 0); [lia|].
  rewrite lookup_app_r; rewrite length_take; unfold nr_items in Hpos;
    [|lia].
  replace (Z.to_nat pos - Z.to_nat pos `min` length (item_offs bt))%nat
    with 0%nat by lia.
  done.
Qed.

Lemma space_after_create (bt bt' : scoutfs_btree_block) (val_len : Z) :
  wf_block bt → wf_block bt' → 0 ≤ val_len < 2 ^ 16 →
  nr_items bt' = nr_items bt + 1 →
  free_end bt' = free_end bt - (BTREE_ITEM_BYTES + val_len) →
  free_reclaim bt' = free_reclaim bt →
  contig_free bt' = contig_free bt - all_val_bytes val_len ∧
  reclaimable_free bt' = reclaimable_free bt - all_val_bytes val_len ∧
  used_total bt' = used_total bt + all_val_bytes val_len.
Proof.
  intros Hwf Hwf' Hlen Hnr Hfe Hfr.
  pose proof (wf_space bt Hwf). pose proof (wf_space bt' Hwf').
  rewrite (wf_reclaimable_free bt'), (wf_reclaimable_free bt) by done.
  rewrite (wf_contig_free bt'), (wf_contig_free bt) in * by done.
  rewrite all_val_bytes_small by done. lia.
Qed.


Lemma space_after_delete (bt bt' : scoutfs_btree_block) (bytes : Z) :
  wf_block bt → wf_block bt' →
  nr_items bt' = nr_items bt - 1 →
  free_end bt' = free_end bt →
  free_reclaim bt' = free_reclaim bt + bytes →
  contig_free bt' = contig_free bt + 2 ∧
  reclaimable_free bt' = reclaimable_free bt + (2 + bytes) ∧
  used_total bt' = used_total bt - (2 + bytes).
Proof.
  intros Hwf Hwf' Hnr Hfe Hfr.
  pose proof (wf_space bt Hwf). pose proof (wf_space bt' Hwf').
  rewrite (wf_reclaimable_free bt'), (wf_reclaimable_free bt) by done.
  rewrite (wf_contig_free bt'), (wf_contig_free bt) in * by done.
  lia.
Qed.

(** the bytes of the deleted item are wiped *)
Lemma delete_item_wipes (bt : scoutfs_btree_block) (pos : Z) :
  off_item (delete_item bt pos) (pos_off bt pos) = zero_item.
Proof.
  unfold delete_item, off_item. cbn [item_mem set_item_mem].
  by rewrite lookup_delete_eq.
Qed.

(** X2: delete_item() at a position of a well formed block: the block stays
    well formed; its items are the old ones without the item at [pos]; the
    bytes of the item are wiped; the item's header and value are added to
    [free_reclaim] and the two bytes of its offset to the contiguous free
    space, so that the reclaimable space grows, and the used space shrinks,
    by all_item_bytes() of the item. *)
Theorem delete_item_removes (bt : scoutfs_btree_block) (pos : Z) :
  wf_block bt → 0 ≤ pos < nr_items bt →
  wf_block (delete_item bt pos) ∧
  block_items (delete_item bt pos) =
    take (Z.to_nat pos) (block_items bt) ++
    drop (S (Z.to_nat pos)) (block_items bt) ∧
  nr_items (delete_item bt pos) = nr_items bt - 1 ∧
  off_item (delete_item bt pos) (pos_off bt pos) = zero_item ∧
  free_reclaim (delete_item bt pos) =
    free_reclaim bt + item_bytes (pos_item bt pos) ∧
  contig_free (delete_item bt pos) = contig_free bt + 2 ∧
  reclaimable_free (delete_item bt pos) =
    reclaimable_free bt + all_item_bytes (pos_item bt pos) ∧
  used_total (delete_item bt pos) =
    used_total bt - all_item_bytes (pos_item bt pos).
Proof.
  intros Hwf Hpos.
  destruct (delete_item_wf bt pos Hwf Hpos)
    as (Hw & Hitems & Hnr & Hfe & Hfr & _).
  destruct (space_after_delete bt _ _ Hwf Hw Hnr Hfe Hfr) as (Hc & Hr & Hu).
  pose proof (wf_all_item_bytes bt (pos_off bt pos) Hwf
                (pos_off_elem bt pos Hpos)) as Hall.
  fold (pos_item bt pos) in Hall. rewrite Hall.
  split; [done|]. split; [done|]. split; [done|].
  split; [apply delete_item_wipes|]. done.
Qed.

(** X3: an item that create_item() made is taken back by delete_item() at
    the same position: the items of the block, the reclaimable space and the
    used space are as before.  The bytes do not come back as contiguous free
    space: the item's header and value are in [free_reclaim] until the block
    is compacted. *)
Theorem create_delete_round_trip (bt : scoutfs_btree_block)
    (pos key val_len : Z) :
  wf_block bt → 0 ≤ pos ≤ nr_items bt →
  0 ≤ val_len < 2 ^ 16 → all_val_bytes val_len ≤ contig_free bt →
  wf_block (delete_item (create_item bt pos key val_len).1 pos) ∧
  block_items (delete_item (create_item bt pos key val_len).1 pos) =
    block_items bt ∧
  reclaimable_free (delete_item (create_item bt pos key val_len).1 pos) =
    reclaimable_free bt ∧
  used_total (delete_item (create_item bt pos key val_len).1 pos) =
    used_total bt ∧
  contig_free (delete_item (create_item bt pos key val_len).1 pos) =
    contig_free bt - val_bytes val_len ∧
  free_reclaim (delete_item (create_item bt pos key val_len).1 pos) =
    free_reclaim bt + val_bytes val_len.
Proof.
  intros Hwf Hpos Hlen Hroom.
  destruct (create_item_spec bt pos key val_len Hwf Hpos Hlen Hroom)
    as (Hw & Hitems & Hnr & Hfe & Hfr & _).
  destruct (space_after_create bt _ val_len Hwf Hw Hlen Hnr Hfe Hfr)
    as (Hc & Hr & Hu).
  set (bt' := (create_item bt pos key val_len).1) in *.
  assert (0 ≤ pos < nr_items bt') as Hpos' by lia.
  destruct (delete_item_wf bt' pos Hw Hpos')
    as (Hw2 & Hitems2 & Hnr2 & Hfe2 & Hfr2 & _).
  destruct (space_after_delete bt' _ _ Hw Hw2 Hnr2 Hfe2 Hfr2)
    as (Hc2 & Hr2 & Hu2).
  assert (pos_item bt' pos = new_item key (hdr_seq bt) val_len (found_val bt val_len)) as Hitem.
  { pose proof (pos_item_lookup bt' pos Hpos') as Hl.
    rewrite Hitems in Hl.
    pose proof (block_items_length bt) as Hlb.
    rewrite lookup_app_r in Hl; rewrite length_take in *; [|lia].
    replace (Z.to_nat pos - Z.to_nat pos `min` length (block_items bt))%nat
      with 0%nat in Hl by lia.
    simpl in Hl. congruence. }
  assert (item_bytes (pos_item bt' pos) = val_bytes val_len) as Hbytes
    by (by rewrite Hitem).
  rewrite Hbytes in *.
  assert (all_val_bytes val_len = 2 + val_bytes val_len) as Hall
    by (rewrite all_val_bytes_small, val_bytes_small by done; lia).
  split; [done|]. split.
  { rewrite Hitems2, Hitems.
    pose proof (block_items_length bt) as Hlb.
    rewrite take_app_le, take_take by (rewrite length_take; lia).
    rewrite drop_app_ge by (rewrite length_take; lia).
    rewrite length_take.
    replace (S (Z.to_nat pos) - Z.to_nat pos `min` length (block_items bt))%nat
      with 1%nat by lia.
    simpl. rewrite drop_0.
    replace (Z.to_nat pos `min` Z.to_nat pos)%nat with (Z.to_nat pos) by lia.
    apply take_drop. }
  lia.
Qed.

End ItemAccounting.

(** ** Space of a well formed block, and items on the move *)

Section SpaceAndMoves.
Context `{Format} `{!FormatOK}.

(** X4: in a well formed block the space functions do not wrap around and
    divide the block: the header, the contiguous free space, the bytes to
    reclaim and the used bytes add up to the block size; the used bytes are
    the bytes of the items, an offset, a header and a value each; and the
    reclaimable space is the contiguous free space and [free_reclaim]. *)
Theorem block_space_accounts (bt : scoutfs_btree_block) :
  wf_block bt →
  BTREE_BLOCK_BYTES + contig_free bt + free_reclaim bt + used_total bt =
    SCOUTFS_BLOCK_SIZE ∧
  used_total bt = sum_list_Z (all_item_bytes <$> block_items bt) ∧
  reclaimable_free bt = contig_free bt + free_reclaim bt ∧
  0 ≤ contig_free bt ∧ 0 ≤ free_reclaim bt ∧ 0 ≤ used_total bt ∧
  Forall (λ x, all_item_bytes x =
               OFF_BYTES + BTREE_ITEM_BYTES + item_val_len x)
    (block_items bt).
Proof.
  intros Hwf.
  pose proof (wf_space bt Hwf). pose proof (used_total_bounds bt Hwf).
  pose proof (wf_reclaim _ Hwf) as [? _].
  pose proof (wf_free_end _ Hwf) as [? ?].
  pose proof (nr_items_nonneg bt).
  rewrite (wf_reclaimable_free bt), (wf_contig_free bt) in * by done.
  unfold item_offs_end, OFF_BYTES in *.
  split; [lia|]. split; [by rewrite all_item_bytes_sum|].
  split; [lia|]. split; [lia|]. split; [lia|]. split; [lia|].
  unfold block_items. apply Forall_fmap, Forall_forall. intros off Hoff.
  simpl. rewrite (wf_all_item_bytes bt off Hwf Hoff).
  pose proof (wf_item_bytes bt off Hwf Hoff). lia.
Qed.

Lemma sum_list_Z_reverse (l : list Z) :
  sum_list_Z (reverse l) = sum_list_Z l.
Proof. apply sum_list_Z_perm. apply reverse_Permutation. Qed.

(** X5: move_items() between two well formed blocks, when the items that
    its loop takes fit into the destination: both blocks stay well formed;
    no item is lost, made twice or put out of order, the items of the two
    blocks in a row are what they were; the used bytes of the two blocks add
    up as before; the loop ends with the source empty or with at least
    [to_move] bytes moved; and nothing moves for [to_move <= 0]. *)
Theorem move_items_conserves (dst src : scoutfs_btree_block)
    (move_right : bool) (to_move : Z) :
  wf_block dst → wf_block src →
  - 2 ^ 31 ≤ to_move < 2 ^ 31 →
  moved_bytes
    (if move_right then reverse (all_item_bytes <$> block_items src)
     else all_item_bytes <$> block_items src) to_move ≤ contig_free dst →
  ∃ dst' src',
    move_items dst src move_right to_move = Some (dst', src') ∧
    wf_block dst' ∧ wf_block src' ∧
    (if move_right
     then block_items src' ++ block_items dst' =
          block_items src ++ block_items dst
     else block_items dst' ++ block_items src' =
          block_items dst ++ block_items src) ∧
    used_total dst' + used_total src' = used_total dst + used_total src ∧
    (block_items src' = [] ∨ to_move ≤ used_total dst' - used_total dst) ∧
    (to_move ≤ 0 →
     block_items dst' = block_items dst ∧
     block_items src' = block_items src).
Proof.
  intros Hwd Hws Hto Hroom.
  destruct (move_items_spec dst src move_right to_move Hwd Hws Hto Hroom)
    as (dst' & src' & Hmv & Hwd' & Hws' & Hd & Hs & _).
  exists dst', src'. split; [done|]. split; [done|]. split; [done|].
  set (sizes := all_item_bytes <$> block_items src) in *.
  set (taken := if move_right then reverse sizes else sizes) in *.
  set (n := move_count taken to_move) in *.
  pose proof (all_item_bytes_pos src Hws) as Hpos. fold sizes in Hpos.
  assert (Forall (λ s, 0 < s) taken) as Hpos'.
  { unfold taken. destruct move_right; [|done].
    by apply Forall_reverse. }
  assert (length taken = length (block_items src)) as Hlen.
  { unfold taken, sizes. destruct move_right;
      rewrite ?length_reverse, length_fmap; done. }
  pose proof (move_count_bound taken to_move) as Hn. fold n in Hn.
  destruct (move_count_spec taken to_move Hpos') as (Hstop & _ & _).
  fold n in Hstop.
  rewrite <-!all_item_bytes_sum by done.
  assert (sum_list_Z (all_item_bytes <$> block_items dst') =
          sum_list_Z (all_item_bytes <$> block_items dst) +
          sum_list_Z (take n taken)) as Hsumd.
  { rewrite Hd. unfold taken, sizes. destruct move_right.
    - rewrite fmap_app, sum_list_Z_app, fmap_drop.
      rewrite take_reverse, sum_list_Z_reverse, length_fmap. lia.
    - rewrite fmap_app, sum_list_Z_app, fmap_take. lia. }
  assert (sum_list_Z (all_item_bytes <$> block_items src') +
          sum_list_Z (take n taken) = sum_list_Z sizes) as Hsums.
  { rewrite Hs. unfold taken, sizes. destruct move_right.
    - rewrite fmap_take, take_reverse, sum_list_Z_reverse, length_fmap.
      apply sum_list_Z_take_drop.
    - rewrite fmap_drop.
      pose proof (sum_list_Z_take_drop n
                    (all_item_bytes <$> block_items src)).
      lia. }
  split.
  { rewrite Hd, Hs. destruct move_right.
    - by rewrite app_assoc, take_drop.
    - by rewrite <-app_assoc, take_drop. }
  split; [fold sizes; lia|].
  split.
  { destruct (decide (n < length taken)%nat) as [Hlt|Hge].
    - right. specialize (Hstop Hlt). lia.
    - left. rewrite Hs. destruct move_right.
      + replace (length (block_items src) - n)%nat with 0%nat by lia. done.
      + apply drop_ge. lia. }
  intros Hle.
  assert (n = 0%nat) as Hn0.
  { unfold n. destruct taken as [|s taken']; [done|]. simpl.
    destruct (Z.ltb_spec 0 to_move); [lia|done]. }
  rewrite Hd, Hs, Hn0. destruct move_right.
  - rewrite Nat.sub_0_r, drop_all, take_ge by lia. done.
  - rewrite take_0, drop_0, app_nil_r. done.
Qed.

End SpaceAndMoves.

(** ** Positions and sequence numbers *)

Section Positions.

(** every position that next_pos_seq() steps over is one to skip *)
Lemma next_pos_seq_loop_skips (bt : scoutfs_btree_block) (level seq op : Z) :
  nr_items bt < 2 ^ 32 →
  ∀ (fuel : nat) (pos : Z),
    0 ≤ pos < 2 ^ 32 - 1 →
    1 + Z.max 0 (nr_items bt - (pos + 1)) ≤ Z.of_nat fuel →
    ∃ p,
      next_pos_seq_loop fuel bt pos level seq op = Some p ∧
      pos < p ∧ (p ≤ nr_items bt ∨ p = pos + 1) ∧
      skip_pos_seq bt p level seq op = false ∧
      ∀ q, pos < q < p → skip_pos_seq bt q level seq op = true.
Proof.
  intros Hnr fuel.
  induction fuel as [|fuel IH]; intros pos Hpos Hfuel; [lia|]. simpl.
  rewrite (u32_small (pos + 1)) by (zpow; lia).
  destruct (skip_pos_seq bt (pos + 1) level seq op) eqn:Hskip.
  - pose proof Hskip as [Hop Hlt]%skip_pos_seq_true.
    destruct (IH (pos + 1)) as (p & Hp & Hgt & Hbound & Hs & Hbetween);
      [zpow; lia|lia|].
    exists p. split; [done|]. split; [lia|]. split; [lia|].
    split; [done|]. intros q Hq.
    destruct (decide (q = pos + 1)) as [->|Hne]; [done|].
    apply Hbetween. lia.
  - exists (pos + 1). split; [done|]. split; [lia|]. split; [by right|].
    split; [done|]. intros q Hq. lia.
Qed.

(** the position that find_pos_after_seq() returns *)
Lemma find_pos_after_seq_spec (bt : scoutfs_btree_block)
    (key level seq op : Z) :
  key_sorted bt → nr_items bt < 2 ^ 32 - 1 →
  ∃ p,
    find_pos_after_seq bt key level seq op = Some p ∧
    0 ≤ p ≤ nr_items bt ∧
    (∀ i, 0 ≤ i < p →
       item_key (pos_item bt i) < key ∨
       skip_pos_seq bt i level seq op = true) ∧
    (∀ i, p ≤ i < nr_items bt → key ≤ item_key (pos_item bt i)) ∧
    skip_pos_seq bt p level seq op = false.
Proof.
  intros Hks Hnr.
  destruct (find_pos_sorted bt key Hks)
    as (pos & cmp & Hfind & Hpos & Hlo & Hcase).
  assert (∀ i, pos ≤ i < nr_items bt → key ≤ item_key (pos_item bt i))
    as Hhi.
  { intros i Hi. destruct Hcase as [(_ & Hlt & Hkey)|[_ Hgt]].
    - destruct (decide (i = pos)) as [->|Hne]; [lia|].
      specialize (Hks pos i ltac:(lia) ltac:(lia) ltac:(lia)). lia.
    - specialize (Hgt i Hi). lia. }
  unfold find_pos_after_seq. rewrite Hfind.
  destruct (skip_pos_seq bt pos level seq op) eqn:Hskip.
  - pose proof Hskip as [Hop Hlt]%skip_pos_seq_true.
    destruct (next_pos_seq_loop_skips bt level seq op ltac:(lia)
                (S (length (item_offs bt))) pos)
      as (p & Hp & Hgt & Hbound & Hs & Hbetween).
    { zpow. lia. }
    { unfold nr_items. lia. }
    unfold next_pos_seq. rewrite Hp. exists p.
    split; [done|]. split; [lia|]. split.
    { intros i Hi. destruct (decide (i < pos)) as [|Hge];
        [left; by apply Hlo; lia|].
      right. destruct (decide (i = pos)) as [->|]; [done|].
      apply Hbetween. lia. }
    split; [intros i Hi; apply Hhi; lia|]. done.
  - exists pos. split; [done|]. split; [lia|].
    split; [intros i Hi; left; by apply Hlo|]. done.
Qed.

(** what skip_pos_seq() skips in a leaf *)
Lemma skip_pos_seq_leaf (bt : scoutfs_btree_block) (i seq : Z) :
  skip_pos_seq bt i 0 seq WALK_NEXT_SEQ = true ↔
  i < nr_items bt ∧ item_seq (pos_item bt i) < seq.
Proof.
  unfold skip_pos_seq. simpl.
  destruct (Z.leb_spec (nr_items bt) i); simpl; [split; [done|lia]|].
  split.
  - intros ?%Z.ltb_lt. lia.
  - intros [_ ?]. by apply Z.ltb_lt.
Qed.

Lemma skip_pos_seq_other (bt : scoutfs_btree_block) (i level seq op : Z) :
  op ≠ WALK_NEXT_SEQ → skip_pos_seq bt i level seq op = false.
Proof.
  intros Hop. unfold skip_pos_seq.
  by destruct (Z.eqb_spec op WALK_NEXT_SEQ).
Qed.

(** X6: find_pos_after_seq() in a block whose offset array is ordered by
    key returns the first position, up to [nr_items], whose item has a key
    that is not below the search key and is not one to skip: every position
    before it has a smaller key or is skipped.  Nothing is skipped unless
    the operation is WALK_NEXT_SEQ, and then in a leaf the items to skip are
    those with a seq below [seq]. *)
Theorem find_pos_after_seq_first (bt : scoutfs_btree_block)
    (key level seq op : Z) :
  key_sorted bt → nr_items bt < 2 ^ 32 - 1 →
  ∃ p,
    find_pos_after_seq bt key level seq op = Some p ∧
    0 ≤ p ≤ nr_items bt ∧
    (∀ i, 0 ≤ i < p →
       item_key (pos_item bt i) < key ∨
       skip_pos_seq bt i level seq op = true) ∧
    (∀ i, p ≤ i < nr_items bt → key ≤ item_key (pos_item bt i)) ∧
    skip_pos_seq bt p level seq op = false ∧
    (op ≠ WALK_NEXT_SEQ →
     ∀ i, 0 ≤ i < p → item_key (pos_item bt i) < key) ∧
    (∀ i, skip_pos_seq bt i 0 seq WALK_NEXT_SEQ = true ↔
          i < nr_items bt ∧ item_seq (pos_item bt i) < seq).
Proof.
  intros Hks Hnr.
  destruct (find_pos_after_seq_spec bt key level seq op Hks Hnr)
    as (p & Hfind & Hp & Hlo & Hhi & Hskip).
  exists p. split; [done|]. split; [done|]. split; [done|].
  split; [done|]. split; [done|]. split.
  - intros Hop i Hi. destruct (Hlo i Hi) as [|Hs]; [done|].
    by rewrite skip_pos_seq_other in Hs.
  - intros i. apply skip_pos_seq_leaf.
Qed.

End Positions.

(** ** Block references in parent items *)

Section BlockRefs.

Lemma le_decode_encode (n : nat) (x : Z) :
  0 ≤ x < 256 ^ Z.of_nat n → le_decode (le_encode n x) = x.
Proof.
  revert x. induction n as [|n IH]; intros x Hx.
  - simpl in *. lia.
  - cbn [le_encode le_decode].
    rewrite Nat2Z.inj_succ, Z.pow_succ_r in Hx by lia.
    rewrite IH.
    + pose proof (Z.div_mod x 256). lia.
    + split; [apply Z.div_pos; lia|].
      apply Z.div_lt_upper_bound; lia.
Qed.

Lemma le_encode_length (n : nat) (x : Z) : length (le_encode n x) = n.
Proof.
  revert x. induction n as [|n IH]; intros x; simpl; [done|].
  by rewrite IH.
Qed.

(** the bytes of a reference read back as the reference *)
Lemma val_ref_bytes (r : scoutfs_block_ref) :
  0 ≤ ref_blkno r < 2 ^ 64 → 0 ≤ ref_seq r < 2 ^ 64 →
  val_ref (ref_bytes r) = r.
Proof.
  intros Hb Hs. destruct r as [blkno seq]. unfold val_ref, ref_bytes.
  cbn [ref_blkno ref_seq] in *.
  rewrite take_app_length' by (by rewrite le_encode_length).
  rewrite drop_app_length' by (by rewrite le_encode_length).
  rewrite take_ge by (by rewrite le_encode_length).
  rewrite !le_decode_encode; [done|..];
    change (256 ^ Z.of_nat 8) with (2 ^ 64); done.
Qed.

Context `{Format} `{!FormatOK}.

(** X7: the item that create_parent_item() makes at [pos] of a well formed
    parent with room has the given key, and its value reads back as the
    reference to the child: the block number and the seq of the child's
    header, which is what the walk follows and what item_block_ref_seq()
    tests.  The parent stays well formed and keeps its other items around
    the new one. *)
Theorem create_parent_item_refers (parent child : scoutfs_btree_block)
    (pos key : Z) :
  wf_block parent → 0 ≤ pos ≤ nr_items parent →
  all_val_bytes BLOCK_REF_BYTES ≤ contig_free parent →
  0 ≤ hdr_blkno child < 2 ^ 64 → 0 ≤ hdr_seq child < 2 ^ 64 →
  wf_block (create_parent_item parent pos child key) ∧
  item_key (pos_item (create_parent_item parent pos child key) pos) = key ∧
  val_ref (item_val (pos_item (create_parent_item parent pos child key) pos))
    = {| ref_blkno := hdr_blkno child; ref_seq := hdr_seq child |} ∧
  item_block_ref_seq (pos_item (create_parent_item parent pos child key) pos)
    = hdr_seq child ∧
  block_items (create_parent_item parent pos child key) =
    take (Z.to_nat pos) (block_items parent) ++
    pos_item (create_parent_item parent pos child key) pos ::
    drop (Z.to_nat pos) (block_items parent).
Proof.
  intros Hwf Hpos Hroom Hb Hs.
  destruct (create_parent_item_spec parent child pos key Hwf Hpos Hroom)
    as (Hw & Hitems & Hnr & _).
  set (parent' := create_parent_item parent pos child key) in *.
  assert (pos_item parent' pos = parent_item key (hdr_seq parent) child)
    as Hitem.
  { pose proof (pos_item_lookup parent' pos ltac:(lia)) as Hl.
    rewrite Hitems in Hl.
    pose proof (block_items_length parent) as Hlb.
    rewrite lookup_app_r in Hl; rewrite length_take in *; [|lia].
    replace (Z.to_nat pos - Z.to_nat pos `min` length (block_items parent))%nat
      with 0%nat in Hl by lia.
    simpl in Hl. congruence. }
  rewrite Hitem. unfold item_block_ref_seq. cbn [parent_item item_key item_val].
  rewrite val_ref_bytes by done.
  done.
Qed.

End BlockRefs.

(** ** Trees of height 1: the walk *)

Lemma sbi_ext (s s' : scoutfs_sb_info) :
  btree_root s = btree_root s' → btree_rwsem s = btree_rwsem s' →
  blocks s = blocks s' → locked s = locked s' →
  alloc_avail s = alloc_avail s' → freed s = freed s' →
  dirty_seq s = dirty_seq s' → s = s'.
Proof. destruct s, s'. simpl. congruence. Qed.

(** the lock of the tree, taken and given back *)
Lemma rwsem_restored (sem : rw_semaphore) (dirty : bool) :
  rw_writer sem = false →
  (if dirty
   then {| rw_readers := rw_readers sem; rw_writer := false |}
   else {| rw_readers := rw_readers sem + 1 - 1;
           rw_writer := rw_writer sem |}) = sem.
Proof.
  destruct sem as [r w]. simpl. intros ->.
  destruct dirty; f_equal. lia.
Qed.

Lemma with_block_same (sbi : scoutfs_sb_info) (bt : scoutfs_btree_block) :
  blocks sbi !! root_blkno sbi = Some bt → with_block bt sbi = sbi.
Proof.
  intros Hb. unfold with_block. apply sbi_ext; try done.
  simpl. by apply insert_id.
Qed.

Section RootLeafWalk.
Context `{Format}.

(** the walk for every operation but WALK_INSERT returns the root leaf,
    locked, and changes nothing else; for the operations that write, the
    leaf is one that the running transaction has written already *)
Lemma btree_walk_root_leaf (sbi : scoutfs_sb_info)
    (bt : scoutfs_btree_block) (key val_len seq op : Z)
    (next_key : option Z) :
  root_leaf sbi bt → op ≠ WALK_INSERT →
  (op = WALK_NEXT_SEQ → seq ≤ ref_seq (root_ref (btree_root sbi))) →
  (op = WALK_DELETE ∨ op = WALK_DIRTY → hdr_seq bt = dirty_seq sbi) →
  btree_walk key next_key val_len seq op sbi =
    Some ((BH (root_blkno sbi),
           match next_key with
           | Some _ => Some SCOUTFS_MAX_KEY
           | None => None
           end),
          with_leaf bt sbi).
Proof.
  intros (Hh & Hb & Hlk & Hw) Hop Hseq Hwritten.
  assert ((op =? WALK_INSERT) = false) as Hopb by (by apply Z.eqb_neq).
  assert ((op =? WALK_NEXT_SEQ) &&
          (ref_seq (root_ref (btree_root sbi)) <? seq) = false) as Hold.
  { destruct (Z.eqb_spec op WALK_NEXT_SEQ) as [Heq|]; [|done]. simpl.
    specialize (Hseq Heq). apply Z.ltb_ge. lia. }
  unfold btree_walk. rewrite Hopb. cbn [orb].
  destruct ((op =? WALK_DELETE) || (op =? WALK_DIRTY)) eqn:Hd.
  - (* a walk that writes *)
    assert (hdr_seq bt = dirty_seq sbi) as Hs.
    { apply Hwritten. apply orb_true_iff in Hd.
      destruct Hd as [?%Z.eqb_eq|?%Z.eqb_eq]; auto. }
    unfold lock_block at 1, lock_root. msteps.
    cbn [btree_root set_btree_rwsem]. rewrite Hh, Hold.
    change (1 =? 0) with false. cbv iota.
    change (Z.to_nat (1 - 1)) with 0%nat.
    cbn [walk_loop]. rewrite Hopb.
    unfold get_block_ref, scoutfs_block_dirty_ref, scoutfs_block_read_ref.
    msteps. cbn [load_ref blocks btree_root set_btree_rwsem].
    fold (root_blkno sbi). rewrite Hb. msteps.
    match goal with
    | |- context [bh_data ?s (root_blkno sbi)] =>
        assert (bh_data s (root_blkno sbi) = bt) as ->
          by (by apply bh_data_lookup)
    end.
    cbn [dirty_seq set_btree_rwsem]. rewrite Hs, Z.eqb_refl. msteps.
    unfold lock_block, unlock_block, unlock_root. msteps.
    unfold with_leaf. rewrite (with_block_same _ _ Hb).
    match goal with
    | |- ?m ?s = Some (?a, ?s') => assert (s = s') as ->; [|reflexivity]
    end.
    apply sbi_ext; try done.
    cbn [btree_rwsem set_btree_rwsem set_locked].
    apply (rwsem_restored _ true Hw).
  - (* a walk that reads *)
    unfold lock_block at 1, lock_root. msteps.
    cbn [btree_root set_btree_rwsem]. rewrite Hh, Hold.
    change (1 =? 0) with false. cbv iota.
    change (Z.to_nat (1 - 1)) with 0%nat.
    cbn [walk_loop]. rewrite Hopb.
    unfold get_block_ref, scoutfs_block_read_ref.
    msteps. cbn [load_ref blocks btree_root set_btree_rwsem].
    fold (root_blkno sbi). rewrite Hb. msteps.
    unfold lock_block, unlock_block, unlock_root. msteps.
    unfold with_leaf. rewrite (with_block_same _ _ Hb).
    match goal with
    | |- ?m ?s = Some (?a, ?s') => assert (s = s') as ->; [|reflexivity]
    end.
    apply sbi_ext; try done.
    cbn [btree_rwsem set_btree_rwsem set_locked].
    apply (rwsem_restored _ false Hw).
Qed.

(** the walk for WALK_INSERT into a root leaf that has the room, at once or
    after compaction *)
Lemma btree_walk_insert_root_leaf `{!FormatOK} (sbi : scoutfs_sb_info)
    (bt : scoutfs_btree_block) (key val_len seq : Z) :
  root_leaf sbi bt → hdr_seq bt = dirty_seq sbi →
  split_need 0 val_len ≤ reclaimable_free bt →
  btree_walk key None val_len seq WALK_INSERT sbi =
    Some ((BH (root_blkno sbi), None),
          with_leaf (if split_need 0 val_len <=? contig_free bt
                     then bt else compact_items bt) sbi).
Proof.
  intros (Hh & Hb & Hlk & Hw) Hs Hroom.
  unfold btree_walk. change (WALK_INSERT =? WALK_INSERT) with true.
  cbn [orb]. unfold lock_block at 1, lock_root. msteps.
  cbn [btree_root set_btree_rwsem]. rewrite Hh.
  change (1 =? 0) with false. cbv iota.
  change (WALK_INSERT =? WALK_NEXT_SEQ) with false. cbn [andb].
  change (Z.to_nat (1 - 1)) with 0%nat.
  cbn [walk_loop]. change (WALK_INSERT =? WALK_INSERT) with true. cbv iota.
  unfold get_block_ref, scoutfs_block_dirty_ref, scoutfs_block_read_ref.
  msteps. cbn [load_ref blocks btree_root set_btree_rwsem].
  fold (root_blkno sbi). rewrite Hb. msteps.
  match goal with
  | |- context [bh_data ?s (root_blkno sbi)] =>
      assert (bh_data s (root_blkno sbi) = bt) as Hdata
        by (by apply bh_data_lookup)
  end.
  rewrite Hdata. cbn [dirty_seq set_btree_rwsem]. rewrite Hs, Z.eqb_refl.
  msteps. change (Z.of_nat 0) with 0.
  destruct (Z.leb_spec (split_need 0 val_len) (contig_free bt)) as [Hfit|Hno].
  - erewrite bind_eq; [|apply try_split_fits; by rewrite Hdata].
    cbv beta iota. msteps. unfold unlock_block, unlock_root. msteps.
    unfold with_leaf. rewrite (with_block_same _ _ Hb).
    match goal with
    | |- ?m ?s = Some (?a, ?s') => assert (s = s') as ->; [|reflexivity]
    end.
    apply sbi_ext; try done.
    cbn [btree_rwsem set_btree_rwsem set_locked].
    apply (rwsem_restored _ true Hw).
  - erewrite bind_eq; [|apply try_split_compacts; rewrite Hdata; lia].
    cbv beta iota. msteps. unfold unlock_block, unlock_root. msteps.
    rewrite Hdata.
    match goal with
    | |- ?m ?s = Some (?a, ?s') => assert (s = s') as ->; [|reflexivity]
    end.
    apply sbi_ext; try done.
    cbn [btree_rwsem set_btree_rwsem set_locked set_blocks with_leaf
         with_block].
    apply (rwsem_restored _ true Hw).
Qed.

End RootLeafWalk.

(** ** Trees of height 1: the operations *)

Lemma bh_data_with_leaf (sbi : scoutfs_sb_info) (bt : scoutfs_btree_block) :
  bh_data (with_leaf bt sbi) (root_blkno sbi) = bt.
Proof. unfold bh_data. simpl. by rewrite lookup_insert_eq. Qed.

Lemma bh_data_with_block (sbi : scoutfs_sb_info) (bt : scoutfs_btree_block) :
  bh_data (with_block bt sbi) (root_blkno sbi) = bt.
Proof. unfold bh_data. simpl. by rewrite lookup_insert_eq. Qed.

Lemma unlock_with_leaf (sbi : scoutfs_sb_info) (bt : scoutfs_btree_block) :
  root_blkno sbi ∉ locked sbi →
  set_locked (locked (with_leaf bt sbi) ∖ {[root_blkno sbi]})
    (with_leaf bt sbi) = with_block bt sbi.
Proof.
  intros Hlk. apply sbi_ext; try done. simpl.
  apply set_eq. intros x.
  rewrite elem_of_difference, elem_of_union, elem_of_singleton. split.
  - intros [[?|?] ?]; done.
  - intros Hx. split; [by right|]. by intros ->.
Qed.

Lemma root_leaf_with_block (sbi : scoutfs_sb_info)
    (bt bt' : scoutfs_btree_block) :
  root_leaf sbi bt → root_leaf (with_block bt' sbi) bt'.
Proof.
  intros (Hh & Hb & Hlk & Hw). split; [done|]. split; [|done].
  unfold root_blkno, with_block. simpl. by rewrite lookup_insert_eq.
Qed.

Lemma with_block_twice (sbi : scoutfs_sb_info)
    (bt bt' : scoutfs_btree_block) :
  with_block bt' (with_block bt sbi) = with_block bt' sbi.
Proof.
  apply sbi_ext; try done. unfold with_block, root_blkno. simpl.
  by rewrite insert_insert_eq.
Qed.

Lemma with_leaf_update (sbi : scoutfs_sb_info)
    (bt bt' : scoutfs_btree_block) :
  set_blocks (<[root_blkno sbi := bt']> (blocks (with_leaf bt sbi)))
    (with_leaf bt sbi) = with_leaf bt' sbi.
Proof.
  apply sbi_ext; try done. simpl. by rewrite insert_insert_eq.
Qed.

Lemma with_leaf_same (sbi : scoutfs_sb_info) (bt : scoutfs_btree_block) :
  blocks sbi !! root_blkno sbi = Some bt →
  with_leaf bt sbi = set_locked ({[root_blkno sbi]} ∪ locked sbi) sbi.
Proof. intros Hb. unfold with_leaf. by rewrite with_block_same. Qed.

Lemma cursor_key_at (sbi : scoutfs_sb_info) (b : Z)
    (bt : scoutfs_btree_block) (pos : Z) (write : bool) :
  bh_data sbi b = bt →
  cursor_key sbi (cursor_at b bt pos write) = item_key (pos_item bt pos).
Proof. intros Hb. unfold cursor_key, cursor_at. simpl. by rewrite Hb. Qed.

Section RootLeafOps.
Context `{Format}.

(** scoutfs_btree_lookup() by what find_pos() says in the root leaf *)
Lemma lookup_root_leaf_run (sbi : scoutfs_sb_info)
    (bt : scoutfs_btree_block) (key pos cmp : Z)
    (curs : scoutfs_btree_cursor) :
  root_leaf sbi bt → curs_bh curs = None →
  find_pos bt key = Some (pos, cmp) →
  scoutfs_btree_lookup key curs sbi =
    Some (if cmp =? 0
          then ((0, cursor_at (root_blkno sbi) bt pos false),
                set_locked ({[root_blkno sbi]} ∪ locked sbi) sbi)
          else ((- ENOENT, curs), sbi)).
Proof.
  intros Hroot Hcurs Hfind.
  pose proof Hroot as (Hh & Hb & Hlk & Hw).
  unfold scoutfs_btree_lookup. rewrite Hcurs.
  rewrite (bind_eq _ _ _ _ _
             (btree_walk_root_leaf sbi bt key 0 0 0 None Hroot
                ltac:(done) ltac:(done) ltac:(by intros [?|?]))).
  cbv beta iota. mstep. rewrite bh_data_with_leaf, Hfind. mstep.
  destruct (cmp =? 0).
  - unfold set_cursor. msteps.
    by rewrite bh_data_with_leaf, (with_leaf_same _ _ Hb).
  - msteps. rewrite unlock_with_leaf by done. by rewrite with_block_same.
Qed.

(** X8: scoutfs_btree_lookup() in a tree whose root is a leaf with its
    offset array ordered by key.  For a key of the leaf it returns 0 and
    leaves the cursor on the item of that key, with the leaf locked for
    reading; nothing else changes.  For any other key it returns -ENOENT
    and leaves the cursor and the whole state as they were: the lock of the
    leaf is given back. *)
Theorem scoutfs_btree_lookup_root_leaf (sbi : scoutfs_sb_info)
    (bt : scoutfs_btree_block) (key : Z) (curs : scoutfs_btree_cursor) :
  root_leaf sbi bt → key_sorted bt → curs_bh curs = None →
  (key ∈ block_keys bt →
   ∃ pos,
     0 ≤ pos < nr_items bt ∧ item_key (pos_item bt pos) = key ∧
     scoutfs_btree_lookup key curs sbi =
       Some ((0, cursor_at (root_blkno sbi) bt pos false),
             set_locked ({[root_blkno sbi]} ∪ locked sbi) sbi) ∧
     cursor_key (set_locked ({[root_blkno sbi]} ∪ locked sbi) sbi)
       (cursor_at (root_blkno sbi) bt pos false) = key) ∧
  ((key ∉ block_keys bt) →
   scoutfs_btree_lookup key curs sbi = Some ((- ENOENT, curs), sbi)).
Proof.
  intros Hroot Hks Hcurs.
  pose proof Hroot as (Hh & Hb & Hlk & Hw).
  destruct (find_pos_present bt key Hks)
    as (pos & cmp & Hfind & Hpos & Hcase).
  rewrite (lookup_root_leaf_run sbi bt key pos cmp curs Hroot Hcurs Hfind).
  split.
  - intros Hin. destruct Hcase as [(-> & Hlt & Hkey & _)|[_ ?]]; [|done].
    exists pos. split; [lia|]. split; [done|]. split; [done|].
    rewrite cursor_key_at; [done|]. by apply bh_data_lookup.
  - intros Hnotin. destruct Hcase as [(_ & _ & _ & ?)|[Hcmp _]]; [done|].
    destruct (Z.eqb_spec cmp 0); [lia|done].
Qed.

Lemma pos_item_items_eq (a b : scoutfs_btree_block) (i : Z) :
  block_items a = block_items b → 0 ≤ i < nr_items a →
  pos_item a i = pos_item b i.
Proof.
  intros Heq Hi.
  assert (nr_items a = nr_items b) as Hnr.
  { pose proof (block_items_length a). pose proof (block_items_length b).
    unfold nr_items in *. rewrite Heq in *. lia. }
  pose proof (pos_item_lookup a i Hi) as Ha.
  pose proof (pos_item_lookup b i ltac:(lia)) as Hb.
  rewrite Heq in Ha. congruence.
Qed.

(** the block as the walk for an insertion leaves it *)
Lemma insert_room `{!FormatOK} (bt : scoutfs_btree_block) (val_len : Z) :
  wf_block bt → key_sorted bt →
  all_val_bytes val_len ≤ reclaimable_free bt →
  let bt_c := if all_val_bytes val_len <=? contig_free bt
              then bt else compact_items bt in
  wf_block bt_c ∧ key_sorted bt_c ∧ block_items bt_c = block_items bt ∧
  nr_items bt_c = nr_items bt ∧ hdr_seq bt_c = hdr_seq bt ∧
  hdr_blkno bt_c = hdr_blkno bt ∧
  all_val_bytes val_len ≤ contig_free bt_c.
Proof.
  intros Hwf Hks Hroom.
  destruct (Z.leb_spec (all_val_bytes val_len) (contig_free bt)); [done|].
  destruct (compact_items_spec bt Hwf Hks)
    as (Hitems & _ & _ & _ & Hw & Hnr & Hb & Hs).
  split; [done|]. split; [by apply compact_items_key_sorted|].
  split; [done|]. split; [done|]. split; [done|]. split; [done|].
  by rewrite compact_items_contig_free.
Qed.

(** scoutfs_btree_insert() by what find_pos() says in the root leaf *)
Lemma insert_root_leaf_run `{!FormatOK} (sbi : scoutfs_sb_info)
    (bt : scoutfs_btree_block) (key val_len pos cmp : Z)
    (curs : scoutfs_btree_cursor) :
  root_leaf sbi bt → hdr_seq bt = dirty_seq sbi → curs_bh curs = None →
  all_val_bytes val_len ≤ reclaimable_free bt →
  let bt_c := if all_val_bytes val_len <=? contig_free bt
              then bt else compact_items bt in
  find_pos bt_c key = Some (pos, cmp) →
  scoutfs_btree_insert key val_len curs sbi =
    Some (if cmp =? 0
          then ((- EEXIST, curs), with_block bt_c sbi)
          else ((0, cursor_at (root_blkno sbi)
                      (create_item bt_c pos key val_len).1 pos true),
                with_leaf (create_item bt_c pos key val_len).1 sbi)).
Proof.
  intros Hroot Hs Hcurs Hroom bt_c Hfind.
  pose proof Hroot as (Hh & Hb & Hlk & Hw).
  unfold scoutfs_btree_insert. rewrite Hcurs.
  rewrite (bind_eq _ _ _ _ _
             (btree_walk_insert_root_leaf sbi bt key val_len 0 Hroot Hs
                Hroom)).
  cbv beta iota.
  change (if split_need 0 val_len <=? contig_free bt
          then bt else compact_items bt) with bt_c.
  mstep. rewrite bh_data_with_leaf, Hfind. mstep.
  destruct (cmp =? 0).
  - msteps. by rewrite unlock_with_leaf.
  - msteps. rewrite bh_data_with_leaf, with_leaf_update.
    unfold set_cursor. msteps. by rewrite bh_data_with_leaf.
Qed.


(** a store to an item of the block that keeps the length of its value *)
Lemma store_item_alter_spec `{!FormatOK} (bt : scoutfs_btree_block)
    (pos : Z) (f : scoutfs_btree_item → scoutfs_btree_item) :
  (∀ x, item_val_len (f x) = item_val_len x) →
  wf_block bt → 0 ≤ pos < nr_items bt →
  let bt' := store_item (pos_off bt pos) (f (pos_item bt pos)) bt in
  wf_block bt' ∧
  block_items bt' = alter f (Z.to_nat pos) (block_items bt) ∧
  item_offs bt' = item_offs bt ∧
  pos_item bt' pos = f (pos_item bt pos).
Proof.
  intros Hf Hwf Hpos bt'.
  pose proof (pos_off_lookup bt pos Hpos) as Hl.
  set (off := pos_off bt pos) in *.
  assert (off_item bt' off = f (pos_item bt pos)) as Hnew
    by apply off_item_store_eq.
  assert (∀ o, o ≠ off → off_item bt' o = off_item bt o) as Hother.
  { intros o Hne. unfold bt'. by rewrite off_item_store_ne. }
  split; [|split; [|split; [done|]]].
  - apply (wf_block_same_sizes bt); try done.
    intros o Ho. destruct (decide (o = off)) as [->|Hne].
    + rewrite Hnew. apply Hf.
    + by rewrite Hother.
  - unfold block_items. change (item_offs bt') with (item_offs bt).
    apply list_eq. intros i.
    rewrite list_lookup_fmap.
    destruct (decide (i = Z.to_nat pos)) as [->|Hne].
    + rewrite list_lookup_alter_eq, list_lookup_fmap, Hl. simpl.
      by rewrite Hnew.
    + rewrite list_lookup_alter_ne, list_lookup_fmap by done.
      destruct (item_offs bt !! i) as [o|] eqn:Ho; [|done]. simpl.
      rewrite Hother; [done|]. intros ->.
      pose proof (NoDup_lookup _ _ _ _ (wf_nodup _ Hwf) Ho Hl). done.
  - unfold pos_item. change (pos_off bt' pos) with off. done.
Qed.

(** scoutfs_btree_update() by what find_pos() says in the root leaf *)
Lemma update_root_leaf_run (sbi : scoutfs_sb_info)
    (bt : scoutfs_btree_block) (key pos cmp : Z)
    (curs : scoutfs_btree_cursor) :
  root_leaf sbi bt → hdr_seq bt = dirty_seq sbi → curs_bh curs = None →
  find_pos bt key = Some (pos, cmp) →
  let bt' := store_item (pos_off bt pos)
               (set_item_seq (hdr_seq bt) (pos_item bt pos)) bt in
  scoutfs_btree_update key curs sbi =
    Some (if cmp =? 0
          then ((0, cursor_at (root_blkno sbi) bt' pos true),
                with_leaf bt' sbi)
          else ((- ENOENT, curs), sbi)).
Proof.
  intros Hroot Hs Hcurs Hfind bt'.
  pose proof Hroot as (Hh & Hb & Hlk & Hw).
  unfold scoutfs_btree_update. rewrite Hcurs.
  rewrite (bind_eq _ _ _ _ _
             (btree_walk_root_leaf sbi bt key 0 0 WALK_DIRTY None Hroot
                ltac:(done) ltac:(done) ltac:(done))).
  cbv beta iota. mstep. rewrite bh_data_with_leaf, Hfind. mstep.
  destruct (cmp =? 0).
  - msteps. rewrite bh_data_with_leaf, with_leaf_update.
    unfold set_cursor. msteps. by rewrite bh_data_with_leaf.
  - msteps. rewrite unlock_with_leaf by done. by rewrite with_block_same.
Qed.

(** scoutfs_btree_dirty() by what find_pos() says in the root leaf *)
Lemma dirty_root_leaf_run (sbi : scoutfs_sb_info)
    (bt : scoutfs_btree_block) (key pos cmp : Z) :
  root_leaf sbi bt → hdr_seq bt = dirty_seq sbi →
  find_pos bt key = Some (pos, cmp) →
  scoutfs_btree_dirty key sbi =
    Some (if cmp =? 0 then 0 else - ENOENT, sbi).
Proof.
  intros Hroot Hs Hfind.
  pose proof Hroot as (Hh & Hb & Hlk & Hw).
  unfold scoutfs_btree_dirty.
  rewrite (bind_eq _ _ _ _ _
             (btree_walk_root_leaf sbi bt key 0 0 WALK_DIRTY None Hroot
                ltac:(done) ltac:(done) ltac:(done))).
  cbv beta iota. mstep. rewrite bh_data_with_leaf, Hfind. msteps.
  rewrite unlock_with_leaf by done. by rewrite with_block_same.
Qed.

(** scoutfs_btree_update() in a root leaf that the running transaction has
    written *)
Lemma update_root_leaf_written `{!FormatOK} (sbi : scoutfs_sb_info)
    (bt : scoutfs_btree_block) (key : Z) (curs : scoutfs_btree_cursor) :
  root_leaf sbi bt → hdr_seq bt = dirty_seq sbi →
  wf_block bt → key_sorted bt → curs_bh curs = None →
  (key ∈ block_keys bt →
   ∃ pos bt',
     0 ≤ pos < nr_items bt ∧ item_key (pos_item bt pos) = key ∧
     scoutfs_btree_update key curs sbi =
       Some ((0, cursor_at (root_blkno sbi) bt' pos true),
             with_leaf bt' sbi) ∧
     block_items bt' =
       alter (set_item_seq (hdr_seq bt)) (Z.to_nat pos) (block_items bt) ∧
     block_keys bt' = block_keys bt ∧
     wf_block bt' ∧ key_sorted bt' ∧
     cursor_key (with_leaf bt' sbi)
       (cursor_at (root_blkno sbi) bt' pos true) = key ∧
     curs_seq (cursor_at (root_blkno sbi) bt' pos true) = hdr_seq bt ∧
     curs_val_len (cursor_at (root_blkno sbi) bt' pos true) =
       item_val_len (pos_item bt pos) ∧
     hdr_seq bt' = hdr_seq bt) ∧
  ((key ∉ block_keys bt) →
   scoutfs_btree_update key curs sbi = Some ((- ENOENT, curs), sbi)).
Proof.
  intros Hroot Hs Hwf Hks Hcurs.
  destruct (find_pos_present bt key Hks)
    as (pos & cmp & Hfind & Hpos & Hcase).
  rewrite (update_root_leaf_run sbi bt key pos cmp curs Hroot Hs Hcurs
             Hfind).
  split.
  - intros Hin. destruct Hcase as [(-> & Hlt & Hkey & _)|[_ ?]]; [|done].
    change (0 =? 0) with true. cbv iota.
    destruct (store_item_alter_spec bt pos (set_item_seq (hdr_seq bt))
                ltac:(done) Hwf ltac:(lia))
      as (Hw' & Hitems & Hoffs & Hitem).
    set (bt' := store_item _ _ bt) in *.
    assert (block_keys bt' = block_keys bt) as Hkeys.
    { rewrite !block_keys_items, Hitems. apply list_eq. intros i.
      rewrite !list_lookup_fmap.
      destruct (decide (i = Z.to_nat pos)) as [->|Hne].
      - rewrite list_lookup_alter_eq.
        by destruct (block_items bt !! Z.to_nat pos).
      - by rewrite list_lookup_alter_ne. }
    exists pos, bt'. split; [lia|]. split; [done|]. split; [done|].
    split; [done|]. split; [done|]. split; [done|].
    split.
    { apply key_sorted_items. rewrite <-block_keys_items, Hkeys,
        block_keys_items. by apply key_sorted_items. }
    rewrite cursor_key_at by apply bh_data_with_leaf.
    cbn [curs_seq curs_val_len cursor_at]. by rewrite Hitem.
  - intros Hnotin. destruct Hcase as [(_ & _ & _ & ?)|[Hcmp _]]; [done|].
    destruct (Z.eqb_spec cmp 0); [lia|done].
Qed.

(** scoutfs_btree_dirty() in a root leaf that the running transaction has
    written *)
Lemma dirty_root_leaf_written (sbi : scoutfs_sb_info)
    (bt : scoutfs_btree_block) (key : Z) :
  root_leaf sbi bt → hdr_seq bt = dirty_seq sbi → key_sorted bt →
  (key ∈ block_keys bt → scoutfs_btree_dirty key sbi = Some (0, sbi)) ∧
  ((key ∉ block_keys bt) →
   scoutfs_btree_dirty key sbi = Some (- ENOENT, sbi)).
Proof.
  intros Hroot Hs Hks.
  destruct (find_pos_present bt key Hks)
    as (pos & cmp & Hfind & Hpos & Hcase).
  rewrite (dirty_root_leaf_run sbi bt key pos cmp Hroot Hs Hfind).
  split.
  - intros Hin. by destruct Hcase as [(-> & _)|[_ ?]].
  - intros Hnotin. destruct Hcase as [(_ & _ & _ & ?)|[Hcmp _]]; [done|].
    destruct (Z.eqb_spec cmp 0); [lia|done].
Qed.

End RootLeafOps.

(** ** Trees of height 1: writing to a leaf that is clean *)

Lemma block_copy_items (c seq : Z) (bt : scoutfs_btree_block) :
  block_items (block_copy c seq bt) = block_items bt.
Proof. done. Qed.

Lemma block_copy_key_sorted (c seq : Z) (bt : scoutfs_btree_block) :
  key_sorted bt → key_sorted (block_copy c seq bt).
Proof. intros Hks i j. apply (Hks i j). Qed.

Section Dirtied.
Context `{Format}.

Lemma block_copy_wf (c seq : Z) (bt : scoutfs_btree_block) :
  wf_block bt → wf_block (block_copy c seq bt).
Proof. intros [? ? ? ? ? ?]. by split. Qed.

(** what the root leaf is like once the transaction can write it *)
Lemma dirtied_block_spec (sbi : scoutfs_sb_info)
    (bt : scoutfs_btree_block) :
  block_items (dirtied_block sbi bt) = block_items bt ∧
  block_keys (dirtied_block sbi bt) = block_keys bt ∧
  nr_items (dirtied_block sbi bt) = nr_items bt ∧
  reclaimable_free (dirtied_block sbi bt) = reclaimable_free bt ∧
  contig_free (dirtied_block sbi bt) = contig_free bt ∧
  (wf_block bt → wf_block (dirtied_block sbi bt)) ∧
  (key_sorted bt → key_sorted (dirtied_block sbi bt)).
Proof.
  unfold dirtied_block.
  destruct (hdr_seq bt =? dirty_seq sbi); [done|].
  destruct (alloc_avail sbi) as [|c avail]; [done|].
  do 5 (split; [done|]).
  split; [apply block_copy_wf|apply block_copy_key_sorted].
Qed.

Lemma dirtied_root_spec (sbi : scoutfs_sb_info) (bt : scoutfs_btree_block) :
  root_leaf sbi bt → can_dirty sbi bt →
  root_leaf (dirtied_root sbi bt) (dirtied_block sbi bt) ∧
  hdr_seq (dirtied_block sbi bt) = dirty_seq (dirtied_root sbi bt) ∧
  dirty_seq (dirtied_root sbi bt) = dirty_seq sbi ∧
  locked (dirtied_root sbi bt) = locked sbi ∧
  freed (dirtied_root sbi bt) = freed sbi ∧
  btree_rwsem (dirtied_root sbi bt) = btree_rwsem sbi.
Proof.
  intros (Hh & Hb & Hlk & Hw) Hcan.
  unfold dirtied_root, dirtied_block.
  destruct (Z.eqb_spec (hdr_seq bt) (dirty_seq sbi)) as [Hs|Hs].
  { split; [done|]. done. }
  destruct Hcan as [?|(c & avail & Hav & Hc)]; [done|]. rewrite Hav.
  split; [|done].
  split; [done|]. split; [|done].
  unfold root_blkno. simpl. by rewrite lookup_insert_eq.
Qed.

(** scoutfs_block_dirty_ref() on the reference of the root *)
Lemma dirty_ref_root (sbi : scoutfs_sb_info) (bt : scoutfs_btree_block) :
  blocks sbi !! root_blkno sbi = Some bt →
  hdr_seq bt = dirty_seq sbi ∨ alloc_avail sbi ≠ [] →
  scoutfs_block_dirty_ref ROOT_REF sbi =
    Some (BH (root_blkno (dirtied_root sbi bt)), dirtied_root sbi bt).
Proof.
  intros Hb Hcan.
  unfold scoutfs_block_dirty_ref, scoutfs_block_read_ref. msteps.
  cbn [load_ref]. fold (root_blkno sbi). rewrite Hb. msteps.
  rewrite (bh_data_lookup _ _ _ Hb). unfold dirtied_root.
  destruct (Z.eqb_spec (hdr_seq bt) (dirty_seq sbi)) as [Hs|Hs]; [done|].
  destruct Hcan as [?|Hav]; [done|].
  destruct (alloc_avail sbi) as [|c avail] eqn:Havail; [done|].
  unfold scoutfs_block_dirty_alloc. msteps. rewrite Havail. msteps.
  cbn [store_ref]. msteps.
  repeat match goal with
         | |- context [bh_data ?s c] =>
             let Hx := fresh in
             eassert (bh_data s c = _) as Hx
               by (unfold bh_data; cbn [blocks set_blocks set_alloc_avail];
                   by rewrite lookup_insert_eq);
             rewrite Hx; clear Hx
         end.
  cbn [hdr_blkno hdr_seq].
  match goal with
  | |- ?m ?s = Some (?a, ?s') => assert (s = s') as ->; [|reflexivity]
  end.
  apply sbi_ext; try done.
  cbn [blocks set_blocks set_btree_root set_alloc_avail].
  by rewrite insert_insert_eq.
Qed.

Lemma dirtied_root_rwsem (sbi : scoutfs_sb_info) (bt : scoutfs_btree_block)
    (sem : rw_semaphore) :
  dirtied_root (set_btree_rwsem sem sbi) bt =
    set_btree_rwsem sem (dirtied_root sbi bt).
Proof.
  unfold dirtied_root. cbn [dirty_seq alloc_avail set_btree_rwsem].
  destruct (hdr_seq bt =? dirty_seq sbi); [done|].
  by destruct (alloc_avail sbi).
Qed.

Lemma dirtied_root_written (sbi : scoutfs_sb_info)
    (bt : scoutfs_btree_block) :
  hdr_seq bt = dirty_seq sbi → dirtied_root sbi bt = sbi.
Proof. intros Hs. unfold dirtied_root. by rewrite Hs, Z.eqb_refl. Qed.

(** a walk that writes goes on from the root leaf in the form in which
    the transaction can write it *)
Lemma btree_walk_dirtied (sbi : scoutfs_sb_info) (bt : scoutfs_btree_block)
    (key val_len seq op : Z) (next_key : option Z) :
  root_leaf sbi bt → can_dirty sbi bt →
  op = WALK_INSERT ∨ op = WALK_DELETE ∨ op = WALK_DIRTY →
  btree_walk key next_key val_len seq op sbi =
  btree_walk key next_key val_len seq op (dirtied_root sbi bt).
Proof.
  intros Hroot Hcan Hop.
  destruct (dirtied_root_spec sbi bt Hroot Hcan)
    as ((Hh' & Hb' & Hlk' & Hw') & Hs' & Hds & Hlocked & Hfreed & Hsem).
  destruct Hroot as (Hh & Hb & Hlk & Hw).
  assert ((op =? WALK_INSERT) || (op =? WALK_DELETE) || (op =? WALK_DIRTY)
          = true) as Hd.
  { destruct Hop as [-> | [-> | ->]]; done. }
  assert ((op =? WALK_NEXT_SEQ) = false) as Hseq.
  { destruct Hop as [-> | [-> | ->]]; done. }
  unfold btree_walk. rewrite Hd, Hseq. cbn [andb].
  unfold lock_block at 1 3, lock_root. msteps.
  cbn [btree_root set_btree_rwsem]. rewrite Hh, Hh'.
  change (1 =? 0) with false. cbv iota.
  change (Z.to_nat (1 - 1)) with 0%nat.
  cbn [walk_loop]. unfold get_block_ref. rewrite Hsem.
  set (sem := {| rw_readers := rw_readers (btree_rwsem sbi);
                 rw_writer := true |}).
  assert (scoutfs_block_dirty_ref ROOT_REF (set_btree_rwsem sem sbi) =
          Some (BH (root_blkno (dirtied_root sbi bt)),
                set_btree_rwsem sem (dirtied_root sbi bt))) as Hleft.
  { rewrite (dirty_ref_root (set_btree_rwsem sem sbi) bt).
    - by rewrite dirtied_root_rwsem.
    - done.
    - destruct Hcan as [?|(c & avail & Hav & _)]; [by left|right].
      cbn [alloc_avail set_btree_rwsem]. by rewrite Hav. }
  assert (scoutfs_block_dirty_ref ROOT_REF
            (set_btree_rwsem sem (dirtied_root sbi bt)) =
          Some (BH (root_blkno (dirtied_root sbi bt)),
                set_btree_rwsem sem (dirtied_root sbi bt))) as Hright.
  { rewrite (dirty_ref_root (set_btree_rwsem sem (dirtied_root sbi bt))
               (dirtied_block sbi bt)).
    - by rewrite dirtied_root_written.
    - done.
    - by left. }
  rewrite !bind_assoc.
  rewrite (bind_eq _ _ _ _ _ Hleft). by rewrite (bind_eq _ _ _ _ _ Hright).
Qed.

(** a walk that writes to a clean root leaf needs a block for the copy *)
Lemma btree_walk_no_copy (sbi : scoutfs_sb_info) (bt : scoutfs_btree_block)
    (key val_len seq op : Z) (next_key : option Z) :
  root_leaf sbi bt → hdr_seq bt ≠ dirty_seq sbi → alloc_avail sbi = [] →
  op = WALK_INSERT ∨ op = WALK_DELETE ∨ op = WALK_DIRTY →
  ∃ err,
    scoutfs_block_dirty_alloc sbi = Some (ERR_PTR err, sbi) ∧
    btree_walk key next_key val_len seq op sbi =
      Some ((ERR_PTR err,
             match next_key with
             | Some _ => Some SCOUTFS_MAX_KEY
             | None => None
             end), sbi).
Proof.
  intros (Hh & Hb & Hlk & Hw) Hs Hav Hop.
  assert ((op =? WALK_INSERT) || (op =? WALK_DELETE) || (op =? WALK_DIRTY)
          = true) as Hd.
  { destruct Hop as [-> | [-> | ->]]; done. }
  assert ((op =? WALK_NEXT_SEQ) = false) as Hseq.
  { destruct Hop as [-> | [-> | ->]]; done. }
  exists (- ENOSPC). split.
  { unfold scoutfs_block_dirty_alloc. mstep. by rewrite Hav. }
  unfold btree_walk. rewrite Hd, Hseq. cbn [andb].
  unfold lock_block at 1, lock_root. msteps.
  cbn [btree_root set_btree_rwsem]. rewrite Hh.
  change (1 =? 0) with false. cbv iota.
  change (Z.to_nat (1 - 1)) with 0%nat.
  cbn [walk_loop].
  unfold get_block_ref, scoutfs_block_dirty_ref, scoutfs_block_read_ref.
  msteps. cbn [load_ref blocks btree_root set_btree_rwsem].
  fold (root_blkno sbi). rewrite Hb. msteps.
  match goal with
  | |- context [bh_data ?s (root_blkno sbi)] =>
      assert (bh_data s (root_blkno sbi) = bt) as ->
        by (by apply bh_data_lookup)
  end.
  cbn [dirty_seq set_btree_rwsem].
  destruct (Z.eqb_spec (hdr_seq bt) (dirty_seq sbi)); [done|].
  unfold scoutfs_block_dirty_alloc. msteps.
  cbn [alloc_avail set_btree_rwsem]. rewrite Hav. msteps.
  unfold unlock_block, unlock_root. msteps.
  match goal with
  | |- ?m ?s = Some (?a, ?s') => assert (s = s') as ->; [|reflexivity]
  end.
  apply sbi_ext; try done.
  cbn [btree_rwsem set_btree_rwsem]. apply (rwsem_restored _ true Hw).
Qed.

Lemma pos_item_dirtied (sbi : scoutfs_sb_info) (bt : scoutfs_btree_block)
    (i : Z) :
  pos_item (dirtied_block sbi bt) i = pos_item bt i.
Proof.
  unfold dirtied_block. destruct (hdr_seq bt =? dirty_seq sbi); [done|].
  by destruct (alloc_avail sbi).
Qed.

(** what the state is like once the transaction can write the root leaf *)
Lemma dirtied_root_blocks (sbi : scoutfs_sb_info)
    (bt : scoutfs_btree_block) (c : Z) (avail : list Z) :
  hdr_seq bt ≠ dirty_seq sbi → alloc_avail sbi = c :: avail →
  root_ref (btree_root (dirtied_root sbi bt)) =
    {| ref_blkno := c; ref_seq := dirty_seq sbi |} ∧
  blocks (dirtied_root sbi bt) !! c =
    Some (block_copy c (dirty_seq sbi) bt) ∧
  (∀ b, b ≠ c → blocks (dirtied_root sbi bt) !! b = blocks sbi !! b) ∧
  alloc_avail (dirtied_root sbi bt) = avail.
Proof.
  intros Hs Hav. unfold dirtied_root.
  destruct (Z.eqb_spec (hdr_seq bt) (dirty_seq sbi)); [done|].
  rewrite Hav. simpl. split; [done|].
  split; [by rewrite lookup_insert_eq|]. split; [|done].
  intros b Hne. by rewrite lookup_insert_ne.
Qed.

(** X11: scoutfs_btree_dirty() in a tree whose root is a leaf with its
    offset array ordered by key.  It returns 0 for a key of the leaf and
    -ENOENT for any other key, and either way leaves the root leaf in the
    form in which the running transaction can write it, with no lock held.
    A leaf whose header has the seq of the transaction is left as it is, and
    so is the whole state.  A clean leaf is copied: the copy holds what the
    leaf holds under the first block number of the allocator and the seq of
    the transaction, the root refers to it by that number and seq, the
    block number is taken from the allocator, and every other block, the
    clean leaf among them, stays as it was.  When the leaf is clean and the
    allocator has no block, the call returns the error of
    scoutfs_block_dirty_alloc() and changes nothing. *)
Theorem scoutfs_btree_dirty_root_leaf (sbi : scoutfs_sb_info)
    (bt : scoutfs_btree_block) (key : Z) :
  root_leaf sbi bt → key_sorted bt →
  (can_dirty sbi bt →
   (key ∈ block_keys bt →
    scoutfs_btree_dirty key sbi = Some (0, dirtied_root sbi bt)) ∧
   ((key ∉ block_keys bt) →
    scoutfs_btree_dirty key sbi = Some (- ENOENT, dirtied_root sbi bt)) ∧
   root_leaf (dirtied_root sbi bt) (dirtied_block sbi bt) ∧
   hdr_seq (dirtied_block sbi bt) = dirty_seq sbi ∧
   block_items (dirtied_block sbi bt) = block_items bt) ∧
  (hdr_seq bt = dirty_seq sbi →
   dirtied_root sbi bt = sbi ∧ dirtied_block sbi bt = bt) ∧
  (∀ (c : Z) (avail : list Z),
     hdr_seq bt ≠ dirty_seq sbi → alloc_avail sbi = c :: avail →
     dirtied_block sbi bt = block_copy c (dirty_seq sbi) bt ∧
     root_ref (btree_root (dirtied_root sbi bt)) =
       {| ref_blkno := c; ref_seq := dirty_seq sbi |} ∧
     blocks (dirtied_root sbi bt) !! c =
       Some (block_copy c (dirty_seq sbi) bt) ∧
     (∀ b, b ≠ c → blocks (dirtied_root sbi bt) !! b = blocks sbi !! b) ∧
     alloc_avail (dirtied_root sbi bt) = avail) ∧
  (hdr_seq bt ≠ dirty_seq sbi → alloc_avail sbi = [] →
   ∃ err,
     scoutfs_block_dirty_alloc sbi = Some (ERR_PTR err, sbi) ∧
     scoutfs_btree_dirty key sbi = Some (err, sbi)).
Proof.
  intros Hroot Hks.
  split; [|split; [|split]].
  - intros Hcan.
    destruct (dirtied_root_spec sbi bt Hroot Hcan)
      as (Hroot' & Hs' & Hds & _).
    destruct (dirtied_block_spec sbi bt)
      as (Hitems & Hkeys & _ & _ & _ & _ & Hks').
    assert (scoutfs_btree_dirty key sbi =
            scoutfs_btree_dirty key (dirtied_root sbi bt)) as ->.
    { unfold scoutfs_btree_dirty, bind.
      by rewrite (btree_walk_dirtied sbi bt key 0 0 WALK_DIRTY None Hroot
                    Hcan) by auto. }
    destruct (dirty_root_leaf_written (dirtied_root sbi bt)
                (dirtied_block sbi bt) key Hroot' Hs' (Hks' Hks))
      as [Hin Hout].
    rewrite Hkeys in Hin, Hout.
    split; [done|]. split; [done|]. split; [done|].
    split; [congruence|done].
  - intros Hs. split; [by apply dirtied_root_written|].
    unfold dirtied_block. by rewrite Hs, Z.eqb_refl.
  - intros c avail Hs Hav. split.
    + unfold dirtied_block.
      destruct (Z.eqb_spec (hdr_seq bt) (dirty_seq sbi)); [done|].
      by rewrite Hav.
    + by apply dirtied_root_blocks.
  - intros Hs Hav.
    destruct (btree_walk_no_copy sbi bt key 0 0 WALK_DIRTY None Hroot Hs Hav)
      as (err & Halloc & Hwalk); [auto|].
    exists err. split; [done|].
    unfold scoutfs_btree_dirty. by rewrite (bind_eq _ _ _ _ _ Hwalk).
Qed.

(** X10: scoutfs_btree_update() in a tree whose root is a well formed leaf
    with its offset array ordered by key, which the running transaction has
    written or can copy ([dirtied_root] is the state with the copy in
    place).  For a key of the leaf it returns 0 and stamps the item with the
    seq of the transaction: keys, values and the other items stay, the leaf
    has the seq of the transaction and stays well formed and ordered, and
    the cursor is on the item with the leaf locked for writing.  For any
    other key it returns -ENOENT, leaves the cursor as it was and no lock
    behind. *)
Theorem scoutfs_btree_update_root_leaf `{!FormatOK} (sbi : scoutfs_sb_info)
    (bt : scoutfs_btree_block) (key : Z) (curs : scoutfs_btree_cursor) :
  root_leaf sbi bt → can_dirty sbi bt →
  wf_block bt → key_sorted bt → curs_bh curs = None →
  (key ∈ block_keys bt →
   ∃ pos bt',
     0 ≤ pos < nr_items bt ∧ item_key (pos_item bt pos) = key ∧
     scoutfs_btree_update key curs sbi =
       Some ((0, cursor_at (root_blkno (dirtied_root sbi bt)) bt' pos true),
             with_leaf bt' (dirtied_root sbi bt)) ∧
     block_items bt' =
       alter (set_item_seq (dirty_seq sbi)) (Z.to_nat pos)
         (block_items bt) ∧
     block_keys bt' = block_keys bt ∧
     hdr_seq bt' = dirty_seq sbi ∧
     wf_block bt' ∧ key_sorted bt' ∧
     cursor_key (with_leaf bt' (dirtied_root sbi bt))
       (cursor_at (root_blkno (dirtied_root sbi bt)) bt' pos true) = key ∧
     curs_seq (cursor_at (root_blkno (dirtied_root sbi bt)) bt' pos true) =
       dirty_seq sbi ∧
     curs_val_len
       (cursor_at (root_blkno (dirtied_root sbi bt)) bt' pos true) =
       item_val_len (pos_item bt pos)) ∧
  ((key ∉ block_keys bt) →
   scoutfs_btree_update key curs sbi =
     Some ((- ENOENT, curs), dirtied_root sbi bt)).
Proof.
  intros Hroot Hcan Hwf Hks Hcurs.
  destruct (dirtied_root_spec sbi bt Hroot Hcan)
    as (Hroot' & Hs' & Hds & _).
  destruct (dirtied_block_spec sbi bt)
    as (Hitems & Hkeys & Hnr & _ & _ & Hwf' & Hks').
  assert (scoutfs_btree_update key curs sbi =
          scoutfs_btree_update key curs (dirtied_root sbi bt)) as ->.
  { unfold scoutfs_btree_update, bind. rewrite Hcurs.
    by rewrite (btree_walk_dirtied sbi bt key 0 0 WALK_DIRTY None Hroot
                  Hcan) by auto. }
  destruct (update_root_leaf_written (dirtied_root sbi bt)
              (dirtied_block sbi bt) key curs Hroot' Hs' (Hwf' Hwf)
              (Hks' Hks) Hcurs) as [Hin Hout].
  rewrite Hkeys in Hin, Hout. split; [|done].
  intros Hkey. destruct (Hin Hkey)
    as (pos & bt' & Hpos & Hk & Hrun & Hi & Hk' & Hw' & Hs'' & Hck & Hcs &
        Hcv & Hh).
  rewrite Hnr, pos_item_dirtied in *. rewrite Hitems, Hs', Hds in *.
  exists pos, bt'. split; [done|]. split; [done|]. split; [done|].
  split; [done|]. split; [done|]. split; [congruence|].
  split; [done|]. split; [done|]. split; [done|]. split; done.
Qed.


End Dirtied.

(** ** Trees of height 1: one operation after the other *)

Lemma key_sorted_pos_inj (bt : scoutfs_btree_block) (i j : Z) :
  key_sorted bt → 0 ≤ i < nr_items bt → 0 ≤ j < nr_items bt →
  item_key (pos_item bt i) = item_key (pos_item bt j) → i = j.
Proof.
  intros Hks Hi Hj Heq.
  destruct (Z.lt_trichotomy i j) as [Hlt|[->|Hgt]]; [|done|].
  - specialize (Hks i j ltac:(lia) Hlt ltac:(lia)). lia.
  - specialize (Hks j i ltac:(lia) Hgt ltac:(lia)). lia.
Qed.

Lemma elem_of_insert_at {A} (n : nat) (x y : A) (l : list A) :
  y ∈ take n l ++ x :: drop n l ↔ y = x ∨ y ∈ l.
Proof.
  rewrite elem_of_app, elem_of_cons.
  assert (y ∈ l ↔ y ∈ take n l ∨ y ∈ drop n l) as ->
    by (by rewrite <-elem_of_app, take_drop).
  tauto.
Qed.

(** scoutfs_btree_release() of the cursor that an operation left on the
    root leaf gives the lock of the leaf back *)
Lemma release_cursor_at (sbi : scoutfs_sb_info) (b : Z)
    (bt bt' : scoutfs_btree_block) (pos : Z) (write : bool) :
  b = root_blkno sbi → root_blkno sbi ∉ locked sbi →
  scoutfs_btree_release (cursor_at b bt pos write) (with_leaf bt' sbi) =
    Some (set_curs_bh None (cursor_at b bt pos write), with_block bt' sbi).
Proof.
  intros -> Hlk. unfold scoutfs_btree_release. cbn [curs_bh cursor_at].
  msteps. by rewrite unlock_with_leaf.
Qed.

Lemma delete_insert_at {A} (n : nat) (x : A) (l : list A) :
  (n ≤ length l)%nat →
  take n (take n l ++ x :: drop n l) ++
  drop (S n) (take n l ++ x :: drop n l) = l.
Proof.
  intros Hn.
  rewrite take_app_le, take_take by (rewrite length_take; lia).
  rewrite drop_app_ge by (rewrite length_take; lia).
  rewrite length_take.
  replace (S n - n `min` length l)%nat with 1%nat by lia.
  simpl. rewrite drop_0.
  replace (n `min` n)%nat with n by lia.
  apply take_drop.
Qed.

Section RoundTrips.
Context `{Format} `{!FormatOK}.

(** insert, release and lookup in a root leaf that the running transaction
    has written *)
Lemma insert_release_lookup_written (sbi : scoutfs_sb_info)
    (bt : scoutfs_btree_block) (key val_len : Z) :
  root_leaf sbi bt → hdr_seq bt = dirty_seq sbi →
  wf_block bt → key_sorted bt →
  0 ≤ val_len < 2 ^ 16 → all_val_bytes val_len ≤ reclaimable_free bt →
  (key ∉ block_keys bt) →
  ∃ c1 s1 c2 s2,
    scoutfs_btree_insert key val_len empty_cursor sbi = Some ((0, c1), s1) ∧
    scoutfs_btree_release c1 s1 = Some (c2, s2) ∧
    (∃ c3 s3,
       scoutfs_btree_lookup key c2 s2 = Some ((0, c3), s3) ∧
       cursor_key s3 c3 = key ∧ curs_val_len c3 = val_len ∧
       curs_seq c3 = hdr_seq bt) ∧
    (∀ k, k ≠ key →
       (k ∈ block_keys bt →
        ∃ c3 s3,
          scoutfs_btree_lookup k c2 s2 = Some ((0, c3), s3) ∧
          cursor_key s3 c3 = k) ∧
       ((k ∉ block_keys bt) →
        scoutfs_btree_lookup k c2 s2 = Some ((- ENOENT, c2), s2))).
Proof.
  intros Hroot Hs Hwf Hks Hlen Hroom Hnew.
  pose proof Hroot as (Hh & Hb & Hlk & Hw).
  destruct (insert_room bt val_len Hwf Hks Hroom)
    as (Hwc & Hkc & Hitems & Hnr & Hseq & _ & Hfit).
  set (bt_c := if all_val_bytes val_len <=? contig_free bt
               then bt else compact_items bt) in *.
  assert (block_keys bt_c = block_keys bt) as Hkeys
    by (by rewrite !block_keys_items, Hitems).
  destruct (find_pos_present bt_c key Hkc)
    as (pos & cmp & Hfind & Hpos & Hcase).
  rewrite Hkeys in Hcase.
  destruct Hcase as [(_ & _ & _ & ?)|[Hcmp _]]; [done|].
  pose proof (insert_root_leaf_run sbi bt key val_len pos cmp empty_cursor
                Hroot Hs eq_refl Hroom Hfind) as Hins.
  destruct (Z.eqb_spec cmp 0); [lia|].
  set (bt' := (create_item bt_c pos key val_len).1) in *.
  destruct (create_item_spec bt_c pos key val_len Hwc Hpos Hlen Hfit)
    as (Hw' & Hitems' & Hnr' & _).
  fold bt' in Hw', Hitems', Hnr'.
  assert (key_sorted bt') as Hks'
    by (apply (create_item_key_sorted bt_c key val_len pos cmp);
        [done|done|done|lia|done|done]).
  assert (pos_item bt' pos =
          new_item key (hdr_seq bt) val_len (found_val bt_c val_len))
    as Hitem.
  { pose proof (create_item_off_item bt_c pos key val_len) as Hi.
    cbn zeta in Hi. rewrite (u16_small val_len), Hseq in Hi by done.
    unfold pos_item, bt'.
    by rewrite <-(create_item_offset bt_c pos key val_len Hpos). }
  assert (∀ k, k ∈ block_keys bt' ↔ k = key ∨ k ∈ block_keys bt) as Hmem.
  { intros k. rewrite <-Hkeys, !block_keys_items, Hitems', fmap_app,
      fmap_cons, fmap_take, fmap_drop. apply elem_of_insert_at. }
  pose proof (root_leaf_with_block sbi bt bt' Hroot) as Hroot'.
  assert (root_blkno (with_block bt' sbi) = root_blkno sbi) as Hrb by done.
  set (c2 := set_curs_bh None (cursor_at (root_blkno sbi) bt' pos true)).
  exists (cursor_at (root_blkno sbi) bt' pos true), (with_leaf bt' sbi),
    c2, (with_block bt' sbi).
  split; [exact Hins|].
  split; [by apply release_cursor_at|].
  assert (∀ k, k ∈ block_keys bt' →
            ∃ c3 s3,
              scoutfs_btree_lookup k c2 (with_block bt' sbi) =
                Some ((0, c3), s3) ∧
              cursor_key s3 c3 = k ∧
              (k = key → curs_val_len c3 = val_len ∧
                         curs_seq c3 = hdr_seq bt)) as Hfound.
  { intros k Hin.
    destruct (find_pos_present bt' k Hks')
      as (p & c & Hf & Hp & Hcase).
    destruct Hcase as [(-> & Hlt & Hkey & _)|[_ ?]]; [|done].
    rewrite (lookup_root_leaf_run _ bt' k p 0 c2 Hroot' eq_refl Hf).
    change (0 =? 0) with true. cbv iota. eexists _, _.
    split; [done|]. rewrite Hrb.
    split.
    { rewrite cursor_key_at; [done|]. apply bh_data_with_block. }
    intros ->.
    assert (p = pos) as ->.
    { apply (key_sorted_pos_inj bt'); [done|lia|lia|].
      by rewrite Hkey, Hitem. }
    cbn [curs_val_len curs_seq cursor_at]. by rewrite Hitem. }
  split.
  - destruct (Hfound key) as (c3 & s3 & Hl & Hk & Hv); [apply Hmem; by left|].
    exists c3, s3. destruct (Hv eq_refl). done.
  - intros k Hne. split.
    + intros Hin.
      destruct (Hfound k) as (c3 & s3 & Hl & Hk & _); [apply Hmem; by right|].
      by exists c3, s3.
    + intros Hnotin.
      destruct (find_pos_present bt' k Hks')
        as (p & c & Hf & Hp & Hcase).
      destruct Hcase as [(_ & _ & _ & Hin)|[Hc _]].
      { apply Hmem in Hin as [?|?]; done. }
      rewrite (lookup_root_leaf_run _ bt' k p c c2 Hroot' eq_refl Hf).
      destruct (Z.eqb_spec c 0); [lia|done].
Qed.

(** insert, release and delete in a root leaf that the running transaction
    has written *)
Lemma insert_release_delete_written (sbi : scoutfs_sb_info)
    (bt : scoutfs_btree_block) (key val_len : Z) :
  root_leaf sbi bt → hdr_seq bt = dirty_seq sbi →
  wf_block bt → key_sorted bt →
  0 ≤ val_len < 2 ^ 16 → all_val_bytes val_len ≤ reclaimable_free bt →
  (key ∉ block_keys bt) →
  ∃ c1 s1 c2 s2 s3,
    scoutfs_btree_insert key val_len empty_cursor sbi = Some ((0, c1), s1) ∧
    scoutfs_btree_release c1 s1 = Some (c2, s2) ∧
    scoutfs_btree_delete key s2 = Some (0, s3) ∧
    block_items (bh_data s3 (root_blkno sbi)) = block_items bt ∧
    locked s3 = locked sbi ∧ alloc_avail s3 = alloc_avail sbi ∧
    (∀ b', b' ≠ root_blkno sbi → blocks s3 !! b' = blocks sbi !! b') ∧
    (if nr_items bt =? 0
     then btree_root s3 = empty_root ∧
          freed s3 = hdr_blkno bt :: freed sbi
     else btree_root s3 = btree_root sbi ∧ freed s3 = freed sbi).
Proof.
  intros Hroot Hs Hwf Hks Hlen Hroom Hnew.
  pose proof Hroot as (Hh & Hb & Hlk & Hw).
  destruct (insert_room bt val_len Hwf Hks Hroom)
    as (Hwc & Hkc & Hitems & Hnr & Hseq & Hblk & Hfit).
  set (bt_c := if all_val_bytes val_len <=? contig_free bt
               then bt else compact_items bt) in *.
  assert (block_keys bt_c = block_keys bt) as Hkeys
    by (by rewrite !block_keys_items, Hitems).
  destruct (find_pos_present bt_c key Hkc)
    as (pos & cmp & Hfind & Hpos & Hcase).
  rewrite Hkeys in Hcase.
  destruct Hcase as [(_ & _ & _ & ?)|[Hcmp _]]; [done|].
  pose proof (insert_root_leaf_run sbi bt key val_len pos cmp empty_cursor
                Hroot Hs eq_refl Hroom Hfind) as Hins.
  destruct (Z.eqb_spec cmp 0); [lia|].
  set (bt' := (create_item bt_c pos key val_len).1) in *.
  destruct (create_item_spec bt_c pos key val_len Hwc Hpos Hlen Hfit)
    as (Hw' & Hitems' & Hnr' & _ & _ & Hblk' & Hseq').
  fold bt' in Hw', Hitems', Hnr', Hblk', Hseq'.
  assert (key_sorted bt') as Hks'
    by (apply (create_item_key_sorted bt_c key val_len pos cmp);
        [done|done|done|lia|done|done]).
  assert (item_key (pos_item bt' pos) = key) as Hitem.
  { pose proof (create_item_off_item bt_c pos key val_len) as Hi.
    cbn zeta in Hi. unfold pos_item, bt'.
    rewrite <-(create_item_offset bt_c pos key val_len Hpos).
    by rewrite Hi. }
  pose proof (root_leaf_with_block sbi bt bt' Hroot) as Hroot'.
  pose proof (btree_walk_root_leaf (with_block bt' sbi) bt' key 0 0
                WALK_DELETE None Hroot' ltac:(done) ltac:(done)
                ltac:(intros _; cbn [dirty_seq with_block set_blocks];
                      congruence)) as Hwalk.
  change (root_blkno (with_block bt' sbi)) with (root_blkno sbi) in Hwalk.
  rewrite with_leaf_same in Hwalk by apply Hroot'.
  change (root_blkno (with_block bt' sbi)) with (root_blkno sbi) in Hwalk.
  set (s1 := set_locked _ (with_block bt' sbi)) in Hwalk.
  assert (bh_data s1 (root_blkno sbi) = bt') as Hdata
    by apply bh_data_with_block.
  destruct (scoutfs_btree_delete_leaf (with_block bt' sbi) s1 key
              (root_blkno sbi) None Hwalk)
    as (r & s3 & Hdel & Hlocked & Hother & Havail & Hcase);
    [by rewrite Hdata..|].
  rewrite Hdata in Hcase.
  destruct Hcase as [(-> & (p & Hp & Hkey & Hitems3) & _ & Hone)|
                     (_ & Hnotin & _)].
  2: { exfalso. apply Hnotin, elem_of_block_keys.
       exists pos. split; [lia|done]. }
  assert (p = pos) as ->.
  { apply (key_sorted_pos_inj bt'); [done|lia|lia|]. by rewrite Hkey. }
  exists (cursor_at (root_blkno sbi) bt' pos true), (with_leaf bt' sbi),
    (set_curs_bh None (cursor_at (root_blkno sbi) bt' pos true)),
    (with_block bt' sbi), s3.
  split; [exact Hins|]. split; [by apply release_cursor_at|].
  split; [done|]. split.
  { rewrite Hitems3, Hitems', delete_insert_at; [done|].
    pose proof (block_items_length bt_c). lia. }
  split.
  { rewrite Hlocked. unfold s1. cbn [locked set_locked].
    apply set_eq. intros x.
    rewrite elem_of_difference, elem_of_union, elem_of_singleton.
    change (locked (with_block bt' sbi)) with (locked sbi). split.
    - intros [[?|?] ?]; done.
    - intros Hx. split; [by right|]. by intros ->. }
  split; [by rewrite Havail|]. split.
  { intros b' Hne. rewrite Hother by done. unfold s1. simpl.
    by rewrite lookup_insert_ne. }
  rewrite Hnr', Hnr in Hone.
  destruct (Z.eqb_spec (nr_items bt) 0) as [Hz|Hnz].
  - rewrite Hz in Hone. change (0 + 1 =? 1) with true in Hone.
    destruct Hone as [Hr Hf]. split; [done|].
    by rewrite Hf, Hblk', Hblk.
  - destruct (Z.eqb_spec (nr_items bt + 1) 1); [lia|done].
Qed.

(** X12: a key that scoutfs_btree_insert() added to a tree whose root is a
    well formed, key ordered leaf, which the running transaction has
    written or can copy, is found by scoutfs_btree_lookup() once the cursor
    is released: the lookup returns 0 with the cursor on an item of that
    key, the value length given to the insertion and the seq of the
    transaction.  Every other key is found, or not found, as it was before
    the insertion. *)
Theorem insert_release_lookup (sbi : scoutfs_sb_info)
    (bt : scoutfs_btree_block) (key val_len : Z) :
  root_leaf sbi bt → can_dirty sbi bt → wf_block bt → key_sorted bt →
  0 ≤ val_len < 2 ^ 16 → all_val_bytes val_len ≤ reclaimable_free bt →
  (key ∉ block_keys bt) →
  ∃ c1 s1 c2 s2,
    scoutfs_btree_insert key val_len empty_cursor sbi = Some ((0, c1), s1) ∧
    scoutfs_btree_release c1 s1 = Some (c2, s2) ∧
    (∃ c3 s3,
       scoutfs_btree_lookup key c2 s2 = Some ((0, c3), s3) ∧
       cursor_key s3 c3 = key ∧ curs_val_len c3 = val_len ∧
       curs_seq c3 = dirty_seq sbi) ∧
    (∀ k, k ≠ key →
       (k ∈ block_keys bt →
        ∃ c3 s3,
          scoutfs_btree_lookup k c2 s2 = Some ((0, c3), s3) ∧
          cursor_key s3 c3 = k) ∧
       ((k ∉ block_keys bt) →
        scoutfs_btree_lookup k c2 s2 = Some ((- ENOENT, c2), s2))).
Proof.
  intros Hroot Hcan Hwf Hks Hlen Hroom Hnew.
  destruct (dirtied_root_spec sbi bt Hroot Hcan)
    as (Hroot' & Hs' & Hds & _).
  destruct (dirtied_block_spec sbi bt)
    as (Hitems & Hkeys & Hnr & Hrf & Hcf & Hwf' & Hks').
  assert (scoutfs_btree_insert key val_len empty_cursor sbi =
          scoutfs_btree_insert key val_len empty_cursor
            (dirtied_root sbi bt)) as ->.
  { unfold scoutfs_btree_insert, bind. cbn [curs_bh empty_cursor].
    by rewrite (btree_walk_dirtied sbi bt key val_len 0 WALK_INSERT None
                  Hroot Hcan) by auto. }
  destruct (insert_release_lookup_written (dirtied_root sbi bt)
              (dirtied_block sbi bt) key val_len Hroot' Hs' (Hwf' Hwf)
              (Hks' Hks) Hlen ltac:(by rewrite Hrf)
              ltac:(by rewrite Hkeys))
    as (c1 & s1 & c2 & s2 & Hins & Hrel & Hkey & Hother).
  rewrite Hs', Hds in Hkey. rewrite Hkeys in Hother.
  exists c1, s1, c2, s2. split; [done|]. split; [done|]. split; done.
Qed.

(** X13: deleting a key that scoutfs_btree_insert() just added to such a
    tree, after the cursor is released, returns 0 and leaves the root leaf
    with the items that it had before the insertion.  Compared with the
    state in which the transaction can write the leaf ([dirtied_root])
    the locks, the allocator and the other blocks are as they were.  If the leaf held
    items before, the root is as it was too; if it was empty, the delete
    resets the root and frees the block of the leaf. *)
Theorem insert_release_delete (sbi : scoutfs_sb_info)
    (bt : scoutfs_btree_block) (key val_len : Z) :
  root_leaf sbi bt → can_dirty sbi bt → wf_block bt → key_sorted bt →
  0 ≤ val_len < 2 ^ 16 → all_val_bytes val_len ≤ reclaimable_free bt →
  (key ∉ block_keys bt) →
  ∃ c1 s1 c2 s2 s3,
    scoutfs_btree_insert key val_len empty_cursor sbi = Some ((0, c1), s1) ∧
    scoutfs_btree_release c1 s1 = Some (c2, s2) ∧
    scoutfs_btree_delete key s2 = Some (0, s3) ∧
    block_items (bh_data s3 (root_blkno (dirtied_root sbi bt))) =
      block_items bt ∧
    locked s3 = locked sbi ∧
    alloc_avail s3 = alloc_avail (dirtied_root sbi bt) ∧
    (∀ b', b' ≠ root_blkno (dirtied_root sbi bt) →
       blocks s3 !! b' = blocks (dirtied_root sbi bt) !! b') ∧
    (if nr_items bt =? 0
     then btree_root s3 = empty_root ∧
          freed s3 = hdr_blkno (dirtied_block sbi bt) :: freed sbi
     else btree_root s3 = btree_root (dirtied_root sbi bt) ∧
          freed s3 = freed sbi).
Proof.
  intros Hroot Hcan Hwf Hks Hlen Hroom Hnew.
  destruct (dirtied_root_spec sbi bt Hroot Hcan)
    as (Hroot' & Hs' & Hds & Hlocked & Hfreed & _).
  destruct (dirtied_block_spec sbi bt)
    as (Hitems & Hkeys & Hnr & Hrf & Hcf & Hwf' & Hks').
  assert (scoutfs_btree_insert key val_len empty_cursor sbi =
          scoutfs_btree_insert key val_len empty_cursor
            (dirtied_root sbi bt)) as ->.
  { unfold scoutfs_btree_insert, bind. cbn [curs_bh empty_cursor].
    by rewrite (btree_walk_dirtied sbi bt key val_len 0 WALK_INSERT None
                  Hroot Hcan) by auto. }
  destruct (insert_release_delete_written (dirtied_root sbi bt)
              (dirtied_block sbi bt) key val_len Hroot' Hs' (Hwf' Hwf)
              (Hks' Hks) Hlen ltac:(by rewrite Hrf)
              ltac:(by rewrite Hkeys))
    as (c1 & s1 & c2 & s2 & s3 & Hins & Hrel & Hdel & Hi & Hl & Ha & Hb &
        Hcase).
  rewrite Hitems in Hi. rewrite Hlocked in Hl. rewrite Hnr, Hfreed in Hcase.
  exists c1, s1, c2, s2, s3. split; [done|]. split; [done|].
  split; [done|]. split; [done|]. split; [done|]. split; done.
Qed.

End RoundTrips.

(** ** Running out of blocks *)

Section NoSpace.
Context `{Format} `{!FormatOK}.

(** no block for the left sibling: try_split() gives up at once *)
Lemma try_split_no_left (sbi : scoutfs_sb_info) (level key val_len : Z)
    (parent : option Z) (parent_pos right_bh : Z) :
  reclaimable_free (bh_data sbi right_bh) < split_need level val_len →
  contig_free (bh_data sbi right_bh) < split_need level val_len →
  alloc_avail sbi = [] →
  try_split level key val_len parent parent_pos right_bh sbi =
    Some (ERR_PTR (- ENOSPC), sbi).
Proof.
  intros Hrec Hcontig Havail. unfold try_split. mstep.
  fold (split_need level val_len).
  destruct (Z.leb_spec (split_need level val_len)
              (contig_free (bh_data sbi right_bh))); [lia|].
  destruct (Z.leb_spec (split_need level val_len)
              (reclaimable_free (bh_data sbi right_bh))); [lia|].
  by rewrite (bind_eq _ _ _ _ _ (alloc_tree_block_fail sbi Havail)).
Qed.

(** a block for the left sibling but none for the new root: the sibling's
    block number is freed again *)
Lemma try_split_no_root (sbi : scoutfs_sb_info) (level key val_len : Z)
    (parent_pos right_bh l : Z) :
  reclaimable_free (bh_data sbi right_bh) < split_need level val_len →
  contig_free (bh_data sbi right_bh) < split_need level val_len →
  alloc_avail sbi = [l] →
  try_split level key val_len None parent_pos right_bh sbi =
    Some (ERR_PTR (- ENOSPC),
          set_freed (l :: freed sbi)
            (set_blocks (<[l := fresh_block l (dirty_seq sbi)]> (blocks sbi))
               (set_alloc_avail [] sbi))).
Proof.
  intros Hrec Hcontig Havail. unfold try_split. mstep.
  fold (split_need level val_len).
  destruct (Z.leb_spec (split_need level val_len)
              (contig_free (bh_data sbi right_bh))); [lia|].
  destruct (Z.leb_spec (split_need level val_len)
              (reclaimable_free (bh_data sbi right_bh))); [lia|].
  rewrite (bind_eq _ _ _ _ _ (alloc_tree_block_ok sbi l [] Havail)).
  cbv beta iota. unfold grow_tree. msteps.
  erewrite bind_eq; [|by apply alloc_tree_block_fail].
  cbv beta iota. msteps.
  match goal with
  | |- context [bh_data ?s l] =>
      assert (bh_data s l = fresh_block l (dirty_seq sbi)) as ->
        by (unfold bh_data; cbn [blocks set_blocks set_alloc_avail];
            by rewrite lookup_insert_eq)
  end.
  done.
Qed.

(** the walk for WALK_INSERT when try_split() fails in a root leaf that the
    transaction has written: the error comes back and the lock of the tree
    is given back *)
Lemma btree_walk_insert_error (sbi s1 : scoutfs_sb_info)
    (bt : scoutfs_btree_block) (key val_len seq err : Z) :
  root_leaf sbi bt → hdr_seq bt = dirty_seq sbi →
  try_split 0 key val_len None 0 (root_blkno sbi)
    (set_btree_rwsem
       {| rw_readers := rw_readers (btree_rwsem sbi); rw_writer := true |}
       sbi) = Some (ERR_PTR err, s1) →
  btree_walk key None val_len seq WALK_INSERT sbi =
    Some ((ERR_PTR err, None),
          set_btree_rwsem
            {| rw_readers := rw_readers (btree_rwsem s1);
               rw_writer := false |} s1).
Proof.
  intros (Hh & Hb & Hlk & Hw) Hs Hsplit.
  unfold btree_walk. change (WALK_INSERT =? WALK_INSERT) with true.
  cbn [orb]. unfold lock_block at 1, lock_root. msteps.
  cbn [btree_root set_btree_rwsem]. rewrite Hh.
  change (1 =? 0) with false. cbv iota.
  change (WALK_INSERT =? WALK_NEXT_SEQ) with false. cbn [andb].
  change (Z.to_nat (1 - 1)) with 0%nat.
  cbn [walk_loop]. change (WALK_INSERT =? WALK_INSERT) with true. cbv iota.
  unfold get_block_ref.
  set (sem := {| rw_readers := rw_readers (btree_rwsem sbi);
                 rw_writer := true |}) in *.
  assert (scoutfs_block_dirty_ref ROOT_REF (set_btree_rwsem sem sbi) =
          Some (BH (root_blkno sbi), set_btree_rwsem sem sbi)) as Hdirty.
  { rewrite (dirty_ref_root (set_btree_rwsem sem sbi) bt Hb
               ltac:(by left)).
    by rewrite (dirtied_root_written (set_btree_rwsem sem sbi) bt Hs). }
  rewrite !bind_assoc. rewrite (bind_eq _ _ _ _ _ Hdirty).
  cbv beta iota. msteps. change (Z.of_nat 0) with 0.
  rewrite (bind_eq _ _ _ _ _ Hsplit). cbv beta iota. msteps.
  unfold unlock_block, unlock_root. by msteps.
Qed.

(** the two cases for a root leaf that the transaction has written *)
Lemma insert_no_space_written (sbi : scoutfs_sb_info)
    (bt : scoutfs_btree_block) (key val_len : Z)
    (curs : scoutfs_btree_cursor) :
  root_leaf sbi bt → hdr_seq bt = dirty_seq sbi →
  wf_block bt → curs_bh curs = None →
  reclaimable_free bt < all_val_bytes val_len →
  (alloc_avail sbi = [] →
   scoutfs_btree_insert key val_len curs sbi =
     Some ((- ENOSPC, curs), sbi)) ∧
  (∀ l, alloc_avail sbi = [l] → l ≠ root_blkno sbi →
     ∃ sbi',
       scoutfs_btree_insert key val_len curs sbi =
         Some ((- ENOSPC, curs), sbi') ∧
       btree_root sbi' = btree_root sbi ∧
       blocks sbi' !! root_blkno sbi = Some bt ∧
       (∀ b, b ≠ l → blocks sbi' !! b = blocks sbi !! b) ∧
       alloc_avail sbi' = [] ∧ freed sbi' = l :: freed sbi ∧
       locked sbi' = locked sbi ∧ btree_rwsem sbi' = btree_rwsem sbi).
Proof.
  intros Hroot Hseq Hwf Hcurs Hrec.
  pose proof Hroot as (Hh & Hb & Hlk & Hw).
  assert (contig_free bt < all_val_bytes val_len) as Hcontig.
  { pose proof (wf_reclaim _ Hwf) as [? _].
    rewrite (wf_reclaimable_free bt Hwf) in Hrec.
    rewrite (wf_contig_free bt Hwf). lia. }
  set (s1 := set_btree_rwsem
               {| rw_readers := rw_readers (btree_rwsem sbi);
                  rw_writer := true |} sbi).
  assert (bh_data s1 (root_blkno sbi) = bt) as Hdata
    by (by apply bh_data_lookup).
  assert (rw_semaphore_eq :
    {| rw_readers := rw_readers (btree_rwsem sbi); rw_writer := false |} =
    btree_rwsem sbi).
  { destruct (btree_rwsem sbi) as [r w]. simpl in *. by subst. }
  split.
  - intros Havail. unfold scoutfs_btree_insert. rewrite Hcurs.
    rewrite (bind_eq _ _ _ _ _
               (btree_walk_insert_error sbi s1 bt key val_len 0 (- ENOSPC)
                  Hroot Hseq
                  (try_split_no_left s1 0 key val_len None 0 _
                     ltac:(by rewrite Hdata) ltac:(by rewrite Hdata)
                     Havail))).
    cbv beta iota. unfold ret. f_equal. f_equal.
    by apply sbi_ext.
  - intros l Havail Hne.
    pose proof (try_split_no_root s1 0 key val_len 0 (root_blkno sbi) l
                  ltac:(by rewrite Hdata) ltac:(by rewrite Hdata) Havail)
      as Hsplit.
    unfold scoutfs_btree_insert. rewrite Hcurs.
    rewrite (bind_eq _ _ _ _ _
               (btree_walk_insert_error sbi _ bt key val_len 0 (- ENOSPC)
                  Hroot Hseq Hsplit)).
    cbv beta iota. eexists. split; [reflexivity|].
    split; [done|]. split.
    { simpl. by rewrite lookup_insert_ne. }
    split.
    { intros b Hb'. simpl. by rewrite lookup_insert_ne. }
    done.
Qed.

(** X14: scoutfs_btree_insert() into a tree whose root is a well formed leaf
    without the room for the item, not even after compaction, when the
    allocator cannot give the two blocks of a split.  The leaf is first
    brought into the form in which the transaction can write it, which
    takes a block for its copy unless the transaction has written the leaf
    before.  The insertion then returns the error with which
    scoutfs_block_dirty_alloc() answers when it has no block.  With no block
    left for the split the cursor is as it was and the state is the one with
    the writable leaf.  With one block left the root, the writable leaf and
    the locks are as they were, and the block that was taken for the new
    sibling has been handed to the allocator's free. *)
Theorem scoutfs_btree_insert_no_space (sbi : scoutfs_sb_info)
    (bt : scoutfs_btree_block) (key val_len : Z)
    (curs : scoutfs_btree_cursor) :
  root_leaf sbi bt → can_dirty sbi bt →
  wf_block bt → curs_bh curs = None →
  reclaimable_free bt < all_val_bytes val_len →
  ∃ err,
    (∀ s, alloc_avail s = [] →
       scoutfs_block_dirty_alloc s = Some (ERR_PTR err, s)) ∧
    (alloc_avail (dirtied_root sbi bt) = [] →
     scoutfs_btree_insert key val_len curs sbi =
       Some ((err, curs), dirtied_root sbi bt)) ∧
    (∀ l, alloc_avail (dirtied_root sbi bt) = [l] →
       l ≠ root_blkno (dirtied_root sbi bt) →
       ∃ sbi',
         scoutfs_btree_insert key val_len curs sbi =
           Some ((err, curs), sbi') ∧
         btree_root sbi' = btree_root (dirtied_root sbi bt) ∧
         blocks sbi' !! root_blkno (dirtied_root sbi bt) =
           Some (dirtied_block sbi bt) ∧
         (∀ b, b ≠ l →
            blocks sbi' !! b = blocks (dirtied_root sbi bt) !! b) ∧
         alloc_avail sbi' = [] ∧ freed sbi' = l :: freed sbi ∧
         locked sbi' = locked sbi ∧ btree_rwsem sbi' = btree_rwsem sbi).
Proof.
  intros Hroot Hcan Hwf Hcurs Hrec.
  destruct (dirtied_root_spec sbi bt Hroot Hcan)
    as (Hroot' & Hs' & Hds & Hlocked & Hfreed & Hsem).
  destruct (dirtied_block_spec sbi bt)
    as (Hitems & Hkeys & Hnr & Hrf & Hcf & Hwf' & Hks').
  assert (scoutfs_btree_insert key val_len curs sbi =
          scoutfs_btree_insert key val_len curs (dirtied_root sbi bt)) as ->.
  { unfold scoutfs_btree_insert, bind. rewrite Hcurs.
    by rewrite (btree_walk_dirtied sbi bt key val_len 0 WALK_INSERT None
                  Hroot Hcan) by auto. }
  destruct (insert_no_space_written (dirtied_root sbi bt)
              (dirtied_block sbi bt) key val_len curs Hroot' Hs'
              (Hwf' Hwf) Hcurs ltac:(by rewrite Hrf)) as [Hnone Hone].
  exists (- ENOSPC). split.
  { intros s Hav. unfold scoutfs_block_dirty_alloc. msteps.
    by rewrite Hav. }
  split; [done|].
  intros l Hav Hne. destruct (Hone l Hav Hne) as (sbi' & Hrun & Hrest).
  exists sbi'. split; [done|].
  by rewrite <- Hfreed, <- Hlocked, <- Hsem.
Qed.

End NoSpace.

(** ** Trees of height 1: iteration *)

(** filters that agree on the elements of a list *)
Lemma filter_Forall_ext {A} (P Q : A → Prop)
    `{!∀ x, Decision (P x), !∀ x, Decision (Q x)} (l : list A) :
  Forall (λ x, P x ↔ Q x) l → filter P l = filter Q l.
Proof.
  induction 1 as [|x l Hx _ IH]; [done|].
  destruct (decide (P x)).
  - rewrite !filter_cons_True by tauto. by rewrite IH.
  - rewrite !filter_cons_False by tauto. done.
Qed.

Lemma filter_Forall_nil {A} (P : A → Prop) `{!∀ x, Decision (P x)}
    (l : list A) :
  Forall (λ x, ¬ P x) l → filter P l = [].
Proof.
  induction 1 as [|x l Hx _ IH]; [done|].
  by rewrite filter_cons_False.
Qed.

Lemma filter_fmap_comm {A B} (f : A → B) (P : B → Prop)
    `{!∀ y, Decision (P y)} (l : list A) :
  filter P (f <$> l) = f <$> filter (λ x, P (f x)) l.
Proof.
  induction l as [|x l IH]; [done|]. rewrite fmap_cons.
  destruct (decide (P (f x))).
  - rewrite !filter_cons_True by done. by rewrite fmap_cons, IH.
  - rewrite !filter_cons_False by done. done.
Qed.

Lemma StronglySorted_filter {A} (R : relation A) (P : A → Prop)
    `{!∀ x, Decision (P x)} (l : list A) :
  StronglySorted R l → StronglySorted R (filter P l).
Proof.
  induction 1 as [|x l Hl IH Hx]; [constructor|].
  rewrite filter_cons. case_decide; [|done].
  constructor; [done|]. apply Forall_forall.
  intros y [_ Hy]%list_elem_of_filter.
  rewrite Forall_forall in Hx. by apply Hx.
Qed.

(** ** The items of a block by position *)

Lemma drop_pos (bt : scoutfs_btree_block) (j : Z) :
  0 ≤ j < nr_items bt →
  drop (Z.to_nat j) (block_items bt) =
    pos_item bt j :: drop (Z.to_nat (j + 1)) (block_items bt).
Proof.
  intros Hj. replace (Z.to_nat (j + 1)) with (S (Z.to_nat j)) by lia.
  apply drop_S. by apply pos_item_lookup.
Qed.

Lemma Forall_drop_pos (bt : scoutfs_btree_block) (p : Z)
    (P : scoutfs_btree_item → Prop) :
  0 ≤ p → (∀ q, p ≤ q < nr_items bt → P (pos_item bt q)) →
  Forall P (drop (Z.to_nat p) (block_items bt)).
Proof.
  intros Hp HP. apply Forall_lookup. intros i x Hx.
  rewrite lookup_drop in Hx.
  pose proof (lookup_lt_Some _ _ _ Hx) as Hlen.
  pose proof (block_items_length bt) as Hnr.
  assert (0 ≤ p + Z.of_nat i < nr_items bt) as Hq by lia.
  pose proof (pos_item_lookup bt _ Hq) as Hq'.
  replace (Z.to_nat (p + Z.of_nat i)) with (Z.to_nat p + i)%nat in Hq'
    by lia.
  rewrite Hx in Hq'. injection Hq' as ->. apply HP. lia.
Qed.

Lemma Forall_take_pos (bt : scoutfs_btree_block) (p : Z)
    (P : scoutfs_btree_item → Prop) :
  (∀ q, 0 ≤ q < p → q < nr_items bt → P (pos_item bt q)) →
  Forall P (take (Z.to_nat p) (block_items bt)).
Proof.
  intros HP. apply Forall_lookup. intros i x Hx.
  rewrite lookup_take in Hx. case_decide as Hi; [|done].
  pose proof (lookup_lt_Some _ _ _ Hx) as Hlen.
  pose proof (block_items_length bt) as Hnr.
  assert (0 ≤ Z.of_nat i < nr_items bt) as Hq by lia.
  pose proof (pos_item_lookup bt _ Hq) as Hq'.
  rewrite Nat2Z.id, Hx in Hq'. injection Hq' as ->. apply HP; lia.
Qed.

(** what skip_pos_seq() says about an item of a leaf *)
Lemma skip_pos_seq_item (bt : scoutfs_btree_block) (q seq op : Z) :
  q < nr_items bt →
  skip_pos_seq bt q 0 seq op =
    (op =? WALK_NEXT_SEQ) && (item_seq (pos_item bt q) <? seq).
Proof.
  intros Hq. unfold skip_pos_seq.
  destruct (Z.leb_spec (nr_items bt) q); [lia|].
  by destruct (op =? WALK_NEXT_SEQ).
Qed.

(** ** The keys that an iteration has still to give *)

Section Rest.
Variables (bt : scoutfs_btree_block) (last seq op : Z).

Lemma next_item_pos (q : Z) :
  q < nr_items bt →
  next_item last seq op (pos_item bt q) =
    (item_key (pos_item bt q) <=? last) &&
    negb (skip_pos_seq bt q 0 seq op).
Proof. intros Hq. unfold next_item. by rewrite skip_pos_seq_item. Qed.

Lemma rest_keep (p : Z) :
  0 ≤ p < nr_items bt → item_key (pos_item bt p) ≤ last →
  skip_pos_seq bt p 0 seq op = false →
  filter (next_item last seq op) (drop (Z.to_nat p) (block_items bt)) =
    pos_item bt p ::
    filter (next_item last seq op)
      (drop (Z.to_nat (p + 1)) (block_items bt)).
Proof.
  intros Hp Hkey Hskip. rewrite drop_pos by done.
  apply filter_cons_True. rewrite next_item_pos, Hskip by lia.
  destruct (Z.leb_spec (item_key (pos_item bt p)) last); [done|lia].
Qed.

Lemma rest_skip (n : nat) :
  ∀ j p, 0 ≤ j ≤ p → p - j ≤ Z.of_nat n →
    (∀ q, j ≤ q < p → skip_pos_seq bt q 0 seq op = true) →
    filter (next_item last seq op) (drop (Z.to_nat j) (block_items bt)) =
    filter (next_item last seq op) (drop (Z.to_nat p) (block_items bt)).
Proof.
  induction n as [|n IH]; intros j p Hj Hn Hskip.
  { by replace p with j by lia. }
  destruct (decide (j = p)) as [->|Hne]; [done|].
  pose proof (Hskip j ltac:(lia)) as Hs.
  pose proof Hs as [_ Hlt]%skip_pos_seq_true.
  rewrite drop_pos by lia. rewrite filter_cons_False.
  - apply IH; [lia|lia|]. intros q Hq. apply Hskip. lia.
  - rewrite next_item_pos, Hs by done. rewrite andb_false_r. auto.
Qed.

Lemma rest_past (p : Z) :
  0 ≤ p → key_sorted bt →
  (p < nr_items bt → last < item_key (pos_item bt p)) →
  filter (next_item last seq op) (drop (Z.to_nat p) (block_items bt)) = [].
Proof.
  intros Hp Hks Hkey. apply filter_Forall_nil, Forall_drop_pos; [done|].
  intros q Hq. specialize (Hkey ltac:(lia)).
  assert (last < item_key (pos_item bt q)) as Hlt.
  { destruct (decide (q = p)) as [->|]; [done|].
    specialize (Hks p q ltac:(lia) ltac:(lia) ltac:(lia)). lia. }
  unfold next_item.
  destruct (Z.leb_spec (item_key (pos_item bt q)) last); [lia|]. auto.
Qed.

End Rest.

Section Iterate.
Context `{Format}.

(** one round of the loop of btree_next() finds the position in the root
    leaf, or leaves the tree behind *)
Lemma next_loop_root_leaf (sbi : scoutfs_sb_info)
    (bt : scoutfs_btree_block) (fuel : nat) (last seq op key p : Z)
    (curs : scoutfs_btree_cursor) :
  root_leaf sbi bt → curs_bh curs = None →
  (op ≠ WALK_INSERT ∧ op ≠ WALK_DELETE ∧ op ≠ WALK_DIRTY) →
  (op = WALK_NEXT_SEQ → seq ≤ ref_seq (root_ref (btree_root sbi))) →
  key ≤ last → last < SCOUTFS_MAX_KEY →
  find_pos_after_seq bt key 0 seq op = Some p →
  btree_next_loop (S fuel) last seq op key curs sbi =
    Some (if nr_items bt <=? p
          then ((None, set_curs_pos p curs), sbi)
          else ((None, cursor_at (root_blkno sbi) bt p false),
                with_leaf bt sbi)).
Proof.
  intros Hroot Hcurs Hop Hseq Hkey Hlast Hfind.
  pose proof Hroot as (Hh & Hb & Hlk & Hw).
  assert (op = WALK_DELETE ∨ op = WALK_DIRTY → hdr_seq bt = dirty_seq sbi)
    as Hread by (intros [?|?]; tauto).
  cbn [btree_next_loop]. rewrite Hcurs.
  destruct (Z.ltb_spec 0 (scoutfs_key_cmp key last)) as [Hgt|_];
    [rewrite key_cmp_gt in Hgt; lia|].
  rewrite (bind_eq _ _ _ _ _
             (btree_walk_root_leaf sbi bt key 0 seq op (Some 0) Hroot
                (proj1 Hop) Hseq Hread)).
  cbv beta iota. mstep. rewrite bh_data_with_leaf, Hfind. mstep.
  destruct (nr_items bt <=? p).
  - unfold unlock_block. mstep.
    rewrite unlock_with_leaf, with_block_same by done.
    destruct fuel; cbn [btree_next_loop set_curs_pos curs_bh];
      rewrite Hcurs; cbn [default];
      (destruct (Z.ltb_spec 0 (scoutfs_key_cmp SCOUTFS_MAX_KEY last))
        as [_|Hle]; [done|]);
      assert (¬ 0 < scoutfs_key_cmp SCOUTFS_MAX_KEY last) as Hn by lia;
      rewrite key_cmp_gt in Hn; lia.
  - unfold set_cursor. msteps. by rewrite bh_data_with_leaf.
Qed.

(** the end of btree_next() with the cursor on an item of the leaf *)
Lemma release_with_leaf (sbi : scoutfs_sb_info) (bt : scoutfs_btree_block)
    (curs : scoutfs_btree_cursor) :
  root_leaf sbi bt → curs_bh curs = Some (root_blkno sbi) →
  scoutfs_btree_release curs (with_leaf bt sbi) =
    Some (set_curs_bh None curs, sbi).
Proof.
  intros (Hh & Hb & Hlk & Hw) Hcurs.
  unfold scoutfs_btree_release. rewrite Hcurs. unfold unlock_block.
  mstep. by rewrite unlock_with_leaf, with_block_same.
Qed.

(** btree_next() called with an empty cursor, by the position that
    find_pos_after_seq() gives for [first] *)
Lemma btree_next_first_run (sbi : scoutfs_sb_info)
    (bt : scoutfs_btree_block) (fuel : nat) (first last seq op p : Z)
    (curs : scoutfs_btree_cursor) :
  root_leaf sbi bt → curs_bh curs = None →
  (op ≠ WALK_INSERT ∧ op ≠ WALK_DELETE ∧ op ≠ WALK_DIRTY) →
  (op = WALK_NEXT_SEQ → seq ≤ ref_seq (root_ref (btree_root sbi))) →
  first ≤ last → last < SCOUTFS_MAX_KEY →
  find_pos_after_seq bt first 0 seq op = Some p →
  ∃ c',
    curs_bh c' = None ∧
    btree_next (S fuel) first last seq op curs sbi =
      Some (if (p <? nr_items bt) && (item_key (pos_item bt p) <=? last)
            then ((1, cursor_at (root_blkno sbi) bt p false),
                  with_leaf bt sbi)
            else ((0, c'), sbi)).
Proof.
  intros Hroot Hcurs Hop Hseq Hkey Hlast Hfind.
  pose proof (next_loop_root_leaf sbi bt fuel last seq op first p curs
                Hroot Hcurs Hop Hseq Hkey Hlast Hfind) as Hloop.
  unfold btree_next.
  destruct (Z.ltb_spec 0 (scoutfs_key_cmp first last)) as [Hgt|_];
    [rewrite key_cmp_gt in Hgt; lia|].
  rewrite Hcurs. mstep. revert Hloop.
  destruct (Z.leb_spec (nr_items bt) p) as [Hge|Hlt]; intros Hloop;
    rewrite (bind_eq _ _ _ _ _ Hloop).
  - destruct (Z.ltb_spec p (nr_items bt)); [lia|]. cbn [andb].
    exists (set_curs_bh None (set_curs_pos p curs)). split; [done|].
    cbv beta iota. mstep. cbn [curs_bh set_curs_pos]. rewrite Hcurs.
    unfold scoutfs_btree_release. cbn [curs_bh set_curs_pos].
    rewrite Hcurs. by msteps.
  - destruct (Z.ltb_spec p (nr_items bt)); [|lia]. cbn [andb].
    exists (set_curs_bh None (cursor_at (root_blkno sbi) bt p false)).
    split; [done|].
    cbv beta iota. mstep. cbn [curs_bh cursor_at].
    rewrite cursor_key_at by apply bh_data_with_leaf.
    destruct (Z.leb_spec (item_key (pos_item bt p)) last) as [Hin|Hout].
    + destruct (Z.leb_spec (scoutfs_key_cmp (item_key (pos_item bt p)) last)
                  0) as [_|Hgt]; [done|].
      rewrite key_cmp_gt in Hgt. lia.
    + destruct (Z.leb_spec (scoutfs_key_cmp (item_key (pos_item bt p)) last)
                  0) as [Hle|_].
      { assert (¬ 0 < scoutfs_key_cmp (item_key (pos_item bt p)) last)
          as Hn by lia.
        rewrite key_cmp_gt in Hn. lia. }
      rewrite (bind_eq _ _ _ _ _
                 (release_with_leaf sbi bt
                    (cursor_at (root_blkno sbi) bt p false) Hroot eq_refl)).
      done.
Qed.

(** btree_next() called with the cursor on the item at [i] of the root
    leaf, by the position that next_pos_seq() gives *)
Lemma btree_next_cont_run (sbi : scoutfs_sb_info)
    (bt : scoutfs_btree_block) (fuel : nat) (first last seq op i p : Z) :
  root_leaf sbi bt → key_sorted bt → nr_items bt < 2 ^ 32 - 1 →
  (op ≠ WALK_INSERT ∧ op ≠ WALK_DELETE ∧ op ≠ WALK_DIRTY) →
  (op = WALK_NEXT_SEQ → seq ≤ ref_seq (root_ref (btree_root sbi))) →
  item_key (pos_item bt i) < scoutfs_inc_key (item_key (pos_item bt i)) →
  first ≤ last → last < SCOUTFS_MAX_KEY →
  0 ≤ i < nr_items bt → item_key (pos_item bt i) ≤ last →
  next_pos_seq bt i 0 seq op = Some p → i < p →
  (∀ q, i < q < p → skip_pos_seq bt q 0 seq op = true) →
  ∃ c',
    curs_bh c' = None ∧
    btree_next (S fuel) first last seq op
      (cursor_at (root_blkno sbi) bt i false) (with_leaf bt sbi) =
      Some (if (p <? nr_items bt) && (item_key (pos_item bt p) <=? last)
            then ((1, cursor_at (root_blkno sbi) bt p false),
                  with_leaf bt sbi)
            else ((0, c'), sbi)).
Proof.
  intros Hroot Hks Hnr Hop Hseq Hinc Hfl Hlast Hi Hkey Hnext Hip Hbetween.
  pose proof Hroot as (Hh & Hb & Hlk & Hw).
  set (key' := scoutfs_inc_key (item_key (pos_item bt i))).
  assert (item_key (pos_item bt i) < key') as Hkey' by done.
  set (c1 := set_curs_pos p (cursor_at (root_blkno sbi) bt i false)).
  assert (∀ (B : Type) (k : Z → scoutfs_btree_cursor → M B),
    (do '(key, curs) <-
       (do sbi0 <- gets id;
        let bt0 := bh_data sbi0 (root_blkno sbi) in
        let key :=
          scoutfs_inc_key
            (cursor_key sbi0 (cursor_at (root_blkno sbi) bt i false)) in
        do pos <- lift (next_pos_seq bt0 i 0 seq op);
        let curs :=
          set_curs_pos pos (cursor_at (root_blkno sbi) bt i false) in
        do curs <-
          (if pos <? nr_items bt0
           then set_cursor (root_blkno sbi) pos (curs_write curs)
           else scoutfs_btree_release curs);
        ret (key, curs));
     k key curs) (with_leaf bt sbi) =
    if p <? nr_items bt
    then k key' (cursor_at (root_blkno sbi) bt p false) (with_leaf bt sbi)
    else k key' (set_curs_bh None c1) sbi) as Hstart.
  { intros B k. msteps. rewrite bh_data_with_leaf.
    rewrite cursor_key_at by apply bh_data_with_leaf.
    rewrite Hnext. mstep. destruct (p <? nr_items bt).
    - unfold set_cursor. msteps. by rewrite bh_data_with_leaf.
    - cbv zeta. fold c1. mstep.
      rewrite (bind_eq _ _ _ _ _
                 (release_with_leaf sbi bt c1 Hroot eq_refl)).
      by mstep. }
  unfold btree_next.
  destruct (Z.ltb_spec 0 (scoutfs_key_cmp first last)) as [Hgt|_];
    [rewrite key_cmp_gt in Hgt; lia|].
  cbn [curs_bh curs_pos cursor_at].
  change {| curs_bh := Some (root_blkno sbi); curs_pos := i;
            curs_write := false; curs_item := pos_off bt i;
            curs_seq := item_seq (pos_item bt i);
            curs_val_len := item_val_len (pos_item bt i) |}
    with (cursor_at (root_blkno sbi) bt i false).
  rewrite Hstart. clear Hstart.
  destruct (Z.ltb_spec p (nr_items bt)) as [Hlt|Hge]; cbn [andb].
  - (* the next item is in the leaf *)
    exists (set_curs_bh None (cursor_at (root_blkno sbi) bt p false)).
    split; [done|].
    cbn [btree_next_loop curs_bh cursor_at]. msteps.
    change (curs_bh (cursor_at (root_blkno sbi) bt p false))
      with (Some (root_blkno sbi)).
    cbv iota. rewrite cursor_key_at by apply bh_data_with_leaf.
    destruct (Z.leb_spec (item_key (pos_item bt p)) last) as [Hin|Hout].
    + destruct (Z.leb_spec (scoutfs_key_cmp (item_key (pos_item bt p)) last)
                  0) as [_|Hgt]; [done|].
      rewrite key_cmp_gt in Hgt. lia.
    + destruct (Z.leb_spec (scoutfs_key_cmp (item_key (pos_item bt p)) last)
                  0) as [Hle|_].
      { assert (¬ 0 < scoutfs_key_cmp (item_key (pos_item bt p)) last)
          as Hn by lia.
        rewrite key_cmp_gt in Hn. lia. }
      rewrite (bind_eq _ _ _ _ _
                 (release_with_leaf sbi bt
                    (cursor_at (root_blkno sbi) bt p false) Hroot eq_refl)).
      done.
  - (* the leaf has no next item *)
    destruct (Z.le_gt_cases key' last) as [Hle|Hgt].
    + destruct (find_pos_after_seq_spec bt key' 0 seq op Hks Hnr)
        as (p' & Hfind & Hp' & Hlo & Hhi & Hskip).
      assert (nr_items bt ≤ p') as Hend.
      { destruct (Z.le_gt_cases (nr_items bt) p') as [|Hlt]; [done|].
        assert (i < p') as Hip'.
        { destruct (Z.lt_ge_cases i p') as [|Hge']; [done|].
          specialize (Hhi p' ltac:(lia)).
          destruct (decide (p' = i)) as [->|]; [lia|].
          specialize (Hks p' i ltac:(lia) ltac:(lia) ltac:(lia)). lia. }
        rewrite Hbetween in Hskip by lia. done. }
      pose proof (next_loop_root_leaf sbi bt fuel last seq op key' p'
                    (set_curs_bh None c1) Hroot eq_refl Hop Hseq Hle Hlast
                    Hfind) as Hloop.
      revert Hloop.
      destruct (Z.leb_spec (nr_items bt) p'); [intros Hloop|lia].
      exists (set_curs_bh None (set_curs_pos p' (set_curs_bh None c1))).
      split; [done|].
      rewrite (bind_eq _ _ _ _ _ Hloop). cbv beta iota. mstep.
      cbn [curs_bh set_curs_pos set_curs_bh].
      unfold scoutfs_btree_release. cbn [curs_bh set_curs_pos set_curs_bh].
      by msteps.
    + exists (set_curs_bh None (set_curs_bh None c1)). split; [done|].
      cbn [btree_next_loop curs_bh set_curs_bh].
      destruct (Z.ltb_spec 0 (scoutfs_key_cmp key' last)) as [_|Hn].
      2:{ assert (¬ 0 < scoutfs_key_cmp key' last) as Hn' by lia.
          rewrite key_cmp_gt in Hn'. lia. }
      mstep. cbn [curs_bh set_curs_bh].
      unfold scoutfs_btree_release. cbn [curs_bh set_curs_bh].
      by msteps.
Qed.

(** the calls that follow the one that left the cursor on the item at
    [i] give the rest of the items *)
Lemma btree_next_keys_from (sbi : scoutfs_sb_info)
    (bt : scoutfs_btree_block) (fuel : nat) (first last seq op : Z) :
  root_leaf sbi bt → key_sorted bt → nr_items bt < 2 ^ 32 - 1 →
  (op ≠ WALK_INSERT ∧ op ≠ WALK_DELETE ∧ op ≠ WALK_DIRTY) →
  (op = WALK_NEXT_SEQ → seq ≤ ref_seq (root_ref (btree_root sbi))) →
  (∀ k, k < SCOUTFS_MAX_KEY → k < scoutfs_inc_key k) →
  first ≤ last → last < SCOUTFS_MAX_KEY →
  ∀ (n : nat) (i : Z),
    0 ≤ i < nr_items bt → nr_items bt - i ≤ Z.of_nat n →
    item_key (pos_item bt i) ≤ last →
    btree_next_keys n (S fuel) first last seq op
      (cursor_at (root_blkno sbi) bt i false) (with_leaf bt sbi) =
      Some (item_key <$>
              filter (next_item last seq op)
                (drop (Z.to_nat (i + 1)) (block_items bt)),
            sbi).
Proof.
  intros Hroot Hks Hnr Hop Hseq Hinc Hfl Hlast.
  induction n as [|n IH]; intros i Hi Hn Hkey; [lia|].
  cbn [btree_next_keys].
  destruct (next_pos_seq_loop_skips bt 0 seq op ltac:(lia)
              (S (length (item_offs bt))) i)
    as (p & Hp & Hgt & Hbound & Hs & Hbetween).
  { zpow. lia. }
  { unfold nr_items. lia. }
  destruct (btree_next_cont_run sbi bt fuel first last seq op i p
              Hroot Hks Hnr Hop Hseq
              (Hinc (item_key (pos_item bt i)) ltac:(lia)) Hfl Hlast Hi
              Hkey Hp Hgt Hbetween) as (c' & _ & Hrun).
  rewrite (rest_skip bt last seq op (Z.to_nat (p - (i + 1))) (i + 1) p)
    by first [lia | intros q Hq; apply Hbetween; lia].
  revert Hrun.
  destruct (Z.ltb_spec p (nr_items bt)) as [Hlt|Hge];
    [destruct (Z.leb_spec (item_key (pos_item bt p)) last) as [Hin|Hout]|];
    cbn [andb]; intros Hrun; rewrite (bind_eq _ _ _ _ _ Hrun);
    cbv beta iota.
  - change (0 <? 1) with true. cbv iota. mstep.
    rewrite (bind_eq _ _ _ _ _
               (IH p ltac:(lia) ltac:(lia) Hin)).
    rewrite cursor_key_at by apply bh_data_with_leaf.
    by rewrite (rest_keep bt last seq op p) by first [lia | done].
  - change (0 <? 0) with false. cbv iota.
    rewrite rest_past by first [lia | done]. done.
  - change (0 <? 0) with false. cbv iota.
    rewrite rest_past by first [lia | done]. done.
Qed.

(** the whole iteration over a tree of height 1 *)
Lemma btree_next_keys_root_leaf (sbi : scoutfs_sb_info)
    (bt : scoutfs_btree_block) (n fuel : nat) (first last seq op : Z)
    (curs : scoutfs_btree_cursor) :
  root_leaf sbi bt → key_sorted bt → nr_items bt < 2 ^ 32 - 1 →
  curs_bh curs = None →
  (op ≠ WALK_INSERT ∧ op ≠ WALK_DELETE ∧ op ≠ WALK_DIRTY) →
  (op = WALK_NEXT_SEQ → seq ≤ ref_seq (root_ref (btree_root sbi))) →
  (∀ k, k < SCOUTFS_MAX_KEY → k < scoutfs_inc_key k) →
  last < SCOUTFS_MAX_KEY →
  nr_items bt < Z.of_nat n → (0 < fuel)%nat →
  btree_next_keys n fuel first last seq op curs sbi =
    Some (item_key <$>
            filter (λ x, first ≤ item_key x ∧ next_item last seq op x)
              (block_items bt),
          sbi).
Proof.
  intros Hroot Hks Hnr Hcurs Hop Hseq Hinc Hlast Hn Hfuel.
  destruct n as [|n]; [unfold nr_items in Hn; lia|].
  destruct fuel as [|fuel]; [lia|]. cbn [btree_next_keys].
  destruct (Z.le_gt_cases first last) as [Hfl|Hfl].
  2:{ (* an empty range *)
    unfold btree_next.
    destruct (Z.ltb_spec 0 (scoutfs_key_cmp first last)) as [_|Hle].
    2:{ assert (¬ 0 < scoutfs_key_cmp first last) as Hn' by lia.
        rewrite key_cmp_gt in Hn'. lia. }
    mstep. change (0 <? 0) with false. cbv iota.
    rewrite filter_Forall_nil; [done|].
    apply Forall_forall. intros x _ [Hx1 Hx2]. unfold next_item in Hx2.
    destruct (Z.leb_spec (item_key x) last); [lia|done]. }
  destruct (find_pos_after_seq_spec bt first 0 seq op Hks Hnr)
    as (p & Hfind & Hp & Hlo & Hhi & Hskip).
  (* the items before [p] are not in the range, those from [p] on are *)
  assert (filter (λ x, first ≤ item_key x ∧ next_item last seq op x)
            (block_items bt) =
          filter (next_item last seq op)
            (drop (Z.to_nat p) (block_items bt))) as ->.
  { rewrite <-(take_drop (Z.to_nat p) (block_items bt)) at 1.
    rewrite filter_app, filter_Forall_nil, app_nil_l.
    - apply filter_Forall_ext, Forall_drop_pos; [lia|].
      intros q Hq. specialize (Hhi q Hq). tauto.
    - apply Forall_take_pos. intros q Hq Hq' [Hq1 Hq2].
      destruct (Hlo q Hq) as [?|Hs]; [lia|].
      rewrite next_item_pos, Hs, andb_false_r in Hq2 by done. done. }
  destruct (btree_next_first_run sbi bt fuel first last seq op p curs
              Hroot Hcurs Hop Hseq Hfl Hlast Hfind) as (c' & _ & Hrun).
  revert Hrun.
  destruct (Z.ltb_spec p (nr_items bt)) as [Hlt|Hge];
    [destruct (Z.leb_spec (item_key (pos_item bt p)) last) as [Hin|Hout]|];
    cbn [andb]; intros Hrun; rewrite (bind_eq _ _ _ _ _ Hrun);
    cbv beta iota.
  - change (0 <? 1) with true. cbv iota. mstep.
    rewrite (bind_eq _ _ _ _ _
               (btree_next_keys_from sbi bt fuel first last seq op Hroot
                  Hks Hnr Hop Hseq Hinc Hfl Hlast n p ltac:(lia)
                  ltac:(lia) Hin)).
    rewrite cursor_key_at by apply bh_data_with_leaf.
    by rewrite (rest_keep bt last seq op p) by first [lia | done].
  - change (0 <? 0) with false. cbv iota.
    rewrite rest_past by first [lia | done]. done.
  - change (0 <? 0) with false. cbv iota.
    rewrite rest_past by first [lia | done]. done.
Qed.

Lemma next_keys_eq (n fuel : nat) (first last : Z) :
  ∀ (curs : scoutfs_btree_cursor) (sbi : scoutfs_sb_info),
    next_keys n fuel first last curs sbi =
    btree_next_keys n fuel first last 0 WALK_NEXT curs sbi.
Proof.
  induction n as [|n IH]; intros curs sbi; [done|].
  cbn [next_keys btree_next_keys]. unfold scoutfs_btree_next, bind.
  destruct (btree_next fuel first last 0 WALK_NEXT curs sbi)
    as [[[r c] s]|]; [|done].
  destruct (0 <? r); [|done]. simpl. by rewrite IH.
Qed.

(** X15: iteration with scoutfs_btree_next() over a tree whose root is a
    leaf with its offset array ordered by key, for a range that ends below
    the greatest key, where scoutfs_inc_key() gives a greater key for every
    key but the greatest.  A caller who starts with an empty cursor and
    calls until no item is returned sees exactly the keys of the leaf within
    [first, last], each once and in increasing order; one call more than
    the leaf has items is enough.  The last call releases the cursor: the
    state is as before the iteration, with no lock left behind. *)
Theorem scoutfs_btree_next_iterates (sbi : scoutfs_sb_info)
    (bt : scoutfs_btree_block) (n fuel : nat) (first last : Z)
    (curs : scoutfs_btree_cursor) :
  root_leaf sbi bt → key_sorted bt → nr_items bt < 2 ^ 32 - 1 →
  curs_bh curs = None →
  (∀ k, k < SCOUTFS_MAX_KEY → k < scoutfs_inc_key k) →
  last < SCOUTFS_MAX_KEY →
  nr_items bt < Z.of_nat n → (0 < fuel)%nat →
  next_keys n fuel first last curs sbi =
    Some (filter (λ k, first ≤ k ≤ last) (block_keys bt), sbi) ∧
  StronglySorted Z.lt (filter (λ k, first ≤ k ≤ last) (block_keys bt)).
Proof.
  intros Hroot Hks Hnr Hcurs Hinc Hlast Hn Hfuel. split.
  - rewrite next_keys_eq.
    rewrite (btree_next_keys_root_leaf sbi bt n fuel first last 0
               WALK_NEXT curs) by done.
    rewrite block_keys_items, filter_fmap_comm.
    do 3 f_equal. apply list_filter_iff. intros x. unfold next_item.
    change (WALK_NEXT =? WALK_NEXT_SEQ) with false. cbn [andb negb].
    rewrite andb_true_r.
    destruct (Z.leb_spec (item_key x) last); simpl; lia.
  - apply StronglySorted_filter.
    rewrite block_keys_items. by apply key_sorted_items.
Qed.

(** X16: iteration with scoutfs_btree_since() over such a tree, for a
    [seq] that is not above the seq of the root's block reference.  The
    caller sees exactly the keys of the items of the leaf that lie within
    [first, last] and have a seq of at least [seq], in the order of the
    leaf, and the state after the last call is as before the iteration. *)
Theorem scoutfs_btree_since_iterates (sbi : scoutfs_sb_info)
    (bt : scoutfs_btree_block) (n fuel : nat) (first last seq : Z)
    (curs : scoutfs_btree_cursor) :
  root_leaf sbi bt → key_sorted bt → nr_items bt < 2 ^ 32 - 1 →
  curs_bh curs = None →
  seq ≤ ref_seq (root_ref (btree_root sbi)) →
  (∀ k, k < SCOUTFS_MAX_KEY → k < scoutfs_inc_key k) →
  last < SCOUTFS_MAX_KEY →
  nr_items bt < Z.of_nat n → (0 < fuel)%nat →
  since_keys n fuel first last seq curs sbi =
    Some (item_key <$>
            filter (λ x, first ≤ item_key x ≤ last ∧ seq ≤ item_seq x)
              (block_items bt),
          sbi).
Proof.
  intros Hroot Hks Hnr Hcurs Hseq Hinc Hlast Hn Hfuel.
  unfold since_keys.
  rewrite (btree_next_keys_root_leaf sbi bt n fuel first last seq
             WALK_NEXT_SEQ curs) by done.
  do 3 f_equal. apply list_filter_iff. intros x. unfold next_item.
  change (WALK_NEXT_SEQ =? WALK_NEXT_SEQ) with true. cbn [andb].
  destruct (Z.leb_spec (item_key x) last);
    destruct (Z.ltb_spec (item_seq x) seq); simpl; lia.
Qed.

(** X17: scoutfs_btree_since() on a tree of any height that is not empty
    and whose root block reference has a seq below [seq] skips the whole
    tree: for a range that ends below the greatest key it returns 0 at once
    and leaves the cursor and the state as they were; no block is read or
    locked. *)
Theorem scoutfs_btree_since_old_tree (sbi : scoutfs_sb_info)
    (fuel : nat) (first last seq : Z) (curs : scoutfs_btree_cursor) :
  root_height (btree_root sbi) ≠ 0 →
  ref_seq (root_ref (btree_root sbi)) < seq →
  curs_bh curs = None → last < SCOUTFS_MAX_KEY → (0 < fuel)%nat →
  scoutfs_btree_since fuel first last seq curs sbi = Some ((0, curs), sbi).
Proof.
  intros Hh Hold Hcurs Hlast Hfuel.
  assert (set_curs_bh None curs = curs) as Hsame.
  { destruct curs. simpl in *. unfold set_curs_bh. simpl. by subst. }
  assert (scoutfs_btree_release curs sbi = Some (curs, sbi)) as Hrel.
  { unfold scoutfs_btree_release. rewrite Hcurs. msteps.
    by rewrite Hsame. }
  assert ((0 <? scoutfs_key_cmp SCOUTFS_MAX_KEY last) = true) as Hmax.
  { apply Z.ltb_lt, key_cmp_gt. lia. }
  unfold scoutfs_btree_since, btree_next.
  destruct (0 <? scoutfs_key_cmp first last); [done|].
  rewrite Hcurs. mstep.
  destruct fuel as [|fuel]; [lia|]. cbn [btree_next_loop].
  rewrite Hcurs.
  destruct (0 <? scoutfs_key_cmp first last).
  { msteps. rewrite Hcurs. by rewrite (bind_eq _ _ _ _ _ Hrel). }
  (* the walk gives up at the root *)
  assert (btree_walk first (Some 0) 0 seq WALK_NEXT_SEQ sbi =
          Some ((ERR_PTR (- ENOENT), Some SCOUTFS_MAX_KEY), sbi)) as Hwalk.
  { unfold btree_walk.
    change (WALK_NEXT_SEQ =? WALK_INSERT) with false.
    change (WALK_NEXT_SEQ =? WALK_DELETE) with false.
    change (WALK_NEXT_SEQ =? WALK_DIRTY) with false.
    change (WALK_NEXT_SEQ =? WALK_NEXT_SEQ) with true. cbn [orb andb].
    unfold lock_block, unlock_block, lock_root, unlock_root. msteps.
    cbn [btree_root set_btree_rwsem].
    destruct (Z.eqb_spec (root_height (btree_root sbi)) 0); [done|].
    destruct (Z.ltb_spec (ref_seq (root_ref (btree_root sbi))) seq);
      [|lia].
    msteps.
    match goal with
    | |- ?m ?s = Some (?a, ?s') => assert (s = s') as ->; [|reflexivity]
    end.
    apply sbi_ext; try done.
    cbn [btree_rwsem set_btree_rwsem rw_readers rw_writer].
    destruct (btree_rwsem sbi) as [r w]. simpl. f_equal. lia. }
  mstep. rewrite (bind_eq _ _ _ _ _ Hwalk). cbv beta iota.
  change (WALK_NEXT_SEQ =? WALK_NEXT_SEQ) with true.
  rewrite Z.eqb_refl. cbn [andb default].
  destruct fuel as [|fuel]; cbn [btree_next_loop];
    rewrite Hcurs, Hmax; msteps; rewrite Hcurs;
    by rewrite (bind_eq _ _ _ _ _ Hrel).
Qed.

End Iterate.

(** ** Trees of height 1: the first missing key *)

Lemma key_sorted_le (bt : scoutfs_btree_block) (a b : Z) :
  key_sorted bt → 0 ≤ a → a ≤ b → b < nr_items bt →
  item_key (pos_item bt a) ≤ item_key (pos_item bt b).
Proof.
  intros Hks Ha Hab Hb. destruct (decide (a = b)) as [->|]; [lia|].
  specialize (Hks a b ltac:(lia) ltac:(lia) ltac:(lia)). lia.
Qed.

(** a key that lies between the keys of two neighbours is not in the block *)
Lemma key_absent (bt : scoutfs_btree_block) (p h : Z) :
  key_sorted bt → 0 ≤ p →
  (∀ q, 0 ≤ q < p → q < nr_items bt → item_key (pos_item bt q) < h) →
  (p < nr_items bt → h < item_key (pos_item bt p)) →
  h ∉ block_keys bt.
Proof.
  intros Hks Hp Hlo Hhi [q [Hq Hkey]]%elem_of_block_keys.
  destruct (Z.lt_ge_cases q p) as [Hlt|Hge].
  - specialize (Hlo q ltac:(lia) ltac:(lia)). lia.
  - specialize (Hhi ltac:(lia)).
    pose proof (key_sorted_le bt p q Hks ltac:(lia) ltac:(lia) ltac:(lia)).
    lia.
Qed.

Lemma next_pos_seq_next (bt : scoutfs_btree_block) (i : Z) :
  nr_items bt < 2 ^ 32 - 1 → 0 ≤ i < nr_items bt →
  next_pos_seq bt i 0 0 WALK_NEXT = Some (i + 1).
Proof.
  intros Hnr Hi.
  destruct (next_pos_seq_loop_skips bt 0 0 WALK_NEXT ltac:(lia)
              (S (length (item_offs bt))) i)
    as (p & Hp & Hgt & Hbound & Hs & Hbetween).
  { zpow. lia. }
  { unfold nr_items. lia. }
  unfold next_pos_seq. rewrite Hp. f_equal.
  destruct (decide (p = i + 1)) as [|Hne]; [done|].
  specialize (Hbetween (i + 1) ltac:(lia)).
  by rewrite skip_pos_seq_other in Hbetween.
Qed.

Section Hole.
Context `{Format}.

Variables (sbi : scoutfs_sb_info) (bt : scoutfs_btree_block)
  (first last : Z).
Hypothesis Hroot : root_leaf sbi bt.
Hypothesis Hks : key_sorted bt.
Hypothesis Hnr : nr_items bt < 2 ^ 32 - 1.
Hypothesis Hinc : ∀ k, first ≤ k ≤ last → scoutfs_inc_key k = k + 1.
Hypothesis Hfl : first ≤ last.
Hypothesis Hlast : last < SCOUTFS_MAX_KEY.

(** the loop of scoutfs_btree_hole() with the cursor on the item at [i]
    and the key after it as the hole *)
Lemma hole_loop_from (fuel : nat) :
  ∀ i, 0 ≤ i < nr_items bt →
    first ≤ item_key (pos_item bt i) ≤ last →
    nr_items bt - i + 1 ≤ Z.of_nat fuel →
    ∃ r hole c s c',
      hole_loop fuel first last (item_key (pos_item bt i) + 1)
        (cursor_at (root_blkno sbi) bt i false) (with_leaf bt sbi) =
        Some ((r, hole, c), s) ∧
      0 ≤ r ∧ scoutfs_btree_release c s = Some (c', sbi) ∧
      item_key (pos_item bt i) < hole ≤ last + 1 ∧
      (∀ k, item_key (pos_item bt i) < k < hole → k ∈ block_keys bt) ∧
      (hole ≤ last → hole ∉ block_keys bt).
Proof.
  pose proof Hroot as (Hh & Hb & Hlk & Hw).
  induction fuel as [|fuel IH]; intros i Hi Hkey Hfuel; [lia|].
  destruct fuel as [|fuel]; [lia|].
  set (h := item_key (pos_item bt i) + 1).
  destruct (btree_next_cont_run sbi bt fuel first last 0 WALK_NEXT i
              (i + 1) Hroot Hks Hnr ltac:(done) ltac:(done)
              ltac:(rewrite Hinc by done; lia) Hfl Hlast Hi
              ltac:(lia) (next_pos_seq_next bt i Hnr Hi) ltac:(lia)
              ltac:(intros; lia)) as (c0 & Hc0 & Hrun).
  assert (∀ q, 0 ≤ q < i + 1 → q < nr_items bt →
               item_key (pos_item bt q) < h) as Hbelow.
  { intros q Hq Hq'.
    pose proof (key_sorted_le bt q i Hks ltac:(lia) ltac:(lia) ltac:(lia)).
    unfold h. lia. }
  cbn [hole_loop]. unfold scoutfs_btree_next. revert Hrun.
  destruct (Z.ltb_spec (i + 1) (nr_items bt)) as [Hlt|Hge];
    [destruct (Z.leb_spec (item_key (pos_item bt (i + 1))) last)
       as [Hin|Hout]|];
    cbn [andb]; intros Hrun; rewrite (bind_eq _ _ _ _ _ Hrun);
    cbv beta iota.
  - (* the next item is within the range *)
    change (0 <? 1) with true. cbv iota. mstep.
    rewrite cursor_key_at by apply bh_data_with_leaf.
    pose proof (Hks i (i + 1) ltac:(lia) ltac:(lia) ltac:(lia)) as Hnext.
    destruct (Z.ltb_spec (scoutfs_key_cmp h (item_key (pos_item bt (i + 1))))
                0) as [Hgap|Hnogap].
    + (* a key is missing in front of it *)
      rewrite key_cmp_lt in Hgap.
      exists 1, h, (cursor_at (root_blkno sbi) bt (i + 1) false),
        (with_leaf bt sbi). eexists.
      split; [done|]. split; [lia|].
      split; [by apply release_with_leaf|].
      split; [unfold h; lia|]. split; [intros k Hk; unfold h in Hk; lia|].
      intros _. by apply (key_absent bt (i + 1)); [|lia|..].
    + (* it has the key that was expected *)
      assert (item_key (pos_item bt (i + 1)) = h) as Hh'.
      { assert (¬ scoutfs_key_cmp h (item_key (pos_item bt (i + 1))) < 0)
          as Hn by lia.
        rewrite key_cmp_lt in Hn. unfold h in *. lia. }
      rewrite Hinc by lia.
      destruct (IH (i + 1) ltac:(lia) ltac:(lia) ltac:(lia))
        as (r & hole & c & s & c' & Hloop & Hr & Hrel & Hhole & Hall &
            Hnot).
      exists r, hole, c, s, c'. split; [done|]. split; [done|].
      split; [done|]. split; [unfold h in *; lia|]. split; [|done].
      intros k Hk. destruct (decide (k = h)) as [->|Hne].
      * apply elem_of_block_keys. exists (i + 1). split; [lia|done].
      * apply Hall. unfold h in *. lia.
  - (* the next item is past the range *)
    change (0 <? 0) with false. cbv iota.
    exists 0, h, c0, sbi, (set_curs_bh None c0).
    split; [done|]. split; [lia|]. split.
    { unfold scoutfs_btree_release. rewrite Hc0. by msteps. }
    split; [unfold h; lia|]. split; [intros k Hk; unfold h in Hk; lia|].
    intros Hle. apply (key_absent bt (i + 1)); [done|lia|done|lia].
  - (* there is no next item *)
    change (0 <? 0) with false. cbv iota.
    exists 0, h, c0, sbi, (set_curs_bh None c0).
    split; [done|]. split; [lia|]. split.
    { unfold scoutfs_btree_release. rewrite Hc0. by msteps. }
    split; [unfold h; lia|]. split; [intros k Hk; unfold h in Hk; lia|].
    intros Hle. apply (key_absent bt (i + 1)); [done|lia|done|lia].
Qed.

(** the end of scoutfs_btree_hole() after its loop *)
Lemma hole_after_loop (fuel : nat) (r hole : Z)
    (c c' : scoutfs_btree_cursor) (s : scoutfs_sb_info) :
  hole_loop fuel first last first empty_cursor sbi = Some ((r, hole, c), s) →
  0 ≤ r → scoutfs_btree_release c s = Some (c', sbi) →
  scoutfs_btree_hole fuel first last sbi =
    Some ((if hole <=? last then 0 else - ENOSPC, hole), sbi).
Proof.
  intros Hloop Hr Hrel. unfold scoutfs_btree_hole.
  rewrite (bind_eq _ _ _ _ _ Hloop). cbv beta iota.
  rewrite (bind_eq _ _ _ _ _ Hrel).
  destruct (Z.leb_spec 0 r); [|lia].
  destruct (Z.leb_spec hole last) as [Hle|Hgt];
    destruct (Z.leb_spec (scoutfs_key_cmp hole last) 0) as [Hc|Hc];
    try done.
  - rewrite key_cmp_gt in Hc. lia.
  - assert (¬ 0 < scoutfs_key_cmp hole last) as Hn by lia.
    rewrite key_cmp_gt in Hn. lia.
Qed.

(** the loop of scoutfs_btree_hole() from its start *)
Lemma hole_loop_start (fuel : nat) :
  nr_items bt + 2 ≤ Z.of_nat fuel →
  ∃ r hole c s c',
    hole_loop fuel first last first empty_cursor sbi =
      Some ((r, hole, c), s) ∧
    0 ≤ r ∧ scoutfs_btree_release c s = Some (c', sbi) ∧
    first ≤ hole ≤ last + 1 ∧
    (∀ k, first ≤ k < hole → k ∈ block_keys bt) ∧
    (hole ≤ last → hole ∉ block_keys bt).
Proof.
  intros Hfuel. pose proof Hroot as (Hh & Hb & Hlk & Hw).
  destruct fuel as [|[|fuel]]; [unfold nr_items in Hfuel; lia..|].
  destruct (find_pos_after_seq_spec bt first 0 0 WALK_NEXT Hks Hnr)
    as (p & Hfind & Hp & Hlo & Hhi & Hskip).
  assert (∀ q, 0 ≤ q < p → q < nr_items bt →
               item_key (pos_item bt q) < first) as Hbelow.
  { intros q Hq _. destruct (Hlo q Hq) as [|Hs]; [done|].
    by rewrite skip_pos_seq_other in Hs. }
  destruct (btree_next_first_run sbi bt fuel first last 0 WALK_NEXT p
              empty_cursor Hroot eq_refl ltac:(done) ltac:(done) Hfl Hlast
              Hfind) as (c0 & Hc0 & Hrun).
  cbn [hole_loop]. unfold scoutfs_btree_next. revert Hrun.
  destruct (Z.ltb_spec p (nr_items bt)) as [Hlt|Hge];
    [destruct (Z.leb_spec (item_key (pos_item bt p)) last) as [Hin|Hout]|];
    cbn [andb]; intros Hrun; rewrite (bind_eq _ _ _ _ _ Hrun);
    cbv beta iota.
  - (* the first item of the range *)
    change (0 <? 1) with true. cbv iota. mstep.
    rewrite cursor_key_at by apply bh_data_with_leaf.
    specialize (Hhi p ltac:(lia)).
    destruct (Z.ltb_spec (scoutfs_key_cmp first (item_key (pos_item bt p)))
                0) as [Hgap|Hnogap].
    + rewrite key_cmp_lt in Hgap.
      exists 1, first, (cursor_at (root_blkno sbi) bt p false),
        (with_leaf bt sbi). eexists.
      split; [done|]. split; [lia|].
      split; [by apply release_with_leaf|].
      split; [lia|]. split; [intros k Hk; lia|].
      intros _. by apply (key_absent bt p); [|lia|..].
    + assert (item_key (pos_item bt p) = first) as Hp'.
      { assert (¬ scoutfs_key_cmp first (item_key (pos_item bt p)) < 0)
          as Hn by lia.
        rewrite key_cmp_lt in Hn. lia. }
      rewrite Hinc by lia.
      destruct (hole_loop_from (S fuel) p ltac:(lia) ltac:(lia)
                  ltac:(lia))
        as (r & hole & c & s & c' & Hloop & Hr & Hrel & Hhole & Hall &
            Hnot).
      exists r, hole, c, s, c'. split; [done|]. split; [done|].
      split; [done|]. split; [lia|]. split; [|done].
      intros k Hk. destruct (decide (k = first)) as [->|Hne].
      * apply elem_of_block_keys. exists p. split; [lia|done].
      * apply Hall. lia.
  - change (0 <? 0) with false. cbv iota.
    exists 0, first, c0, sbi, (set_curs_bh None c0).
    split; [done|]. split; [lia|]. split.
    { unfold scoutfs_btree_release. rewrite Hc0. by msteps. }
    split; [lia|]. split; [intros k Hk; lia|].
    intros Hle. apply (key_absent bt p); [done|lia|done|lia].
  - change (0 <? 0) with false. cbv iota.
    exists 0, first, c0, sbi, (set_curs_bh None c0).
    split; [done|]. split; [lia|]. split.
    { unfold scoutfs_btree_release. rewrite Hc0. by msteps. }
    split; [lia|]. split; [intros k Hk; lia|].
    intros Hle. apply (key_absent bt p); [done|lia|done|lia].
Qed.

End Hole.

Section HoleRootLeaf.
Context `{Format}.

(** X18: scoutfs_btree_hole() on a tree whose root is a leaf with its
    offset array ordered by key, for a range [first, last] that is not
    empty and ends below the greatest key, where scoutfs_inc_key() gives
    the key after its argument for the keys of the range.  It gives the first key from [first] on
    that the leaf does not have: every key from [first] up to the hole is
    in the leaf.  If the hole is within [last] the result is 0 and the hole
    is not a key of the leaf; if every key of the range is in the leaf the
    result is -ENOSPC and the hole is the key after [last].  The state is
    left as it was, with no lock held. *)
Theorem scoutfs_btree_hole_first_missing (sbi : scoutfs_sb_info)
    (bt : scoutfs_btree_block) (fuel : nat) (first last : Z) :
  root_leaf sbi bt → key_sorted bt → nr_items bt < 2 ^ 32 - 1 →
  (∀ k, first ≤ k ≤ last → scoutfs_inc_key k = k + 1) →
  first ≤ last → last < SCOUTFS_MAX_KEY →
  nr_items bt + 2 ≤ Z.of_nat fuel →
  ∃ r hole,
    scoutfs_btree_hole fuel first last sbi = Some ((r, hole), sbi) ∧
    first ≤ hole ≤ last + 1 ∧
    (∀ k, first ≤ k < hole → k ∈ block_keys bt) ∧
    (hole ≤ last → r = 0 ∧ hole ∉ block_keys bt) ∧
    (last < hole → r = - ENOSPC).
Proof.
  intros Hroot Hks Hnr Hinc Hfl Hlast Hfuel.
  destruct (hole_loop_start sbi bt first last Hroot Hks Hnr Hinc Hfl Hlast
              fuel Hfuel)
    as (r & hole & c & s & c' & Hloop & Hr & Hrel & Hhole & Hall & Hnot).
  exists (if hole <=? last then 0 else - ENOSPC), hole.
  split; [by apply (hole_after_loop sbi first last fuel r hole c c' s)|].
  split; [done|]. split; [done|].
  destruct (Z.leb_spec hole last); split; intros; try lia; auto.
Qed.

End HoleRootLeaf.

(** ** The properties at work on the example trees *)

Ltac example_wf := apply wf_blockb_sound; vm_compute; reflexivity.
Ltac example_sorted := apply key_sortedb_sound; vm_compute; reflexivity.

Lemma example_root_leaf (bt : scoutfs_btree_block) :
  root_leaf (example_sbi_root bt) bt.
Proof.
  split; [reflexivity|]. split; [|split; [|reflexivity]].
  - unfold root_blkno. simpl. apply lookup_insert_eq.
  - simpl. apply not_elem_of_empty.
Qed.

Lemma example_clean_root_leaf (bt : scoutfs_btree_block) :
  root_leaf (example_sbi_clean bt) bt.
Proof.
  split; [reflexivity|]. split; [|split; [|reflexivity]].
  - unfold root_blkno. simpl. apply lookup_insert_eq.
  - simpl. apply not_elem_of_empty.
Qed.

Lemma example_clean_can_dirty (bt : scoutfs_btree_block) :
  can_dirty (example_sbi_clean bt) bt.
Proof.
  right. exists 11, [12]. split; [reflexivity|].
  simpl. apply not_elem_of_empty.
Qed.

Lemma example_last_block_root_leaf (bt : scoutfs_btree_block) :
  root_leaf (set_alloc_avail [11] (example_sbi_clean bt)) bt.
Proof.
  split; [reflexivity|]. split; [|split; [|reflexivity]].
  - unfold root_blkno. simpl. apply lookup_insert_eq.
  - simpl. apply not_elem_of_empty.
Qed.

Lemma example_last_block_can_dirty (bt : scoutfs_btree_block) :
  can_dirty (set_alloc_avail [11] (example_sbi_clean bt)) bt.
Proof.
  right. exists 11, []. split; [reflexivity|].
  simpl. apply not_elem_of_empty.
Qed.

Lemma example_inc_key_grows (k : Z) :
  k < @SCOUTFS_MAX_KEY example_format →
  k < @scoutfs_inc_key example_format k.
Proof.
  simpl. unfold u64. intros Hk.
  destruct (Z.lt_ge_cases k 0) as [Hneg|Hpos].
  - pose proof (Z.mod_pos_bound (k + 1) (2 ^ 64) ltac:(lia)). lia.
  - rewrite Z.mod_small by lia. lia.
Qed.

Lemma example_inc_key_next (k : Z) :
  1 ≤ k ≤ 10 → @scoutfs_inc_key example_format k = k + 1.
Proof. simpl. unfold u64. intros Hk. rewrite Z.mod_small; lia. Qed.

Lemma example_keys_3 : block_keys (example_block 10 [1; 2; 3] 1) = [1; 2; 3].
Proof. vm_compute. reflexivity. Qed.

Lemma example_keys_2 : block_keys (example_block 10 [1; 3] 1) = [1; 3].
Proof. vm_compute. reflexivity. Qed.

Section Examples.
#[local] Existing Instance example_format.
#[local] Existing Instance example_format_ok.


Lemma delete_item_removes_witness :
  nr_items (delete_item (example_block 10 [1; 2; 3] 1) 1) =
    nr_items (example_block 10 [1; 2; 3] 1) - 1 ∧
  off_item (delete_item (example_block 10 [1; 2; 3] 1) 1)
    (pos_off (example_block 10 [1; 2; 3] 1) 1) = zero_item.
Proof.
  destruct (delete_item_removes (example_block 10 [1; 2; 3] 1) 1)
    as (_ & _ & Hnr & Hzero & _).
  - example_wf.
  - vm_compute. split; [discriminate|reflexivity].
  - split; [exact Hnr|exact Hzero].
Defined.

Lemma create_delete_round_trip_witness :
  block_items
    (delete_item (create_item (example_block 10 [1; 3] 1) 1 2 1).1 1) =
    block_items (example_block 10 [1; 3] 1).
Proof.
  destruct (create_delete_round_trip (example_block 10 [1; 3] 1) 1 2 1)
    as (_ & Hitems & _).
  - example_wf.
  - vm_compute. split; discriminate.
  - vm_compute. split; [discriminate|reflexivity].
  - vm_compute. discriminate.
  - exact Hitems.
Defined.

Lemma block_space_accounts_witness :
  BTREE_BLOCK_BYTES + contig_free example_holed + free_reclaim example_holed +
    used_total example_holed = SCOUTFS_BLOCK_SIZE.
Proof.
  destruct (block_space_accounts example_holed) as (Hsum & _).
  - example_wf.
  - exact Hsum.
Defined.

Lemma move_items_conserves_witness :
  ∃ dst' src',
    move_items (example_block 11 [] 1) (example_block 10 [1; 2; 3] 1) false 25
      = Some (dst', src') ∧
    block_items dst' ++ block_items src' =
      block_items (example_block 11 [] 1) ++
      block_items (example_block 10 [1; 2; 3] 1).
Proof.
  destruct (move_items_conserves (example_block 11 [] 1)
              (example_block 10 [1; 2; 3] 1) false 25)
    as (dst' & src' & Hmove & _ & _ & Hitems & _).
  - example_wf.
  - example_wf.
  - vm_compute. split; [discriminate|reflexivity].
  - vm_compute. discriminate.
  - exists dst', src'. split; [exact Hmove|exact Hitems].
Defined.

Lemma find_pos_after_seq_first_witness :
  ∃ p,
    find_pos_after_seq (example_block 10 [1; 2; 3] 1) 2 0 0 WALK_NEXT =
      Some p ∧
    0 ≤ p ≤ nr_items (example_block 10 [1; 2; 3] 1) ∧
    skip_pos_seq (example_block 10 [1; 2; 3] 1) p 0 0 WALK_NEXT = false.
Proof.
  destruct (find_pos_after_seq_first (example_block 10 [1; 2; 3] 1) 2 0 0
              WALK_NEXT)
    as (p & Hfind & Hp & _ & _ & Hskip & _).
  - example_sorted.
  - vm_compute. reflexivity.
  - exists p. split; [exact Hfind|]. split; [exact Hp|exact Hskip].
Defined.

Lemma create_parent_item_refers_witness :
  val_ref
    (item_val
       (pos_item
          (create_parent_item (example_block 20 [] 1) 0
             (example_block 10 [1; 2; 3] 1) 3) 0)) =
    {| ref_blkno := hdr_blkno (example_block 10 [1; 2; 3] 1);
       ref_seq := hdr_seq (example_block 10 [1; 2; 3] 1) |}.
Proof.
  destruct (create_parent_item_refers (example_block 20 [] 1)
              (example_block 10 [1; 2; 3] 1) 0 3)
    as (_ & _ & Href & _).
  - example_wf.
  - vm_compute. split; discriminate.
  - vm_compute. discriminate.
  - vm_compute. split; [discriminate|reflexivity].
  - vm_compute. split; [discriminate|reflexivity].
  - exact Href.
Defined.

Lemma scoutfs_btree_lookup_root_leaf_witness :
  ∃ pos,
    scoutfs_btree_lookup 2 empty_cursor
      (example_sbi_root (example_block 10 [1; 2; 3] 1)) =
      Some ((0, cursor_at
                  (root_blkno
                     (example_sbi_root (example_block 10 [1; 2; 3] 1)))
                  (example_block 10 [1; 2; 3] 1) pos false),
            set_locked
              ({[root_blkno
                   (example_sbi_root (example_block 10 [1; 2; 3] 1))]} ∪
               locked (example_sbi_root (example_block 10 [1; 2; 3] 1)))
              (example_sbi_root (example_block 10 [1; 2; 3] 1))).
Proof.
  destruct (scoutfs_btree_lookup_root_leaf
              (example_sbi_root (example_block 10 [1; 2; 3] 1))
              (example_block 10 [1; 2; 3] 1) 2 empty_cursor)
    as [Hfound _].
  - apply example_root_leaf.
  - example_sorted.
  - reflexivity.
  - destruct Hfound as (pos & _ & _ & Hlookup & _).
    + rewrite example_keys_3. apply list_elem_of_further, list_elem_of_here.
    + exists pos. exact Hlookup.
Defined.


Lemma scoutfs_btree_update_root_leaf_witness :
  ∃ pos bt',
    scoutfs_btree_update 2 empty_cursor
      (example_sbi_clean (example_block 10 [1; 2; 3] 1)) =
      Some ((0, cursor_at
                  (root_blkno
                     (dirtied_root
                        (example_sbi_clean (example_block 10 [1; 2; 3] 1))
                        (example_block 10 [1; 2; 3] 1)))
                  bt' pos true),
            with_leaf bt'
              (dirtied_root
                 (example_sbi_clean (example_block 10 [1; 2; 3] 1))
                 (example_block 10 [1; 2; 3] 1))) ∧
    block_keys bt' = block_keys (example_block 10 [1; 2; 3] 1) ∧
    hdr_seq bt' = dirty_seq (example_sbi_clean (example_block 10 [1; 2; 3] 1)).
Proof.
  destruct (scoutfs_btree_update_root_leaf
              (example_sbi_clean (example_block 10 [1; 2; 3] 1))
              (example_block 10 [1; 2; 3] 1) 2 empty_cursor)
    as [Hfound _].
  - apply example_clean_root_leaf.
  - apply example_clean_can_dirty.
  - example_wf.
  - example_sorted.
  - reflexivity.
  - destruct Hfound as (pos & bt' & _ & _ & Hupd & _ & Hkeys & Hseq & _).
    + rewrite example_keys_3. apply list_elem_of_further, list_elem_of_here.
    + exists pos, bt'. split; [exact Hupd|]. split; [exact Hkeys|exact Hseq].
Defined.

Lemma scoutfs_btree_dirty_root_leaf_witness :
  scoutfs_btree_dirty 2 (example_sbi_clean (example_block 10 [1; 2; 3] 1)) =
    Some (0, dirtied_root
               (example_sbi_clean (example_block 10 [1; 2; 3] 1))
               (example_block 10 [1; 2; 3] 1)) ∧
  root_ref
    (btree_root
       (dirtied_root (example_sbi_clean (example_block 10 [1; 2; 3] 1))
          (example_block 10 [1; 2; 3] 1))) =
    {| ref_blkno := 11;
       ref_seq :=
         dirty_seq (example_sbi_clean (example_block 10 [1; 2; 3] 1)) |}.
Proof.
  destruct (scoutfs_btree_dirty_root_leaf
              (example_sbi_clean (example_block 10 [1; 2; 3] 1))
              (example_block 10 [1; 2; 3] 1) 2)
    as (Hcan & _ & Hcopy & _).
  - apply example_clean_root_leaf.
  - example_sorted.
  - destruct (Hcan (example_clean_can_dirty _)) as (Hfound & _).
    destruct (Hcopy 11 [12]) as (_ & Href & _).
    + vm_compute. discriminate.
    + reflexivity.
    + split; [|exact Href].
      apply Hfound. rewrite example_keys_3.
      apply list_elem_of_further, list_elem_of_here.
Defined.

Lemma insert_release_lookup_witness :
  ∃ c1 s1 c2 s2 c3 s3,
    scoutfs_btree_insert 2 1 empty_cursor
      (example_sbi_clean (example_block 10 [1; 3] 1)) = Some ((0, c1), s1) ∧
    scoutfs_btree_release c1 s1 = Some (c2, s2) ∧
    scoutfs_btree_lookup 2 c2 s2 = Some ((0, c3), s3) ∧
    cursor_key s3 c3 = 2 ∧
    curs_seq c3 = dirty_seq (example_sbi_clean (example_block 10 [1; 3] 1)).
Proof.
  destruct (insert_release_lookup
              (example_sbi_clean (example_block 10 [1; 3] 1))
              (example_block 10 [1; 3] 1) 2 1)
    as (c1 & s1 & c2 & s2 & Hins & Hrel &
        (c3 & s3 & Hlook & Hkey & _ & Hseq) & _).
  - apply example_clean_root_leaf.
  - apply example_clean_can_dirty.
  - example_wf.
  - example_sorted.
  - vm_compute. split; [discriminate|reflexivity].
  - vm_compute. discriminate.
  - rewrite example_keys_2. intros Hin.
    apply elem_of_cons in Hin as [Hin|Hin]; [discriminate|].
    apply elem_of_cons in Hin as [Hin|Hin]; [discriminate|].
    by apply elem_of_nil in Hin.
  - exists c1, s1, c2, s2, c3, s3.
    split; [exact Hins|]. split; [exact Hrel|].
    split; [exact Hlook|]. split; [exact Hkey|exact Hseq].
Defined.

Lemma insert_release_delete_witness :
  ∃ c1 s1 c2 s2 s3,
    scoutfs_btree_insert 2 1 empty_cursor
      (example_sbi_clean (example_block 10 [1; 3] 1)) = Some ((0, c1), s1) ∧
    scoutfs_btree_release c1 s1 = Some (c2, s2) ∧
    scoutfs_btree_delete 2 s2 = Some (0, s3) ∧
    block_items
      (bh_data s3
         (root_blkno
            (dirtied_root (example_sbi_clean (example_block 10 [1; 3] 1))
               (example_block 10 [1; 3] 1)))) =
      block_items (example_block 10 [1; 3] 1).
Proof.
  destruct (insert_release_delete
              (example_sbi_clean (example_block 10 [1; 3] 1))
              (example_block 10 [1; 3] 1) 2 1)
    as (c1 & s1 & c2 & s2 & s3 & Hins & Hrel & Hdel & Hitems & _).
  - apply example_clean_root_leaf.
  - apply example_clean_can_dirty.
  - example_wf.
  - example_sorted.
  - vm_compute. split; [discriminate|reflexivity].
  - vm_compute. discriminate.
  - rewrite example_keys_2. intros Hin.
    apply elem_of_cons in Hin as [Hin|Hin]; [discriminate|].
    apply elem_of_cons in Hin as [Hin|Hin]; [discriminate|].
    by apply elem_of_nil in Hin.
  - exists c1, s1, c2, s2, s3.
    split; [exact Hins|]. split; [exact Hrel|].
    split; [exact Hdel|exact Hitems].
Defined.

Lemma scoutfs_btree_insert_no_space_witness :
  ∃ err,
    scoutfs_block_dirty_alloc
      (set_alloc_avail []
         (example_sbi_clean (example_block 10 [1; 2] 2000))) =
      Some (ERR_PTR err,
            set_alloc_avail []
              (example_sbi_clean (example_block 10 [1; 2] 2000))) ∧
    scoutfs_btree_insert 3 2000 empty_cursor
      (set_alloc_avail [11]
         (example_sbi_clean (example_block 10 [1; 2] 2000))) =
      Some ((err, empty_cursor),
            dirtied_root
              (set_alloc_avail [11]
                 (example_sbi_clean (example_block 10 [1; 2] 2000)))
              (example_block 10 [1; 2] 2000)).
Proof.
  destruct (scoutfs_btree_insert_no_space
              (set_alloc_avail [11]
                 (example_sbi_clean (example_block 10 [1; 2] 2000)))
              (example_block 10 [1; 2] 2000) 3 2000 empty_cursor)
    as (err & Halloc & Hnone & _).
  - apply example_last_block_root_leaf.
  - apply example_last_block_can_dirty.
  - example_wf.
  - reflexivity.
  - vm_compute. reflexivity.
  - exists err. split.
    + apply Halloc. reflexivity.
    + apply Hnone. reflexivity.
Defined.

Lemma scoutfs_btree_next_iterates_witness :
  next_keys 4 1 2 10 empty_cursor
    (example_sbi_root (example_block 10 [1; 2; 3] 1)) =
    Some (filter (λ k, 2 ≤ k ≤ 10)
            (block_keys (example_block 10 [1; 2; 3] 1)),
          example_sbi_root (example_block 10 [1; 2; 3] 1)).
Proof.
  destruct (scoutfs_btree_next_iterates
              (example_sbi_root (example_block 10 [1; 2; 3] 1))
              (example_block 10 [1; 2; 3] 1) 4 1 2 10 empty_cursor)
    as [Hkeys _].
  - apply example_root_leaf.
  - example_sorted.
  - vm_compute. reflexivity.
  - reflexivity.
  - apply example_inc_key_grows.
  - vm_compute. reflexivity.
  - vm_compute. reflexivity.
  - lia.
  - exact Hkeys.
Defined.

Lemma scoutfs_btree_since_iterates_witness :
  since_keys 4 1 2 10 1 empty_cursor
    (example_sbi_root (example_block 10 [1; 2; 3] 1)) =
    Some (item_key <$>
            filter (λ x, 2 ≤ item_key x ≤ 10 ∧ 1 ≤ item_seq x)
              (block_items (example_block 10 [1; 2; 3] 1)),
          example_sbi_root (example_block 10 [1; 2; 3] 1)).
Proof.
  apply (scoutfs_btree_since_iterates
           (example_sbi_root (example_block 10 [1; 2; 3] 1))
           (example_block 10 [1; 2; 3] 1) 4 1 2 10 1 empty_cursor).
  - apply example_root_leaf.
  - example_sorted.
  - vm_compute. reflexivity.
  - reflexivity.
  - vm_compute. discriminate.
  - apply example_inc_key_grows.
  - vm_compute. reflexivity.
  - vm_compute. reflexivity.
  - lia.
Defined.

Lemma scoutfs_btree_since_old_tree_witness :
  scoutfs_btree_since 1 1 10 2 empty_cursor
    (example_sbi_root (example_block 10 [1; 2; 3] 1)) =
    Some ((0, empty_cursor),
          example_sbi_root (example_block 10 [1; 2; 3] 1)).
Proof.
  apply (scoutfs_btree_since_old_tree
           (example_sbi_root (example_block 10 [1; 2; 3] 1)) 1 1 10 2
           empty_cursor).
  - discriminate.
  - vm_compute. reflexivity.
  - reflexivity.
  - vm_compute. reflexivity.
  - lia.
Defined.

Lemma scoutfs_btree_hole_first_missing_witness :
  ∃ r hole,
    scoutfs_btree_hole 5 1 10
      (example_sbi_root (example_block 10 [1; 2; 3] 1)) =
      Some ((r, hole), example_sbi_root (example_block 10 [1; 2; 3] 1)) ∧
    1 ≤ hole ≤ 10 + 1.
Proof.
  destruct (scoutfs_btree_hole_first_missing
              (example_sbi_root (example_block 10 [1; 2; 3] 1))
              (example_block 10 [1; 2; 3] 1) 5 1 10)
    as (r & hole & Hhole & Hrange & _).
  - apply example_root_leaf.
  - example_sorted.
  - vm_compute. reflexivity.
  - apply example_inc_key_next.
  - vm_compute. discriminate.
  - vm_compute. reflexivity.
  - vm_compute. discriminate.
  - exists r, hole. split; [exact Hhole|exact Hrange].
Defined.

End Examples.

(** ** Trees of height 2: the way down *)

(** the locks of a walk through the parent, taken and given back *)
Lemma locked_through_parent (L : gset Z) (rb cb : Z) :
  rb ∉ L → cb ≠ rb → ({[cb]} ∪ ({[rb]} ∪ L)) ∖ {[rb]} = {[cb]} ∪ L.
Proof.
  intros Hrb Hne. apply set_eq. intros x.
  rewrite elem_of_difference, !elem_of_union, !elem_of_singleton. split.
  - intros [[?|[?|?]] ?]; auto. done.
  - intros [->|Hx]; [auto|]. split; [auto|]. by intros ->.
Qed.

Lemma locked_parent_only (L : gset Z) (rb : Z) :
  rb ∉ L → ({[rb]} ∪ L) ∖ {[rb]} = L.
Proof.
  intros Hrb. apply set_eq. intros x.
  rewrite elem_of_difference, elem_of_union, elem_of_singleton. split.
  - intros [[?|?] ?]; done.
  - intros Hx. split; [auto|]. by intros ->.
Qed.

Section TwoLevels.
Context `{Format}.

(** the walk for a search in a tree of height 2 goes through the parent
    item that find_pos() gives and returns the child behind it, locked; if
    there is no such item it gives -EIO *)
Lemma btree_walk_two_levels (sbi : scoutfs_sb_info)
    (par : scoutfs_btree_block) (key val_len seq op p cmp : Z) :
  two_levels sbi par →
  op ≠ WALK_INSERT → op ≠ WALK_DELETE → op ≠ WALK_DIRTY →
  op ≠ WALK_NEXT_SEQ →
  find_pos par key = Some (p, cmp) →
  (p < nr_items par → is_Some (blocks sbi !! child_blkno par p)) →
  (p < nr_items par → child_blkno par p ≠ root_blkno sbi) →
  btree_walk key None val_len seq op sbi =
    Some (if nr_items par <=? p
          then ((ERR_PTR (- EIO), None), sbi)
          else ((BH (child_blkno par p), None),
                set_locked ({[child_blkno par p]} ∪ locked sbi) sbi)).
Proof.
  intros (Hh & Hb & Hlk & Hw) Hins Hdel Hdirty Hseq Hfind Hchild Hne.
  assert ((op =? WALK_INSERT) = false) as Hinsb by (by apply Z.eqb_neq).
  assert ((op =? WALK_DELETE) = false) as Hdelb by (by apply Z.eqb_neq).
  assert ((op =? WALK_DIRTY) = false) as Hdirtyb by (by apply Z.eqb_neq).
  assert ((op =? WALK_NEXT_SEQ) = false) as Hseqb by (by apply Z.eqb_neq).
  assert (find_pos_after_seq par key 1 seq op = Some p) as Hafter.
  { unfold find_pos_after_seq. rewrite Hfind.
    by rewrite skip_pos_seq_other. }
  unfold btree_walk. rewrite Hinsb, Hdelb, Hdirtyb, Hseqb. cbn [orb andb].
  unfold lock_block at 1, lock_root. msteps.
  cbn [btree_root set_btree_rwsem]. rewrite Hh.
  change (2 =? 0) with false. cbv iota.
  change (Z.to_nat (2 - 1)) with 1%nat.
  cbn [walk_loop]. rewrite Hinsb.
  unfold get_block_ref, scoutfs_block_read_ref.
  assert (∀ s, blocks s = blocks sbi → bh_data s (root_blkno sbi) = par)
    as Hpar.
  { intros s Hs. unfold bh_data. by rewrite Hs, Hb. }
  msteps. cbn [load_ref blocks set_btree_rwsem btree_root].
  fold (root_blkno sbi). rewrite Hb. msteps.
  unfold lock_block, unlock_block, unlock_root. msteps.
  rewrite Hpar by done. change (Z.of_nat 1) with 1.
  rewrite Hafter. msteps.
  destruct (Z.leb_spec (nr_items par) p) as [Hge|Hlt].
  - (* no parent item for the key *)
    msteps. rewrite Hseqb.
    match goal with
    | |- ?m ?s = Some (?a, ?s') => assert (s = s') as ->; [|reflexivity]
    end.
    apply sbi_ext; try done.
    all: cbn [btree_rwsem set_btree_rwsem set_locked locked].
    + apply (rwsem_restored _ false Hw).
    + by apply locked_parent_only.
  - (* down to the child *)
    destruct (Hchild Hlt) as [child Hc]. specialize (Hne Hlt).
    rewrite Hdelb. msteps. cbn [load_ref].
    rewrite Hpar by done.
    fold (pos_item par p). fold (child_blkno par p).
    cbn [blocks set_btree_rwsem set_locked]. rewrite Hc. msteps.
    match goal with
    | |- ?m ?s = Some (?a, ?s') => assert (s = s') as ->; [|reflexivity]
    end.
    apply sbi_ext; try done.
    all: cbn [btree_rwsem set_btree_rwsem set_locked locked].
    + apply (rwsem_restored _ false Hw).
    + by apply locked_through_parent.
Qed.

(** scoutfs_btree_lookup() by what find_pos() says in the parent and in the
    child *)
Lemma lookup_two_levels_run (sbi : scoutfs_sb_info)
    (par child : scoutfs_btree_block) (key p cmp pos cmp' : Z)
    (curs : scoutfs_btree_cursor) :
  two_levels sbi par → curs_bh curs = None →
  find_pos par key = Some (p, cmp) → p < nr_items par →
  blocks sbi !! child_blkno par p = Some child →
  child_blkno par p ≠ root_blkno sbi →
  (child_blkno par p ∉ locked sbi) →
  find_pos child key = Some (pos, cmp') →
  scoutfs_btree_lookup key curs sbi =
    Some (if cmp' =? 0
          then ((0, cursor_at (child_blkno par p) child pos false),
                set_locked ({[child_blkno par p]} ∪ locked sbi) sbi)
          else ((- ENOENT, curs), sbi)).
Proof.
  intros Htwo Hcurs Hfind Hp Hchild Hne Hlk Hfind'.
  pose proof (btree_walk_two_levels sbi par key 0 0 0 p cmp Htwo
                ltac:(done) ltac:(done) ltac:(done) ltac:(done) Hfind
                ltac:(by intros _; eexists) ltac:(done)) as Hwalk.
  revert Hwalk. destruct (Z.leb_spec (nr_items par) p); [lia|].
  intros Hwalk. unfold scoutfs_btree_lookup. rewrite Hcurs.
  rewrite (bind_eq _ _ _ _ _ Hwalk). cbv beta iota. mstep.
  assert (bh_data (set_locked ({[child_blkno par p]} ∪ locked sbi) sbi)
            (child_blkno par p) = child) as ->.
  { unfold bh_data. cbn [blocks set_locked]. by rewrite Hchild. }
  rewrite Hfind'. mstep. destruct (cmp' =? 0).
  - unfold set_cursor. msteps.
    assert (bh_data (set_locked ({[child_blkno par p]} ∪ locked sbi) sbi)
              (child_blkno par p) = child) as ->; [|done].
    unfold bh_data. cbn [blocks set_locked]. by rewrite Hchild.
  - unfold unlock_block. msteps.
    match goal with
    | |- ?m ?s = Some (?a, ?s') => assert (s = s') as ->; [|reflexivity]
    end.
    apply sbi_ext; try done. cbn [locked set_locked].
    by apply locked_parent_only.
Qed.

(** X19: scoutfs_btree_lookup() in a tree of height 2 whose parent block
    has its offset array ordered by key.  The search goes to the child
    behind the first parent item whose key is not below the search key, and
    only there: for a key of that child it returns 0 with the cursor on the
    item and the child locked, for any other key -ENOENT with the state as
    it was, whatever the other children hold.  When every parent item has a
    key below the search key it returns -EIO, again with the state as it
    was.  The lock of the parent is always given back. *)
Theorem scoutfs_btree_lookup_two_levels (sbi : scoutfs_sb_info)
    (par : scoutfs_btree_block) (key : Z) (curs : scoutfs_btree_cursor) :
  two_levels sbi par → key_sorted par → curs_bh curs = None →
  ((∀ q, 0 ≤ q < nr_items par → item_key (pos_item par q) < key) →
   scoutfs_btree_lookup key curs sbi = Some ((- EIO, curs), sbi)) ∧
  (∀ (p : Z) (child : scoutfs_btree_block),
     0 ≤ p < nr_items par → key ≤ item_key (pos_item par p) →
     (∀ q, 0 ≤ q < p → item_key (pos_item par q) < key) →
     blocks sbi !! child_blkno par p = Some child →
     child_blkno par p ≠ root_blkno sbi →
     (child_blkno par p ∉ locked sbi) →
     key_sorted child →
     (key ∈ block_keys child →
      ∃ pos,
        0 ≤ pos < nr_items child ∧ item_key (pos_item child pos) = key ∧
        scoutfs_btree_lookup key curs sbi =
          Some ((0, cursor_at (child_blkno par p) child pos false),
                set_locked ({[child_blkno par p]} ∪ locked sbi) sbi)) ∧
     ((key ∉ block_keys child) →
      scoutfs_btree_lookup key curs sbi = Some ((- ENOENT, curs), sbi))).
Proof.
  intros Htwo Hks Hcurs.
  destruct (find_pos_sorted par key Hks)
    as (p0 & cmp & Hfind & Hp0 & Hlo & Hcase).
  split.
  - (* no parent item covers the key *)
    intros Hall.
    assert (nr_items par ≤ p0) as Hend.
    { destruct (Z.le_gt_cases (nr_items par) p0) as [|Hlt]; [done|].
      specialize (Hall p0 ltac:(lia)).
      destruct Hcase as [(_ & _ & Hkey)|[_ Hhi]]; [lia|].
      specialize (Hhi p0 ltac:(lia)). lia. }
    pose proof (btree_walk_two_levels sbi par key 0 0 0 p0 cmp Htwo
                  ltac:(done) ltac:(done) ltac:(done) ltac:(done) Hfind
                  ltac:(lia) ltac:(lia)) as Hwalk.
    revert Hwalk. destruct (Z.leb_spec (nr_items par) p0); [|lia].
    intros Hwalk. unfold scoutfs_btree_lookup. rewrite Hcurs.
    by rewrite (bind_eq _ _ _ _ _ Hwalk).
  - intros p child Hp Hkey Hbelow Hchild Hne Hlk Hksc.
    assert (p0 = p) as ->.
    { assert (p0 ≤ p) as Hle.
      { destruct (Z.le_gt_cases p0 p) as [|Hgt]; [done|].
        specialize (Hlo p ltac:(lia)). lia. }
      destruct (decide (p0 = p)) as [|Hne']; [done|].
      specialize (Hbelow p0 ltac:(lia)).
      destruct Hcase as [(_ & _ & Hkey0)|[_ Hhi]]; [lia|].
      specialize (Hhi p0 ltac:(lia)). lia. }
    destruct (find_pos_present child key Hksc)
      as (pos & cmp' & Hfind' & Hpos & Hcase').
    rewrite (lookup_two_levels_run sbi par child key p cmp pos cmp' curs
               Htwo Hcurs Hfind ltac:(lia) Hchild Hne Hlk Hfind').
    split.
    + intros Hin. destruct Hcase' as [(-> & Hlt & Hkey' & _)|[_ ?]]; [|done].
      exists pos. split; [lia|]. split; done.
    + intros Hnotin.
      destruct Hcase' as [(_ & _ & _ & ?)|[Hcmp _]]; [done|].
      destruct (Z.eqb_spec cmp' 0); [lia|done].
Qed.

End TwoLevels.

(** the two leaves of [example_sbi_two] *)
Lemma example_two_levels : two_levels example_sbi_two example_parent.
Proof.
  split; [reflexivity|]. split; [|split; [|reflexivity]].
  - vm_compute. reflexivity.
  - simpl. apply not_elem_of_empty.
Qed.

Lemma example_keys_leaf_11 : block_keys (example_block 11 [5] 1) = [5].
Proof. vm_compute. reflexivity. Qed.

Section TwoLevelsExample.
#[local] Existing Instance example_format.

Lemma scoutfs_btree_lookup_two_levels_witness :
  ∃ pos,
    scoutfs_btree_lookup 5 empty_cursor example_sbi_two =
      Some ((0, cursor_at (child_blkno example_parent 1)
                  (example_block 11 [5] 1) pos false),
            set_locked
              ({[child_blkno example_parent 1]} ∪ locked example_sbi_two)
              example_sbi_two).
Proof.
  destruct (scoutfs_btree_lookup_two_levels example_sbi_two example_parent 5
              empty_cursor) as [_ Hdown].
  - apply example_two_levels.
  - apply key_sortedb_sound. vm_compute. reflexivity.
  - reflexivity.
  - destruct (Hdown 1 (example_block 11 [5] 1)) as [Hfound _].
    + vm_compute. split; [discriminate|reflexivity].
    + vm_compute. discriminate.
    + intros q Hq. assert (q = 0) as -> by lia. vm_compute. reflexivity.
    + vm_compute. reflexivity.
    + vm_compute. discriminate.
    + simpl. apply not_elem_of_empty.
    + apply key_sortedb_sound. vm_compute. reflexivity.
    + destruct Hfound as (pos & _ & _ & Hlookup).
      * rewrite example_keys_leaf_11. apply list_elem_of_here.
      * exists pos. exact Hlookup.
Defined.

End TwoLevelsExample.
